(* ===== verification/_CoqProject ===== *)
-Q . S2P
Prelude.v
NetAddr.v
Hostname.v
Packet.v
Config.v
Text.v
Errors.v
Utf8.v
Firewall.v
Logging.v
LeaseTable.v
Dhcp.v
DhcpServer.v
DhcpClient.v
Watchdog.v
Supervisor.v
Sntp.v
Kmod.v
RateLimiter.v
Dns.v
DnsForwarder.v
DnsManager.v
Observability.v
Status.v
LogStream.v
Dashboard.v
PageServer.v
Interface.v
Lan.v
Sandbox.v
Sockets.v
System.v
Output.v
Storage.v
Power.v
Boot.v
Names.v
Upstream.v
