(* ===== verification/Prelude.v ===== *)
(** * trimrouter: a verification development

    trimrouter is the init process and the only program of a small router.  As
    process 1 ([src/src/init/]) it mounts file systems, creates the partition
    for the logs, loads kernel modules, reads the kernel log, installs the
    firewall, feeds the hardware watchdog, waits for processes that end and
    turns the power off.  It reads a configuration ([src/src/config.rs]) and
    runs the network services ([src/src/services/]).  The same program is run
    again, in another mode ([src/src/modes/], [src/src/cli.rs]), as a worker or
    as modprobe.  The services that parse packets of strangers are
    split in two: an unprivileged worker process that decides, and a parent
    that owns sockets and interfaces and checks what the worker asks for; the
    two exchange messages ([src/src/services/ipc.rs]).  The WAN lease obtained
    by the DHCP client drives the others: the LAN manager moves the LAN when
    its subnet collides with the WAN's, the DNS forwarder and the SNTP client
    take their servers from it, and the firewall follows the LAN.

    ** Conventions

    Pure functions are functions.  Code that can panic is in [Outcome], code
    that returns an error in [Result], and code that changes shared state and
    has effects in [Act], a state and output monad, or in [Try], which is [Act]
    of a [Result] (all in this file); [act_wp] is the weakest precondition of
    such code, on its result, its last state and its output.  A loop
    that waits for events is a function of the list of events, in the order in
    which they happen, with the clock and what the system answered beside each
    event; theorems hold for every list.  Code that runs in several threads or
    tasks is a state machine with one step per access to shared state, and a
    run is any interleaving.  Rust strings are lists of code points, addresses
    and machine integers are [Z] with wrapping or saturation written out, times
    are nanoseconds, and hash maps are [gmap], with [HashOrder] for the order
    of iteration where it shows.

    Crates are type classes: the operations the source calls and, in a class
    of laws, what their documentation promises.  They are [Ipv4NetOps] (ipnet),
    [Pnet] (pnet), [Hickory] (hickory-proto), [NtpLib] (sntpc and chrono),
    [Rustables] and [Netfilter] (rustables and the kernel's evaluation of its
    rules), [Netlink] (rtnetlink and the kernel), [Chrono] (chrono), [Clap]
    (clap), [Postcard] (postcard), [AxumServe] (axum), [ConcurrencyLimit]
    (tower), [FormUrlencoded] (form_urlencoded).  The kernel is [Linux] for a
    worker that gives up its privileges and [Machine] for process 1 (file
    systems, disks, processes, clock), with [ZombieLaws] for what [waitpid]
    promises about ended children; [Binary64] is the rounding of [f64], [Limiter] what the
    forwarder needs of the rate limiter, and [JsText] what the page's script
    needs of the browser's Unicode tables.  The examples at the end of the
    files give concrete instances, at which the theorems are applied.

    ** Files

    - [Prelude] (this file): monads, machine integers, strings, hash order, and
      lemmas that the components share.  [Text]: further string methods.
      [Utf8]: the encoding of strings as bytes.  [Errors]: [error.rs].
    - [NetAddr], [Hostname]: addresses, masks, subnets and host names of
      [services/utils.rs].  [Packet]: [packet.rs] and [parse_dhcp_payload].
    - [Config]: [config.rs], from TOML sections to [RouterConfig].
    - [Firewall]: [init/firewall.rs]; the rules sent, the table the kernel has,
      and what it does to packets.
    - [Logging]: [logging.rs] and [init/kmsg.rs]; ring buffer, log files and
      their rotation, kernel records.
    - [LeaseTable]: [services/dhcp_server/lease_table.rs], table, actor and
      handle.  [Dhcp]: the messages of dhcproto that client and server share.
    - [DhcpServer]: [services/dhcp_server/worker.rs] and [manager.rs].
    - [DhcpClient]: [services/dhcp_client/worker.rs] and [manager.rs].
    - [Watchdog]: [init/watchdog.rs].  [Supervisor]: [services/supervisor.rs].
    - [Sntp]: [services/sntp_client/worker.rs] and [manager.rs].
    - [Kmod]: [init/kmod.rs], alias matching, dependencies, loading, the walk
      over the device tree; [modes/modprobe.rs].
    - [RateLimiter], [Dns], [DnsForwarder], [DnsManager]: the rate limiter, the
      messages, the worker and the parent of [services/dns_forwarder/].
    - [Observability]: [services/observability/], host check, routes, log
      streams, memory, storage and interfaces of the status page.  [Status]:
      the rest of [status.rs], with its [f64], and the assembled response.
      [PageServer]: the life of the server, its connections and its stop.
      [LogStream]: what the clients of the log stream get.  [Dashboard]: of the
      script in [html.rs], the tables and the log.
    - [Interface]: [interface.rs] and [network.rs], the monitor that names the
      devices and runs their services, and the requests to the kernel.
    - [Lan]: [services/lan/manager.rs], the runner and its loop, over the
      requests of [Interface] and [configure_firewall] of [Firewall].  The
      other services take the outcomes of requests to the kernel as inputs.
    - [Sandbox]: [cli.rs], [modes/], the set-up and spawning of workers in the
      managers and in [services/supervisor.rs], and [drop_privileges] of
      [services/utils.rs]; a process is its threads, directories, ids,
      capabilities and descriptors.
    - [Sockets]: the endpoints of [services/ipc.rs] and the raw packet sockets
      of [services/utils.rs].
    - [System], [Storage], [Power]: [init/system.rs], [init/storage.rs],
      [init/power.rs] and [init/reaper.rs], over [Machine]; every action on the
      machine is an output ([SysEvent]).
    - [Output]: [stream_to_logger] of [services/supervisor.rs], the way of a
      worker's output into the log of process 1, and what a panic there does.
    - [Boot]: [init/mod.rs] and [configure_network_init] of [network.rs]; the
      boot of process 1, composed of [Storage], [Power], [Kmod], [Config],
      [Firewall], [Interface] and the panic hook of [System].
    - [Names], [Upstream]: the services connected.  [Names] follows a host name
      from the configuration and the DHCP server to the answers of the DNS
      forwarder, [Upstream] the provider's resolvers from the DHCP client to the
      queries of the forwarder.

    ** What the theorems show

    - Validation: an accepted configuration is coherent
      ([RouterConfig_parse_valid]) and stays so when the LAN moves
      ([remap_valid_config]).
    - Invariants of reachable states: one live holder per address but for the
      two commands that do not look ([lease_actor_invariant]), one subnet for
      all parts that the LAN manager has, and what a failed call leaves of the
      rest ([Lan.run_invariant]), at most one worker process ([no_orphan_worker]),
      limits on log streams ([sse_streams_bounded]), services that run
      exactly while their interface is present ([interface_lifecycle]).
    - Boot: the router comes up with its firewall or restarts without having
      started a service ([boot_complete_or_reboot]); only the log partition of
      the boot disk is created or formatted ([boot_keeps_disk],
      [log_partition_layout]); a panic ends in a restart ([panic_reboots]), a
      key or signal in a clean power-off ([power_off_is_clean]), and ended
      processes are waited for ([reaper_leaves_no_zombies]).
    - Safety against arbitrary input: the forwarder never panics and stays in
      its limits ([forwarder_safe]); the parents confine what a compromised
      worker can do ([parent_confines_worker], [client_parent_confines],
      [sntp_manager_safe]); the firewall admits and redirects exactly what it
      should ([firewall_policy]); a worker's code runs only jailed and without
      privileges, and which system calls it has ([worker_isolated]); only requests that name the router are
      answered ([only_router_names_served]); nothing from the network becomes
      markup of the page ([dashboard_inert]); kernel records cannot forge
      entries ([run_kmsg_reader_spec]); a worker's output becomes entries of the
      log or restarts the machine ([output_task_spec]).
    - Refinement and composition: what the parents publish is what the workers
      hold ([wan_lease_follows_client], [dns_worker_follows_parent]); names of
      the LAN and the provider's resolvers arrive where they are used
      ([lan_names_resolve], [upstream_follows_lease]); the channel
      between them is a queue ([ipc_is_queue]); the page shows the counters of
      the worker ([status_response_consistent]).
    - Functional behaviour on every branch of the allocator, the cache, the
      replies, the LAN's move, the log's rotation and its streams
      ([log_stream_faithful]), and the errors of [configure_firewall].
    - Round trips: packets, the DHCP exchange between the modelled client and
      server, the time from server to clock, UTF-8 ([utf8_roundtrip]), a worker's
      log lines on their way through process 1 ([worker_log_relayed]).
    - Bounds, termination and progress: [rate_bound], [lease_not_outlived],
      [wildcard_match_spec], [task_terminates], [stop_completes],
      [unanswered_query_ends], [watchdog_feeding], [status_page_stop].

    Some theorems named in the example modules show behaviour that departs
    from a comment or a specification of the repository, such as
    [failed_update_opens_router] and [discover_can_double_lease], or that the
    parts have together: [router_name_taken], [names_removed],
    [open_stream_starves_watchdog], [worker_line_adds_attribute].

    ** Bounds and fuel

    The alias matcher has fuel [wildcard_fuel], which exceeds the measure of
    its loop; [wildcard_match_spec] includes that it suffices.  Loops that wait
    in process 1 are bounded by their own time-outs: [grace_fuel] (2 seconds in
    steps of 50 ms) and [wait_fuel] (15 seconds in steps of 100 ms) exceed the
    turns a clock that advances by each sleep allows, and the reaping loops
    take one more turn than there are processes; [panic_reboots],
    [boot_complete_or_reboot] and [reaper_leaves_no_zombies] include that the
    loops come to their end.  The depth of [resolve_deps_recursive_internal]
    is the source's own limit of 64.  The stream of a log client takes two
    rounds per read, and [poll_next_spec] says that they are enough.  Every other
    recursion is structural, on data or on the list of events.  The draws of transaction ids are a list of
    random numbers; a list that ends before a free id means that the loop has not
    ended, and [allocate_unique_xid_spec] says that a free id exists and that
    drawing it ends the loop.

    ** Not modelled

    - Wire formats and protocols of crates: TOML, DHCP (dhcproto), DNS names
      and messages, NTP, postcard, HTTP and JSON.  They are parameters.
    - The texts of most errors, log lines and panics; errors are constructors,
      and log lines are left out where nothing depends on them.
    - The compilation of BPF programs by crates (a filter is the port, or the
      set of system calls, that it admits), and the scheduling of the async
      runtime beyond the interleavings written out.
    - Constructors and setters of services that only store their arguments,
      the jitter of the DHCP client's time-outs (the time at which a turn ends
      is arbitrary), the syncing of the log file ([flush]) and the level
      filter of the log crate ([init_early_logging]), and of the status page's
      constant text ([html.rs]) the layout, the charts and the formatting of
      numbers in floating point.
    - The integration test program ([bin/integration_test/], [tests/]), which
      drives virtual machines, and the build script. *)

From Stdlib Require Import ZArith Lia.
From stdpp Require Import base gmap sets list strings fin_maps numbers.

#[global] Set Default Goal Selector "!".
#[local] Open Scope Z_scope.

(** ** Rust results and panics

    [Result] is Rust's [Result<A, E>]; [Outcome] is the outcome of running a
    piece of Rust code that may panic (an out-of-range index, an [expect] on
    [None]). *)

Inductive Result (E A : Type) : Type :=
| Ok (a : A)
| Err (e : E).
Arguments Ok {E A} a.
Arguments Err {E A} e.

Inductive Outcome (A : Type) : Type :=
| Returned (a : A)
| Panicked.
Arguments Returned {A} a.
Arguments Panicked {A}.

#[global] Instance result_ret E : MRet (Result E) := λ A a, Ok a.
#[global] Instance result_bind E : MBind (Result E) := λ A B f r,
  match r with Ok a => f a | Err e => Err e end.
#[global] Instance outcome_ret : MRet Outcome := λ A a, Returned a.
#[global] Instance outcome_bind : MBind Outcome := λ A B f r,
  match r with Returned a => f a | Panicked => Panicked end.

Declare Scope router_scope.
Delimit Scope router_scope with router.

(** Rust's [?] operator on a [Result], and sequencing of code that may
    panic. *)
Notation "'let?' x ':=' e 'in' k" := (mbind (M := Result _) (λ x, k) e)
  (at level 10, x name, e at level 100, k at level 200) : router_scope.
Notation "'let!' x ':=' e 'in' k" := (mbind (M := Outcome) (λ x, k) e)
  (at level 10, x name, e at level 100, k at level 200) : router_scope.
#[global] Open Scope router_scope.

(** [opt.ok_or(e)] and [res.ok()]. *)
Definition ok_or {E A} (e : E) (o : option A) : Result E A :=
  match o with Some a => Ok a | None => Err e end.
Definition ok {E A} (r : Result E A) : option A :=
  match r with Ok a => Some a | Err _ => None end.

Lemma bind_Ok {E A B} (r : Result E A) (f : A → Result E B) b :
  r ≫= f = Ok b ↔ ∃ a, r = Ok a ∧ f a = Ok b.
Proof. destruct r; naive_solver. Qed.

Lemma bind_Returned {A B} (r : Outcome A) (f : A → Outcome B) b :
  r ≫= f = Returned b ↔ ∃ a, r = Returned a ∧ f a = Returned b.
Proof. destruct r; naive_solver. Qed.

Lemma ok_or_Ok {E A} (e : E) (o : option A) a :
  ok_or e o = Ok a ↔ o = Some a.
Proof. destruct o; simpl; split; congruence. Qed.

(** [if b { return Err(e) }] in the middle of a function returning a
    [Result]. *)
Definition ensure {E} (b : bool) (e : E) : Result E unit :=
  if b then Ok tt else Err e.

Lemma ensure_Ok {E} b (e : E) u : ensure b e = Ok u ↔ b = true.
Proof. destruct b, u; simpl; split; congruence. Qed.

(** Invert a chain of [?]s that ended in [Ok]. *)
Ltac inv_ok :=
  repeat match goal with
  | H : mbind _ _ = Ok _ |- _ => apply bind_Ok in H as (? & ? & H)
  | H : ensure _ _ = Ok _ |- _ => apply ensure_Ok in H
  | H : ok_or _ _ = Ok _ |- _ => apply ok_or_Ok in H
  | H : Ok _ = Ok _ |- _ => injection H as H
  | H : Err _ = Ok _ |- _ => discriminate H
  | H : bool_decide _ = true |- _ => apply bool_decide_eq_true in H
  | x : prod _ _ |- _ => destruct x
  | x : unit |- _ => destruct x
  end.

(** [r.is_err()] as an inversion: an error of the first step is the error of
    the whole. *)
Lemma bind_Err {E A B} (r : Result E A) (f : A → Result E B) e :
  r ≫= f = Err e ↔ r = Err e ∨ ∃ a, r = Ok a ∧ f a = Err e.
Proof.
  destruct r; simpl; split.
  - intros H. right. eauto.
  - intros [H | (a' & H & H')]; congruence.
  - intros [= ->]. by left.
  - intros [H | (a' & H & H')]; congruence.
Qed.

(** ** Machine integers

    A [w]-bit unsigned integer is a [Z] in range; the operations that wrap,
    saturate or check for overflow are written out. *)

Definition is_u (w : Z) (z : Z) : Prop := 0 ≤ z < 2 ^ w.
Abbreviation is_u8 := (is_u 8).
Abbreviation is_u16 := (is_u 16).
Abbreviation is_u32 := (is_u 32).
Abbreviation is_u64 := (is_u 64).

#[global] Instance is_u_dec w z : Decision (is_u w z).
Proof. unfold is_u. apply _. Defined.

Definition u16_max : Z := 65535.
Definition u32_max : Z := 4294967295.
Definition u64_max : Z := 18446744073709551615.

Definition u32_checked_sub (a b : Z) : option Z :=
  if decide (b ≤ a) then Some (a - b) else None.
Definition u32_checked_add (a b : Z) : option Z :=
  if decide (a + b ≤ u32_max) then Some (a + b) else None.
Definition u32_saturating_sub (a b : Z) : Z := Z.max 0 (a - b).
Definition u32_saturating_add (a b : Z) : Z := Z.min u32_max (a + b).
Definition u64_saturating_add (a b : Z) : Z := Z.min u64_max (a + b).
Definition clamp (lo hi x : Z) : Z := Z.max lo (Z.min hi x).

Lemma u32_checked_sub_Some a b c :
  u32_checked_sub a b = Some c ↔ b ≤ a ∧ c = a - b.
Proof. unfold u32_checked_sub. case_decide; naive_solver. Qed.
Lemma u32_checked_add_Some a b c :
  u32_checked_add a b = Some c ↔ a + b ≤ u32_max ∧ c = a + b.
Proof. unfold u32_checked_add. case_decide; naive_solver. Qed.

Lemma clamp_bounds lo hi x : lo ≤ hi → lo ≤ clamp lo hi x ≤ hi.
Proof. unfold clamp. lia. Qed.

(** [u16::to_be_bytes] and [u16::from_be_bytes]. *)
Definition u16_to_be_bytes (x : Z) : Z * Z := (Z.shiftr x 8, Z.land x 255).
Definition u16_from_be_bytes (b0 b1 : Z) : Z := Z.lor (Z.shiftl b0 8) b1.

Lemma u16_be_bytes_id x :
  u16_from_be_bytes (u16_to_be_bytes x).1 (u16_to_be_bytes x).2 = x.
Proof.
  unfold u16_from_be_bytes, u16_to_be_bytes; simpl.
  replace 255 with (Z.ones 8) by reflexivity.
  apply Z.bits_inj'. intros n Hn.
  rewrite Z.lor_spec, Z.land_spec, Z.testbit_ones by lia.
  rewrite Z.shiftl_spec by lia.
  destruct (decide (n < 8)) as [Hlt | Hge].
  - rewrite (Z.testbit_neg_r _ (n - 8)) by lia. simpl.
    replace ((0 <=? n) && (n <? 8)) with true by lia. apply andb_true_r.
  - rewrite Z.shiftr_spec by lia.
    replace ((0 <=? n) && (n <? 8)) with false by lia.
    rewrite andb_false_r, orb_false_r. f_equal. lia.
Qed.

(** ** Indexing that panics out of range *)

Definition index {A} (l : list A) (i : nat) : Outcome A :=
  match l !! i with Some a => Returned a | None => Panicked end.
Definition index_set {A} (l : list A) (i : nat) (a : A) : Outcome (list A) :=
  if decide (i < length l)%nat then Returned (<[i:=a]> l) else Panicked.

Lemma index_Returned {A} (l : list A) i a :
  index l i = Returned a ↔ l !! i = Some a.
Proof. unfold index. destruct (l !! i); naive_solver. Qed.

Lemma index_set_Returned {A} (l : list A) i a :
  (i < length l)%nat → index_set l i a = Returned (<[i:=a]> l).
Proof. intros H. unfold index_set. by rewrite decide_True. Qed.

Lemma index_in_range {A} (l : list A) i :
  (i < length l)%nat → ∃ a, l !! i = Some a ∧ index l i = Returned a.
Proof.
  intros [a Ha]%lookup_lt_is_Some_2. exists a.
  split; [done |]. by apply index_Returned.
Qed.

(** ** Time

    [Instant] and [Duration] are counts of nanoseconds; the clock is read
    once per operation and passed in as [now]. *)

Abbreviation Instant := Z (only parsing).
Abbreviation Duration := Z (only parsing).

Definition NANOS : Z := 1000000000.
Definition from_secs (s : Z) : Duration := s * NANOS.
Definition from_millis (ms : Z) : Duration := ms * 1000000.
Definition as_secs (d : Duration) : Z := d / NANOS.
Definition duration_since (now earlier : Instant) : Duration :=
  Z.max 0 (now - earlier).

Lemma as_secs_nonneg d : 0 ≤ d → 0 ≤ as_secs d.
Proof. intros H. apply Z.div_pos; [done | unfold NANOS; lia]. Qed.

Lemma as_secs_from_secs s : as_secs (from_secs s) = s.
Proof. unfold as_secs, from_secs. apply Z.div_mul. unfold NANOS; lia. Qed.

(** ** Strings

    A Rust [str] is a list of Unicode scalar values; [str_len] is its length
    in UTF-8 bytes, which is what [str::len] returns. *)

Abbreviation char := Z (only parsing).
Abbreviation str := (list Z) (only parsing).

Definition lit (s : string) : str :=
  map (λ c, Z.of_nat (Ascii.nat_of_ascii c)) (String.list_ascii_of_string s).
Arguments lit s%_string.

Definition char_len (c : char) : Z :=
  if decide (c < 128) then 1 else if decide (c < 2048) then 2
  else if decide (c < 65536) then 3 else 4.
Definition str_len (s : str) : Z := foldr (λ c n, char_len c + n) 0 s.

(** [char::is_whitespace]: the Unicode White_Space property. *)
Definition is_whitespace (c : char) : bool :=
  bool_decide (9 ≤ c ≤ 13) || bool_decide (c = 32) || bool_decide (c = 133)
  || bool_decide (c = 160) || bool_decide (c = 5760)
  || bool_decide (8192 ≤ c ≤ 8202) || bool_decide (c = 8232)
  || bool_decide (c = 8233) || bool_decide (c = 8239)
  || bool_decide (c = 8287) || bool_decide (c = 12288).

Definition is_ascii_digit (c : char) : bool := bool_decide (48 ≤ c ≤ 57).
Definition is_ascii_uppercase (c : char) : bool := bool_decide (65 ≤ c ≤ 90).
Definition is_ascii_lowercase (c : char) : bool := bool_decide (97 ≤ c ≤ 122).
Definition is_ascii_alphanumeric (c : char) : bool :=
  is_ascii_digit c || is_ascii_uppercase c || is_ascii_lowercase c.
Definition char_to_ascii_lowercase (c : char) : char :=
  if is_ascii_uppercase c then c + 32 else c.
Definition to_ascii_lowercase (s : str) : str := map char_to_ascii_lowercase s.

Fixpoint drop_while {A} (f : A → bool) (l : list A) : list A :=
  match l with
  | [] => []
  | x :: l' => if f x then drop_while f l' else l
  end.
Definition trim_start (s : str) : str := drop_while is_whitespace s.
Definition trim_end (s : str) : str := reverse (drop_while is_whitespace (reverse s)).
Definition trim (s : str) : str := trim_end (trim_start s).
(** [s.trim_end_matches(c)]. *)
Definition trim_end_matches (c : char) (s : str) : str :=
  reverse (drop_while (λ x, bool_decide (x = c)) (reverse s)).

(** [s.split(c).next()]: the part of [s] before the first [c]. *)
Fixpoint take_until (c : char) (s : str) : str :=
  match s with
  | [] => []
  | x :: s' => if decide (x = c) then [] else x :: take_until c s'
  end.
Fixpoint strip_prefix (p s : str) : option str :=
  match p, s with
  | [], _ => Some s
  | x :: p', y :: s' => if decide (x = y) then strip_prefix p' s' else None
  | _ :: _, [] => None
  end.
Definition strip_suffix (p s : str) : option str :=
  reverse <$> strip_prefix (reverse p) (reverse s).
Definition contains_char (c : char) (s : str) : bool := bool_decide (c ∈ s).

Lemma drop_while_none {A} (f : A → bool) l :
  Forall (λ x, f x = false) l → drop_while f l = l.
Proof. destruct 1 as [|x l Hx]; simpl; [done |]. by rewrite Hx. Qed.

Lemma strip_prefix_Some p s r : strip_prefix p s = Some r ↔ s = p ++ r.
Proof.
  revert s. induction p as [|x p IH]; intros s; simpl.
  - split; [intros [= ->] | intros ->]; done.
  - destruct s as [|y s]; [split; [done | discriminate] |].
    case_decide as Hxy; [subst | split; [done | congruence]].
    rewrite IH. split; [intros ->; done | intros [= ->]; done].
Qed.

Lemma strip_suffix_Some p s r : strip_suffix p s = Some r ↔ s = r ++ p.
Proof.
  unfold strip_suffix. rewrite fmap_Some. split.
  - intros (q & Hq & ->). apply strip_prefix_Some in Hq.
    rewrite <-(reverse_involutive s), Hq, reverse_app, reverse_involutive. done.
  - intros ->. exists (reverse r). rewrite strip_prefix_Some, reverse_app.
    by rewrite reverse_involutive.
Qed.

(** ** [HashMap] iteration

    The order in which [HashMap::iter] visits the entries is unspecified.
    Code whose result depends on it takes the order as an argument: any
    enumeration of the entries. *)

Class HashOrder := {
  hash_iter {K V} `{Countable K} : gmap K V → list (K * V);
  hash_iter_perm {K V} `{Countable K} (m : gmap K V) :
    hash_iter m ≡ₚ map_to_list m;
}.

Section hash_iter.
Context `{!HashOrder} {K V : Type} `{Countable K}.
Implicit Types m : gmap K V.

Lemma elem_of_hash_iter m k v : (k, v) ∈ hash_iter m ↔ m !! k = Some v.
Proof. rewrite hash_iter_perm. apply elem_of_map_to_list. Qed.

Lemma hash_iter_NoDup_fst m : NoDup ((hash_iter m).*1).
Proof. rewrite hash_iter_perm. apply NoDup_fst_map_to_list. Qed.
End hash_iter.

(** Two concrete orders, for evaluating the definitions. *)
Program Definition forward_order : HashOrder :=
  {| hash_iter K V _ _ m := map_to_list m |}.
Next Obligation. done. Qed.
Program Definition backward_order : HashOrder :=
  {| hash_iter K V _ _ m := reverse (map_to_list m) |}.
Next Obligation. intros. apply reverse_Permutation. Qed.

(** [iter().find(p)] *)
Definition iter_find {A} (p : A → bool) (l : list A) : option A :=
  snd <$> list_find p l.

(** [retain]: keep the entries a predicate accepts. *)
Definition retain {K V} `{Countable K} (p : K → V → bool) (m : gmap K V) : gmap K V :=
  filter (λ kv, p kv.1 kv.2 = true) m.

Lemma retain_lookup {K V} `{Countable K} (p : K → V → bool) (m : gmap K V) k v :
  retain p m !! k = Some v ↔ m !! k = Some v ∧ p k v = true.
Proof. unfold retain. rewrite map_lookup_filter_Some. done. Qed.

(** [iter().any(p)] on a map, whose result does not depend on the order. *)
Definition hash_any {K V} `{Countable K} (p : K → V → bool) (m : gmap K V) : bool :=
  existsb (λ kv, p kv.1 kv.2) (map_to_list m).

Lemma hash_any_true {K V} `{Countable K} (p : K → V → bool) (m : gmap K V) :
  hash_any p m = true ↔ ∃ k v, m !! k = Some v ∧ p k v = true.
Proof.
  unfold hash_any. rewrite existsb_exists. split.
  - intros ([k v] & Hin & Hp). exists k, v. split; [|done].
    by apply elem_of_map_to_list, list_elem_of_In.
  - intros (k & v & Hm & Hp). exists (k, v). split; [|done].
    by apply list_elem_of_In, elem_of_map_to_list.
Qed.

Lemma hash_any_false {K V} `{Countable K} (p : K → V → bool) (m : gmap K V) :
  hash_any p m = false ↔ ∀ k v, m !! k = Some v → p k v = false.
Proof.
  rewrite <-not_true_iff_false, hash_any_true. split.
  - intros Hn k v Hm. destruct (p k v) eqn:E; [|done]. destruct Hn. by exists k, v.
  - intros Hn (k & v & Hm & Hp). rewrite (Hn k v Hm) in Hp. done.
Qed.

(** [iter().find(p)] returns the first element satisfying [p]. *)
Lemma iter_find_Some {A} (p : A → bool) (l : list A) x :
  iter_find p l = Some x ↔
  ∃ i, l !! i = Some x ∧ p x = true ∧
       ∀ j y, (j < i)%nat → l !! j = Some y → p y = false.
Proof.
  unfold iter_find. rewrite fmap_Some. split.
  - intros ([i x'] & Hf & ->). simpl. apply list_find_Some in Hf as (Hi & Hp & Hj).
    exists i. split_and!; [done | by apply Is_true_eq_true |].
    intros j y Hlt Hy. specialize (Hj j y Hy Hlt). by destruct (p y).
  - intros (i & Hi & Hp & Hj). exists (i, x). split; [|done].
    apply list_find_Some. split_and!; [done | by rewrite Hp |].
    intros j y Hy Hlt. rewrite (Hj j y Hlt Hy). by intros [].
Qed.

Lemma iter_find_None {A} (p : A → bool) (l : list A) :
  iter_find p l = None ↔ ∀ x, x ∈ l → p x = false.
Proof.
  unfold iter_find. rewrite fmap_None, list_find_None, list.Forall_forall.
  split; intros H x Hx; specialize (H x Hx); destruct (p x);
    first [done | by intros [] | by destruct H].
Qed.

Lemma iter_find_ext {A} (p q : A → bool) (l : list A) :
  (∀ x, x ∈ l → p x = q x) → iter_find p l = iter_find q l.
Proof.
  intros H. destruct (iter_find q l) as [x|] eqn:Hq.
  - apply iter_find_Some in Hq as (i & Hi & Hx & Hj). apply iter_find_Some.
    exists i. split_and!; [done | |].
    + rewrite H; [done |]. by eapply list_elem_of_lookup_2.
    + intros j y Hlt Hy. rewrite H; [by eapply Hj |]. by eapply list_elem_of_lookup_2.
  - apply iter_find_None. intros x Hx. rewrite H by done. by apply (proj1 (iter_find_None q l)).
Qed.

(** Appending a fresh element to a duplicate-free list. *)
Lemma NoDup_snoc {A} (l : list A) x : NoDup (l ++ [x]) ↔ NoDup l ∧ x ∉ l.
Proof.
  rewrite list.NoDup_app. split.
  - intros (H1 & H2 & _). split; [done |]. intros Hx. apply (H2 x Hx). set_solver.
  - intros [H1 H2]. split_and!; [done | set_solver | apply NoDup_singleton].
Qed.

(** ** Stateful code

    A method that mutates [self] (of type [S]) and performs external actions
    (of type [O]: messages sent, sockets written, services started) is a
    function from the state to its result, the new state and the actions in
    order. *)

Definition Act (S O A : Type) : Type := S → A * S * list O.

#[global] Instance act_ret S O : MRet (Act S O) := λ A a s, (a, s, []).
#[global] Instance act_bind S O : MBind (Act S O) := λ A B f m s,
  let '(a, s1, o1) := m s in
  let '(b, s2, o2) := f a s1 in
  (b, s2, o1 ++ o2).

Notation "'let*' x ':=' e 'in' k" := (mbind (M := Act _ _) (λ x, k) e)
  (at level 10, x name, e at level 100, k at level 200) : router_scope.

Definition act_get {S O} : Act S O S := λ s, (s, s, []).
Definition act_modify {S O} (f : S → S) : Act S O unit := λ s, (tt, f s, []).
Definition act_emit {S O} (o : O) : Act S O unit := λ s, (tt, s, [o]).
Definition act_when {S O} (b : bool) (m : Act S O unit) : Act S O unit :=
  if b then m else mret tt.
Fixpoint act_iter {S O A} (f : A → Act S O unit) (l : list A) : Act S O unit :=
  match l with
  | [] => mret tt
  | a :: l' => f a ;; act_iter f l'
  end.

(** The result, the final state and the actions of a run. *)
Definition act_result {S O A} (m : Act S O A) (s : S) : A := (m s).1.1.
Definition act_state {S O A} (m : Act S O A) (s : S) : S := (m s).1.2.
Definition act_out {S O A} (m : Act S O A) (s : S) : list O := (m s).2.

Lemma act_state_bind {S O A B} (m : Act S O A) (f : A → Act S O B) s :
  act_state (m ≫= f) s = act_state (f (act_result m s)) (act_state m s).
Proof.
  unfold act_state, act_result, mbind, act_bind.
  destruct (m s) as [[a s1] o1]; simpl. by destruct (f a s1) as [[b s2] o2].
Qed.

Lemma act_result_bind {S O A B} (m : Act S O A) (f : A → Act S O B) s :
  act_result (m ≫= f) s = act_result (f (act_result m s)) (act_state m s).
Proof.
  unfold act_state, act_result, mbind, act_bind.
  destruct (m s) as [[a s1] o1]; simpl. by destruct (f a s1) as [[b s2] o2].
Qed.

Lemma act_out_bind {S O A B} (m : Act S O A) (f : A → Act S O B) s :
  act_out (m ≫= f) s = act_out m s ++ act_out (f (act_result m s)) (act_state m s).
Proof.
  unfold act_state, act_result, act_out, mbind, act_bind.
  destruct (m s) as [[a s1] o1]; simpl. by destruct (f a s1) as [[b s2] o2].
Qed.

(** The result, the final state and the actions of a run satisfy [Q]. *)
Definition act_wp {S O A} (m : Act S O A) (Q : A → S → list O → Prop) (s : S) : Prop :=
  Q (act_result m s) (act_state m s) (act_out m s).
Lemma act_wp_bind {S O A B} (m : Act S O A) (f : A → Act S O B) Q s :
  act_wp m (λ a s1 o1, act_wp (f a) (λ b s2 o2, Q b s2 (o1 ++ o2)) s1) s → act_wp (m ≫= f) Q s.
Proof. unfold act_wp. by rewrite act_result_bind, act_state_bind, act_out_bind. Qed.
Lemma act_wp_mono {S O A} (m : Act S O A) (Q Q' : A → S → list O → Prop) s :
  act_wp m Q s → (∀ a s' o, Q a s' o → Q' a s' o) → act_wp m Q' s.
Proof. unfold act_wp. auto. Qed.
Lemma act_wp_ret {S O A} (a : A) (Q : A → S → list O → Prop) s : Q a s [] → act_wp (mret a) Q s.
Proof. done. Qed.
Lemma act_wp_emit {S O} (e : O) (Q : unit → S → list O → Prop) s : Q tt s [e] → act_wp (act_emit e) Q s.
Proof. done. Qed.
Lemma act_wp_eq {S O A} (m : Act S O A) (Q : A → S → list O → Prop) s :
  act_wp m Q s ↔ let '(a, s', o) := m s in Q a s' o.
Proof. unfold act_wp, act_result, act_state, act_out. by destruct (m s) as [[a s'] o]. Qed.
(** With what the run gives. *)
Lemma act_wp_self {S O A} {m : Act S O A} {Q : A → S → list O → Prop} {Q' : A → S → list O → Prop} {s} :
  act_wp m Q s → (∀ a s' o, Q a s' o → m s = (a, s', o) → Q' a s' o) → act_wp m Q' s.
Proof. rewrite !act_wp_eq. destruct (m s) as [[a s'] o]. auto. Qed.
Lemma act_wp_out {S O A} (m : Act S O A) o s : act_wp m (λ _ _ o', o' = o) s → act_out m s = o.
Proof. done. Qed.
#[global] Opaque act_wp.

(** Actions that leave the state alone. *)
Lemma act_iter_emit {S O A} (f : A → O) (l : list A) (s : S) :
  act_iter (λ a, act_emit (f a)) l s = (tt, s, f <$> l).
Proof.
  induction l as [|a l IH]; [done |]. cbn [act_iter]. unfold mbind, act_bind.
  simpl. by rewrite IH.
Qed.

(** Stateful code that may return early with an error: [Act] with a [Result],
    and Rust's [?] on it. *)
Definition Try (S O E A : Type) : Type := Act S O (Result E A).
Definition try_ok {S O E A} (a : A) : Try S O E A := mret (Ok a).
Definition try_err {S O E A} (e : E) : Try S O E A := mret (Err e).
Definition try_bind {S O E A B} (m : Try S O E A) (f : A → Try S O E B) : Try S O E B :=
  let* r := m in match r with Ok a => f a | Err e => try_err e end.
(** [map_err] *)
Definition try_map_err {S O E E' A} (f : E → E') (m : Try S O E A) : Try S O E' A :=
  let* r := m in match r with Ok a => try_ok a | Err e => try_err (f e) end.
Notation "'let^' x ':=' e 'in' k" := (try_bind e (λ x, k))
  (at level 10, x name, e at level 100, k at level 200) : router_scope.

Section try.
Context {S O E : Type}.
Implicit Types P : O → Prop.

Lemma try_bind_Ok {A B} (m : Try S O E A) (f : A → Try S O E B) s b :
  act_result (try_bind m f) s = Ok b →
  ∃ a, act_result m s = Ok a ∧ act_result (f a) (act_state m s) = Ok b.
Proof.
  unfold try_bind. rewrite act_result_bind. destruct (act_result m s) as [a|e]; [|done]. eauto.
Qed.
Lemma try_bind_works {A B} (m : Try S O E A) (f : A → Try S O E B) s a :
  act_result m s = Ok a → act_result (try_bind m f) s = act_result (f a) (act_state m s).
Proof. intros Ha. unfold try_bind. rewrite act_result_bind. by rewrite Ha. Qed.
Lemma try_bind_state {A B} (m : Try S O E A) (f : A → Try S O E B) s a :
  act_result m s = Ok a → act_state (try_bind m f) s = act_state (f a) (act_state m s).
Proof. intros Ha. unfold try_bind. rewrite act_state_bind. by rewrite Ha. Qed.
(** A step that fails is the end. *)
Lemma try_bind_Err {A B} (m : Try S O E A) (f : A → Try S O E B) s e s' out :
  m s = (Err e, s', out) → try_bind m f s = (Err e, s', out).
Proof.
  intros Hm. unfold try_bind, mbind, act_bind. rewrite Hm. simpl. by rewrite app_nil_r.
Qed.

Lemma act_wp_try {A B} (m : Try S O E A) (f : A → Try S O E B) Q s :
  act_wp m (λ r s1 o1, match r with
                       | Ok a => act_wp (f a) (λ b s2 o2, Q b s2 (o1 ++ o2)) s1
                       | Err e => Q (Err e) s1 o1
                       end) s →
  act_wp (try_bind m f) Q s.
Proof.
  intros Hm. apply act_wp_bind. eapply act_wp_mono; [exact Hm |].
  intros [a|e] s1 o1 HQ; [done |]. apply act_wp_ret. by rewrite app_nil_r.
Qed.

(** All actions a piece of code can take. *)
Definition try_all {A} P (m : Try S O E A) : Prop := ∀ s o, o ∈ act_out m s → P o.
Lemma try_all_ret {A} P (r : Result E A) : try_all P (mret r : Try S O E A).
Proof. intros s x Hx. by apply elem_of_nil in Hx. Qed.
Lemma try_all_bind {A B} P (m : Try S O E A) (f : A → Try S O E B) :
  try_all P m → (∀ a, try_all P (f a)) → try_all P (try_bind m f).
Proof.
  intros Hm Hf s o. unfold try_bind. rewrite act_out_bind, elem_of_app. intros [Ho | Ho]; [by eapply Hm |].
  destruct (act_result m s) as [a|e]; [by eapply Hf | by apply elem_of_nil in Ho].
Qed.
End try.

Create HintDb try.
#[export] Hint Resolve try_all_ret try_all_bind : try.

Create Rewrite HintDb act.
#[export] Hint Rewrite @act_state_bind @act_result_bind @act_out_bind : act.
