(* ===== verification/NetAddr.v ===== *)
(** * Addresses, masks and subnets

    [Ipv4Addr] and [MacAddr] values, the address predicates and mask
    conversions of [src/src/services/utils.rs], and the interface of the
    [ipnet] crate's [Ipv4Net] that the other components are proved against. *)

From Stdlib Require Import ZArith Lia.
From stdpp Require Import base gmap list strings.
From S2P Require Import Prelude.

#[local] Open Scope Z_scope.

(** ** [Ipv4Addr]: a 32-bit integer, most significant octet first *)

Abbreviation Ipv4Addr := Z (only parsing).

Definition ipv4 (a b c d : Z) : Ipv4Addr :=
  Z.lor (Z.shiftl a 24) (Z.lor (Z.shiftl b 16) (Z.lor (Z.shiftl c 8) d)).
Definition octet (i : Z) (ip : Ipv4Addr) : Z :=
  Z.land (Z.shiftr ip (8 * (3 - i))) 255.

Definition UNSPECIFIED : Ipv4Addr := 0.
Definition BROADCAST : Ipv4Addr := u32_max.

Definition is_unspecified (ip : Ipv4Addr) : bool := bool_decide (ip = UNSPECIFIED).
Definition is_broadcast (ip : Ipv4Addr) : bool := bool_decide (ip = BROADCAST).
Definition is_loopback (ip : Ipv4Addr) : bool := bool_decide (octet 0 ip = 127).
Definition is_multicast (ip : Ipv4Addr) : bool :=
  bool_decide (224 ≤ octet 0 ip ≤ 239).
Definition is_link_local (ip : Ipv4Addr) : bool :=
  bool_decide (octet 0 ip = 169) && bool_decide (octet 1 ip = 254).
Definition is_documentation (ip : Ipv4Addr) : bool :=
  (bool_decide (octet 0 ip = 192) && bool_decide (octet 1 ip = 0)
   && bool_decide (octet 2 ip = 2))
  || (bool_decide (octet 0 ip = 198) && bool_decide (octet 1 ip = 51)
      && bool_decide (octet 2 ip = 100))
  || (bool_decide (octet 0 ip = 203) && bool_decide (octet 1 ip = 0)
      && bool_decide (octet 2 ip = 113)).

Definition is_valid_upstream_resolver (ip : Ipv4Addr) : bool :=
  negb (is_unspecified ip) && negb (is_broadcast ip) && negb (is_loopback ip)
  && negb (is_multicast ip) && negb (is_link_local ip)
  && negb (is_documentation ip).

Definition is_valid_ntp_server_ip (ip : Ipv4Addr) : bool :=
  negb (is_unspecified ip) && negb (is_broadcast ip) && negb (is_loopback ip)
  && negb (is_multicast ip) && negb (is_link_local ip)
  && negb (is_documentation ip).

(** [Display for u8] and [Display for Ipv4Addr]. *)
Definition u8_display (n : Z) : str :=
  if decide (n < 10) then [48 + n]
  else if decide (n < 100) then [48 + n / 10; 48 + n mod 10]
  else [48 + n / 100; 48 + n / 10 mod 10; 48 + n mod 10].
Definition ipv4_display (ip : Ipv4Addr) : str :=
  u8_display (octet 0 ip) ++ lit "." ++ u8_display (octet 1 ip) ++ lit "."
  ++ u8_display (octet 2 ip) ++ lit "." ++ u8_display (octet 3 ip).

(** [s.split(c)]. *)
Fixpoint split (c : char) (s : str) : list str :=
  match s with
  | [] => [[]]
  | x :: s' =>
      if decide (x = c) then [] :: split c s'
      else match split c s' with [] => [[x]] | h :: t => (x :: h) :: t end
  end.

(** One octet of a dotted address: one to three digits, no leading zero. *)
Definition parse_octet (s : str) : option Z :=
  if forallb is_ascii_digit s && bool_decide (1 ≤ length s ≤ 3)%nat
     && negb (bool_decide (1 < length s)%nat && bool_decide (head s = Some 48))
  then let n := foldl (λ n c, n * 10 + (c - 48)) 0 s in
       if decide (n ≤ 255) then Some n else None
  else None.

(** [Ipv4Addr::from_str] (std): four octets separated by dots. *)
Definition ipv4_from_str (s : str) : option Ipv4Addr :=
  match split 46 s with
  | [s0; s1; s2; s3] =>
      a ← parse_octet s0; b ← parse_octet s1;
      c ← parse_octet s2; d ← parse_octet s3;
      Some (ipv4 a b c d)
  | _ => None
  end.

Lemma octet_range i ip : 0 ≤ octet i ip ≤ 255.
Proof.
  unfold octet. generalize (Z.shiftr ip (8 * (3 - i))). intros x.
  change (0 ≤ Z.land x (Z.ones 8) ≤ 255).
  rewrite Z.land_ones by lia. change (2 ^ 8) with 256.
  pose proof (Z.mod_pos_bound x 256). lia.
Qed.

Lemma u8_display_spec n :
  0 ≤ n ≤ 255 →
  parse_octet (u8_display n) = Some n ∧
  (46 ∉ u8_display n) ∧ (47 ∉ u8_display n).
Proof.
  intros Hn.
  assert (n ∈ seqZ 0 256) as Hin by (apply elem_of_seqZ; lia).
  clear Hn. revert n Hin. apply Forall_forall.
  set (P := λ n, bool_decide (parse_octet (u8_display n) = Some n)
     && bool_decide (46 ∉ u8_display n) && bool_decide (47 ∉ u8_display n)).
  apply Forall_impl with (λ n, P n = true).
  - apply Forall_forall. intros n Hn.
    assert (forallb P (seqZ 0 256) = true) as HP by (vm_compute; reflexivity).
    rewrite forallb_forall in HP. apply HP. by apply list_elem_of_In.
  - unfold P. intros n HP.
    apply andb_true_iff in HP as [HP H3%bool_decide_eq_true].
    apply andb_true_iff in HP as [H1%bool_decide_eq_true H2%bool_decide_eq_true].
    done.
Qed.

Lemma split_app_sep c a b : c ∉ a → split c (a ++ [c] ++ b) = a :: split c b.
Proof.
  change ([c] ++ b) with (c :: b).
  induction a as [|x a IH]; intros Hc; simpl.
  - by rewrite decide_True.
  - apply not_elem_of_cons in Hc as [Hx Ha].
    rewrite decide_False by congruence. by rewrite IH.
Qed.

Lemma split_no_sep c a : c ∉ a → split c a = [a].
Proof.
  induction a as [|x a IH]; intros Hc; simpl; [done |].
  apply not_elem_of_cons in Hc as [Hx Ha].
  rewrite decide_False by congruence. by rewrite IH.
Qed.

Lemma ipv4_octets ip :
  is_u32 ip → ipv4 (octet 0 ip) (octet 1 ip) (octet 2 ip) (octet 3 ip) = ip.
Proof.
  intros Hu. unfold ipv4, octet. change 255 with (Z.ones 8).
  change (8 * (3 - 0)) with 24. change (8 * (3 - 1)) with 16.
  change (8 * (3 - 2)) with 8. change (8 * (3 - 3)) with 0.
  apply Z.bits_inj'. intros i Hi.
  rewrite !Z.lor_spec, !Z.shiftl_spec, !Z.land_spec by lia.
  assert (∀ k, 0 ≤ k →
    Z.testbit (Z.shiftr ip k) (i - k) && Z.testbit (Z.ones 8) (i - k)
    = Z.testbit ip i && bool_decide (k ≤ i < k + 8)) as Hk.
  { intros k Hk0. destruct (decide (i < k)).
    - rewrite Z.testbit_neg_r, bool_decide_false, andb_false_r by lia. done.
    - rewrite Z.shiftr_spec, Z.testbit_ones_nonneg by lia.
      replace (i - k + k) with i by lia. f_equal.
      destruct (decide (i < k + 8)).
      + rewrite bool_decide_true by lia. lia.
      + rewrite bool_decide_false by lia. lia. }
  pose proof (Hk 24 ltac:(lia)) as H24. pose proof (Hk 16 ltac:(lia)) as H16.
  pose proof (Hk 8 ltac:(lia)) as H8. pose proof (Hk 0 ltac:(lia)) as H0.
  rewrite Z.sub_0_r in H0. rewrite H24, H16, H8, H0.
  destruct (Z.testbit ip i) eqn:E; [|done]. simpl.
  assert (i < 32).
  { destruct (decide (i < 32)); [done |].
    destruct Hu as [H1 H2]. exfalso.
    assert (Z.testbit ip i = false); [|congruence].
    destruct (decide (ip = 0)) as [-> | ]; [apply Z.bits_0 |].
    apply Z.bits_above_log2; [lia |].
    apply Z.lt_le_trans with 32; [apply Z.log2_lt_pow2; lia | lia]. }
  repeat case_bool_decide; done || lia.
Qed.

Lemma ipv4_display_from_str ip :
  is_u32 ip → ipv4_from_str (ipv4_display ip) = Some ip.
Proof.
  intros Hu. unfold ipv4_from_str, ipv4_display.
  change (lit ".") with [46].
  destruct (u8_display_spec (octet 0 ip) (octet_range 0 ip)) as (P0 & D0 & _).
  destruct (u8_display_spec (octet 1 ip) (octet_range 1 ip)) as (P1 & D1 & _).
  destruct (u8_display_spec (octet 2 ip) (octet_range 2 ip)) as (P2 & D2 & _).
  destruct (u8_display_spec (octet 3 ip) (octet_range 3 ip)) as (P3 & D3 & _).
  rewrite !split_app_sep, split_no_sep by done.
  rewrite P0, P1, P2, P3. simpl. by rewrite ipv4_octets.
Qed.

Lemma is_u_lor w a b : 0 ≤ w → is_u w a → is_u w b → is_u w (Z.lor a b).
Proof.
  intros Hw [Ha Ha'] [Hb Hb']. split; [by apply Z.lor_nonneg |].
  destruct (decide (Z.lor a b = 0)) as [-> | Hne]; [apply Z.pow_pos_nonneg; lia |].
  assert (0 ≤ Z.lor a b) by (by apply Z.lor_nonneg).
  apply Z.log2_lt_pow2; [lia |]. rewrite Z.log2_lor by done.
  apply Z.max_lub_lt.
  - destruct (decide (a = 0)) as [-> | ]; [|apply Z.log2_lt_pow2; lia].
    simpl. destruct (decide (w = 0)) as [-> | ]; [|lia].
    exfalso. apply Hne. change (2 ^ 0) with 1 in *. by replace b with 0 by lia.
  - destruct (decide (b = 0)) as [-> | ]; [|apply Z.log2_lt_pow2; lia].
    simpl. destruct (decide (w = 0)) as [-> | ]; [|lia].
    exfalso. apply Hne. change (2 ^ 0) with 1 in *. by replace a with 0 by lia.
Qed.

Lemma ipv4_u32 a b c d :
  0 ≤ a ≤ 255 → 0 ≤ b ≤ 255 → 0 ≤ c ≤ 255 → 0 ≤ d ≤ 255 → is_u32 (ipv4 a b c d).
Proof.
  intros Ha Hb Hc Hd. unfold ipv4.
  repeat apply is_u_lor; rewrite ?Z.shiftl_mul_pow2 by lia; unfold is_u; lia.
Qed.

Lemma parse_octet_range s n : parse_octet s = Some n → 0 ≤ n ≤ 255.
Proof.
  unfold parse_octet. destruct (forallb is_ascii_digit s) eqn:E; [|done].
  destruct (true && _ && _); [|done]. cbv zeta.
  destruct (decide _) as [Hle|]; [|done]. intros [= <-]. split; [|done].
  assert (∀ acc, 0 ≤ acc → 0 ≤ foldl (λ n c, n * 10 + (c - 48)) acc s) as Hf.
  { clear Hle. revert E. induction s as [|c s IH]; simpl; intros E acc Hacc; [done |].
    apply andb_true_iff in E as [Hc E]. apply IH; [done |].
    unfold is_ascii_digit in Hc. apply bool_decide_eq_true in Hc. lia. }
  by apply Hf.
Qed.

Lemma ipv4_from_str_u32 s ip : ipv4_from_str s = Some ip → is_u32 ip.
Proof.
  unfold ipv4_from_str. destruct (split 46 s) as [|a [|b [|c [|d [|]]]]]; try done.
  destruct (parse_octet a) eqn:Ha; [|done]. destruct (parse_octet b) eqn:Hb; [|done].
  destruct (parse_octet c) eqn:Hc; [|done]. destruct (parse_octet d) eqn:Hd; [|done].
  simpl. intros [= <-]. apply ipv4_u32; eauto using parse_octet_range.
Qed.

Lemma ipv4_display_no_slash ip : 47 ∉ ipv4_display ip.
Proof.
  unfold ipv4_display. change (lit ".") with [46].
  rewrite !not_elem_of_app.
  repeat split; try (apply u8_display_spec, octet_range);
    apply not_elem_of_cons; (split; [done | apply not_elem_of_nil]).
Qed.

(** ** [MacAddr] *)

Record MacAddr := mac6 {
  mac0 : Z; mac1 : Z; mac2 : Z; mac3 : Z; mac4 : Z; mac5 : Z;
}.

#[global] Instance MacAddr_eq_dec : EqDecision MacAddr.
Proof. solve_decision. Defined.
#[global] Instance MacAddr_countable : Countable MacAddr.
Proof.
  refine (inj_countable'
    (λ m, (mac0 m, mac1 m, mac2 m, mac3 m, mac4 m, mac5 m))
    (λ t, let '(a, b, c, d, e, f) := t in mac6 a b c d e f) _).
  by intros [].
Defined.

Definition mac_zero : MacAddr := mac6 0 0 0 0 0 0.
Definition mac_broadcast : MacAddr := mac6 255 255 255 255 255 255.
Definition mac_octets (m : MacAddr) : list Z :=
  [mac0 m; mac1 m; mac2 m; mac3 m; mac4 m; mac5 m].

(** The [RouterError::Generic] messages of the modelled code, one constructor
    each. *)
Inductive RouterError :=
| InvalidSubnetMask
| InvalidMacLength
| PayloadTooLong
| HeadersNotSerialized
| ChecksumNotComputed.

(** [mac_from_slice] *)
Definition mac_from_slice (slice : list Z) : Result RouterError MacAddr :=
  match slice with
  | [a; b; c; d; e; f] => Ok (mac6 a b c d e f)
  | _ => Err InvalidMacLength
  end.

Lemma mac_from_slice_octets m : mac_from_slice (mac_octets m) = Ok m.
Proof. by destruct m. Qed.

(** ** Subnet masks and prefix lengths *)

Fixpoint leading_ones_from (n : nat) (z : Z) : Z :=
  match n with
  | O => 0
  | S n' => if Z.testbit z (Z.of_nat n') then 1 + leading_ones_from n' z else 0
  end.
Fixpoint trailing_zeros_from (n : nat) (i z : Z) : Z :=
  match n with
  | O => 0
  | S n' => if Z.testbit z i then 0 else 1 + trailing_zeros_from n' (i + 1) z
  end.
(** [u32::leading_ones] and [u32::trailing_zeros]. *)
Definition leading_ones (z : Z) : Z := leading_ones_from 32 z.
Definition trailing_zeros (z : Z) : Z := trailing_zeros_from 32 0 z.

Definition mask_to_prefix_len (mask : Ipv4Addr) : Result RouterError Z :=
  if bool_decide (leading_ones mask + trailing_zeros mask ≠ 32)
  then Err InvalidSubnetMask
  else Ok (leading_ones mask).

(** [u32::MAX << k], truncated to 32 bits. *)
Definition u32_shl (x k : Z) : Z := Z.land (Z.shiftl x k) u32_max.

Definition prefix_len_to_mask (prefix_len : Z) : Ipv4Addr :=
  if bool_decide (prefix_len = 0) || bool_decide (prefix_len > 32)
  then UNSPECIFIED
  else u32_shl u32_max (32 - prefix_len).

Lemma leading_ones_from_spec n z :
  0 ≤ leading_ones_from n z ≤ Z.of_nat n ∧
  (∀ i, Z.of_nat n - leading_ones_from n z ≤ i < Z.of_nat n → Z.testbit z i = true).
Proof.
  induction n as [|n IH]; cbn [leading_ones_from]; [split; intros; lia |].
  destruct (Z.testbit z (Z.of_nat n)) eqn:E; [|split; intros; lia].
  destruct IH as [Hb Hi]. split; [lia |]. intros i Hr.
  destruct (decide (i = Z.of_nat n)) as [-> | Hne]; [done |]. apply Hi. lia.
Qed.

Lemma trailing_zeros_from_spec n i z :
  0 ≤ trailing_zeros_from n i z ≤ Z.of_nat n ∧
  (∀ j, i ≤ j < i + trailing_zeros_from n i z → Z.testbit z j = false).
Proof.
  revert i. induction n as [|n IH]; intros i; cbn [trailing_zeros_from];
    [split; intros; lia |].
  destruct (Z.testbit z i) eqn:E; [split; intros; lia |].
  destruct (IH (i + 1)) as [Hb Hi]. split; [lia |]. intros j Hr.
  destruct (decide (j = i)) as [-> | Hne]; [done |]. apply Hi. lia.
Qed.

Lemma is_u_testbit_high w z i : is_u w z → 0 ≤ w ≤ i → Z.testbit z i = false.
Proof.
  intros [H0 H1] Hi. destruct (decide (z = 0)) as [-> | Hz]; [apply Z.bits_0 |].
  apply Z.bits_above_log2; [lia |].
  apply Z.lt_le_trans with w; [apply Z.log2_lt_pow2; lia | lia].
Qed.

Lemma prefix_len_to_mask_testbit p i :
  0 ≤ p ≤ 32 → 0 ≤ i →
  Z.testbit (prefix_len_to_mask p) i = bool_decide (32 - p ≤ i < 32).
Proof.
  intros Hp Hi. unfold prefix_len_to_mask, u32_shl.
  replace u32_max with (Z.ones 32) by reflexivity.
  destruct (decide (p = 0)) as [-> | Hne].
  - simpl. rewrite Z.bits_0. symmetry. apply bool_decide_eq_false. lia.
  - rewrite (bool_decide_false (p = 0)), (bool_decide_false (p > 32)) by lia.
    simpl orb. cbv iota.
    rewrite Z.land_spec, Z.shiftl_spec by lia.
    rewrite (Z.testbit_ones_nonneg 32 i) by lia.
    destruct (decide (i - (32 - p) < 0)).
    + rewrite Z.testbit_neg_r by lia. symmetry. apply bool_decide_eq_false. lia.
    + rewrite Z.testbit_ones_nonneg by lia.
      destruct (decide (i < 32)).
      * rewrite bool_decide_true by lia.
        apply andb_true_iff; split; apply Z.ltb_lt; lia.
      * rewrite bool_decide_false by lia.
        apply andb_false_iff; right; apply Z.ltb_ge; lia.
Qed.

(** A mask is contiguous exactly when it is the mask of some prefix length,
    and [mask_to_prefix_len] then returns that length. *)
Lemma mask_to_prefix_len_iff mask p :
  is_u32 mask →
  mask_to_prefix_len mask = Ok p ↔ 0 ≤ p ≤ 32 ∧ prefix_len_to_mask p = mask.
Proof.
  intros Hu. unfold mask_to_prefix_len.
  destruct (leading_ones_from_spec 32 mask) as [Hl Hones].
  destruct (trailing_zeros_from_spec 32 0 mask) as [Ht Hzeros].
  change (leading_ones_from 32 mask) with (leading_ones mask) in *.
  change (trailing_zeros_from 32 0 mask) with (trailing_zeros mask) in *.
  split.
  - case_bool_decide as Hsum; [done |]. intros [= <-]. split; [lia |].
    apply Z.bits_inj'. intros i Hi. rewrite prefix_len_to_mask_testbit by lia.
    case_bool_decide as Hr.
    + symmetry. apply Hones. lia.
    + symmetry. destruct (decide (i < 32)); [apply Hzeros; lia |].
      apply (is_u_testbit_high 32); [done | lia].
  - intros [Hp <-].
    assert (p ∈ seqZ 0 33) as Hin by (apply elem_of_seqZ; lia).
    clear -Hin. revert p Hin. apply Forall_forall.
    repeat (constructor; [vm_compute; reflexivity |]). constructor.
Qed.

Lemma prefix_len_to_mask_u32 p : is_u32 (prefix_len_to_mask p).
Proof.
  unfold prefix_len_to_mask, u32_shl.
  destruct (_ || _); [split; reflexivity || (unfold UNSPECIFIED; lia) |].
  replace u32_max with (Z.ones 32) by reflexivity.
  rewrite Z.land_ones by lia. apply Z.mod_pos_bound. lia.
Qed.

(** ** The [ipnet] crate's [Ipv4Net]

    The crate is not part of the repository.  [Ipv4NetOps] lists the
    operations the code calls and [Ipv4NetLaws] their documented behaviour; a
    network is an address with a prefix length, and the host bits of the
    address are kept ([addr] is the router's own address on its subnet). *)

Class Ipv4NetOps (Net : Type) := {
  net_new : Ipv4Addr → Z → option Net;
  net_addr : Net → Ipv4Addr;
  net_prefix_len : Net → Z;
  net_network : Net → Ipv4Addr;
  net_broadcast : Net → Ipv4Addr;
  net_netmask : Net → Ipv4Addr;
  net_contains : Net → Ipv4Addr → bool;
  net_hosts : Net → list Ipv4Addr;
  net_parse : str → option Net;
  net_eq_dec :: EqDecision Net;
}.
#[global] Hint Mode Ipv4NetOps ! : typeclass_instances.

(** [format!("{}/{}", ip, prefix_len)]. *)
Definition cidr_display (ip : Ipv4Addr) (prefix_len : Z) : str :=
  ipv4_display ip ++ lit "/" ++ u8_display prefix_len.

(** The number of addresses of a subnet with this prefix length. *)
Definition block (p : Z) : Z := 2 ^ (32 - p).

Class Ipv4NetLaws (Net : Type) `{!Ipv4NetOps Net} : Prop := {
  net_addr_u32 (n : Net) : is_u32 (net_addr n);
  net_prefix_len_range (n : Net) : 0 ≤ net_prefix_len n ≤ 32;
  net_ext (n n' : Net) :
    net_addr n = net_addr n' → net_prefix_len n = net_prefix_len n' → n = n';
  net_new_valid ip p :
    is_u32 ip → 0 ≤ p ≤ 32 →
    ∃ n : Net, net_new ip p = Some n ∧ net_addr n = ip ∧ net_prefix_len n = p;
  net_new_invalid ip p : 32 < p → net_new (Net := Net) ip p = None;
  net_network_eq (n : Net) :
    net_network n = net_addr n - net_addr n mod block (net_prefix_len n);
  net_broadcast_eq (n : Net) :
    net_broadcast n = net_network n + block (net_prefix_len n) - 1;
  net_netmask_eq (n : Net) : net_netmask n = prefix_len_to_mask (net_prefix_len n);
  net_contains_iff (n : Net) ip :
    net_contains n ip = true ↔ net_network n ≤ ip ≤ net_broadcast n;
  net_hosts_eq (n : Net) :
    net_prefix_len n < 31 →
    net_hosts n = seqZ (net_network n + 1) (block (net_prefix_len n) - 2);
  net_parse_cidr ip p :
    is_u32 ip → is_u8 p →
    net_parse (Net := Net) (cidr_display ip p) = net_new ip p;
}.

(** A concrete network type with these laws, used to evaluate the
    definitions on examples. *)
Record IpNet := mkIpNet {
  ipnet_addr : Z;
  ipnet_prefix : Z;
  ipnet_ok : bool_decide (is_u32 ipnet_addr ∧ 0 ≤ ipnet_prefix ≤ 32) = true;
}.

Lemma IpNet_eq (a b : IpNet) :
  ipnet_addr a = ipnet_addr b → ipnet_prefix a = ipnet_prefix b → a = b.
Proof.
  destruct a as [a p H], b as [b q H']. simpl. intros -> ->. f_equal.
  apply (Eqdep_dec.UIP_dec Bool.bool_dec).
Qed.

#[global] Instance IpNet_eq_dec : EqDecision IpNet.
Proof.
  refine (λ a b, cast_if_and (decide (ipnet_addr a = ipnet_addr b))
                             (decide (ipnet_prefix a = ipnet_prefix b)));
    [by apply IpNet_eq | congruence | congruence].
Defined.

Definition ipnet_new (ip p : Z) : option IpNet :=
  match Sumbool.sumbool_of_bool (bool_decide (is_u32 ip ∧ 0 ≤ p ≤ 32)) with
  | left H => Some (mkIpNet ip p H)
  | right _ => None
  end.
Definition ipnet_network (n : IpNet) : Z :=
  ipnet_addr n - ipnet_addr n mod block (ipnet_prefix n).
Definition ipnet_broadcast (n : IpNet) : Z :=
  ipnet_network n + block (ipnet_prefix n) - 1.

Definition ipnet_parse (s : str) : option IpNet :=
  match split 47 s with
  | [a; p] => ip ← ipv4_from_str a; len ← parse_octet p; ipnet_new ip len
  | _ => None
  end.

#[global] Instance IpNet_ops : Ipv4NetOps IpNet := {|
  net_new := ipnet_new;
  net_addr := ipnet_addr;
  net_prefix_len := ipnet_prefix;
  net_network := ipnet_network;
  net_broadcast := ipnet_broadcast;
  net_netmask n := prefix_len_to_mask (ipnet_prefix n);
  net_contains n ip := bool_decide (ipnet_network n ≤ ip ≤ ipnet_broadcast n);
  net_hosts n :=
    if decide (ipnet_prefix n < 31)
    then seqZ (ipnet_network n + 1) (block (ipnet_prefix n) - 2)
    else seqZ (ipnet_network n) (block (ipnet_prefix n));
  net_parse := ipnet_parse;
|}.

Lemma ipnet_new_Some ip p n :
  ipnet_new ip p = Some n →
  ipnet_addr n = ip ∧ ipnet_prefix n = p ∧ is_u32 ip ∧ 0 ≤ p ≤ 32.
Proof.
  unfold ipnet_new. destruct (Sumbool.sumbool_of_bool _) as [H | H]; [|done].
  intros [= <-]. simpl. by destruct (bool_decide_eq_true_1 _ H).
Qed.

#[global] Instance IpNet_laws : Ipv4NetLaws IpNet.
Proof.
  split; simpl.
  - intros [a p H]. by destruct (bool_decide_eq_true_1 _ H).
  - intros [a p H]. by destruct (bool_decide_eq_true_1 _ H).
  - apply IpNet_eq.
  - intros ip p Hip Hp. unfold ipnet_new.
    destruct (Sumbool.sumbool_of_bool _) as [H | H]; [by eexists |].
    exfalso. apply bool_decide_eq_false in H. tauto.
  - intros ip p Hp. destruct (ipnet_new ip p) eqn:E; [|done].
    apply ipnet_new_Some in E. lia.
  - done.
  - done.
  - done.
  - intros n ip. apply bool_decide_eq_true.
  - intros n Hn. by rewrite decide_True.
  - intros ip p Hip Hp. unfold ipnet_parse, cidr_display.
    change (lit "/") with [47].
    destruct (u8_display_spec p) as (Hpp & _ & Hps); [unfold is_u in Hp; lia |].
    rewrite split_app_sep by apply ipv4_display_no_slash.
    rewrite split_no_sep by done. rewrite ipv4_display_from_str by done.
    simpl. by rewrite Hpp.
Qed.

(** ** Facts about subnets, from the interface *)

Create HintDb net discriminated.

Section subnets.
Context {Net : Type} `{!Ipv4NetOps Net, !Ipv4NetLaws Net}.
Implicit Types n : Net.

Lemma block_pos p : p ≤ 32 → 0 < block p.
Proof. intros H. apply Z.pow_pos_nonneg; lia. Qed.

Lemma net_block_pos n : 0 < block (net_prefix_len n).
Proof. apply block_pos. pose proof (net_prefix_len_range n). lia. Qed.

(** A larger prefix is a smaller, aligned block. *)
Lemma block_divide p q : 0 ≤ p ≤ q → q ≤ 32 → ∃ k, 0 < k ∧ block p = k * block q.
Proof.
  intros Hp Hq. exists (2 ^ (q - p)).
  split; [apply Z.pow_pos_nonneg; lia |].
  unfold block. rewrite <-Z.pow_add_r by lia. f_equal. lia.
Qed.

Lemma net_network_aligned n : net_network n mod block (net_prefix_len n) = 0.
Proof.
  pose proof (net_block_pos n). rewrite net_network_eq.
  rewrite Zminus_mod_idemp_r. by rewrite Z.sub_diag.
Qed.

Lemma net_network_le_broadcast n : net_network n ≤ net_broadcast n.
Proof. pose proof (net_block_pos n). rewrite net_broadcast_eq. lia. Qed.

Lemma net_contains_network n : net_contains n (net_network n) = true.
Proof. apply net_contains_iff. pose proof (net_network_le_broadcast n). lia. Qed.

Lemma net_contains_addr n : net_contains n (net_addr n) = true.
Proof.
  apply net_contains_iff. rewrite net_broadcast_eq, net_network_eq.
  pose proof (net_block_pos n).
  pose proof (Z.mod_pos_bound (net_addr n) (block (net_prefix_len n))). lia.
Qed.

Lemma net_network_nonneg n : 0 ≤ net_network n.
Proof.
  pose proof (net_addr_u32 n) as [Hlo _]. rewrite net_network_eq.
  pose proof (Z.mod_le (net_addr n) (block (net_prefix_len n))).
  pose proof (net_block_pos n). lia.
Qed.

Lemma net_broadcast_le_max n : net_broadcast n ≤ u32_max.
Proof.
  rewrite net_broadcast_eq, net_network_eq.
  pose proof (net_prefix_len_range n) as Hp.
  pose proof (net_addr_u32 n) as [Hlo Hhi].
  set (b := block (net_prefix_len n)) in *.
  assert (0 < b) as Hb by apply net_block_pos.
  assert (2 ^ 32 = b * 2 ^ net_prefix_len n) as Hpow.
  { unfold b, block. rewrite <-Z.pow_add_r by lia. f_equal. lia. }
  pose proof (Z.div_mod (net_addr n) b ltac:(lia)) as Hdm.
  assert (net_addr n / b < 2 ^ net_prefix_len n).
  { apply Z.div_lt_upper_bound; lia. }
  unfold u32_max. nia.
Qed.

Lemma net_contains_u32 n ip : net_contains n ip = true → is_u32 ip.
Proof.
  intros [H1 H2]%net_contains_iff. unfold is_u.
  pose proof (net_network_nonneg n). pose proof (net_broadcast_le_max n).
  unfold u32_max in *. lia.
Qed.

(** The base address of the subnet of any address it contains. *)
Lemma net_contains_base n ip :
  net_contains n ip = true →
  net_network n = ip - ip mod block (net_prefix_len n).
Proof.
  intros [H1 H2]%net_contains_iff. rewrite net_broadcast_eq in H2.
  pose proof (net_block_pos n) as Hb. pose proof (net_network_aligned n) as Ha.
  set (b := block (net_prefix_len n)) in *.
  apply Z.mod_divide in Ha as [q Hq]; [|lia].
  assert (ip mod b = ip - net_network n); [|lia].
  symmetry. apply Z.mod_unique_pos with q; lia.
Qed.

Lemma net_contains_false n ip :
  net_contains n ip = false ↔ ¬ (net_network n ≤ ip ≤ net_broadcast n).
Proof. rewrite <-net_contains_iff. by destruct (net_contains n ip). Qed.

Lemma elem_of_net_hosts n ip :
  net_prefix_len n < 31 →
  ip ∈ net_hosts n ↔
  net_contains n ip = true ∧ ip ≠ net_network n ∧ ip ≠ net_broadcast n.
Proof.
  intros Hp. rewrite net_hosts_eq by done. rewrite elem_of_seqZ.
  rewrite net_contains_iff, net_broadcast_eq. lia.
Qed.

Lemma mod_block_le p q ip :
  0 ≤ ip → 0 ≤ p ≤ q → q ≤ 32 → ip mod block q ≤ ip mod block p.
Proof.
  intros Hip Hp Hq. destruct (block_divide p q) as (k & Hk & Hb); [done.. |].
  pose proof (block_pos q Hq). pose proof (block_pos p ltac:(lia)).
  assert (ip mod block q = (ip mod block p) mod block q) as ->.
  { rewrite Hb, (Z.mul_comm k), Z.rem_mul_r by lia.
    rewrite (Z.mul_comm (block q)), Z.mod_add by lia.
    by rewrite Z.mod_mod by lia. }
  apply Z.mod_le; [|lia]. apply Z.mod_pos_bound. lia.
Qed.

Lemma net_contains_base_nested n1 n2 ip :
  net_prefix_len n1 ≤ net_prefix_len n2 →
  net_contains n1 ip = true → net_contains n2 ip = true →
  net_contains n1 (net_network n2) = true.
Proof.
  intros Hp H1 H2. pose proof (net_contains_u32 n1 ip H1) as [Hip _].
  pose proof (net_prefix_len_range n1). pose proof (net_prefix_len_range n2).
  pose proof (mod_block_le (net_prefix_len n1) (net_prefix_len n2) ip).
  pose proof (Z.mod_pos_bound ip (block (net_prefix_len n2)) (net_block_pos n2)).
  apply net_contains_iff. rewrite (net_contains_base n2 ip) by done.
  pose proof (net_contains_base n1 ip H1). apply net_contains_iff in H1. lia.
Qed.

(** Two subnets share an address exactly when one contains the other's base
    address. *)
Lemma subnets_share_iff n1 n2 :
  (∃ ip, net_contains n1 ip = true ∧ net_contains n2 ip = true) ↔
  net_contains n1 (net_network n2) = true ∨ net_contains n2 (net_network n1) = true.
Proof.
  split.
  - intros (ip & H1 & H2).
    destruct (decide (net_prefix_len n1 ≤ net_prefix_len n2)).
    + left. eauto using net_contains_base_nested.
    + right. eapply net_contains_base_nested; [|done..]. lia.
  - intros [H | H]; eauto using net_contains_network.
Qed.

Lemma net_new_eq ip p n :
  is_u32 ip → 0 ≤ p ≤ 32 → net_new ip p = Some n →
  net_addr n = ip ∧ net_prefix_len n = p.
Proof.
  intros Hip Hp Hn. destruct (net_new_valid (Net := Net) ip p) as (n' & E & ?);
    [done.. |]. congruence.
Qed.
End subnets.

#[export] Hint Resolve net_contains_network net_contains_addr net_network_nonneg
  net_broadcast_le_max net_network_le_broadcast net_contains_u32 : net.

(** Six octets. *)
Definition mac_wf (m : MacAddr) : Prop := Forall is_u8 (mac_octets m).

(** The WAN lease that the DHCP client publishes to the other services. *)
Record WanLease := mkWanLease {
  wl_ip : option Ipv4Addr;
  wl_mask : option Ipv4Addr;
  wl_gateway : option Ipv4Addr;
  wl_dns_servers : list Ipv4Addr;
}.
Definition WanLease_default : WanLease := mkWanLease None None None [].
#[global] Instance WanLease_eq_dec : EqDecision WanLease.
Proof. solve_decision. Defined.
