(* ===== verification/Hostname.v ===== *)
(** * Host names

    [sanitize_hostname] of [src/src/services/utils.rs], used by the
    configuration parser and by the DHCP server for names sent by clients. *)

From Stdlib Require Import ZArith Lia.
From stdpp Require Import base list strings.
From S2P Require Import Prelude.

#[local] Open Scope Z_scope.

Definition LOCAL_DOMAIN : str := lit "lan".
Definition MDNS_DOMAIN : str := lit "local".
Definition ROUTER_HOSTNAME : str := lit "router".

(** Names learned by the DHCP server and the LAN manager, for the DNS
    forwarder ([services::ipc::LocalHostEvent]). *)
Inductive LocalHostEvent :=
| HostRegister (name : str) (ip : Z)
| HostDeregister (name : str).

Definition DOT : char := 46.
Definition DASH : char := 45.

Definition hostname_char (c : char) : bool :=
  is_ascii_alphanumeric c || bool_decide (c = DASH).

(** [sanitize_hostname]: the first label of [raw], trimmed, in lower case. *)
Definition sanitize_hostname (raw : str) : option str :=
  let label := trim (take_until DOT raw) in
  if bool_decide (label = []) || bool_decide (str_len label > 63) then None
  else if bool_decide (head label = Some DASH)
          || bool_decide (last label = Some DASH) then None
  else if negb (forallb hostname_char label) then None
  else Some (to_ascii_lowercase label).

(** An RFC 1123 label in lower case. *)
Definition lower_label_char (c : char) : bool :=
  is_ascii_digit c || is_ascii_lowercase c || bool_decide (c = DASH).
Definition valid_label (s : str) : Prop :=
  s ≠ [] ∧ (length s ≤ 63)%nat ∧ head s ≠ Some DASH ∧ last s ≠ Some DASH ∧
  Forall (λ c, lower_label_char c = true) s.

(** ** Characters of a label *)

Lemma hostname_char_lower c :
  hostname_char c = true → lower_label_char (char_to_ascii_lowercase c) = true.
Proof.
  unfold hostname_char, lower_label_char, char_to_ascii_lowercase,
    is_ascii_alphanumeric, is_ascii_digit, is_ascii_uppercase,
    is_ascii_lowercase, DASH.
  repeat case_bool_decide; simpl; done || lia.
Qed.

Lemma lower_label_char_range c : lower_label_char c = true → 45 ≤ c ≤ 122 ∧ c ≠ 46.
Proof.
  unfold lower_label_char, is_ascii_digit, is_ascii_lowercase, DASH.
  repeat case_bool_decide; simpl; done || lia.
Qed.

Lemma lower_label_char_facts c :
  lower_label_char c = true →
  hostname_char c = true ∧ char_to_ascii_lowercase c = c ∧
  is_whitespace c = false ∧ char_len c = 1.
Proof.
  intros H. pose proof (lower_label_char_range c H) as Hr.
  assert (forallb (λ c, implb (lower_label_char c)
    (hostname_char c && bool_decide (char_to_ascii_lowercase c = c)
     && negb (is_whitespace c) && bool_decide (char_len c = 1))) (seqZ 45 78) = true)
    as Hall by (vm_compute; reflexivity).
  assert (In c (seqZ 45 78)) as Hin by (apply list_elem_of_In, elem_of_seqZ; lia).
  rewrite forallb_forall in Hall. specialize (Hall c Hin).
  rewrite H in Hall. cbn [implb] in Hall.
  rewrite !andb_true_iff, !bool_decide_eq_true, negb_true_iff in Hall. tauto.
Qed.

Lemma char_len_hostname c : hostname_char c = true → char_len c = 1.
Proof.
  unfold hostname_char, is_ascii_alphanumeric, is_ascii_digit,
    is_ascii_uppercase, is_ascii_lowercase, char_len, DASH.
  repeat case_bool_decide; simpl; try done; rewrite ?decide_True by lia; done.
Qed.

Lemma lowercase_dash c :
  hostname_char c = true → char_to_ascii_lowercase c = DASH → c = DASH.
Proof.
  unfold char_to_ascii_lowercase, is_ascii_uppercase, DASH.
  intros _. case_bool_decide; lia.
Qed.

(** ** Whole labels *)

Lemma str_len_label s :
  Forall (λ c, hostname_char c = true) s → str_len s = Z.of_nat (length s).
Proof.
  induction 1 as [|c s Hc Hs IH]; simpl; [done |].
  change (char_len c + str_len s = Z.of_nat (S (length s))).
  rewrite char_len_hostname, IH by done. lia.
Qed.

Lemma forallb_Forall {A} (f : A → bool) l :
  forallb f l = true ↔ Forall (λ x, f x = true) l.
Proof. rewrite forallb_forall, Forall_forall. by setoid_rewrite list_elem_of_In. Qed.

Lemma take_until_none c s : c ∉ s → take_until c s = s.
Proof.
  induction s as [|x s IH]; simpl; [done |].
  intros [Hx Hs]%not_elem_of_cons. rewrite decide_False by congruence.
  by rewrite IH.
Qed.

Lemma sanitize_hostname_label raw name :
  sanitize_hostname raw = Some name → valid_label name.
Proof.
  unfold sanitize_hostname. set (label := trim (take_until DOT raw)).
  destruct (_ || _) eqn:E1; [done |].
  destruct (bool_decide (head label = _) || _) eqn:E2; [done |].
  destruct (forallb hostname_char label) eqn:E3; [|done]. intros [= <-].
  apply orb_false_iff in E1 as [H1%bool_decide_eq_false H2%bool_decide_eq_false].
  apply orb_false_iff in E2 as [H3%bool_decide_eq_false H4%bool_decide_eq_false].
  apply forallb_Forall in E3. rewrite str_len_label in H2 by done.
  unfold valid_label, to_ascii_lowercase. rewrite length_map. split_and!.
  - by destruct label.
  - lia.
  - destruct label as [|c l]; [done |]. simpl in *. intros [= Hc].
    apply Forall_cons in E3 as [Hh _]. apply lowercase_dash in Hc; congruence.
  - change (map char_to_ascii_lowercase label) with (char_to_ascii_lowercase <$> label).
    rewrite fmap_last. destruct (last label) as [c|] eqn:El; [|done]. simpl.
    intros [= Hc]. apply last_Some in El as [l' ->].
    apply Forall_app in E3 as [_ Hl]. inversion_clear Hl.
    apply lowercase_dash in Hc; congruence.
  - apply Forall_fmap. eapply Forall_impl; [done |]. apply hostname_char_lower.
Qed.

(** A valid label is returned unchanged: sanitising is idempotent. *)
Lemma sanitize_hostname_valid s : valid_label s → sanitize_hostname s = Some s.
Proof.
  intros (Hne & Hlen & Hh & Hl & Hall).
  assert (Forall (λ c, hostname_char c = true) s) as Hhc.
  { eapply Forall_impl; [exact Hall |]. intros c Hc. apply (lower_label_char_facts c Hc). }
  assert (Forall (λ c, is_whitespace c = false) s) as Hws.
  { eapply Forall_impl; [exact Hall |]. intros c Hc. apply (lower_label_char_facts c Hc). }
  unfold sanitize_hostname. rewrite take_until_none.
  2:{ intros Hin. rewrite Forall_forall in Hall.
      apply Hall, lower_label_char_range in Hin. unfold DOT in *. lia. }
  unfold trim, trim_end, trim_start. rewrite (drop_while_none _ s) by done.
  rewrite drop_while_none by by apply Forall_reverse.
  rewrite reverse_involutive.
  rewrite str_len_label by done.
  rewrite !bool_decide_false by (lia || done). simpl.
  rewrite (proj2 (forallb_Forall _ _)) by done. simpl. f_equal.
  unfold to_ascii_lowercase. clear -Hall. induction Hall as [|c s Hc _ IH]; [done |].
  simpl. rewrite IH. f_equal. apply (lower_label_char_facts c Hc).
Qed.

Lemma valid_label_no_dot s : valid_label s → DOT ∉ s.
Proof.
  intros (_ & _ & _ & _ & Hall) Hin. rewrite Forall_forall in Hall.
  apply Hall, lower_label_char_range in Hin. unfold DOT in *. lia.
Qed.

(** [sanitize_hostname] only ever produces RFC 1123 labels (non-empty, at
    most 63 characters, lower-case letters, digits and inner dashes), and it
    is a projection: exactly the labels are its fixed points. *)
Theorem sanitize_hostname_spec raw name :
  (sanitize_hostname raw = Some name →
   valid_label name ∧ sanitize_hostname name = Some name) ∧
  (valid_label raw ↔ sanitize_hostname raw = Some raw).
Proof.
  split; [intros H | split].
  - apply sanitize_hostname_label in H. auto using sanitize_hostname_valid.
  - apply sanitize_hostname_valid.
  - apply sanitize_hostname_label.
Qed.
