(* ===== verification/Packet.v ===== *)
(** * Raw packets

    [src/src/packet.rs] and [parse_dhcp_payload] of
    [src/src/services/utils.rs]: building and reading the Ethernet, IPv4 and
    UDP headers around a DHCP message.  The header views are those of the
    [pnet] crate, an interface with laws here; a byte-level implementation of
    the three formats shows that the laws can be met. *)

From Stdlib Require Import ZArith Lia.
From stdpp Require Import base list.
From S2P Require Import Prelude NetAddr.

#[local] Open Scope Z_scope.

(** The header fields that the code sets or reads. *)
Record EthHeader := mkEthHeader {
  eh_destination : MacAddr;
  eh_source : MacAddr;
  eh_ethertype : Z;
}.
Record Ipv4Header := mkIpv4Header {
  ih_version : Z;
  ih_header_length : Z;
  ih_total_length : Z;
  ih_ttl : Z;
  ih_protocol : Z;
  ih_checksum : Z;
  ih_source : Ipv4Addr;
  ih_destination : Ipv4Addr;
}.
Record UdpHeader := mkUdpHeader {
  uh_source : Z;
  uh_destination : Z;
  uh_length : Z;
}.

(** Fields that fit their width. *)
Definition eth_wf (h : EthHeader) : Prop :=
  mac_wf (eh_destination h) ∧ mac_wf (eh_source h) ∧ is_u16 (eh_ethertype h).
Definition ip_wf (h : Ipv4Header) : Prop :=
  is_u 4 (ih_version h) ∧ is_u 4 (ih_header_length h) ∧ is_u16 (ih_total_length h) ∧
  is_u8 (ih_ttl h) ∧ is_u8 (ih_protocol h) ∧ is_u16 (ih_checksum h) ∧
  is_u32 (ih_source h) ∧ is_u32 (ih_destination h).
Definition udp_wf (h : UdpHeader) : Prop :=
  is_u16 (uh_source h) ∧ is_u16 (uh_destination h) ∧ is_u16 (uh_length h).

(** [minimum_packet_size()] of the three packet types, and the numbers of
    [EtherTypes::Ipv4] and [IpNextHeaderProtocols::Udp]. *)
Definition ETH_HEADER_LEN : Z := 14.
Definition IPV4_HEADER_LEN : Z := 20.
Definition UDP_HEADER_LEN : Z := 8.
Definition ETHERTYPE_IPV4 : Z := 2048.
Definition PROTOCOL_UDP : Z := 17.

Definition blen (buf : list Z) : Z := Z.of_nat (length buf).

(** The packet views of [pnet]: reading the header of a buffer, updating it in
    place through the setters, and the payload of a buffer, to be read or
    written in place ([payload_mut], [set_payload]).  A view exists when the
    buffer has at least the minimum size. *)
Class Pnet := {
  eth_header : list Z → EthHeader;
  eth_update : (EthHeader → EthHeader) → list Z → list Z;
  eth_payload : list Z → list Z;
  eth_set_payload : list Z → list Z → list Z;
  ip_header : list Z → Ipv4Header;
  ip_update : (Ipv4Header → Ipv4Header) → list Z → list Z;
  ip_payload : list Z → list Z;
  ip_set_payload : list Z → list Z → list Z;
  ip_checksum : list Z → Z;
  udp_header : list Z → UdpHeader;
  udp_update : (UdpHeader → UdpHeader) → list Z → list Z;
  udp_payload : list Z → list Z;
  udp_set_payload : list Z → list Z → list Z;
}.

(** An IPv4 packet without options that fills its buffer. *)
Definition ip_full `{!Pnet} (b : list Z) : Prop :=
  ih_header_length (ip_header b) = 5 ∧ ih_total_length (ip_header b) = blen b.

Class PnetLaws `{!Pnet} : Prop := {
  eth_header_update f b :
    ETH_HEADER_LEN ≤ blen b → eth_wf (f (eth_header b)) →
    eth_header (eth_update f b) = f (eth_header b) ∧
    eth_payload (eth_update f b) = eth_payload b ∧ blen (eth_update f b) = blen b;
  eth_payload_len b :
    ETH_HEADER_LEN ≤ blen b → blen (eth_payload b) = blen b - ETH_HEADER_LEN;
  eth_payload_set p b :
    ETH_HEADER_LEN ≤ blen b → blen p = blen (eth_payload b) →
    eth_payload (eth_set_payload p b) = p ∧
    eth_header (eth_set_payload p b) = eth_header b ∧ blen (eth_set_payload p b) = blen b;
  ip_header_wf b : ip_wf (ip_header b);
  ip_header_update f b :
    IPV4_HEADER_LEN ≤ blen b → ip_wf (f (ip_header b)) →
    ip_header (ip_update f b) = f (ip_header b) ∧ blen (ip_update f b) = blen b ∧
    (ih_header_length (f (ip_header b)) = ih_header_length (ip_header b) →
     ih_total_length (f (ip_header b)) = ih_total_length (ip_header b) →
     ip_payload (ip_update f b) = ip_payload b);
  ip_payload_len b :
    IPV4_HEADER_LEN ≤ blen b → ip_full b → blen (ip_payload b) = blen b - IPV4_HEADER_LEN;
  ip_payload_set p b :
    IPV4_HEADER_LEN ≤ blen b → ip_full b → blen p = blen (ip_payload b) →
    ip_payload (ip_set_payload p b) = p ∧
    ip_header (ip_set_payload p b) = ip_header b ∧ blen (ip_set_payload p b) = blen b;
  ip_checksum_u16 b : is_u16 (ip_checksum b);
  udp_header_update f b :
    UDP_HEADER_LEN ≤ blen b → udp_wf (f (udp_header b)) →
    udp_header (udp_update f b) = f (udp_header b) ∧
    udp_payload (udp_update f b) = udp_payload b ∧ blen (udp_update f b) = blen b;
  udp_payload_len b :
    UDP_HEADER_LEN ≤ blen b → blen (udp_payload b) = blen b - UDP_HEADER_LEN;
  udp_payload_set p b :
    UDP_HEADER_LEN ≤ blen b → blen p = blen (udp_payload b) →
    udp_payload (udp_set_payload p b) = p ∧
    udp_header (udp_set_payload p b) = udp_header b ∧ blen (udp_set_payload p b) = blen b;
}.

Record RawPacketEndpoints := mkRawPacketEndpoints {
  src_mac : MacAddr;
  dest_mac : MacAddr;
  src_ip : Ipv4Addr;
  dest_ip : Ipv4Addr;
  src_port : Z;
  dest_port : Z;
}.

Definition MAX_RAW_PACKET_PAYLOAD : Z := 65507.

(** [x as u16] *)
Definition as_u16 (x : Z) : Z := x mod 65536.

Section packet.
Context `{!Pnet}.

Definition write_packet_headers (buf : list Z) (ep : RawPacketEndpoints) (payload : list Z) :
    option (list Z) :=
  if bool_decide (blen buf < ETH_HEADER_LEN) then None else
  let eth := eth_update (λ h, mkEthHeader (dest_mac ep) (src_mac ep) ETHERTYPE_IPV4) buf in
  if bool_decide (blen (eth_payload eth) < IPV4_HEADER_LEN) then None else
  let ip := ip_update (λ h, mkIpv4Header 4 (IPV4_HEADER_LEN / 4)
              (as_u16 (IPV4_HEADER_LEN + UDP_HEADER_LEN + blen payload)) 64 PROTOCOL_UDP
              (ih_checksum h) (src_ip ep) (dest_ip ep)) (eth_payload eth) in
  if bool_decide (blen (ip_payload ip) < UDP_HEADER_LEN) then None else
  let udp := udp_set_payload payload
    (udp_update (λ h, mkUdpHeader (src_port ep) (dest_port ep)
                        (as_u16 (UDP_HEADER_LEN + blen payload))) (ip_payload ip)) in
  Some (eth_set_payload (ip_set_payload udp ip) eth).

Definition set_ip_checksum (buf : list Z) : option (list Z) :=
  if bool_decide (blen buf < ETH_HEADER_LEN) then None else
  if bool_decide (blen (eth_payload buf) < IPV4_HEADER_LEN) then None else
  let checksum := ip_checksum (eth_payload buf) in
  Some (eth_set_payload
          (ip_update (λ h, mkIpv4Header (ih_version h) (ih_header_length h)
             (ih_total_length h) (ih_ttl h) (ih_protocol h) checksum (ih_source h)
             (ih_destination h)) (eth_payload buf)) buf).

Definition build_raw_packet (src_mac dest_mac : MacAddr) (src_ip dest_ip : Ipv4Addr)
    (src_port dest_port : Z) (payload : list Z) : Result RouterError (list Z) :=
  if bool_decide (MAX_RAW_PACKET_PAYLOAD < blen payload) then Err PayloadTooLong else
  let total_len := ETH_HEADER_LEN + IPV4_HEADER_LEN + UDP_HEADER_LEN + blen payload in
  let buf := replicate (Z.to_nat total_len) 0 in
  let endpoints := mkRawPacketEndpoints src_mac dest_mac src_ip dest_ip src_port dest_port in
  let? buf := ok_or HeadersNotSerialized (write_packet_headers buf endpoints payload) in
  let? buf := ok_or ChecksumNotComputed (set_ip_checksum buf) in
  Ok buf.

(** [parse_dhcp_payload], with [dhcproto]'s [Message::decode] as an argument. *)
Definition parse_dhcp_payload {Message : Type} (decode : list Z → option Message)
    (buf : list Z) (expected_port : Z) : option Message :=
  if bool_decide (blen buf < ETH_HEADER_LEN) then None else
  if bool_decide (eh_ethertype (eth_header buf) ≠ ETHERTYPE_IPV4) then None else
  let ip := eth_payload buf in
  if bool_decide (blen ip < IPV4_HEADER_LEN) then None else
  if bool_decide (ih_protocol (ip_header ip) ≠ PROTOCOL_UDP) then None else
  let udp := ip_payload ip in
  if bool_decide (blen udp < UDP_HEADER_LEN) then None else
  if bool_decide (uh_destination (udp_header udp) ≠ expected_port) then None else
  decode (udp_payload udp).
End packet.

(** ** What is sent is what is read *)

Section packet_spec.
Context `{!Pnet, !PnetLaws}.
Implicit Types (ep : RawPacketEndpoints) (payload : list Z).

Definition endpoints_wf ep : Prop :=
  mac_wf (src_mac ep) ∧ mac_wf (dest_mac ep) ∧ is_u32 (src_ip ep) ∧ is_u32 (dest_ip ep) ∧
  is_u16 (src_port ep) ∧ is_u16 (dest_port ep).

(** A frame with these endpoints and this payload, and no length field cut
    short. *)
Record frame_of ep payload (frame : list Z) : Prop := {
  fo_len : blen frame = ETH_HEADER_LEN + IPV4_HEADER_LEN + UDP_HEADER_LEN + blen payload;
  fo_eth : eth_header frame = mkEthHeader (dest_mac ep) (src_mac ep) ETHERTYPE_IPV4;
  fo_ip_len : blen (eth_payload frame) = blen frame - ETH_HEADER_LEN;
  fo_ip : ∃ checksum, ip_header (eth_payload frame) =
    mkIpv4Header 4 5 (blen frame - ETH_HEADER_LEN) 64 PROTOCOL_UDP checksum
      (src_ip ep) (dest_ip ep);
  fo_udp_len : blen (ip_payload (eth_payload frame)) = UDP_HEADER_LEN + blen payload;
  fo_udp : udp_header (ip_payload (eth_payload frame)) =
    mkUdpHeader (src_port ep) (dest_port ep) (UDP_HEADER_LEN + blen payload);
  fo_payload : udp_payload (ip_payload (eth_payload frame)) = payload;
}.

Lemma as_u16_small x : 0 ≤ x < 65536 → as_u16 x = x.
Proof. apply Z.mod_small. Qed.

Lemma blen_nonneg (l : list Z) : 0 ≤ blen l.
Proof. unfold blen. lia. Qed.

Ltac lens := unfold ETH_HEADER_LEN, IPV4_HEADER_LEN, UDP_HEADER_LEN,
  MAX_RAW_PACKET_PAYLOAD in *.

Lemma write_packet_headers_frame buf ep payload :
  endpoints_wf ep → blen payload ≤ MAX_RAW_PACKET_PAYLOAD →
  blen buf = ETH_HEADER_LEN + IPV4_HEADER_LEN + UDP_HEADER_LEN + blen payload →
  ∃ frame, write_packet_headers buf ep payload = Some frame ∧ frame_of ep payload frame.
Proof.
  intros (Hsm & Hdm & Hsi & Hdi & Hsp & Hdp) Hmax Hlen. lens.
  pose proof (blen_nonneg payload) as Hp.
  unfold write_packet_headers. lens. rewrite (bool_decide_false (blen buf < 14)) by lia.
  set (fe := λ h : EthHeader, _). set (eth := eth_update fe buf).
  destruct (eth_header_update fe buf) as (He & Hep & Hel); [lens; lia | by split_and! |].
  fold eth in He, Hep, Hel. pose proof (eth_payload_len eth) as Hipl. lens.
  rewrite (bool_decide_false (blen (eth_payload eth) < 20)) by lia. cbv zeta.
  rewrite !as_u16_small by lia. change (20 / 4) with 5.
  set (fi := λ h : Ipv4Header, _). set (ip := ip_update fi (eth_payload eth)).
  destruct (ip_header_update fi (eth_payload eth)) as (Hi & Hil & _); [lens; lia | |].
  { pose proof (ip_header_wf (eth_payload eth)) as Hw. split_and!; simpl; try done || apply Hw.
    unfold is_u. lia. }
  fold ip in Hi, Hil.
  assert (ip_full ip) as Hfull by (split; rewrite Hi; simpl; lia).
  pose proof (ip_payload_len ip) as Hul. lens.
  rewrite (bool_decide_false (blen (ip_payload ip) < 8)) by (rewrite Hul; [lia | lia | done]).
  set (fu := λ h : UdpHeader, _). set (udp := udp_update fu (ip_payload ip)).
  destruct (udp_header_update fu (ip_payload ip)) as (Hu & Hupl & Hulen);
    [lens; rewrite Hul; [lia | lia | done] | by split_and!; unfold fu, is_u; simpl; lia || apply Hsp || apply Hdp |].
  fold udp in Hu, Hupl, Hulen. specialize (Hul ltac:(lia) Hfull).
  pose proof (udp_payload_len udp) as Hpl. lens.
  destruct (udp_payload_set payload udp) as (Hq1 & Hq2 & Hq3); [lens; lia.. |].
  set (udp' := udp_set_payload payload udp) in *.
  destruct (ip_payload_set udp' ip) as (Hr1 & Hr2 & Hr3); [lens; lia | done | lia |].
  set (ip' := ip_set_payload udp' ip) in *.
  destruct (eth_payload_set ip' eth) as (Ht1 & Ht2 & Ht3); [lens; lia | lia |].
  eexists. split; [done |]. split; lens; rewrite ?Ht1, ?Hr1.
  - lia.
  - by rewrite Ht2, He.
  - lia.
  - exists (ih_checksum (ip_header (eth_payload eth))). rewrite Hr2, Hi. unfold fi.
    do 2 f_equal. lia.
  - lia.
  - by rewrite Hq2, Hu.
  - done.
Qed.

Lemma set_ip_checksum_frame ep payload frame :
  frame_of ep payload frame →
  ∃ frame', set_ip_checksum frame = Some frame' ∧ frame_of ep payload frame'.
Proof.
  intros [Hlen Heth Hil (ck & Hip) Hul Hudp Hpl]. lens.
  pose proof (blen_nonneg payload) as Hp.
  unfold set_ip_checksum. lens. rewrite !bool_decide_false by lia. cbv zeta.
  set (fi := λ h : Ipv4Header, _). set (ip := eth_payload frame) in *.
  destruct (ip_header_update fi ip) as (Hi & Hl & Hpay); [lens; lia | |].
  { pose proof (ip_header_wf ip) as Hw. split_and!; simpl; apply Hw || apply ip_checksum_u16. }
  specialize (Hpay eq_refl eq_refl).
  destruct (eth_payload_set (ip_update fi ip) frame) as (Ht1 & Ht2 & Ht3);
    [lens; lia | unfold ip in *; lia |].
  eexists. split; [done |]. split; lens; rewrite ?Ht1, ?Ht2, ?Ht3, ?Hpay; try done || lia.
  exists (ip_checksum ip). by rewrite Hi, Hip.
Qed.

Lemma build_raw_packet_frame ep payload :
  endpoints_wf ep → blen payload ≤ MAX_RAW_PACKET_PAYLOAD →
  ∃ frame,
    build_raw_packet (src_mac ep) (dest_mac ep) (src_ip ep) (dest_ip ep) (src_port ep)
      (dest_port ep) payload = Ok frame ∧ frame_of ep payload frame.
Proof.
  intros Hep Hmax. pose proof (blen_nonneg payload) as Hp.
  unfold build_raw_packet. rewrite bool_decide_false by lia. cbv zeta.
  set (buf := replicate _ 0).
  replace (mkRawPacketEndpoints _ _ _ _ _ _) with ep by (by destruct ep).
  destruct (write_packet_headers_frame buf ep payload) as (f1 & -> & H1); [done.. | |].
  { unfold buf, blen. rewrite length_replicate. lens. lia. }
  simpl. destruct (set_ip_checksum_frame ep payload f1 H1) as (f2 & -> & H2). by exists f2.
Qed.

(** A frame is parsed for its destination port only. *)
Lemma parse_frame_of {Message : Type} (decode : list Z → option Message) ep payload frame port :
  frame_of ep payload frame →
  parse_dhcp_payload decode frame port =
    if decide (port = dest_port ep) then decode payload else None.
Proof.
  intros [Hlen Heth Hil (ck & Hip) Hul Hudp Hpl]. lens.
  pose proof (blen_nonneg payload) as Hp.
  unfold parse_dhcp_payload. lens. rewrite (bool_decide_false (blen frame < 14)) by lia.
  rewrite Heth, Hip, Hudp, Hpl. simpl. rewrite !bool_decide_false by (done || lia).
  case_decide as Hd; [by rewrite bool_decide_false by congruence |].
  by rewrite bool_decide_true by congruence.
Qed.

(** A raw packet that is built is the packet that is read back.
    [build_raw_packet] succeeds exactly for payloads of at most 65507 bytes;
    the frame then has the given addresses and ports in its headers, no length
    field is truncated to 16 bits, and [parse_dhcp_payload] on the frame hands
    exactly the payload to the DHCP decoder when it is asked for the
    destination port, and nothing for any other port. *)
Theorem build_parse_roundtrip {Message : Type} (decode : list Z → option Message)
    ep payload :
  endpoints_wf ep →
  match build_raw_packet (src_mac ep) (dest_mac ep) (src_ip ep) (dest_ip ep) (src_port ep)
          (dest_port ep) payload with
  | Ok frame =>
      blen payload ≤ MAX_RAW_PACKET_PAYLOAD ∧ frame_of ep payload frame ∧
      ∀ port, parse_dhcp_payload decode frame port =
        if decide (port = dest_port ep) then decode payload else None
  | Err e => e = PayloadTooLong ∧ MAX_RAW_PACKET_PAYLOAD < blen payload
  end.
Proof.
  intros Hep. destruct (decide (MAX_RAW_PACKET_PAYLOAD < blen payload)) as [Hbig | Hmax].
  { unfold build_raw_packet. by rewrite bool_decide_true. }
  destruct (build_raw_packet_frame ep payload) as (frame & -> & Hf); [done | lia |].
  split_and!; [lia | done |]. intros port. by apply parse_frame_of.
Qed.
End packet_spec.

(** ** The three formats, byte by byte *)

Module Wire.

(** Byte [i] of a buffer. *)
Definition byte (b : list Z) (i : nat) : Z := nth i b 0 mod 256.
Definition be16 (b : list Z) (i : nat) : Z := u16_from_be_bytes (byte b i) (byte b (S i)).
Definition hi (x : Z) : Z := (u16_to_be_bytes x).1.
Definition lo (x : Z) : Z := (u16_to_be_bytes x).2.
Definition mac_at (b : list Z) (i : nat) : MacAddr :=
  mac6 (byte b i) (byte b (i + 1)) (byte b (i + 2)) (byte b (i + 3)) (byte b (i + 4))
    (byte b (i + 5)).
Definition ip_at (b : list Z) (i : nat) : Ipv4Addr :=
  ipv4 (byte b i) (byte b (i + 1)) (byte b (i + 2)) (byte b (i + 3)).
Definition ip_bytes (ip : Ipv4Addr) : list Z :=
  [octet 0 ip; octet 1 ip; octet 2 ip; octet 3 ip].

Definition read_eth (b : list Z) : EthHeader :=
  mkEthHeader (mac_at b 0) (mac_at b 6) (be16 b 12).
Definition write_eth (h : EthHeader) : list Z :=
  mac_octets (eh_destination h) ++ mac_octets (eh_source h)
  ++ [hi (eh_ethertype h); lo (eh_ethertype h)].

Definition read_ip (b : list Z) : Ipv4Header :=
  mkIpv4Header (Z.shiftr (byte b 0) 4) (Z.land (byte b 0) 15) (be16 b 2) (byte b 8)
    (byte b 9) (be16 b 10) (ip_at b 12) (ip_at b 16).
(** The bytes of a header; those that it does not describe are kept. *)
Definition write_ip (h : Ipv4Header) (b : list Z) : list Z :=
  [Z.lor (Z.shiftl (ih_version h) 4) (ih_header_length h); nth 1 b 0;
   hi (ih_total_length h); lo (ih_total_length h);
   nth 4 b 0; nth 5 b 0; nth 6 b 0; nth 7 b 0; ih_ttl h; ih_protocol h;
   hi (ih_checksum h); lo (ih_checksum h)]
  ++ ip_bytes (ih_source h) ++ ip_bytes (ih_destination h).

Definition read_udp (b : list Z) : UdpHeader := mkUdpHeader (be16 b 0) (be16 b 2) (be16 b 4).
Definition write_udp (h : UdpHeader) (b : list Z) : list Z :=
  [hi (uh_source h); lo (uh_source h); hi (uh_destination h); lo (uh_destination h);
   hi (uh_length h); lo (uh_length h); nth 6 b 0; nth 7 b 0].

(** The header with its options. *)
Definition ip_hlen (b : list Z) : nat :=
  Z.to_nat (Z.max 20 (4 * ih_header_length (read_ip b))).

#[global] Instance wire_pnet : Pnet := {|
  eth_header := read_eth;
  eth_update f b := write_eth (f (read_eth b)) ++ drop 14 b;
  eth_payload b := drop 14 b;
  eth_set_payload p b := take 14 b ++ p;
  ip_header := read_ip;
  ip_update f b := write_ip (f (read_ip b)) b ++ drop 20 b;
  ip_payload b :=
    take (Z.to_nat (ih_total_length (read_ip b)) - ip_hlen b) (drop (ip_hlen b) b);
  ip_set_payload p b := take (ip_hlen b) b ++ p;
  ip_checksum b :=
    let sum := foldr Z.add 0 (be16 b <$> [0; 2; 4; 6; 8; 12; 14; 16; 18]%nat) in
    let fold := λ s, s mod 65536 + s / 65536 in
    (65535 - fold (fold sum)) mod 65536;
  udp_header := read_udp;
  udp_update f b := write_udp (f (read_udp b)) b ++ drop 8 b;
  udp_payload b := drop 8 b;
  udp_set_payload p b := take 8 b ++ p;
|}.

Lemma mod_u8 x : is_u8 x → x mod 256 = x.
Proof. intros H. apply Z.mod_small. unfold is_u in H. lia. Qed.

Lemma byte_u8 b i : is_u8 (byte b i).
Proof. unfold byte, is_u. change (2 ^ 8) with 256. apply Z.mod_pos_bound. lia. Qed.

Lemma byte_range b i : 0 ≤ byte b i ≤ 255.
Proof. unfold byte. pose proof (Z.mod_pos_bound (nth i b 0) 256). lia. Qed.

Lemma hi_lo x : is_u16 x → is_u8 (hi x) ∧ is_u8 (lo x).
Proof.
  intros [H0 H1]. unfold hi, lo, u16_to_be_bytes, is_u. simpl. split.
  - rewrite Z.shiftr_div_pow2 by lia. split; [apply Z.div_pos; lia |].
    apply Z.div_lt_upper_bound; lia.
  - change 255 with (Z.ones 8). rewrite Z.land_ones by lia. apply Z.mod_pos_bound. lia.
Qed.

Lemma hi_lo_id x : is_u16 x → u16_from_be_bytes (hi x mod 256) (lo x mod 256) = x.
Proof. intros H. destruct (hi_lo x H). rewrite !mod_u8 by done. apply u16_be_bytes_id. Qed.

Lemma octet_mod i ip : octet i ip mod 256 = octet i ip.
Proof. apply mod_u8. pose proof (octet_range i ip). unfold is_u. lia. Qed.

Lemma mac_mod m :
  mac_wf m → mac6 (mac0 m mod 256) (mac1 m mod 256) (mac2 m mod 256) (mac3 m mod 256)
    (mac4 m mod 256) (mac5 m mod 256) = m.
Proof.
  unfold mac_wf, mac_octets. rewrite !list.Forall_cons.
  intros (? & ? & ? & ? & ? & ? & _). rewrite !mod_u8 by done. by destruct m.
Qed.

Lemma read_write_eth h rest : eth_wf h → read_eth (write_eth h ++ rest) = h.
Proof.
  destruct h as [d s t]. intros (Hd & Hs & Ht). cbn [eh_destination eh_source eh_ethertype] in *.
  unfold read_eth, write_eth, mac_at, be16, byte, mac_octets.
  cbn [eh_destination eh_source eh_ethertype app nth Nat.add].
  by rewrite !mac_mod, hi_lo_id by done.
Qed.

Lemma nibbles v l :
  is_u 4 v → is_u 4 l → let x := Z.lor (Z.shiftl v 4) l mod 256 in
  Z.shiftr x 4 = v ∧ Z.land x 15 = l.
Proof.
  intros Hv Hl. cbv zeta. assert (forallb (λ v, forallb (λ l,
    let x := Z.lor (Z.shiftl v 4) l mod 256 in
    bool_decide (Z.shiftr x 4 = v) && bool_decide (Z.land x 15 = l)) (seqZ 0 16)) (seqZ 0 16)
    = true) as H by (vm_compute; reflexivity).
  unfold is_u in Hv, Hl. rewrite forallb_forall in H.
  specialize (H v ltac:(apply list_elem_of_In, elem_of_seqZ; lia)).
  rewrite forallb_forall in H. specialize (H l ltac:(apply list_elem_of_In, elem_of_seqZ; lia)).
  by apply andb_true_iff in H as [H1%bool_decide_eq_true H2%bool_decide_eq_true].
Qed.

Lemma read_write_ip h b rest : ip_wf h → read_ip (write_ip h b ++ rest) = h.
Proof.
  destruct h as [v l t ttl pr ck s d]. unfold ip_wf.
  cbn [ih_version ih_header_length ih_total_length ih_ttl ih_protocol ih_checksum ih_source
       ih_destination]. intros (Hv & Hl & Ht & Htt & Hp & Hc & Hs & Hd).
  destruct (nibbles v l Hv Hl) as [N1 N2].
  unfold read_ip, write_ip, ip_at, be16, byte, ip_bytes.
  cbn [ih_version ih_header_length ih_total_length ih_ttl ih_protocol ih_checksum ih_source
       ih_destination app nth Nat.add].
  by rewrite N1, N2, !hi_lo_id, !mod_u8, !octet_mod, !ipv4_octets by done.
Qed.

Lemma read_write_udp h b rest : udp_wf h → read_udp (write_udp h b ++ rest) = h.
Proof.
  destruct h as [s d l]. intros (Hs & Hd & Hl). cbn [uh_source uh_destination uh_length] in *.
  unfold read_udp, write_udp, be16, byte.
  cbn [uh_source uh_destination uh_length app nth Nat.add].
  by rewrite !hi_lo_id by done.
Qed.

(** Reading a header looks at its own bytes only. *)
Lemma nth_take_app (n i : nat) (b p : list Z) :
  (i < n)%nat → (n ≤ length b)%nat → nth i (take n b ++ p) 0 = nth i b 0.
Proof.
  intros Hi Hn. rewrite app_nth1 by (rewrite length_take; lia).
  rewrite <-(take_drop n b) at 2. rewrite app_nth1; [done |]. rewrite length_take. lia.
Qed.

Lemma be16_u16 b i : is_u16 (be16 b i).
Proof.
  unfold be16, u16_from_be_bytes. pose proof (byte_u8 b i). pose proof (byte_u8 b (S i)).
  apply is_u_lor; [lia | |unfold is_u in *; lia].
  unfold is_u in *. rewrite Z.shiftl_mul_pow2 by lia. lia.
Qed.

Lemma ip_at_u32 b i : is_u32 (ip_at b i).
Proof. unfold ip_at. apply ipv4_u32; apply byte_range. Qed.

Lemma read_ip_wf b : ip_wf (read_ip b).
Proof.
  unfold read_ip. pose proof (byte_u8 b 0) as H0.
  unfold ip_wf. cbn [ih_version ih_header_length ih_total_length ih_ttl ih_protocol
    ih_checksum ih_source ih_destination].
  split_and!; [| | apply be16_u16 | apply byte_u8 | apply byte_u8 | apply be16_u16 |
    apply ip_at_u32 | apply ip_at_u32].
  - unfold is_u in *. rewrite Z.shiftr_div_pow2 by lia.
    split; [apply Z.div_pos; lia | apply Z.div_lt_upper_bound; lia].
  - unfold is_u in *. change 15 with (Z.ones 4). rewrite Z.land_ones by lia.
    apply Z.mod_pos_bound. lia.
Qed.

Lemma blen_app_drop (n : nat) (l b : list Z) :
  length l = n → (n ≤ length b)%nat → blen (l ++ drop n b) = blen b.
Proof. intros Hl Hn. unfold blen. rewrite length_app, length_drop. lia. Qed.

Lemma drop_app_drop (n : nat) (l b : list Z) :
  length l = n → drop n (l ++ drop n b) = drop n b.
Proof. intros <-. by rewrite drop_app_length. Qed.

Lemma take_set_payload (n : nat) (p b : list Z) :
  (n ≤ length b)%nat → blen p = blen (drop n b) →
  drop n (take n b ++ p) = p ∧ blen (take n b ++ p) = blen b.
Proof.
  intros Hn Hp. unfold blen in *. rewrite length_drop in Hp. split.
  - rewrite drop_app_length' by (rewrite length_take; lia). done.
  - rewrite length_app, length_take. lia.
Qed.

Lemma read_eth_set p b : (14 ≤ length b)%nat → read_eth (take 14 b ++ p) = read_eth b.
Proof.
  intros H. unfold read_eth, mac_at, be16, byte. by rewrite !nth_take_app by (simpl; lia).
Qed.
Lemma read_ip_set p b : (20 ≤ length b)%nat → read_ip (take 20 b ++ p) = read_ip b.
Proof.
  intros H. unfold read_ip, ip_at, be16, byte. by rewrite !nth_take_app by (simpl; lia).
Qed.
Lemma read_udp_set p b : (8 ≤ length b)%nat → read_udp (take 8 b ++ p) = read_udp b.
Proof.
  intros H. unfold read_udp, be16, byte. by rewrite !nth_take_app by (simpl; lia).
Qed.

Lemma ip_hlen_full b : ip_full b → ip_hlen b = 20%nat.
Proof.
  intros [H _]. unfold ip_hlen. cbn [ip_header wire_pnet] in H. rewrite H. done.
Qed.

(** A full packet's payload is all that follows its header. *)
Lemma ip_payload_full b : ip_full b → ip_payload b = drop 20 b.
Proof.
  intros Hf. cbn [ip_payload wire_pnet]. rewrite ip_hlen_full by done.
  destruct Hf as [_ Ht]. cbn [ip_header wire_pnet] in Ht. rewrite Ht. apply take_ge. rewrite length_drop.
  unfold blen. lia.
Qed.

#[global] Instance wire_pnet_laws : PnetLaws.
Proof.
  split; unfold ETH_HEADER_LEN, IPV4_HEADER_LEN, UDP_HEADER_LEN.
  - intros f b Hb Hw. assert (14 ≤ length b)%nat by (unfold blen in Hb; lia).
    split_and!; [by apply read_write_eth | by apply drop_app_drop | by apply blen_app_drop].
  - intros b Hb. cbn. unfold blen in *. rewrite length_drop. lia.
  - intros p b Hb Hp. assert (14 ≤ length b)%nat by (unfold blen in Hb; lia).
    destruct (take_set_payload 14 p b) as [? ?]; [done.. |].
    split_and!; [done | by apply read_eth_set | done].
  - apply read_ip_wf.
  - intros f b Hb Hw. assert (20 ≤ length b)%nat by (unfold blen in Hb; lia).
    assert (read_ip (write_ip (f (read_ip b)) b ++ drop 20 b) = f (read_ip b)) as Hr
      by (by apply read_write_ip).
    split_and!; [done | by apply blen_app_drop |]. intros H1 H2.
    cbn [ip_header ip_update ip_payload wire_pnet] in *. unfold ip_hlen.
    rewrite Hr, H1, H2. f_equal. set (n := Z.to_nat (Z.max 20 _)).
    rewrite drop_app_ge by (cbn; lia). rewrite drop_drop. f_equal. cbn. lia.
  - intros b Hb Hf. rewrite ip_payload_full by done. unfold blen in *. rewrite length_drop. lia.
  - intros p b Hb Hf Hp. assert (20 ≤ length b)%nat by (unfold blen in Hb; lia).
    rewrite ip_payload_full in Hp by done.
    destruct (take_set_payload 20 p b) as [Hd Hl]; [done.. |].
    assert (ip_set_payload p b = take 20 b ++ p) as Hs
      by (cbn; by rewrite ip_hlen_full).
    assert (ip_header (take 20 b ++ p) = ip_header b) as Hh by (by apply read_ip_set).
    rewrite Hs. split_and!; [|done|done]. rewrite ip_payload_full; [done |].
    unfold ip_full. rewrite Hh, Hl. apply Hf.
  - intros b. cbn. unfold is_u. change (2 ^ 16) with 65536. apply Z.mod_pos_bound. lia.
  - intros f b Hb Hw. assert (8 ≤ length b)%nat by (unfold blen in Hb; lia).
    split_and!; [by apply read_write_udp | by apply drop_app_drop | by apply blen_app_drop].
  - intros b Hb. cbn. unfold blen in *. rewrite length_drop. lia.
  - intros p b Hb Hp. assert (8 ≤ length b)%nat by (unfold blen in Hb; lia).
    destruct (take_set_payload 8 p b) as [? ?]; [done.. |].
    split_and!; [done | by apply read_udp_set | done].
Qed.
End Wire.

Module PacketExample.
Definition server : MacAddr := mac6 2 0 0 0 0 1.
Definition ep : RawPacketEndpoints :=
  mkRawPacketEndpoints server mac_broadcast (ipv4 192 168 7 1) BROADCAST 67 68.
Definition frame : list Z :=
  match build_raw_packet server mac_broadcast (ipv4 192 168 7 1) BROADCAST 67 68 [7; 8; 9] with
  | Ok f => f
  | Err _ => []
  end.

Lemma build_parse_roundtrip_witness :
  build_raw_packet server mac_broadcast (ipv4 192 168 7 1) BROADCAST 67 68 [7; 8; 9]
    = Ok frame ∧
  blen frame = 45 ∧ parse_dhcp_payload Some frame 68 = Some [7; 8; 9] ∧
  parse_dhcp_payload Some frame 67 = None.
Proof.
  assert (endpoints_wf ep) as Hep.
  { split_and!; vm_compute; repeat (constructor; try done). }
  pose proof (build_parse_roundtrip Some ep [7; 8; 9] Hep) as H.
  assert (build_raw_packet server mac_broadcast (ipv4 192 168 7 1) BROADCAST 67 68 [7; 8; 9]
          = Ok frame) as E by (vm_compute; reflexivity).
  cbn [src_mac dest_mac src_ip dest_ip src_port dest_port ep] in H. rewrite E in H.
  destruct H as (_ & Hf & Hport).
  split_and!; [exact E | exact (fo_len _ _ _ Hf) | exact (Hport 68) | exact (Hport 67)].
Defined.
End PacketExample.
