(* ===== verification/Config.v ===== *)
(** * Configuration

    The data types of [src/src/config.rs] and its parser: from the sections
    of [trimrouter.toml] to a validated [RouterConfig].  Each error message of
    the source is one constructor of [ConfigError]. *)

From Stdlib Require Import ZArith Lia.
From stdpp Require Import base gmap list strings.
From S2P Require Import Prelude NetAddr Hostname.

#[local] Open Scope Z_scope.

Inductive ForwardProtocol := Tcp | Udp | Both.
#[global] Instance ForwardProtocol_eq_dec : EqDecision ForwardProtocol.
Proof. solve_decision. Defined.

Record PortForwardRule := mkPortForwardRule {
  protocol : ForwardProtocol;
  external_port : Z;
  internal_ip : Ipv4Addr;
  internal_port : Z;
  description : option str;
}.

Inductive LevelFilter := LOff | LError | LWarn | LInfo | LDebug | LTrace.

Record LoggingConfig := mkLoggingConfig {
  max_log_size_mb : Z;
  level : LevelFilter;
}.

Record StaticLease := mkStaticLease {
  sl_mac : MacAddr;
  sl_ip : Ipv4Addr;
  sl_hostname : option str;
}.
#[global] Instance StaticLease_eq_dec : EqDecision StaticLease.
Proof. solve_decision. Defined.

Record RouterConfig := mkRouterConfig {
  lan_ip : str;
  backup_lan_ip : str;
  wan_mac : MacAddr;
  lan_mac : MacAddr;
  logging : LoggingConfig;
  watchdog : bool;
  dns_servers : list Ipv4Addr;
  static_leases : list StaticLease;
  port_forwards : list PortForwardRule;
}.

(** The sections of the file, as [serde] fills them in. *)

Record LanSection := mkLanSection {
  primary_network : option str;
  fallback_network : option str;
  prefix_length : option Z;
}.

Record PortForwardToml := mkPortForwardToml {
  pf_proto : option str;
  pf_external_port : option Z;
  pf_internal_ip : option str;
  pf_internal_port : option Z;
  pf_description : option str;
}.

Record NetworkSection := mkNetworkSection {
  ns_wan_mac : str;
  ns_lan_mac : str;
  ns_dns_servers : option (list str);
}.

Record DhcpReservationToml := mkDhcpReservationToml {
  dr_mac : str;
  dr_ip : option str;
  dr_hostname : option str;
}.

Record DhcpSection := mkDhcpSection { reservations : option (list DhcpReservationToml) }.
Record DnsSection := mkDnsSection { servers : option (list str) }.
Record SystemSection := mkSystemSection { ss_watchdog : option bool }.
Record LoggingSection := mkLoggingSection {
  ls_max_log_size_mb : option Z;
  ls_level : option str;
}.

Record ConfigToml := mkConfigToml {
  network : NetworkSection;
  lan : option LanSection;
  dhcp : option DhcpSection;
  system : option SystemSection;
  logging_section : option LoggingSection;
  dns : option DnsSection;
  port_forwarding : option (list PortForwardToml);
}.

Inductive NetField := PrimaryNetwork | FallbackNetwork.
Inductive TargetContext := CtxReservation | CtxPortForward.

Inductive ConfigError :=
| ReadFailed | TomlSyntax
| InvalidProtocol
| WanMacInvalid | WanMacNotUnicast | LanMacInvalid | LanMacNotUnicast | MacsNotDistinct
| NetworkEmpty (f : NetField) | PrefixLengthInvalid | NetworkIpInvalid (f : NetField)
| NetworkCidrInvalid (f : NetField) | NetworkIsBroadcast (f : NetField)
| NetworkDerivedInvalid (f : NetField) | NetworksOverlap
| TargetNotLanHost (c : TargetContext) | TargetUnderflow (c : TargetContext)
| TargetOverflow (c : TargetContext) | TargetNotFallbackHost (c : TargetContext)
| LogLevelInvalid
| DnsServerUnparsable | DnsServerInvalid
| ReservationMacInvalid | ReservationMacNotUnicast | ReservationIpMissing
| ReservationIpInvalid | ReservationHostnameInvalid | ReservationHostnameReserved
| ReservationDuplicateHostname | ReservationDuplicateMac | ReservationDuplicateIp
| ExternalPortMissing | ExternalPortZero | InternalIpMissing | InternalIpInvalid
| InternalPortZero
| PortConflictsWithDhcp | DuplicateTcpPort | DuplicateUdpPort.

Definition DEFAULT_PRIMARY_NETWORK : str := lit "192.168.1.0".
Definition DEFAULT_FALLBACK_NETWORK : str := lit "10.0.0.0".
Definition DEFAULT_LAN_PREFIX_LENGTH : Z := 24.
Definition MIN_LAN_PREFIX_LENGTH : Z := 8.
Definition MAX_LAN_PREFIX_LENGTH : Z := 30.
(** [dhcproto::v4::CLIENT_PORT] and [SERVER_PORT]. *)
Definition CLIENT_PORT : Z := 68.
Definition SERVER_PORT : Z := 67.

Definition from_str_protocol (s : str) : Result ConfigError ForwardProtocol :=
  let l := to_ascii_lowercase s in
  if bool_decide (l = lit "tcp") then Ok Tcp
  else if bool_decide (l = lit "udp") then Ok Udp
  else if bool_decide (l = lit "both") || bool_decide (l = lit "tcp+udp")
          || bool_decide (l = lit "tcp,udp") || bool_decide (l = lit "all") then Ok Both
  else Err InvalidProtocol.

Definition is_valid_unicast_mac (mac : MacAddr) : bool :=
  if bool_decide (mac = mac_zero) || bool_decide (mac = mac_broadcast) then false
  else bool_decide (Z.land (mac0 mac) 1 = 0).

Definition is_tcp (p : ForwardProtocol) : bool :=
  bool_decide (p = Tcp) || bool_decide (p = Both).
Definition is_udp (p : ForwardProtocol) : bool :=
  bool_decide (p = Udp) || bool_decide (p = Both).

(** [HashSet::insert]: the new set, and whether the value was not there. *)
Definition set_insert {A} `{Countable A} (x : A) (s : gset A) : gset A * bool :=
  ({[x]} ∪ s, bool_decide (x ∉ s)).

Section config.
(** [ipnet::Ipv4Net], and the parsers of other crates: [MacAddr::from_str]
    (pnet), [LevelFilter::from_str] (log) and [toml::from_str]. *)
Context {Net : Type} `{!Ipv4NetOps Net}.
Context (mac_from_str : str → option MacAddr).
Context (level_from_str : str → option LevelFilter).
Context (toml_from_str : str → option ConfigToml).

Definition parse_mac_addresses (net : NetworkSection) :
    Result ConfigError (MacAddr * MacAddr) :=
  let? wan := ok_or WanMacInvalid (mac_from_str (ns_wan_mac net)) in
  let? _ := ensure (is_valid_unicast_mac wan) WanMacNotUnicast in
  let? lan := ok_or LanMacInvalid (mac_from_str (ns_lan_mac net)) in
  let? _ := ensure (is_valid_unicast_mac lan) LanMacNotUnicast in
  let? _ := ensure (bool_decide (wan ≠ lan)) MacsNotDistinct in
  Ok (wan, lan).

Definition parse_lan_network (raw_str : option str) (prefix_len : Z)
    (default_network : str) (field : NetField) : Result ConfigError (Net * str) :=
  let input := trim (default default_network raw_str) in
  let? _ := ensure (bool_decide (input ≠ [])) (NetworkEmpty field) in
  let? _ := ensure (bool_decide
              (MIN_LAN_PREFIX_LENGTH ≤ prefix_len ≤ MAX_LAN_PREFIX_LENGTH))
              PrefixLengthInvalid in
  let? base_ip := ok_or (NetworkIpInvalid field) (ipv4_from_str input) in
  let? net := ok_or (NetworkCidrInvalid field)
                (net_new (Net := Net) base_ip prefix_len) in
  let? gateway_ip :=
    (if bool_decide (base_ip = net_network net) then Ok (net_network net + 1)
     else if bool_decide (base_ip = net_broadcast net)
     then Err (NetworkIsBroadcast field)
     else Ok base_ip) in
  let full_cidr_str := cidr_display gateway_ip prefix_len in
  let? gateway_net := ok_or (NetworkDerivedInvalid field)
                        (net_new gateway_ip prefix_len) in
  Ok (gateway_net, full_cidr_str).

Definition parse_lan_subnets (lan_sec : option LanSection) :
    Result ConfigError (Net * Net * str * str) :=
  let prefix_length := default DEFAULT_LAN_PREFIX_LENGTH
                         (l ← lan_sec; prefix_length l) in
  let primary_raw := (l ← lan_sec; primary_network l) in
  let fallback_raw := (l ← lan_sec; fallback_network l) in
  let? p := parse_lan_network primary_raw prefix_length
              DEFAULT_PRIMARY_NETWORK PrimaryNetwork in
  let? b := parse_lan_network fallback_raw prefix_length
              DEFAULT_FALLBACK_NETWORK FallbackNetwork in
  let '(lan_net, lan_ip) := p in
  let '(backup_net, backup_lan_ip) := b in
  if net_contains lan_net (net_network backup_net)
     || net_contains backup_net (net_network lan_net)
  then Err NetworksOverlap
  else Ok (lan_net, backup_net, lan_ip, backup_lan_ip).

Definition validate_target_ip (ip : Ipv4Addr) (lan_net backup_net : Net)
    (context : TargetContext) : Result ConfigError unit :=
  let? _ := ensure (negb (negb (net_contains lan_net ip)
              || bool_decide (ip = net_network lan_net)
              || bool_decide (ip = net_broadcast lan_net)
              || bool_decide (ip = net_addr lan_net))) (TargetNotLanHost context) in
  let? offset := ok_or (TargetUnderflow context)
                   (u32_checked_sub ip (net_network lan_net)) in
  let? backup_ip := ok_or (TargetOverflow context)
                      (u32_checked_add (net_network backup_net) offset) in
  ensure (negb (negb (net_contains backup_net backup_ip)
    || bool_decide (backup_ip = net_network backup_net)
    || bool_decide (backup_ip = net_broadcast backup_net)
    || bool_decide (backup_ip = net_addr backup_net))) (TargetNotFallbackHost context).

Definition parse_logging_config (logging : option LoggingSection) :
    Result ConfigError LoggingConfig :=
  let max_log_size_mb := Z.max (default 100 (l ← logging; ls_max_log_size_mb l)) 1 in
  let? level :=
    match (l ← logging; ls_level l) with
    | Some lvl_str => ok_or LogLevelInvalid (level_from_str lvl_str)
    | None => Ok LInfo
    end in
  Ok (mkLoggingConfig max_log_size_mb level).

(** The loop of [parse_dns_servers]. *)
Fixpoint dns_servers_loop (raw_list : list str) (parsed_ips : list Ipv4Addr) :
    Result ConfigError (list Ipv4Addr) :=
  match raw_list with
  | [] => Ok parsed_ips
  | ip_str :: rest =>
      let? ip := ok_or DnsServerUnparsable (ipv4_from_str (trim ip_str)) in
      let? _ := ensure (is_valid_upstream_resolver ip) DnsServerInvalid in
      dns_servers_loop rest
        (if bool_decide (ip ∈ parsed_ips) then parsed_ips else parsed_ips ++ [ip])
  end.

Definition parse_dns_servers (net : NetworkSection) (dns : option DnsSection) :
    Result ConfigError (list Ipv4Addr) :=
  let raw_list := match ns_dns_servers net with
                  | Some l => Some l
                  | None => d ← dns; servers d
                  end in
  match raw_list with
  | None => Ok []
  | Some raw_list => dns_servers_loop raw_list []
  end.

(** The optional host name of a reservation, with the set of names seen. *)
Definition reservation_hostname (raw : option str) (seen : gset str) :
    Result ConfigError (option str * gset str) :=
  match raw with
  | None => Ok (None, seen)
  | Some raw_host =>
      let? sanitized := ok_or ReservationHostnameInvalid (sanitize_hostname raw_host) in
      let? _ := ensure (bool_decide (sanitized ≠ ROUTER_HOSTNAME))
                  ReservationHostnameReserved in
      let '(seen', fresh) := set_insert sanitized seen in
      let? _ := ensure fresh ReservationDuplicateHostname in
      Ok (Some sanitized, seen')
  end.

(** The loop of [parse_dhcp_reservations]. *)
Fixpoint reservations_loop (lan_net backup_net : Net)
    (l : list DhcpReservationToml) (static_leases : list StaticLease)
    (seen_macs : gset MacAddr) (seen_ips : gset Ipv4Addr) (seen_hostnames : gset str) :
    Result ConfigError (list StaticLease) :=
  match l with
  | [] => Ok static_leases
  | res :: rest =>
      let? mac := ok_or ReservationMacInvalid (mac_from_str (dr_mac res)) in
      let? _ := ensure (is_valid_unicast_mac mac) ReservationMacNotUnicast in
      let? ip_str := ok_or ReservationIpMissing (dr_ip res) in
      let? ip := ok_or ReservationIpInvalid (ipv4_from_str (trim ip_str)) in
      let? _ := validate_target_ip ip lan_net backup_net CtxReservation in
      let? hs := reservation_hostname (dr_hostname res) seen_hostnames in
      let '(hostname, seen_hostnames') := hs in
      let '(seen_macs', fresh_mac) := set_insert mac seen_macs in
      let? _ := ensure fresh_mac ReservationDuplicateMac in
      let '(seen_ips', fresh_ip) := set_insert ip seen_ips in
      let? _ := ensure fresh_ip ReservationDuplicateIp in
      reservations_loop lan_net backup_net rest
        (static_leases ++ [mkStaticLease mac ip hostname])
        seen_macs' seen_ips' seen_hostnames'
  end.

Definition parse_dhcp_reservations (dhcp : option DhcpSection) (lan_net backup_net : Net) :
    Result ConfigError (list StaticLease) :=
  match dhcp with
  | None => Ok []
  | Some dhcp_sec =>
      match reservations dhcp_sec with
      | None => Ok []
      | Some l => reservations_loop lan_net backup_net l [] ∅ ∅ ∅
      end
  end.

Definition validate_and_build_port_forward_rule (raw : PortForwardToml)
    (lan_net backup_net : Net) : Result ConfigError PortForwardRule :=
  let? protocol := from_str_protocol (default (lit "tcp") (pf_proto raw)) in
  let? external_port := ok_or ExternalPortMissing (pf_external_port raw) in
  let? _ := ensure (bool_decide (external_port ≠ 0)) ExternalPortZero in
  let? ip_str := ok_or InternalIpMissing (pf_internal_ip raw) in
  let? internal_ip := ok_or InternalIpInvalid (ipv4_from_str (trim ip_str)) in
  let? _ := validate_target_ip internal_ip lan_net backup_net CtxPortForward in
  let internal_port := default external_port (pf_internal_port raw) in
  let? _ := ensure (bool_decide (internal_port ≠ 0)) InternalPortZero in
  Ok (mkPortForwardRule protocol external_port internal_ip internal_port
        (pf_description raw)).

Definition check_port_forward_conflicts (rule : PortForwardRule)
    (bound_tcp_ports bound_udp_ports : gset Z) :
    Result ConfigError (gset Z * gset Z) :=
  let? _ := ensure (negb (is_udp (protocol rule)
              && bool_decide (external_port rule = CLIENT_PORT))) PortConflictsWithDhcp in
  let? tcp :=
    (if is_tcp (protocol rule)
     then let '(s, fresh) := set_insert (external_port rule) bound_tcp_ports in
          let? _ := ensure fresh DuplicateTcpPort in Ok s
     else Ok bound_tcp_ports) in
  let? udp :=
    (if is_udp (protocol rule)
     then let '(s, fresh) := set_insert (external_port rule) bound_udp_ports in
          let? _ := ensure fresh DuplicateUdpPort in Ok s
     else Ok bound_udp_ports) in
  Ok (tcp, udp).

(** The loop of [parse_port_forward_rules]. *)
Fixpoint port_forward_loop (lan_net backup_net : Net) (raws : list PortForwardToml)
    (rules : list PortForwardRule) (tcp udp : gset Z) :
    Result ConfigError (list PortForwardRule) :=
  match raws with
  | [] => Ok rules
  | raw :: rest =>
      let? rule := validate_and_build_port_forward_rule raw lan_net backup_net in
      let? ports := check_port_forward_conflicts rule tcp udp in
      port_forward_loop lan_net backup_net rest (rules ++ [rule]) ports.1 ports.2
  end.

Definition parse_port_forward_rules (config_toml : ConfigToml)
    (lan_net backup_net : Net) : Result ConfigError (list PortForwardRule) :=
  port_forward_loop lan_net backup_net
    (default [] (port_forwarding config_toml)) [] ∅ ∅.

(** [RouterConfig::parse]; the argument is what [read_config_file] returned. *)
Definition RouterConfig_parse (file : option str) : Result ConfigError RouterConfig :=
  let? content := ok_or ReadFailed file in
  let? parsed := ok_or TomlSyntax (toml_from_str content) in
  let? macs := parse_mac_addresses (network parsed) in
  let? dns_servers := parse_dns_servers (network parsed) (dns parsed) in
  let? subnets := parse_lan_subnets (lan parsed) in
  let '(lan_net, backup_net, lan_ip, backup_lan_ip) := subnets in
  let? static_leases := parse_dhcp_reservations (dhcp parsed) lan_net backup_net in
  let? port_forwards := parse_port_forward_rules parsed lan_net backup_net in
  let? logging := parse_logging_config (logging_section parsed) in
  let watchdog := default true (s ← system parsed; ss_watchdog s) in
  Ok (mkRouterConfig lan_ip backup_lan_ip macs.1 macs.2 logging watchdog
        dns_servers static_leases port_forwards).
End config.

(** ** What a parsed configuration guarantees *)

Section config_spec.
Context {Net : Type} `{!Ipv4NetOps Net, !Ipv4NetLaws Net}.

(** A host address of a subnet that is not the router's own. *)
Definition lan_host (net : Net) (ip : Ipv4Addr) : Prop :=
  net_contains net ip = true ∧ ip ≠ net_network net ∧ ip ≠ net_broadcast net ∧
  ip ≠ net_addr net.

(** [ip] is a client address on the primary subnet, and the address with
    the same host offset is one on the fallback subnet. *)
Definition target_ok (lan backup : Net) (ip : Ipv4Addr) : Prop :=
  lan_host lan ip ∧
  lan_host backup (net_network backup + (ip - net_network lan)).

Definition lease_ok (lan backup : Net) (l : StaticLease) : Prop :=
  is_valid_unicast_mac (sl_mac l) = true ∧ target_ok lan backup (sl_ip l) ∧
  match sl_hostname l with
  | Some h => valid_label h ∧ h ≠ ROUTER_HOSTNAME
  | None => True
  end.

Definition rule_ok (lan backup : Net) (r : PortForwardRule) : Prop :=
  external_port r ≠ 0 ∧ internal_port r ≠ 0 ∧ target_ok lan backup (internal_ip r) ∧
  (is_udp (protocol r) = true → external_port r ≠ CLIENT_PORT).

(** The external ports a list of rules binds, per transport. *)
Definition tcp_ports (rs : list PortForwardRule) : list Z :=
  external_port <$> filter (λ r, is_tcp (protocol r) = true) rs.
Definition udp_ports (rs : list PortForwardRule) : list Z :=
  external_port <$> filter (λ r, is_udp (protocol r) = true) rs.

(** No two reservations share a MAC, an address or a name, and no external
    port is bound twice for one transport. *)
Definition leases_ok (lan backup : Net) (ls : list StaticLease) : Prop :=
  Forall (lease_ok lan backup) ls ∧ NoDup (sl_mac <$> ls) ∧
  NoDup (sl_ip <$> ls) ∧ NoDup (omap sl_hostname ls).

Definition rules_ok (lan backup : Net) (rs : list PortForwardRule) : Prop :=
  Forall (rule_ok lan backup) rs ∧ NoDup (tcp_ports rs) ∧ NoDup (udp_ports rs).

Record valid_config (lan backup : Net) (c : RouterConfig) : Prop := {
  vc_lan : net_parse (lan_ip c) = Some lan;
  vc_backup : net_parse (backup_lan_ip c) = Some backup;
  vc_prefix : net_prefix_len backup = net_prefix_len lan ∧
              8 ≤ net_prefix_len lan ≤ 30;
  vc_gateways : (net_addr lan ≠ net_network lan ∧ net_addr lan ≠ net_broadcast lan) ∧
                (net_addr backup ≠ net_network backup ∧
                 net_addr backup ≠ net_broadcast backup);
  vc_disjoint : ∀ ip, ¬ (net_contains lan ip = true ∧ net_contains backup ip = true);
  vc_macs : is_valid_unicast_mac (wan_mac c) = true ∧
            is_valid_unicast_mac (lan_mac c) = true ∧ wan_mac c ≠ lan_mac c;
  vc_dns : Forall (λ ip, is_valid_upstream_resolver ip = true) (dns_servers c) ∧
           NoDup (dns_servers c);
  vc_leases : leases_ok lan backup (static_leases c);
  vc_forwards : rules_ok lan backup (port_forwards c);
  vc_log : 1 ≤ max_log_size_mb (logging c);
}.

Lemma lan_host_iff (net : Net) ip :
  negb (negb (net_contains net ip) || bool_decide (ip = net_network net)
    || bool_decide (ip = net_broadcast net) || bool_decide (ip = net_addr net)) = true
  ↔ lan_host net ip.
Proof.
  unfold lan_host. rewrite negb_true_iff, !orb_false_iff, negb_false_iff.
  rewrite !bool_decide_eq_false. tauto.
Qed.

Lemma validate_target_ip_Ok ip (lan backup : Net) ctx :
  validate_target_ip ip lan backup ctx = Ok tt ↔ target_ok lan backup ip.
Proof.
  unfold validate_target_ip, target_ok. rewrite <-!lan_host_iff. split.
  - intros H. inv_ok.
    apply u32_checked_sub_Some in H1 as [_ ->].
    by apply u32_checked_add_Some in H2 as [_ ->].
  - intros [H1 H2]. pose proof (proj1 (lan_host_iff _ _) H1) as (Hc & _).
    pose proof (proj1 (lan_host_iff _ _) H2) as (Hc2 & _).
    apply net_contains_iff in Hc, Hc2.
    pose proof (net_broadcast_le_max backup).
    rewrite H1. unfold u32_checked_sub, u32_checked_add. simpl.
    rewrite (decide_True (P := net_network lan ≤ ip)) by lia. simpl.
    rewrite decide_True by lia. simpl. by rewrite H2.
Qed.

Lemma parse_lan_network_Ok raw p def f (net : Net) s :
  parse_lan_network raw p def f = Ok (net, s) →
  net_parse s = Some net ∧ net_prefix_len net = p ∧ 8 ≤ p ≤ 30 ∧
  net_addr net ≠ net_network net ∧ net_addr net ≠ net_broadcast net.
Proof.
  unfold parse_lan_network. intros H. inv_ok. simplify_eq.
  unfold MIN_LAN_PREFIX_LENGTH, MAX_LAN_PREFIX_LENGTH in *.
  rename x1 into base. rename x2 into n0. rename x3 into gw.
  assert (is_u32 base) as Hb by eauto using ipv4_from_str_u32.
  assert (net_addr n0 = base ∧ net_prefix_len n0 = p) as [Ha Hp]
    by (apply net_new_eq; [done | lia | done]).
  assert (4 ≤ block p) as Hblk.
  { unfold block. change 4 with (2 ^ 2). apply Z.pow_le_mono_r; lia. }
  pose proof (net_broadcast_eq n0) as Hbc. rewrite Hp in Hbc.
  pose proof (net_contains_addr n0) as Hca. apply net_contains_iff in Hca.
  assert (net_network n0 < gw < net_broadcast n0) as Hgw.
  { repeat case_bool_decide; simplify_eq/=; lia. }
  pose proof (net_network_nonneg n0). pose proof (net_broadcast_le_max n0).
  unfold u32_max in *. assert (is_u32 gw) as Hgu by (unfold is_u; lia).
  destruct (net_new_eq gw p net) as [Hna Hnp]; [done | lia | done |].
  assert (net_network net = net_network n0) as Hnn.
  { rewrite net_network_eq, Hna, Hnp, <-Hp.
    symmetry. apply net_contains_base, net_contains_iff. lia. }
  assert (net_broadcast net = net_broadcast n0) as Hnb.
  { by rewrite !net_broadcast_eq, Hnn, Hnp, Hp. }
  split_and!; [|done|lia|lia|lia|lia].
  by rewrite net_parse_cidr by (done || unfold is_u; lia).
Qed.

Lemma dns_servers_loop_Ok raws acc out :
  dns_servers_loop raws acc = Ok out →
  Forall (λ ip, is_valid_upstream_resolver ip = true) acc → NoDup acc →
  Forall (λ ip, is_valid_upstream_resolver ip = true) out ∧ NoDup out.
Proof.
  revert acc. induction raws as [|r raws IH]; simpl; intros acc H Hf Hn.
  { by inv_ok; subst. }
  inv_ok. apply IH in H; [done | |]; case_bool_decide; try done.
  - by apply Forall_app; split; [|constructor].
  - by apply NoDup_snoc.
Qed.

Lemma parse_dns_servers_Ok net dns out :
  parse_dns_servers net dns = Ok out →
  Forall (λ ip, is_valid_upstream_resolver ip = true) out ∧ NoDup out.
Proof.
  unfold parse_dns_servers. cbv zeta.
  generalize (match ns_dns_servers net with
              | Some l => Some l | None => d ← dns; servers d end).
  intros [l|].
  - intros H. apply dns_servers_loop_Ok in H; [done | constructor..].
  - intros [= <-]. split; constructor.
Qed.

Lemma reservation_hostname_Ok raw seen h seen' :
  reservation_hostname raw seen = Ok (h, seen') →
  match h with
  | Some n =>
      valid_label n ∧ n ≠ ROUTER_HOSTNAME ∧ (n ∉ seen) ∧ seen' = {[n]} ∪ seen
  | None => seen' = seen
  end.
Proof.
  unfold reservation_hostname. destruct raw as [raw|]; simpl; intros H; inv_ok; simplify_eq.
  - split_and!; eauto using sanitize_hostname_label.
  - done.
Qed.

Context (mac_from_str : str → option MacAddr).
Context (level_from_str : str → option LevelFilter).
Context (toml_from_str : str → option ConfigToml).

Lemma reservations_loop_Ok (lan backup : Net) l acc ms ips hs out :
  reservations_loop mac_from_str lan backup l acc ms ips hs = Ok out →
  leases_ok lan backup acc →
  (∀ m, m ∈ sl_mac <$> acc → m ∈ ms) → (∀ i, i ∈ sl_ip <$> acc → i ∈ ips) →
  (∀ h, h ∈ omap sl_hostname acc → h ∈ hs) →
  leases_ok lan backup out.
Proof.
  revert acc ms ips hs. induction l as [|r l IH]; intros acc ms ips hs H; cbn in H.
  { inv_ok. by subst. }
  inv_ok. intros (Hf & Hm & Hi & Hh) Im Ii Ih.
  match goal with H : validate_target_ip _ _ _ _ = Ok _ |- _ =>
    apply validate_target_ip_Ok in H end.
  match goal with H : reservation_hostname _ _ = Ok _ |- _ =>
    apply reservation_hostname_Ok in H as Hho end.
  simpl in H.
  eapply IH; [exact H | | | |]; clear H IH.
  - unfold leases_ok. rewrite !fmap_app, omap_app. cbn [fmap list_fmap].
    rewrite !NoDup_snoc. split_and!; try done.
    + apply Forall_app; split; [done |]. constructor; [|done].
      split_and!; simpl; [done.. |]. destruct o; [|done].
      by destruct Hho as (? & ? & _).
    + by intros Hin%Im.
    + by intros Hin%Ii.
    + destruct o as [n|]; simpl; [|by rewrite app_nil_r].
      apply NoDup_snoc. split; [done |]. intros Hin%Ih.
      by destruct Hho as (_ & _ & ? & _).
  - intros m. rewrite fmap_app, elem_of_app. set_solver.
  - intros i. rewrite fmap_app, elem_of_app. set_solver.
  - intros h. rewrite omap_app, elem_of_app. destruct o; set_solver.
Qed.

Lemma parse_dhcp_reservations_Ok dhcp (lan backup : Net) out :
  parse_dhcp_reservations mac_from_str dhcp lan backup = Ok out →
  leases_ok lan backup out.
Proof.
  assert (leases_ok lan backup []) as Hnil by (split_and!; constructor).
  unfold parse_dhcp_reservations. destruct dhcp as [d|]; [|by intros [= <-]].
  destruct (reservations d); [|by intros [= <-]].
  intros H. eapply reservations_loop_Ok; [done | done | set_solver..].
Qed.

Lemma tcp_ports_snoc rs r :
  tcp_ports (rs ++ [r]) =
  tcp_ports rs ++ (if is_tcp (protocol r) then [external_port r] else []).
Proof.
  unfold tcp_ports. rewrite filter_app, fmap_app. f_equal.
  rewrite filter_cons. destruct (is_tcp (protocol r));
    [by rewrite decide_True | by rewrite decide_False].
Qed.
Lemma udp_ports_snoc rs r :
  udp_ports (rs ++ [r]) =
  udp_ports rs ++ (if is_udp (protocol r) then [external_port r] else []).
Proof.
  unfold udp_ports. rewrite filter_app, fmap_app. f_equal.
  rewrite filter_cons. destruct (is_udp (protocol r));
    [by rewrite decide_True | by rewrite decide_False].
Qed.

(** Registering a port of one transport: the new set, and freshness. *)
Lemma register_port_Ok (b : bool) p (s s' : gset Z) (e : ConfigError) :
  (if b then let '(s1, fresh) := set_insert p s in
             let? _ := ensure fresh e in Ok s1
   else Ok s) = Ok s' →
  s' = (if b then {[p]} ∪ s else s) ∧ (b = true → p ∉ s).
Proof. destruct b; simpl; intros H; inv_ok; by simplify_eq. Qed.

Lemma port_forward_loop_Ok (lan backup : Net) raws acc tcp udp out :
  port_forward_loop lan backup raws acc tcp udp = Ok out →
  rules_ok lan backup acc →
  (∀ p, p ∈ tcp_ports acc → p ∈ tcp) → (∀ p, p ∈ udp_ports acc → p ∈ udp) →
  rules_ok lan backup out.
Proof.
  revert acc tcp udp. induction raws as [|r raws IH]; intros acc tcp udp H; cbn in H.
  { inv_ok. by subst. }
  apply bind_Ok in H as (rule & Hr & H). apply bind_Ok in H as ([tcp' udp'] & Hc & H).
  intros (Hf & Ht & Hu) It Iu.
  unfold check_port_forward_conflicts in Hc. apply bind_Ok in Hc as ([] & Hd & Hc).
  apply ensure_Ok in Hd. apply bind_Ok in Hc as (t1 & Ht1 & Hc).
  apply bind_Ok in Hc as (u1 & Hu1 & [= <- <-]).
  apply register_port_Ok in Ht1 as [-> Ht1], Hu1 as [-> Hu1].
  assert (rule_ok lan backup rule) as Hrule.
  { unfold validate_and_build_port_forward_rule in Hr. inv_ok. subst rule.
    match goal with H : validate_target_ip _ _ _ _ = Ok _ |- _ =>
      apply validate_target_ip_Ok in H end.
    split_and!; simpl in *; try done. intros Hudp Hp. by rewrite Hudp, Hp in Hd. }
  eapply IH; [exact H | | |].
  - unfold rules_ok. rewrite tcp_ports_snoc, udp_ports_snoc. split_and!.
    + apply Forall_app; split; [done | by constructor].
    + destruct (is_tcp _); [|by rewrite app_nil_r]. apply NoDup_snoc.
      split; [done |]. intros Hin%It. by apply Ht1.
    + destruct (is_udp _); [|by rewrite app_nil_r]. apply NoDup_snoc.
      split; [done |]. intros Hin%Iu. by apply Hu1.
  - intros p. rewrite tcp_ports_snoc. simpl. destruct (is_tcp _); set_solver.
  - intros p. rewrite udp_ports_snoc. simpl. destruct (is_udp _); set_solver.
Qed.

Lemma parse_mac_addresses_Ok net w l :
  parse_mac_addresses mac_from_str net = Ok (w, l) →
  is_valid_unicast_mac w = true ∧ is_valid_unicast_mac l = true ∧ w ≠ l.
Proof. unfold parse_mac_addresses. intros H. inv_ok. by simplify_eq. Qed.

Lemma parse_lan_subnets_Ok sec (lan backup : Net) s1 s2 :
  parse_lan_subnets sec = Ok (lan, backup, s1, s2) →
  net_parse s1 = Some lan ∧ net_parse s2 = Some backup ∧
  (net_prefix_len backup = net_prefix_len lan ∧ 8 ≤ net_prefix_len lan ≤ 30) ∧
  ((net_addr lan ≠ net_network lan ∧ net_addr lan ≠ net_broadcast lan) ∧
   (net_addr backup ≠ net_network backup ∧ net_addr backup ≠ net_broadcast backup)) ∧
  ∀ ip, ¬ (net_contains lan ip = true ∧ net_contains backup ip = true).
Proof.
  unfold parse_lan_subnets. cbv zeta. intros H.
  apply bind_Ok in H as ([n1 t1] & H1 & H). apply bind_Ok in H as ([n2 t2] & H2 & H).
  destruct (_ || _) eqn:Ho in H; [done |]. injection H as -> -> -> ->.
  apply orb_false_iff in Ho as [Ho1 Ho2].
  apply parse_lan_network_Ok in H1 as (? & Hp1 & ? & ? & ?).
  apply parse_lan_network_Ok in H2 as (? & Hp2 & ? & ? & ?).
  split_and!; [done | done | congruence | lia | lia | done | done | done | done |].
  intros ip Hip.
  destruct (proj1 (subnets_share_iff lan backup)) as [Hs | Hs];
    [by exists ip | congruence..].
Qed.

Lemma RouterConfig_parse_Ok (file : option str) (c : RouterConfig) :
  RouterConfig_parse (Net := Net) mac_from_str level_from_str toml_from_str file = Ok c →
  ∃ lan backup : Net, valid_config lan backup c.
Proof.
  unfold RouterConfig_parse. intros H.
  apply bind_Ok in H as (content & _ & H). apply bind_Ok in H as (t & _ & H).
  apply bind_Ok in H as ([w l] & Hmac & H). apply bind_Ok in H as (dnss & Hdns & H).
  apply bind_Ok in H as ([[[lan backup] s1] s2] & Hsub & H).
  apply bind_Ok in H as (ls & Hls & H). apply bind_Ok in H as (rs & Hrs & H).
  apply bind_Ok in H as (lg & Hlg & [= <-]).
  apply parse_mac_addresses_Ok in Hmac. apply parse_dns_servers_Ok in Hdns.
  apply parse_lan_subnets_Ok in Hsub as (? & ? & ? & ? & ?).
  apply parse_dhcp_reservations_Ok in Hls.
  assert (rules_ok lan backup rs) as Hrules.
  { eapply port_forward_loop_Ok; [exact Hrs | | set_solver..].
    split_and!; constructor. }
  exists lan, backup. split; simpl; try done.
  unfold parse_logging_config in Hlg. cbv zeta in Hlg. inv_ok. subst. simpl. lia.
Qed.

(** C3: whatever the configuration file holds, if [RouterConfig::parse]
    accepts it then the configuration is coherent: the two LAN networks
    parse back from the stored CIDR strings, have the same prefix length
    (8 to 30), have gateways that are neither their network nor their
    broadcast address and share no address; the two interface MACs are
    distinct unicast addresses; the resolvers are valid and distinct; every
    reservation and every port-forward target is a client address on the
    primary network whose translation is one on the fallback network; no
    two reservations share a MAC, an address or a host name; no reserved
    name is the router's; and no external port is bound twice for one
    transport or collides with the DHCP client. *)
Theorem RouterConfig_parse_valid (file : option str) (c : RouterConfig) :
  RouterConfig_parse (Net := Net) mac_from_str level_from_str toml_from_str file = Ok c →
  ∃ lan backup : Net, valid_config lan backup c.
Proof. apply RouterConfig_parse_Ok. Qed.
End config_spec.

(** A file with one reservation and one rule, and stand-ins for the parsers of
    the other crates that read it. *)
Module Example.
Definition mac_of_tag (s : str) : option MacAddr :=
  match s with
  | [t] => Some (mac6 2 0 0 0 0 t)
  | _ => None
  end.
Definition no_level (s : str) : option LevelFilter := None.
Definition sections : ConfigToml :=
  mkConfigToml (mkNetworkSection [1] [2] (Some [lit "1.1.1.1"; lit " 9.9.9.9 "]))
    (Some (mkLanSection (Some (lit "192.168.7.0")) None (Some 24)))
    (Some (mkDhcpSection (Some [mkDhcpReservationToml [3] (Some (lit "192.168.7.20"))
                                  (Some (lit "NAS.home"))])))
    None None None
    (Some [mkPortForwardToml (Some (lit "Both")) (Some 8080)
             (Some (lit "192.168.7.20")) None None]).
Definition toml_of (s : str) : option ConfigToml := Some sections.

Definition parsed : RouterConfig :=
  mkRouterConfig (lit "192.168.7.1/24") (lit "10.0.0.1/24")
    (mac6 2 0 0 0 0 1) (mac6 2 0 0 0 0 2) (mkLoggingConfig 100 LInfo) true
    [ipv4 1 1 1 1; ipv4 9 9 9 9]
    [mkStaticLease (mac6 2 0 0 0 0 3) (ipv4 192 168 7 20) (Some (lit "nas"))]
    [mkPortForwardRule Both 8080 (ipv4 192 168 7 20) 8080 None].

Definition lan_net : IpNet := mkIpNet (ipv4 192 168 7 1) 24 eq_refl.
Definition backup_net : IpNet := mkIpNet (ipv4 10 0 0 1) 24 eq_refl.

Lemma parsed_valid : valid_config lan_net backup_net parsed.
Proof.
  destruct (RouterConfig_parse_Ok (Net := IpNet) mac_of_tag no_level toml_of (Some []) parsed)
    as (l & b & H); [vm_compute; reflexivity |].
  assert (l = lan_net) as ->.
  { apply (inj Some). rewrite <-(vc_lan _ _ _ H). vm_compute. reflexivity. }
  assert (b = backup_net) as ->; [|done].
  apply (inj Some). rewrite <-(vc_backup _ _ _ H). vm_compute. reflexivity.
Qed.

Lemma RouterConfig_parse_valid_witness :
  RouterConfig_parse (Net := IpNet) mac_of_tag no_level toml_of (Some []) = Ok parsed ∧
  ∃ lan backup : IpNet, valid_config lan backup parsed.
Proof.
  assert (RouterConfig_parse (Net := IpNet) mac_of_tag no_level toml_of (Some [])
          = Ok parsed) as H by (vm_compute; reflexivity).
  split; [exact H |].
  exact (RouterConfig_parse_valid mac_of_tag no_level toml_of (Some []) parsed H).
Defined.
End Example.
