(* ===== verification/Text.v ===== *)
(** * Text

    The methods of Rust strings that several components use: searching,
    splitting, lines, slices by bytes and numbers. *)

From Stdlib Require Import ZArith Lia.
From stdpp Require Import base sets list strings pretty.
From S2P Require Import Prelude NetAddr.

#[local] Open Scope Z_scope.

Definition LF : char := 10.

(** [s.contains(needle)] *)
Fixpoint contains_str (needle s : str) : bool :=
  bool_decide (is_Some (strip_prefix needle s)) ||
  match s with [] => false | _ :: s' => contains_str needle s' end.

(** [s.split_whitespace()] *)
Fixpoint words_from (s : str) (word : str) : list str :=
  match s with
  | [] => if decide (word = []) then [] else [word]
  | c :: s' =>
      if is_whitespace c
      then (if decide (word = []) then [] else [word]) ++ words_from s' []
      else words_from s' (word ++ [c])
  end.
Definition split_whitespace (s : str) : list str := words_from s [].

(** [s.lines()]: a carriage return before the line feed belongs to the end of
    the line, and a final line feed starts no line. *)
Definition strip_cr (s : str) : str :=
  match strip_suffix [13] s with Some s' => s' | None => s end.
Definition lines (s : str) : list str :=
  match reverse (split LF s) with
  | [] => []
  | last :: rest =>
      map strip_cr (reverse rest) ++ (if decide (last = []) then [] else [last])
  end.

(** [s.split_once(c)] *)
Fixpoint split_once (c : char) (s : str) : option (str * str) :=
  match s with
  | [] => None
  | x :: s' =>
      if decide (x = c) then Some ([], s')
      else '(a, b) ← split_once c s'; Some (x :: a, b)
  end.

(** The text before and after byte [n]; [None] when [n] is past the end or
    within a character. *)
Fixpoint split_at_byte (n : Z) (s : str) : option (str * str) :=
  if decide (n = 0) then Some ([], s) else
  match s with
  | [] => None
  | x :: s' =>
      if decide (char_len x ≤ n)
      then '(a, b) ← split_at_byte (n - char_len x) s'; Some (x :: a, b)
      else None
  end.
(** [&s[from..to]] *)
Definition str_slice (from to : Z) (s : str) : Outcome str :=
  match split_at_byte from s with
  | Some (_, rest) =>
      match split_at_byte (to - from) rest with
      | Some (part, _) => Returned part
      | None => Panicked
      end
  | None => Panicked
  end.

(** [s.parse()] for an unsigned integer below [2 ^ w]: decimal digits, after a
    plus sign at most. *)
Definition parse_digits (s : str) : option Z :=
  if bool_decide (s = []) || negb (forallb is_ascii_digit s) then None
  else Some (foldl (λ n c, n * 10 + (c - 48)) 0 s).
Definition parse_uint (w : Z) (s : str) : option Z :=
  n ← parse_digits (match strip_prefix [43] s with Some s' => s' | None => s end);
  if decide (n < 2 ^ w) then Some n else None.

Definition SLASH : char := 47.
Definition COLON : char := 58.
(** [Path::join]: an absolute path replaces the first. *)
Definition path_join (dir p : str) : str :=
  if decide (head p = Some SLASH) then p
  else if decide (dir = [] ∨ last dir = Some SLASH) then dir ++ p
  else dir ++ [SLASH] ++ p.

(** ** Facts *)

Lemma split_not_nil c s : split c s ≠ [].
Proof. destruct s as [|x s]; simpl; [done |]. case_decide; [done |]. by destruct (split c s). Qed.
Lemma split_app_any c a b : split c (a ++ [c] ++ b) = split c a ++ split c b.
Proof.
  induction a as [|x a IH]; simpl.
  { by rewrite decide_True. }
  change (c :: b) with ([c] ++ b). rewrite IH. case_decide; [done |].
  pose proof (split_not_nil c a). by destruct (split c a).
Qed.

Lemma str_len_app a b : str_len (a ++ b) = str_len a + str_len b.
Proof.
  unfold str_len. induction a as [|x a IH]; cbn [app foldr]; [done |]. rewrite IH. lia.
Qed.
Lemma char_len_pos c : 1 ≤ char_len c.
Proof. unfold char_len. repeat case_decide; lia. Qed.
Lemma str_len_nonneg s : 0 ≤ str_len s.
Proof.
  unfold str_len. induction s as [|x s IH]; cbn [foldr]; [done |]. pose proof (char_len_pos x). lia.
Qed.

Lemma split_elem c s x : x ∈ split c s → c ∉ x.
Proof.
  revert x. induction s as [|y s IH]; intros x; simpl.
  { intros ->%list_elem_of_singleton. apply not_elem_of_nil. }
  case_decide as Hy.
  - intros [-> | Hx]%elem_of_cons; [apply not_elem_of_nil | by apply IH].
  - destruct (split c s) as [|h t].
    + intros ->%list_elem_of_singleton. apply not_elem_of_cons. split; [done | apply not_elem_of_nil].
    + intros [-> | Hx]%elem_of_cons.
      * apply not_elem_of_cons. split; [done | apply IH, list_elem_of_here].
      * by apply IH, list_elem_of_further.
Qed.

Lemma strip_cr_sub x s : x ∈ strip_cr s → x ∈ s.
Proof.
  unfold strip_cr. destruct (strip_suffix [13] s) as [s'|] eqn:E; [|done].
  unfold strip_suffix in E. apply fmap_Some in E as (r & E & ->).
  apply strip_prefix_Some in E. rewrite elem_of_reverse. intros Hx.
  rewrite <-elem_of_reverse, E. by apply elem_of_app; right.
Qed.

(** No line has a line feed in it. *)
Lemma lines_elem s x : x ∈ lines s → LF ∉ x.
Proof.
  unfold lines. destruct (reverse (split LF s)) as [|last rest] eqn:E; [by intros ?%not_elem_of_nil |].
  assert (∀ y, y ∈ last :: rest → LF ∉ y) as Hall.
  { intros y Hy. rewrite <-E, elem_of_reverse in Hy. by eapply split_elem. }
  intros [Hx | Hx]%elem_of_app.
  - apply list_elem_of_fmap in Hx as (y & -> & Hy). rewrite elem_of_reverse in Hy.
    intros Hlf%strip_cr_sub. eapply Hall; [by apply list_elem_of_further | done].
  - destruct (decide (last = [])); [by apply not_elem_of_nil in Hx |].
    apply list_elem_of_singleton in Hx as ->. apply Hall, list_elem_of_here.
Qed.

Lemma drop_while_suffix {A} (f : A → bool) l : ∃ p, l = p ++ drop_while f l.
Proof.
  induction l as [|x l [p IH]]; simpl; [by exists [] |].
  destruct (f x); [exists (x :: p); simpl; congruence | by exists []].
Qed.
Lemma drop_while_head {A} (f : A → bool) l x l' : drop_while f l = x :: l' → f x = false.
Proof.
  induction l as [|y l IH]; simpl; [done |]. destruct (f y) eqn:E; [done |]. by intros [= <- _].
Qed.
Lemma trim_end_prefix s : ∃ p, s = trim_end s ++ p.
Proof.
  unfold trim_end. destruct (drop_while_suffix is_whitespace (reverse s)) as [p E].
  exists (reverse p). rewrite <-reverse_app, <-E. by rewrite reverse_involutive.
Qed.
Lemma trim_end_last s p : trim_end s ≠ [] → trim_end (p ++ trim_end s) = p ++ trim_end s.
Proof.
  intros Hne. unfold trim_end in *. rewrite reverse_app, reverse_involutive.
  destruct (drop_while is_whitespace (reverse s)) as [|x l] eqn:E; [by rewrite reverse_nil in Hne |].
  simpl. rewrite (drop_while_head _ _ _ _ E). rewrite reverse_cons, reverse_app, reverse_involutive.
  by rewrite reverse_cons, app_assoc.
Qed.
Lemma trim_sub x s : x ∈ trim s → x ∈ s.
Proof.
  unfold trim, trim_start. intros Hx.
  destruct (drop_while_suffix is_whitespace s) as [p1 E1].
  destruct (trim_end_prefix (drop_while is_whitespace s)) as [p2 E2].
  rewrite E1, E2. set_solver.
Qed.
(** A trimmed text starts with no white space. *)
Lemma trim_start_trim s : trim_start (32 :: trim s) = trim s.
Proof.
  change (trim_start (trim s) = trim s). unfold trim.
  destruct (trim_end_prefix (trim_start s)) as [p E].
  destruct (trim_end (trim_start s)) as [|x l] eqn:Et; [done |].
  unfold trim_start in E. simpl in E. unfold trim_start. simpl. by rewrite (drop_while_head _ _ _ _ E).
Qed.

Lemma trim_id s : Forall (λ c, is_whitespace c = false) s → trim s = s.
Proof.
  intros Hs. unfold trim, trim_start, trim_end. rewrite (drop_while_none _ s Hs).
  rewrite drop_while_none; [apply reverse_involutive | by apply Forall_reverse].
Qed.
Lemma take_until_app c a b : c ∉ a → head b = Some c ∨ b = [] → take_until c (a ++ b) = a.
Proof.
  intros Ha Hb. induction a as [|x a IH]; simpl.
  - destruct Hb as [Hb | ->]; [|done]. destruct b as [|x b]; [done |]. injection Hb as ->.
    simpl. by rewrite decide_True.
  - apply not_elem_of_cons in Ha as [Hx Ha]. rewrite decide_False by congruence. by rewrite IH.
Qed.

Lemma parse_digits_nonneg s n : parse_digits s = Some n → 0 ≤ n.
Proof.
  unfold parse_digits. destruct (bool_decide (s = [])); [done |]. simpl.
  destruct (forallb is_ascii_digit s) eqn:Hd; [|done]. simpl. intros [= <-].
  assert (∀ m, 0 ≤ m → 0 ≤ foldl (λ n c, n * 10 + (c - 48)) m s) as Hfold; [|by apply Hfold].
  induction s as [|c s IH]; simpl in *; [done |].
  apply andb_prop in Hd as [Hc Hd]. intros m Hm. apply IH; [done |].
  unfold is_ascii_digit in Hc. apply bool_decide_eq_true in Hc. lia.
Qed.
Lemma parse_uint_range w s n : parse_uint w s = Some n → 0 ≤ n < 2 ^ w.
Proof.
  unfold parse_uint. intros (m & Hm & H)%bind_Some.
  destruct (decide (m < 2 ^ w)); simplify_eq. by split; [eapply parse_digits_nonneg |].
Qed.

(** ** Decimal numbers *)

(** [Display] of an integer type. *)
Definition int_display (n : Z) : str := lit (pretty n).

Definition digits_value (acc : Z) (s : str) : Z := foldl (λ n c, n * 10 + (c - 48)) acc s.

Lemma lit_cons c s : lit (String c s) = Z.of_nat (Ascii.nat_of_ascii c) :: lit s.
Proof. done. Qed.
Lemma pretty_N_char_code x :
  (x < 10)%N → Z.of_nat (Ascii.nat_of_ascii (pretty_N_char x)) = 48 + Z.of_N x.
Proof.
  intros Hx.
  assert (x ∈ [0; 1; 2; 3; 4; 5; 6; 7; 8; 9]%N) as Hin
    by (rewrite !elem_of_cons; lia).
  repeat (apply elem_of_cons in Hin as [->|Hin]; [reflexivity |]). by apply elem_of_nil in Hin.
Qed.
Lemma pretty_N_go_digits x s :
  forallb is_ascii_digit (lit s) = true →
  forallb is_ascii_digit (lit (pretty_N_go x s)) = true ∧
  digits_value 0 (lit (pretty_N_go x s)) = digits_value (Z.of_N x) (lit s).
Proof.
  revert s. induction (N.lt_wf_0 x) as [x _ IH]. intros s Hs.
  destruct (decide (0 < x)%N) as [Hx|Hx].
  2: { assert (x = 0%N) as -> by lia. rewrite pretty_N_go_0. done. }
  rewrite pretty_N_go_step by done.
  pose proof (pretty_N_char_code (x `mod` 10) ltac:(apply N.mod_lt; lia)) as Hc.
  destruct (IH (x `div` 10)%N ltac:(apply N.div_lt; lia) (String (pretty_N_char (x `mod` 10)) s)) as [Hd Hv].
  { rewrite lit_cons, Hc. cbn [forallb]. rewrite Hs, andb_true_r. apply bool_decide_eq_true.
    generalize (x `mod` 10)%N, (N.mod_lt x 10 ltac:(lia)). intros d Hd. lia. }
  split; [done |]. rewrite Hv, lit_cons, Hc. unfold digits_value. cbn [foldl]. f_equal.
  pose proof (N.div_mod x 10 ltac:(lia)) as Hdm. revert Hdm.
  generalize (x `div` 10)%N, (x `mod` 10)%N. intros q r ->. lia.
Qed.

(** A number that is not negative is read back as it was written. *)
Lemma int_display_digits n :
  0 ≤ n → forallb is_ascii_digit (int_display n) = true ∧ parse_digits (int_display n) = Some n.
Proof.
  intros Hn. unfold int_display. destruct n as [|p|p]; [done | | lia].
  change (pretty (Z.pos p)) with (pretty_N_go (N.pos p) EmptyString).
  destruct (pretty_N_go_digits (N.pos p) EmptyString eq_refl) as [Hd Hv]. split; [done |].
  unfold parse_digits. rewrite Hd, bool_decide_false; simpl.
  - f_equal. exact Hv.
  - intros E. rewrite E in Hv. done.
Qed.
Lemma int_display_head n : 0 ≤ n → ∃ c s, int_display n = c :: s ∧ 48 ≤ c ≤ 57.
Proof.
  intros Hn. destruct (int_display_digits n Hn) as [Hd Hp].
  destruct (int_display n) as [|c s]; [done |]. exists c, s. split; [done |].
  simpl in Hd. apply andb_prop in Hd as [Hc _]. by apply bool_decide_eq_true in Hc.
Qed.
Lemma int_display_parse_uint w n : 0 ≤ n < 2 ^ w → parse_uint w (int_display n) = Some n.
Proof.
  intros Hn. unfold parse_uint. destruct (int_display_head n) as (c & s & E & Hc); [lia |].
  assert (strip_prefix [43] (int_display n) = None) as ->.
  { rewrite E. simpl. by rewrite decide_False by lia. }
  destruct (int_display_digits n) as [_ ->]; [lia |]. simpl. by rewrite decide_True by lia.
Qed.
