(* ===== verification/Errors.v ===== *)
(** * The error type

    [src/src/error.rs]: [RouterError], its text, its source and the conversions
    into it.  The errors of crates and of the standard library are types with a
    text; those that are only kept as text convert through it. *)

From Stdlib Require Import ZArith Lia.
From stdpp Require Import base list strings.
From S2P Require Import Prelude.

#[local] Open Scope Z_scope.

(** [std::fmt::Display] *)
Class Display (A : Type) := to_string : A → str.
#[global] Instance str_display : Display str := λ s, s.

Module Error.
Section errors.
Context {NetlinkError IoError AddrParseError ParseIntError : Type}.

Inductive RouterError :=
| Netlink (e : NetlinkError)
| Io (e : IoError)
| AddrParse (e : AddrParseError)
| InterfaceNotFound (name : str)
| ParseInt (e : ParseIntError)
| Generic (msg : str).

(** An error of another crate, as [dyn Error]. *)
Inductive SourceError :=
| SrcNetlink (e : NetlinkError)
| SrcIo (e : IoError)
| SrcAddrParse (e : AddrParseError)
| SrcParseInt (e : ParseIntError).
Definition source (e : RouterError) : option SourceError :=
  match e with
  | Netlink e => Some (SrcNetlink e)
  | Io e => Some (SrcIo e)
  | AddrParse e => Some (SrcAddrParse e)
  | ParseInt e => Some (SrcParseInt e)
  | _ => None
  end.

Context `{!Display NetlinkError, !Display IoError, !Display AddrParseError, !Display ParseIntError}.

(** [fmt] *)
Definition RouterError_fmt (e : RouterError) : str :=
  match e with
  | Netlink e => lit "Netlink error: " ++ to_string e
  | Io e => lit "I/O error: " ++ to_string e
  | AddrParse e => lit "Address parsing failed: " ++ to_string e
  | InterfaceNotFound name => lit "Interface not found: " ++ name
  | ParseInt e => lit "Parse int error: " ++ to_string e
  | Generic msg => lit "Router error: " ++ msg
  end.
#[global] Instance RouterError_display : Display RouterError := RouterError_fmt.
#[global] Instance SourceError_display : Display SourceError := λ e,
  match e with
  | SrcNetlink e => to_string e
  | SrcIo e => to_string e
  | SrcAddrParse e => to_string e
  | SrcParseInt e => to_string e
  end.
End errors.
Arguments RouterError : clear implicits.
Arguments SourceError : clear implicits.

(** [From]: [impl_from!] with a variant, and with [@string]. *)
Class From (A B : Type) := from : A → B.
Section conversions.
Context {N I A P : Type}.
#[global] Instance from_netlink : From N (RouterError N I A P) | 3 := Netlink.
#[global] Instance from_io : From I (RouterError N I A P) | 4 := Io.
#[global] Instance from_addr_parse : From A (RouterError N I A P) | 5 := AddrParse.
#[global] Instance from_parse_int : From P (RouterError N I A P) | 6 := ParseInt.
#[global] Instance from_string : From str (RouterError N I A P) | 2 := Generic.
(** [&str], the errors of [rustables] and [ipnet], and boxed errors. *)
Definition from_text {E} `{!Display E} : From E (RouterError N I A P) := λ err, Generic (to_string err).
End conversions.
End Error.

Section text.
Context {N I A P : Type} `{!Display N, !Display I, !Display A, !Display P}.
Implicit Types e : Error.RouterError N I A P.

Definition variant e : nat :=
  match e with
  | Error.Netlink _ => 0 | Error.Io _ => 1 | Error.AddrParse _ => 2
  | Error.InterfaceNotFound _ => 3 | Error.ParseInt _ => 4 | Error.Generic _ => 5
  end.

(** The text of an error tells its variant, ends in the text of its source, and
    holds a message that was converted to it unchanged. *)
Theorem error_text e :
  (∀ e', to_string e = to_string e' → variant e = variant e') ∧
  (∀ s, Error.source e = Some s → ∃ prefix, prefix ≠ [] ∧ to_string e = prefix ++ to_string s) ∧
  (∀ E `(!Display E) (err : E), Error.from_text err = e →
     Error.source e = None ∧ to_string e = lit "Router error: " ++ to_string err).
Proof.
  split_and!.
  - intros e'. destruct e, e'; first [done | by intros [=]].
  - intros s. destruct e; try done; intros [= <-]; eexists; (split; [|reflexivity]); done.
  - by intros E D err <-.
Qed.
End text.
