(* ===== verification/Utf8.v ===== *)
(** * UTF-8

    The encoding of Rust strings as bytes ([str::as_bytes]) and its inverse
    ([String::from_utf8]), which the program relies on wherever text crosses a
    file, a pipe or a socket. *)

From Stdlib Require Import ZArith Lia.
From stdpp Require Import base list.
From S2P Require Import Prelude.

#[local] Open Scope Z_scope.

(** A Unicode scalar value, which is what a [char] is. *)
Definition is_char (c : char) : Prop := 0 ≤ c < 55296 ∨ 57344 ≤ c < 1114112.
#[global] Instance is_char_dec c : Decision (is_char c).
Proof. unfold is_char. apply _. Defined.

Definition utf8_char (c : char) : list Z :=
  if decide (c < 128) then [c]
  else if decide (c < 2048) then [192 + c / 64; 128 + c mod 64]
  else if decide (c < 65536) then [224 + c / 4096; 128 + c / 64 mod 64; 128 + c mod 64]
  else [240 + c / 262144; 128 + c / 4096 mod 64; 128 + c / 64 mod 64; 128 + c mod 64].
Definition utf8_encode (s : str) : list Z := concat (utf8_char <$> s).

(** A byte that continues a character. *)
Definition is_cont (b : Z) : bool := bool_decide (128 ≤ b < 192).

(** [String::from_utf8]: characters are not longer than they need to be, and
    surrogates are not characters. *)
Fixpoint utf8_decode (bytes : list Z) : option str :=
  match bytes with
  | [] => Some []
  | b0 :: r0 =>
      if decide (b0 < 128) then s ← utf8_decode r0; Some (b0 :: s) else
      match r0 with
      | [] => None
      | b1 :: r1 =>
          if negb (is_cont b1) then None else
          if decide (194 ≤ b0 < 224) then
            s ← utf8_decode r1; Some (64 * (b0 - 192) + (b1 - 128) :: s) else
          match r1 with
          | [] => None
          | b2 :: r2 =>
              if negb (is_cont b2) then None else
              if decide (224 ≤ b0 < 240) then
                let c := 4096 * (b0 - 224) + 64 * (b1 - 128) + (b2 - 128) in
                if decide (2048 ≤ c ∧ is_char c) then s ← utf8_decode r2; Some (c :: s) else None
              else
              match r2 with
              | [] => None
              | b3 :: r3 =>
                  if negb (is_cont b3) then None else
                  let c := 262144 * (b0 - 240) + 4096 * (b1 - 128) + 64 * (b2 - 128) + (b3 - 128) in
                  if decide (240 ≤ b0 ∧ 65536 ≤ c ∧ is_char c) then s ← utf8_decode r3; Some (c :: s) else None
              end
          end
      end
  end.

(** ** Facts *)

Lemma utf8_char_length c : Z.of_nat (length (utf8_char c)) = char_len c.
Proof. unfold utf8_char, char_len. repeat case_decide; simpl; lia. Qed.
Lemma utf8_encode_cons c s : utf8_encode (c :: s) = utf8_char c ++ utf8_encode s.
Proof. done. Qed.
Lemma utf8_encode_length s : Z.of_nat (length (utf8_encode s)) = str_len s.
Proof.
  induction s as [|c s IH]; [done |]. rewrite utf8_encode_cons, length_app, Nat2Z.inj_add, utf8_char_length.
  by rewrite IH.
Qed.
Lemma utf8_encode_app s s' : utf8_encode (s ++ s') = utf8_encode s ++ utf8_encode s'.
Proof. unfold utf8_encode. by rewrite fmap_app, concat_app. Qed.

Ltac utf8_arith := unfold is_char in *; Z.div_mod_to_equations; lia.

(** A character is read back, whatever follows it. *)
Lemma utf8_decode_char c rest :
  is_char c → utf8_decode (utf8_char c ++ rest) = (λ s, c :: s) <$> utf8_decode rest.
Proof.
  intros Hc. unfold utf8_char.
  case_decide; [simpl; by rewrite decide_True by done |].
  case_decide; [|case_decide]; cbn [app utf8_decode];
    rewrite decide_False by utf8_arith;
    unfold is_cont; rewrite !bool_decide_true by utf8_arith; cbn [negb].
  - rewrite decide_True by utf8_arith.
    replace (64 * (192 + c / 64 - 192) + (128 + c mod 64 - 128)) with c by utf8_arith.
    by destruct (utf8_decode rest).
  - rewrite decide_False by utf8_arith. rewrite decide_True by utf8_arith.
    replace (4096 * (224 + c / 4096 - 224) + 64 * (128 + c / 64 mod 64 - 128) + (128 + c mod 64 - 128)) with c
      by utf8_arith.
    rewrite decide_True by (split; [lia | done]). by destruct (utf8_decode rest).
  - rewrite !decide_False by utf8_arith.
    replace (262144 * (240 + c / 262144 - 240) + 4096 * (128 + c / 4096 mod 64 - 128)
      + 64 * (128 + c / 64 mod 64 - 128) + (128 + c mod 64 - 128)) with c by utf8_arith.
    rewrite decide_True by (split_and!; [utf8_arith | lia | done]). by destruct (utf8_decode rest).
Qed.

Lemma utf8_roundtrip s : Forall is_char s → utf8_decode (utf8_encode s) = Some s.
Proof.
  induction 1 as [|c s Hc _ IH]; [done |]. rewrite utf8_encode_cons, utf8_decode_char by done.
  by rewrite IH.
Qed.

(** What is read is text, and the bytes are its encoding. *)
Lemma utf8_decode_encode bytes s :
  Forall is_u8 bytes → utf8_decode bytes = Some s → Forall is_char s ∧ utf8_encode s = bytes.
Proof.
  revert s. induction (well_founded_ltof _ length bytes) as [bytes _ IH]. intros s Hb.
  assert (∀ c b r, length r < length bytes → Forall is_u8 r → is_char c → utf8_char c = b → bytes = b ++ r →
    (s' ← utf8_decode r; Some (c :: s')) = Some s → Forall is_char s ∧ utf8_encode s = bytes)%nat as Hstep.
  { intros c b r Hl Hr Hc Hcb -> E. destruct (utf8_decode r) as [s'|] eqn:Er; [|done]. injection E as <-.
    destruct (IH r Hl s' Hr Er) as [Hs' Hen]. split; [by constructor |].
    by rewrite utf8_encode_cons, Hcb, Hen. }
  destruct bytes as [|b0 r0]; [by intros [= <-] |]. apply list.Forall_cons in Hb as [Hu0 Hb]. unfold is_u in Hu0.
  cbn [utf8_decode]. case_decide.
  { apply (Hstep b0 [b0] r0); [simpl; lia | done | utf8_arith | | done]. unfold utf8_char. by rewrite decide_True. }
  destruct r0 as [|b1 r1]; [done |]. apply list.Forall_cons in Hb as [_ Hb]. unfold is_cont.
  case_bool_decide; cbn [negb]; [|done]. case_decide.
  { apply (Hstep _ [b0; b1] r1); [simpl; lia | done | utf8_arith | | done].
    unfold utf8_char. rewrite decide_False, decide_True by utf8_arith. repeat f_equal; utf8_arith. }
  destruct r1 as [|b2 r2]; [done |]. apply list.Forall_cons in Hb as [_ Hb].
  case_bool_decide; cbn [negb]; [|done]. case_decide.
  { case_decide as Hc; [|done]. apply (Hstep _ [b0; b1; b2] r2); [simpl; lia | done | apply Hc | | done].
    unfold utf8_char. rewrite !decide_False, decide_True by utf8_arith. repeat f_equal; utf8_arith. }
  destruct r2 as [|b3 r3]; [done |]. apply list.Forall_cons in Hb as [_ Hb].
  case_bool_decide; cbn [negb]; [|done]. case_decide as Hc; [|done].
  apply (Hstep _ [b0; b1; b2; b3] r3); [simpl; lia | done | apply Hc | | done].
  unfold utf8_char. rewrite !decide_False by utf8_arith. repeat f_equal; utf8_arith.
Qed.
