(* ===== verification/Firewall.v ===== *)
(** * The firewall

    [src/src/init/firewall.rs]: the table of netfilter chains and rules, how it
    is installed, and what it does to packets.  The rules are the data that the
    source hands to the [rustables] crate; the crate and the kernel are
    interfaces with the laws that their documentation states. *)

From Stdlib Require Import ZArith Lia.
From stdpp Require Import base sets list strings.
From S2P Require Import Prelude NetAddr Config.

#[local] Open Scope Z_scope.

(** ** Rules as data *)

Inductive Protocol := TCP | UDP.
#[global] Instance Protocol_eq_dec : EqDecision Protocol.
Proof. solve_decision. Defined.

Inductive Register := Reg1 | Reg2.

(** The states of connection tracking. *)
Inductive CtState := INVALID | ESTABLISHED | RELATED | NEW | UNTRACKED.
#[global] Instance CtState_eq_dec : EqDecision CtState.
Proof. solve_decision. Defined.

(** What the source adds to a rule: by the methods of [Rule] ([iiface],
    [oiface], [dport], [icmp], [masquerade], [accept], [drop]) and by
    [add_expr]. *)
Inductive RuleExpr :=
| Iiface (name : str)
| Oiface (name : str)
| Dport (port : Z) (proto : Protocol)
| Icmp
| ConntrackState
| Bitwise (mask xor : list Z)
| CmpNeq (data : list Z)
| ImmediateData (data : list Z) (register : Register)
| DNat (ip_register port_register : Register)
| Masquerade
| AcceptVerdict
| DropVerdict.

Inductive Hook := PreRouting | PostRouting | HookIn.
#[global] Instance Hook_eq_dec : EqDecision Hook.
Proof. solve_decision. Defined.
Inductive ChainType := NatChain | FilterChain.
Inductive ChainPolicy := PolicyAccept | PolicyDrop.

Record Chain := mkChain {
  ch_name : str;
  ch_hook : Hook;
  ch_priority : Z;
  ch_type : ChainType;
  ch_policy : ChainPolicy;
}.
Record Rule := mkRule { ru_chain : str; ru_exprs : list RuleExpr }.

(** [u32::to_le_bytes] and [u32::to_be_bytes], and the ones of [u16]. *)
Definition u32_to_le_bytes (x : Z) : list Z :=
  [Z.land x 255; Z.land (Z.shiftr x 8) 255; Z.land (Z.shiftr x 16) 255; Z.land (Z.shiftr x 24) 255].
Definition u32_to_be_bytes (x : Z) : list Z := reverse (u32_to_le_bytes x).
(** [Ipv4Addr::octets] *)
Definition ip_octets (ip : Ipv4Addr) : list Z := [octet 0 ip; octet 1 ip; octet 2 ip; octet 3 ip].
Definition port_bytes (port : Z) : list Z := [(u16_to_be_bytes port).1; (u16_to_be_bytes port).2].

(** What the source relies on of the [rustables] crate: the bits of the states,
    which interface names it takes and which masks. *)
Class Rustables := {
  ct_bits : CtState → Z;
  iface_ok : str → bool;
  bitwise_ok : list Z → list Z → bool;
}.

Definition IFNAMSIZ : Z := 16.
Definition NF_HOOK_PRIORITY_NAT_DST : Z := -100.
Definition NF_HOOK_PRIORITY_NAT : Z := 100.
Definition NF_HOOK_PRIORITY_FILTER : Z := 0.

Inductive FwError :=
| InvalidInterfaceName (name : str)
| SameInterface (name : str)
| BuilderError
| NetlinkError (errno : Z).
Definition ENOENT : Z := 2.

Section firewall.
Context `{Rustables}.
Open Scope router_scope.

(** ** Building rules *)

Definition rule_new (chain : Chain) : Rule := mkRule (ch_name chain) [].
Definition add_expr (e : RuleExpr) (r : Rule) : Rule := mkRule (ru_chain r) (ru_exprs r ++ [e]).
Definition iiface (name : str) (r : Rule) : Result FwError Rule :=
  if iface_ok name then Ok (add_expr (Iiface name) r) else Err BuilderError.
Definition oiface (name : str) (r : Rule) : Result FwError Rule :=
  if iface_ok name then Ok (add_expr (Oiface name) r) else Err BuilderError.

Definition ct_state (state : Z) (r : Rule) : Result FwError Rule :=
  let r := add_expr ConntrackState r in
  let mask := u32_to_le_bytes state in
  let xor := u32_to_be_bytes 0 in
  if bitwise_ok mask xor
  then Ok (add_expr (CmpNeq (u32_to_be_bytes 0)) (add_expr (Bitwise mask xor) r))
  else Err BuilderError.
Definition ct_invalid : Rule → Result FwError Rule := ct_state (ct_bits INVALID).
Definition ct_established_and_related : Rule → Result FwError Rule :=
  ct_state (Z.lor (ct_bits ESTABLISHED) (ct_bits RELATED)).
Definition dnat (int_ip : Ipv4Addr) (int_port : Z) (r : Rule) : Rule :=
  add_expr (DNat Reg1 Reg2)
    (add_expr (ImmediateData (port_bytes int_port) Reg2)
       (add_expr (ImmediateData (ip_octets int_ip) Reg1) r)).

Definition validate_interface_name (name : str) : Result FwError unit :=
  if bool_decide (name = []) || bool_decide (IFNAMSIZ ≤ str_len name) || contains_char 0 name
  then Err (InvalidInterfaceName name) else Ok tt.

Definition build_single_dnat_rule (chain : Chain) (wan_iface : str) (proto : Protocol)
    (ext_port : Z) (int_ip : Ipv4Addr) (int_port : Z) : Result FwError Rule :=
  let? r := iiface wan_iface (rule_new chain) in
  Ok (dnat int_ip int_port (add_expr (Dport ext_port proto) r)).

Fixpoint build_dnat_rules (prerouting_chain : Chain) (wan_iface : str)
    (rules : list PortForwardRule) : Result FwError (list Rule) :=
  match rules with
  | [] => Ok []
  | rule :: rest =>
      let? tcp :=
        (if is_tcp (protocol rule) then
           let? r := build_single_dnat_rule prerouting_chain wan_iface TCP (external_port rule)
                       (internal_ip rule) (internal_port rule) in Ok [r]
         else Ok []) in
      let? udp :=
        (if is_udp (protocol rule) then
           let? r := build_single_dnat_rule prerouting_chain wan_iface UDP (external_port rule)
                       (internal_ip rule) (internal_port rule) in Ok [r]
         else Ok []) in
      let? nft_rules := build_dnat_rules prerouting_chain wan_iface rest in
      Ok (tcp ++ udp ++ nft_rules)
  end.

Definition build_nat_rule (nat_chain : Chain) (wan_iface : str) : Result FwError Rule :=
  let? r := oiface wan_iface (rule_new nat_chain) in
  Ok (add_expr Masquerade r).

Definition build_filter_rules (filter_chain : Chain) (wan_iface lan_iface : str) :
    Result FwError (list Rule) :=
  let? invalid := ct_invalid (rule_new filter_chain) in
  let? loopback := iiface (lit "lo") (rule_new filter_chain) in
  let? established := ct_established_and_related (rule_new filter_chain) in
  let? lan := iiface lan_iface (rule_new filter_chain) in
  let? wan := iiface wan_iface (rule_new filter_chain) in
  Ok [add_expr DropVerdict invalid;
      add_expr AcceptVerdict loopback;
      add_expr AcceptVerdict established;
      add_expr AcceptVerdict lan;
      add_expr AcceptVerdict (add_expr (Dport CLIENT_PORT UDP) wan);
      add_expr AcceptVerdict (add_expr Icmp (rule_new filter_chain))].

(** ** Installing them *)

(** The table of the kernel, if it is there. *)
Record Table := mkTable { tb_chains : list Chain; tb_rules : list Rule }.

(** The kernel's answers to the two batches: an error number, or none. *)
Record NfEnv := mkNfEnv { nf_delete : option Z; nf_commit : option Z }.

(** [flush_existing_table]: deletes the table; that there is none is no error. *)
Definition flush_existing_table (env : NfEnv) (kernel : option Table) :
    Result FwError unit * option Table :=
  match nf_delete env with
  | None => (Ok tt, None)
  | Some errno =>
      if bool_decide (Z.abs errno = ENOENT) then (Ok tt, kernel) else (Err (NetlinkError errno), kernel)
  end.

Definition nat_prerouting : Chain :=
  mkChain (lit "nat_prerouting") PreRouting NF_HOOK_PRIORITY_NAT_DST NatChain PolicyAccept.
Definition nat_postrouting : Chain :=
  mkChain (lit "nat_postrouting") PostRouting NF_HOOK_PRIORITY_NAT NatChain PolicyAccept.
Definition filter_chain : Chain :=
  mkChain (lit "filter_input") HookIn NF_HOOK_PRIORITY_FILTER FilterChain PolicyDrop.

(** The batch of [configure_firewall]. *)
Definition build_table (wan_iface lan_iface : str) (port_forwards : list PortForwardRule) :
    Result FwError Table :=
  let? dnat_rules := build_dnat_rules nat_prerouting wan_iface port_forwards in
  let? masq_rule := build_nat_rule nat_postrouting wan_iface in
  let? filter_rules := build_filter_rules filter_chain wan_iface lan_iface in
  Ok (mkTable [nat_prerouting; nat_postrouting; filter_chain]
        (dnat_rules ++ [masq_rule] ++ filter_rules)).

(** [configure_firewall]: the result, and the table of the kernel afterwards.  A
    batch is carried out as a whole or not at all. *)
Definition configure_firewall (env : NfEnv) (wan_iface lan_iface : str)
    (port_forwards : list PortForwardRule) (kernel : option Table) :
    Result FwError unit * option Table :=
  match (let? _ := validate_interface_name wan_iface in validate_interface_name lan_iface) with
  | Err e => (Err e, kernel)
  | Ok _ =>
      if bool_decide (wan_iface = lan_iface) then (Err (SameInterface wan_iface), kernel) else
      match flush_existing_table env kernel with
      | (Err e, kernel) => (Err e, kernel)
      | (Ok _, kernel) =>
          match build_table wan_iface lan_iface port_forwards with
          | Err e => (Err e, kernel)
          | Ok table =>
              match nf_commit env with
              | Some errno => (Err (NetlinkError errno), kernel)
              | None => (Ok tt, Some table)
              end
          end
      end
  end.
End firewall.

(** ** What the rules do *)

(** A packet at a hook: the interfaces it came in on and is to leave by, the
    state of its connection, its protocol and destination port. *)
Inductive Transport := TTcp (dport : Z) | TUdp (dport : Z) | TIcmp | TOther.
#[global] Instance Transport_eq_dec : EqDecision Transport.
Proof. solve_decision. Defined.
Record NfPacket := mkNfPacket {
  np_iif : str;
  np_oif : str;
  np_state : CtState;
  np_transport : Transport;
}.
Definition transport (proto : Protocol) (port : Z) : Transport :=
  match proto with TCP => TTcp port | UDP => TUdp port end.

Inductive Statement := StAccept | StDrop | StMasquerade | StDnat (ip : Ipv4Addr) (port : Z).

(** The kernel's reading of a rule: the statement it comes to, if the packet
    matches. *)
Class Netfilter := rule_outcome : list RuleExpr → NfPacket → option Statement.

(** The documented behaviour of the crate: the states have bits of their own,
    an interface name of less than 16 bytes is taken, and so is a mask as long
    as what it is combined with. *)
Class RustablesLaws `{Rustables} : Prop := {
  ct_bits_disjoint s1 s2 : Z.land (ct_bits s1) (ct_bits s2) ≠ 0 ↔ s1 = s2;
  ct_bits_u32 s : 0 ≤ ct_bits s < 2 ^ 32;
  iface_ok_law name : name ≠ [] → str_len name < IFNAMSIZ → 0 ∉ name → iface_ok name = true;
  bitwise_ok_law mask xor : length mask = length xor → bitwise_ok mask xor = true;
}.

(** The expressions read no register before they set it, [w1] and [w2] telling
    which are set; matches may leave anything in them. *)
Fixpoint closed (w1 w2 : bool) (es : list RuleExpr) : bool :=
  match es with
  | [] => true
  | (Bitwise _ _ | CmpNeq _) :: es => w1 && closed w1 w2 es
  | ConntrackState :: es | ImmediateData _ Reg1 :: es => closed true w2 es
  | ImmediateData _ Reg2 :: es => closed w1 true es
  | DNat _ _ :: es => w1 && w2 && closed w1 w2 es
  | _ :: es => closed false false es
  end.

(** The documented behaviour of the kernel (on a little-endian machine): a rule
    is read from left to right until something does not match. *)
Class NetfilterLaws `{Rustables, Netfilter} : Prop := {
  nf_iiface name es p : closed false false es = true →
    rule_outcome (Iiface name :: es) p =
    if decide (np_iif p = name) then rule_outcome es p else None;
  nf_oiface name es p : closed false false es = true →
    rule_outcome (Oiface name :: es) p =
    if decide (np_oif p = name) then rule_outcome es p else None;
  nf_dport port proto es p : closed false false es = true →
    rule_outcome (Dport port proto :: es) p =
    if decide (np_transport p = transport proto port) then rule_outcome es p else None;
  nf_icmp es p : closed false false es = true →
    rule_outcome (Icmp :: es) p =
    if decide (np_transport p = TIcmp) then rule_outcome es p else None;
  nf_conntrack mask es p : closed false false es = true → 0 ≤ mask < 2 ^ 32 →
    rule_outcome (ConntrackState :: Bitwise (u32_to_le_bytes mask) [0; 0; 0; 0]
                  :: CmpNeq [0; 0; 0; 0] :: es) p =
    if decide (Z.land (ct_bits (np_state p)) mask = 0) then None else rule_outcome es p;
  nf_dnat ip port p : is_u32 ip → is_u16 port →
    rule_outcome [ImmediateData (ip_octets ip) Reg1; ImmediateData (port_bytes port) Reg2;
                  DNat Reg1 Reg2] p = Some (StDnat ip port);
  nf_masquerade p : rule_outcome [Masquerade] p = Some StMasquerade;
  nf_accept p : rule_outcome [AcceptVerdict] p = Some StAccept;
  nf_drop p : rule_outcome [DropVerdict] p = Some StDrop;
}.

Section meaning.
Context `{Rustables, Netfilter}.

(** The first rule of a chain that matches decides, and the chain's policy if
    none does; a hook without a chain lets everything through. *)
Fixpoint rules_outcome (rules : list Rule) (p : NfPacket) : option Statement :=
  match rules with
  | [] => None
  | r :: rest =>
      match rule_outcome (ru_exprs r) p with
      | Some st => Some st
      | None => rules_outcome rest p
      end
  end.
Definition policy_statement (policy : ChainPolicy) : Statement :=
  match policy with PolicyAccept => StAccept | PolicyDrop => StDrop end.
Definition chain_outcome (t : Table) (c : Chain) (p : NfPacket) : Statement :=
  default (policy_statement (ch_policy c))
    (rules_outcome (filter (λ r, ru_chain r = ch_name c) (tb_rules t)) p).
Definition hook_outcome (kernel : option Table) (h : Hook) (p : NfPacket) : Statement :=
  match kernel with
  | Some t =>
      match filter (λ c, ch_hook c = h) (tb_chains t) with
      | c :: _ => chain_outcome t c p
      | [] => StAccept
      end
  | None => StAccept
  end.
End meaning.

Section firewall_spec.
Context `{RustablesLaws, !Netfilter, !NetfilterLaws}.
Implicit Types (wan lan : str) (p : NfPacket) (rules : list PortForwardRule).

Definition valid_iface (name : str) : Prop := name ≠ [] ∧ str_len name < IFNAMSIZ ∧ 0 ∉ name.

Lemma validate_interface_name_Ok name :
  validate_interface_name name = Ok tt ↔ valid_iface name.
Proof.
  unfold validate_interface_name, valid_iface, contains_char.
  destruct (bool_decide_reflect (name = [])), (bool_decide_reflect (IFNAMSIZ ≤ str_len name)),
    (bool_decide_reflect (0 ∈ name)); simpl; naive_solver lia.
Qed.

Lemma iface_ok_valid name : valid_iface name → iface_ok name = true.
Proof. intros (? & ? & ?). by apply iface_ok_law. Qed.

Lemma ct_state_eq state r :
  ct_state state r = Ok (mkRule (ru_chain r) (ru_exprs r ++
    [ConntrackState; Bitwise (u32_to_le_bytes state) [0; 0; 0; 0]; CmpNeq [0; 0; 0; 0]])).
Proof.
  unfold ct_state. rewrite bitwise_ok_law by done. unfold add_expr. simpl. by rewrite <-!app_assoc.
Qed.

Lemma ct_bits_in s s1 s2 :
  Z.land (ct_bits s) (Z.lor (ct_bits s1) (ct_bits s2)) = 0 ↔ s ≠ s1 ∧ s ≠ s2.
Proof.
  rewrite Z.land_lor_distr_r, Z.lor_eq_0_iff.
  pose proof (ct_bits_disjoint s s1) as Hd1. pose proof (ct_bits_disjoint s s2) as Hd2.
  split; [intros [E1 E2]; split; intros E; [by apply Hd1 in E | by apply Hd2 in E] |].
  intros [N1 N2]. split; apply dec_stable; tauto.
Qed.

Lemma ct_mask_u32 s1 s2 : 0 ≤ Z.lor (ct_bits s1) (ct_bits s2) < 2 ^ 32.
Proof.
  apply (is_u_lor 32); [lia | apply ct_bits_u32 | apply ct_bits_u32].
Qed.

(** The rule serves a packet to its external port. *)
Definition serves (r : PortForwardRule) (t : Transport) : bool :=
  match t with
  | TTcp d => is_tcp (protocol r) && bool_decide (external_port r = d)
  | TUdp d => is_udp (protocol r) && bool_decide (external_port r = d)
  | _ => false
  end.
Definition dnat_target rules (t : Transport) : option Statement :=
  match filter (λ r, serves r t = true) rules with
  | r :: _ => Some (StDnat (internal_ip r) (internal_port r))
  | [] => None
  end.
(** The widths of the fields of a rule. *)
Definition rule_widths (r : PortForwardRule) : Prop :=
  is_u32 (internal_ip r) ∧ is_u16 (internal_port r).

Lemma single_dnat_rule wan proto ext ip port :
  valid_iface wan → is_u32 ip → is_u16 port →
  ∃ r, build_single_dnat_rule nat_prerouting wan proto ext ip port = Ok r ∧
    ru_chain r = ch_name nat_prerouting ∧
    ∀ p, rule_outcome (ru_exprs r) p =
      if decide (np_iif p = wan ∧ np_transport p = transport proto ext)
      then Some (StDnat ip port) else None.
Proof.
  intros Hw Hip Hport. unfold build_single_dnat_rule, iiface. rewrite iface_ok_valid by done.
  eexists. split; [done |]. split; [done |]. intros p. simpl.
  rewrite nf_iiface, nf_dport, nf_dnat by done.
  repeat case_decide; naive_solver.
Qed.

(** One transport's part of a port forward. *)
Lemma optional_dnat_rule wan proto (b : bool) r :
  valid_iface wan → rule_widths r →
  ∃ rs, (if b then mbind (M := Result FwError) (λ x, Ok [x]) (build_single_dnat_rule nat_prerouting wan proto
                  (external_port r) (internal_ip r) (internal_port r)) else Ok []) = Ok rs ∧
    Forall (λ x, ru_chain x = ch_name nat_prerouting) rs ∧
    ∀ p, rules_outcome rs p =
      if decide (b = true ∧ np_iif p = wan ∧ np_transport p = transport proto (external_port r))
      then Some (StDnat (internal_ip r) (internal_port r)) else None.
Proof.
  intros Hw [Hip Hport].
  destruct (single_dnat_rule wan proto (external_port r) _ _ Hw Hip Hport) as (x & E & Hc & Ho).
  destruct b.
  - exists [x]. rewrite E. split; [done |]. split; [by constructor |].
    intros p. simpl. rewrite Ho. repeat case_decide; naive_solver.
  - exists []. split; [done |]. split; [constructor |]. intros p. cbn [rules_outcome].
    by rewrite decide_False by naive_solver.
Qed.

Lemma rules_outcome_app rs1 rs2 p :
  rules_outcome (rs1 ++ rs2) p =
  match rules_outcome rs1 p with Some st => Some st | None => rules_outcome rs2 p end.
Proof. induction rs1 as [|r rs1 IH]; simpl; [done |]. by destruct (rule_outcome _ p). Qed.

Lemma dnat_rules wan rules :
  valid_iface wan → Forall rule_widths rules →
  ∃ rs, build_dnat_rules nat_prerouting wan rules = Ok rs ∧
    Forall (λ x, ru_chain x = ch_name nat_prerouting) rs ∧
    ∀ p, rules_outcome rs p =
      if decide (np_iif p = wan) then dnat_target rules (np_transport p) else None.
Proof.
  intros Hw. induction 1 as [|r rules Hr _ IH].
  { exists []. split; [done |]. split; [constructor |]. intros p. simpl. by case_decide. }
  destruct IH as (rs & E & Hc & Ho).
  destruct (optional_dnat_rule wan TCP (is_tcp (protocol r)) r Hw Hr) as (tcp & Et & Hct & Hot).
  destruct (optional_dnat_rule wan UDP (is_udp (protocol r)) r Hw Hr) as (udp & Eu & Hcu & Hou).
  exists (tcp ++ udp ++ rs). cbn [build_dnat_rules]. rewrite Et. cbn [mbind result_bind].
  rewrite Eu. cbn [mbind result_bind]. rewrite E. split; [done |].
  split; [by repeat apply Forall_app_2 |]. intros p.
  rewrite !rules_outcome_app, Hot, Hou, Ho. unfold dnat_target. rewrite filter_cons.
  destruct (decide (np_iif p = wan)) as [Hi | Hi]; [|by rewrite !decide_False by tauto].
  destruct (np_transport p) as [d|d| |]; cbn [transport serves].
  - rewrite (decide_False (P := is_udp _ = true ∧ _)) by (intros (_ & _ & [=])).
    destruct (is_tcp (protocol r)), (bool_decide_reflect (external_port r = d)) as [<-|]; cbn [andb].
    all: repeat first [rewrite decide_True by done | rewrite decide_False by (by intros (? & ? & [=]))].
    all: done.
  - rewrite (decide_False (P := is_tcp _ = true ∧ _)) by (intros (_ & _ & [=])).
    destruct (is_udp (protocol r)), (bool_decide_reflect (external_port r = d)) as [<-|]; cbn [andb].
    all: repeat first [rewrite decide_True by done | rewrite decide_False by (by intros (? & ? & [=]))].
    all: done.
  - rewrite !decide_False by (by intros (_ & _ & [=])). done.
  - rewrite !decide_False by (by intros (_ & _ & [=])). done.
Qed.

(** What may reach the router itself. *)
Definition admitted wan lan p : Prop :=
  np_state p ≠ INVALID ∧
  (np_iif p = lit "lo" ∨ (np_state p = ESTABLISHED ∨ np_state p = RELATED) ∨ np_iif p = lan ∨
   (np_iif p = wan ∧ np_transport p = TUdp CLIENT_PORT) ∨ np_transport p = TIcmp).
#[global] Instance admitted_dec wan lan p : Decision (admitted wan lan p).
Proof. unfold admitted. apply _. Defined.

Lemma filter_rules wan lan :
  valid_iface wan → valid_iface lan →
  ∃ rs, build_filter_rules filter_chain wan lan = Ok rs ∧
    Forall (λ x, ru_chain x = ch_name filter_chain) rs ∧
    ∀ p, default StDrop (rules_outcome rs p) =
      if decide (admitted wan lan p) then StAccept else StDrop.
Proof.
  intros Hw Hl. unfold build_filter_rules, ct_invalid, ct_established_and_related, iiface.
  assert (valid_iface (lit "lo")) as Hlo.
  { split_and!; [done | reflexivity | apply (bool_decide_unpack _); reflexivity]. }
  rewrite !ct_state_eq, !iface_ok_valid by done.
  eexists. split; [done |]. split; [by repeat constructor |]. intros p. simpl.
  rewrite !nf_conntrack by first [done | apply ct_bits_u32 | apply ct_mask_u32].
  rewrite !nf_iiface, nf_icmp, nf_dport, nf_accept, nf_drop by done.
  pose proof (ct_bits_disjoint (np_state p) INVALID) as Hinv.
  pose proof (ct_bits_in (np_state p) ESTABLISHED RELATED) as Hest.
  unfold admitted. repeat case_decide; simpl; first [done | exfalso; tauto].
Qed.

Lemma nat_rule wan :
  valid_iface wan →
  ∃ r, build_nat_rule nat_postrouting wan = Ok r ∧ ru_chain r = ch_name nat_postrouting ∧
    ∀ p, default StAccept (rules_outcome [r] p) =
      if decide (np_oif p = wan) then StMasquerade else StAccept.
Proof.
  intros Hw. unfold build_nat_rule, oiface. rewrite iface_ok_valid by done.
  eexists. split; [done |]. split; [done |]. intros p. simpl. rewrite nf_oiface, nf_masquerade by done.
  by case_decide.
Qed.

(** The rules of a chain among those of the table. *)
Lemma filter_chain_all (name : str) (rs : list Rule) :
  Forall (λ x, ru_chain x = name) rs → filter (λ r, ru_chain r = name) rs = rs.
Proof. induction 1 as [|r rs Hr _ IH]; [done |]. rewrite filter_cons_True by done. by rewrite IH. Qed.
Lemma filter_chain_none (name other : str) (rs : list Rule) :
  Forall (λ x, ru_chain x = other) rs → other ≠ name → filter (λ r, ru_chain r = name) rs = [].
Proof.
  intros Hrs Hne. induction Hrs as [|r rs Hr _ IH]; [done |].
  by rewrite filter_cons_False by congruence.
Qed.

(** The table that is installed, and its three hooks. *)
Lemma build_table_spec wan lan rules :
  valid_iface wan → valid_iface lan → Forall rule_widths rules →
  ∃ t, build_table wan lan rules = Ok t ∧ ∀ p,
    hook_outcome (Some t) HookIn p = (if decide (admitted wan lan p) then StAccept else StDrop) ∧
    hook_outcome (Some t) PreRouting p =
      default StAccept (if decide (np_iif p = wan) then dnat_target rules (np_transport p) else None) ∧
    hook_outcome (Some t) PostRouting p =
      (if decide (np_oif p = wan) then StMasquerade else StAccept).
Proof.
  intros Hw Hl Hr. unfold build_table.
  destruct (dnat_rules wan rules Hw Hr) as (dn & -> & Cd & Od).
  destruct (nat_rule wan Hw) as (nr & -> & Cn & On).
  destruct (filter_rules wan lan Hw Hl) as (fr & -> & Cf & Of). cbn [mbind result_bind].
  assert (Forall (λ x, ru_chain x = ch_name nat_postrouting) [nr]) as Cn' by by constructor.
  eexists. split; [done |]. intros p.
  assert (∀ c, c ∈ [nat_prerouting; nat_postrouting; filter_chain] →
    hook_outcome (Some (mkTable [nat_prerouting; nat_postrouting; filter_chain]
      (dn ++ [nr] ++ fr))) (ch_hook c) p =
    default (policy_statement (ch_policy c))
      (rules_outcome (filter (λ r, ru_chain r = ch_name c) (dn ++ [nr] ++ fr)) p)) as Hhook.
  { intros c Hc. repeat (apply elem_of_cons in Hc as [-> | Hc]; [done |]).
    by apply not_elem_of_nil in Hc. }
  change HookIn with (ch_hook filter_chain). change PreRouting with (ch_hook nat_prerouting).
  change PostRouting with (ch_hook nat_postrouting).
  rewrite (Hhook filter_chain), (Hhook nat_prerouting), (Hhook nat_postrouting) by set_solver.
  rewrite !filter_app.
  rewrite (filter_chain_none (ch_name filter_chain) _ _ Cd),
    (filter_chain_none (ch_name filter_chain) _ _ Cn'), (filter_chain_all _ _ Cf) by done.
  rewrite (filter_chain_none (ch_name nat_prerouting) _ _ Cn'),
    (filter_chain_none (ch_name nat_prerouting) _ _ Cf), (filter_chain_all _ _ Cd) by done.
  rewrite (filter_chain_none (ch_name nat_postrouting) _ _ Cd),
    (filter_chain_none (ch_name nat_postrouting) _ _ Cf), (filter_chain_all _ _ Cn') by done.
  rewrite !app_nil_r, !app_nil_l. cbn [policy_statement ch_policy nat_prerouting nat_postrouting filter_chain].
  by rewrite Of, Od, On.
Qed.

(** No two port forwards serve the same packet. *)
Lemma NoDup_fmap_same {A} (f : A → Z) (l : list A) x y :
  NoDup (f <$> l) → x ∈ l → y ∈ l → f x = f y → x = y.
Proof.
  intros Hnd [i Hi]%list_elem_of_lookup [j Hj]%list_elem_of_lookup E.
  assert (i = j) as ->; [|congruence].
  eapply NoDup_lookup; [exact Hnd | |]; rewrite list_lookup_fmap; [by rewrite Hi |].
  rewrite Hj. simpl. by rewrite E.
Qed.
Lemma serves_unique rules r1 r2 t :
  NoDup (tcp_ports rules) → NoDup (udp_ports rules) → r1 ∈ rules → r2 ∈ rules →
  serves r1 t = true → serves r2 t = true → r1 = r2.
Proof.
  intros Ht Hu Hr1 Hr2. unfold serves. destruct t as [d|d| |]; [| |done..];
    intros [? ?%bool_decide_eq_true]%andb_true_iff [? ?%bool_decide_eq_true]%andb_true_iff.
  - eapply (NoDup_fmap_same external_port); [exact Ht | | | congruence];
      by apply list_elem_of_filter.
  - eapply (NoDup_fmap_same external_port); [exact Hu | | | congruence];
      by apply list_elem_of_filter.
Qed.
Lemma dnat_target_spec rules r t :
  NoDup (tcp_ports rules) → NoDup (udp_ports rules) → r ∈ rules → serves r t = true →
  dnat_target rules t = Some (StDnat (internal_ip r) (internal_port r)).
Proof.
  intros Ht Hu Hr Hs. unfold dnat_target.
  destruct (filter (λ r, serves r t = true) rules) as [|x l] eqn:E.
  - assert (r ∈ filter (λ r, serves r t = true) rules) as Hin by by apply list_elem_of_filter.
    rewrite E in Hin. by apply not_elem_of_nil in Hin.
  - assert (x ∈ filter (λ r, serves r t = true) rules) as Hin by (rewrite E; apply list_elem_of_here).
    apply list_elem_of_filter in Hin as [Hx Hin].
    by rewrite (serves_unique rules x r t).
Qed.

(** [configure_firewall] in one equation: the builders never fail. *)
Lemma configure_firewall_eq env wan lan rules kernel :
  Forall rule_widths rules →
  valid_iface wan → valid_iface lan → wan ≠ lan →
  ∃ t, build_table wan lan rules = Ok t ∧
  configure_firewall env wan lan rules kernel =
    match flush_existing_table env kernel with
    | (Err e, kernel) => (Err e, kernel)
    | (Ok _, kernel) =>
        match nf_commit env with
        | Some errno => (Err (NetlinkError errno), kernel)
        | None => (Ok tt, Some t)
        end
    end.
Proof.
  intros Hr Hw Hl Hne. destruct (build_table_spec wan lan rules Hw Hl Hr) as (t & Et & _).
  exists t. split; [done |]. unfold configure_firewall.
  rewrite (proj2 (validate_interface_name_Ok wan) Hw). cbn [mbind result_bind].
  rewrite (proj2 (validate_interface_name_Ok lan) Hl), bool_decide_false, Et by done.
  by destruct (flush_existing_table env kernel) as [[[]|] ?].
Qed.

Lemma configure_firewall_bad_names env wan lan rules kernel :
  ¬ (valid_iface wan ∧ valid_iface lan ∧ wan ≠ lan) →
  ∃ e, configure_firewall env wan lan rules kernel = (Err e, kernel).
Proof.
  intros Hbad. unfold configure_firewall.
  pose proof (validate_interface_name_Ok wan) as Hw. pose proof (validate_interface_name_Ok lan) as Hl.
  destruct (validate_interface_name wan) as [[]|e1]; cbn [mbind result_bind]; [|by eexists].
  destruct (validate_interface_name lan) as [[]|e2]; [|by eexists].
  rewrite bool_decide_true; [by eexists |]. apply dec_stable. naive_solver.
Qed.

Lemma configure_firewall_table env wan lan rules kernel kernel' :
  configure_firewall env wan lan rules kernel = (Ok tt, kernel') →
  ∃ t, build_table wan lan rules = Ok t ∧ kernel' = Some t.
Proof.
  unfold configure_firewall. destruct (let? _ := _ in _) as [[]|]; [|done]. case_bool_decide; [done |].
  destruct (flush_existing_table env kernel) as [[[]|] k]; [|done].
  destruct (build_table wan lan rules) as [t|]; [|done]. destruct (nf_commit env); [done |].
  intros [= <-]. eauto.
Qed.
Lemma configure_firewall_Ok env wan lan rules kernel kernel' :
  configure_firewall env wan lan rules kernel = (Ok tt, kernel') →
  valid_iface wan ∧ valid_iface lan ∧ wan ≠ lan.
Proof.
  intros E. destruct (decide (wan = lan)) as [Heq | Hne].
  { destruct (configure_firewall_bad_names env wan lan rules kernel) as [e E']; [naive_solver | congruence]. }
  unfold configure_firewall in E. rewrite <-!validate_interface_name_Ok.
  destruct (validate_interface_name wan) as [[]|e1]; cbn [mbind result_bind] in E; [|done].
  by destruct (validate_interface_name lan) as [[]|e2].
Qed.

(** C5: what the installed firewall does.  After [configure_firewall] has
    succeeded, a packet for the router itself is accepted exactly if its
    connection is not in an invalid state and it came over the loopback, belongs
    or is related to an established connection, came from the LAN, is a reply
    to the DHCP client on the WAN, or is ICMP; everything else is dropped, in
    particular every other new connection from the WAN.  A packet that arrives
    on the WAN for the external port of a port forward, with its protocol, is
    sent on to exactly that rule's internal address and port, and no other
    packet is redirected.  What leaves by the WAN is masqueraded, and nothing
    else.  The port forwards have the distinct external ports that the
    configuration parser ensures. *)
Theorem firewall_policy env wan lan rules kernel kernel' :
  configure_firewall env wan lan rules kernel = (Ok tt, kernel') →
  Forall rule_widths rules → NoDup (tcp_ports rules) → NoDup (udp_ports rules) →
  ∀ p,
    hook_outcome kernel' HookIn p = (if decide (admitted wan lan p) then StAccept else StDrop) ∧
    (∀ r, r ∈ rules → np_iif p = wan → serves r (np_transport p) = true →
       hook_outcome kernel' PreRouting p = StDnat (internal_ip r) (internal_port r)) ∧
    (np_iif p ≠ wan ∨ (∀ r, r ∈ rules → serves r (np_transport p) = false) →
       hook_outcome kernel' PreRouting p = StAccept) ∧
    hook_outcome kernel' PostRouting p =
      (if decide (np_oif p = wan) then StMasquerade else StAccept).
Proof.
  intros E Hr Ht Hu p. destruct (configure_firewall_Ok _ _ _ _ _ _ E) as (Hw & Hl & Hne).
  destruct (configure_firewall_eq env wan lan rules kernel Hr Hw Hl Hne) as (t & Et & Ec).
  assert (kernel' = Some t) as ->.
  { rewrite Ec in E. destruct (flush_existing_table env kernel) as [[[]|] ?]; [|done].
    by destruct (nf_commit env); simplify_eq. }
  destruct (build_table_spec wan lan rules Hw Hl Hr) as (t' & Et' & Hooks).
  rewrite Et in Et'. injection Et' as <-.
  destruct (Hooks p) as (-> & -> & ->). split_and!; [done | | | done].
  - intros r Hin Hi Hs. rewrite decide_True by done. by rewrite (dnat_target_spec rules r).
  - intros [Hi | Hnone]; [by rewrite decide_False |]. case_decide; [|done].
    unfold dnat_target. destruct (filter _ rules) as [|r l] eqn:Ef; [done |].
    assert (r ∈ filter (λ r, serves r (np_transport p) = true) rules) as Hin
      by (rewrite Ef; apply list_elem_of_here).
    apply list_elem_of_filter in Hin as [Hs Hin]. by rewrite Hnone in Hs.
Qed.

(** C31: when configuring the firewall fails.  It succeeds exactly if the two
    interface names are valid and different and the kernel carries out both
    batches (that there was no table to delete counts as carried out); building
    the rules never fails.  If it fails before the old table is deleted, the
    kernel keeps it.  If the second batch fails, no table is left, unless there
    was none to delete. *)
Theorem configure_firewall_errors env wan lan rules kernel :
  Forall rule_widths rules →
  let names_ok := valid_iface wan ∧ valid_iface lan ∧ wan ≠ lan in
  let deleted := nf_delete env = None ∨ ∃ errno, nf_delete env = Some errno ∧ Z.abs errno = ENOENT in
  let '(r, kernel') := configure_firewall env wan lan rules kernel in
  (r = Ok tt ↔ names_ok ∧ deleted ∧ nf_commit env = None) ∧
  (¬ (names_ok ∧ deleted) → kernel' = kernel) ∧
  (names_ok ∧ nf_delete env = None ∧ nf_commit env ≠ None → kernel' = None).
Proof.
  intros Hr names_ok deleted.
  destruct (decide (wan = lan)) as [Heq | Hne];
    [|destruct (validate_interface_name wan) as [[]|] eqn:Hw;
      [destruct (validate_interface_name lan) as [[]|] eqn:Hl |]].
  2: { rewrite validate_interface_name_Ok in Hw, Hl.
       destruct (configure_firewall_eq env wan lan rules kernel Hr Hw Hl Hne) as (t & _ & ->).
       unfold flush_existing_table, names_ok, deleted.
       destruct (nf_delete env) as [errno|], (nf_commit env) as [errno'|]; try case_bool_decide;
         naive_solver. }
  all: assert (¬ names_ok) as Hbad
    by (unfold names_ok; rewrite <-!validate_interface_name_Ok; naive_solver congruence).
  all: destruct (configure_firewall_bad_names env wan lan rules kernel Hbad) as [err ->].
  all: naive_solver.
Qed.
End firewall_spec.

(** A concrete reading of rules, and a router with one port forward. *)
Module FirewallExample.

#[local] Instance bits : Rustables := {|
  ct_bits s := match s with INVALID => 1 | ESTABLISHED => 2 | RELATED => 4 | NEW => 8 | UNTRACKED => 64 end;
  iface_ok name := bool_decide (str_len name < IFNAMSIZ);
  bitwise_ok mask xor := bool_decide (length mask = length xor);
|}.
#[local] Instance bits_laws : RustablesLaws.
Proof.
  split.
  - intros s1 s2. split; [|intros ->; by destruct s2].
    intros Hl. destruct s1, s2; try reflexivity; exfalso; apply Hl; reflexivity.
  - intros s. destruct s; simpl; lia.
  - intros name _ Hlen _. by apply bool_decide_true.
  - intros mask xor Hlen. by apply bool_decide_true.
Qed.

(** A register machine for the expressions; an unused register holds nothing. *)
Fixpoint run_exprs (es : list RuleExpr) (r1 r2 : list Z) (p : NfPacket) : option Statement :=
  match es with
  | [] => None
  | Iiface name :: es => if decide (np_iif p = name) then run_exprs es r1 r2 p else None
  | Oiface name :: es => if decide (np_oif p = name) then run_exprs es r1 r2 p else None
  | Dport port proto :: es =>
      if decide (np_transport p = transport proto port) then run_exprs es r1 r2 p else None
  | Icmp :: es => if decide (np_transport p = TIcmp) then run_exprs es r1 r2 p else None
  | ConntrackState :: es => run_exprs es (u32_to_le_bytes (ct_bits (np_state p))) r2 p
  | Bitwise mask xor :: es =>
      run_exprs es (zip_with Z.lxor (zip_with Z.land r1 mask) xor) r2 p
  | CmpNeq data :: es => if decide (r1 = data) then None else run_exprs es r1 r2 p
  | ImmediateData data Reg1 :: es => run_exprs es data r2 p
  | ImmediateData data Reg2 :: es => run_exprs es r1 data p
  | DNat Reg1 Reg2 :: es =>
      match r1, r2 with
      | [a; b; c; d], [hi; lo] => Some (StDnat (ipv4 a b c d) (u16_from_be_bytes hi lo))
      | _, _ => None
      end
  | DNat _ _ :: es => None
  | Masquerade :: es => Some StMasquerade
  | AcceptVerdict :: es => Some StAccept
  | DropVerdict :: es => Some StDrop
  end.
#[local] Instance kernel_reading : Netfilter := λ es p, run_exprs es [] [] p.

Lemma run_exprs_closed es w1 w2 r1 r2 r1' r2' p :
  closed w1 w2 es = true → (w1 = true → r1 = r1') → (w2 = true → r2 = r2') →
  run_exprs es r1 r2 p = run_exprs es r1' r2' p.
Proof.
  revert w1 w2 r1 r2 r1' r2'.
  induction es as [|e es IH]; intros w1 w2 r1 r2 r1' r2' Hc H1 H2; [done |].
  destruct e as [name|name|port proto| | |mask xor|data|data []|[] []| | |]; simpl in *; try done.
  all: try (case_decide; [by eapply IH | done]).
  - by eapply (IH true w2).
  - apply andb_true_iff in Hc as [Hw Hc]. rewrite (H1 Hw). by eapply IH.
  - apply andb_true_iff in Hc as [Hw Hc]. rewrite (H1 Hw). case_decide; [done | by eapply IH; auto].
  - by eapply (IH true w2).
  - by eapply (IH w1 true).
  - apply andb_true_iff in Hc as [[Hw1 Hw2]%andb_true_iff _]. by rewrite H1, H2.
Qed.

(** The machine's mask of the state, on the bits that the states have. *)
Lemma run_conntrack mask s :
  0 ≤ mask < 2 ^ 32 →
  zip_with Z.lxor (zip_with Z.land (u32_to_le_bytes (ct_bits s)) (u32_to_le_bytes mask)) [0; 0; 0; 0]
  = [0; 0; 0; 0] ↔ Z.land (ct_bits s) mask = 0.
Proof.
  intros _.
  assert (Z.land (ct_bits s) 255 = ct_bits s ∧ Z.shiftr (ct_bits s) 8 = 0 ∧
    Z.shiftr (ct_bits s) 16 = 0 ∧ Z.shiftr (ct_bits s) 24 = 0) as (E0 & E1 & E2 & E3) by by destruct s.
  revert E0 E1 E2 E3. generalize (ct_bits s) as b. intros b E0 E1 E2 E3.
  unfold u32_to_le_bytes. cbn [zip_with]. rewrite !Z.lxor_0_r, E1, E2, E3, E0, !Z.land_0_l.
  assert (Z.land b (Z.land mask 255) = Z.land b mask) as ->
    by (by rewrite (Z.land_comm mask), Z.land_assoc, E0).
  split; [by intros [= ->] | by intros ->].
Qed.

#[local] Instance kernel_reading_laws : NetfilterLaws.
Proof.
  split; unfold rule_outcome, kernel_reading; try done; simpl.
  all: try (intros; case_decide; [by eapply run_exprs_closed | done]).
  - intros mask es p Hc Hm. pose proof (run_conntrack mask (np_state p) Hm) as Hrun.
    simpl in Hrun.
    case_decide as E1; case_decide as E2; [done | tauto | tauto | by eapply run_exprs_closed].
  - intros ip port p Hip Hport. rewrite (ipv4_octets ip Hip).
    do 2 f_equal. apply (u16_be_bytes_id port).
Qed.

(** A web server behind the router. *)
Definition web : PortForwardRule :=
  mkPortForwardRule Tcp 8080 (ipv4 192 168 1 50) 80 None.
Definition working : NfEnv := mkNfEnv (Some ENOENT) None.
Definition installed : option Table :=
  (configure_firewall working (lit "wan") (lit "lan") [web] None).2.
(** A new connection from the WAN, to a port. *)
Definition from_wan (port : Z) : NfPacket := mkNfPacket (lit "wan") [] NEW (TTcp port).

Lemma web_widths : Forall rule_widths [web].
Proof. constructor; [|constructor]. split; split; vm_compute; congruence. Qed.

Lemma firewall_policy_witness :
  hook_outcome installed HookIn (from_wan 22) = StDrop ∧
  hook_outcome installed PreRouting (from_wan 8080) = StDnat (ipv4 192 168 1 50) 80.
Proof.
  assert (NoDup (tcp_ports [web]) ∧ NoDup (udp_ports [web])) as [Ht Hu].
  { split; apply (bool_decide_unpack _); reflexivity. }
  pose proof (firewall_policy working (lit "wan") (lit "lan") [web] None installed eq_refl
    web_widths Ht Hu) as H. split.
  - destruct (H (from_wan 22)) as [-> _]. apply decide_False. intros (_ & Ha).
    destruct Ha as [? | [[? | ?] | [? | [[_ ?] | ?]]]]; discriminate.
  - destruct (H (from_wan 8080)) as (_ & Hd & _). apply (Hd web); [apply list_elem_of_here | done | done].
Defined.

Lemma configure_firewall_errors_witness :
  let '(r, kernel') := configure_firewall (mkNfEnv None (Some 12)) (lit "wan") (lit "lan") [web] installed in
  r ≠ Ok tt ∧ kernel' = None.
Proof.
  pose proof (configure_firewall_errors (mkNfEnv None (Some 12)) (lit "wan") (lit "lan") [web]
    installed web_widths) as H. cbv zeta in H.
  destruct (configure_firewall _ _ _ _ _) as [r kernel'].
  destruct H as (Hok & _ & Hnone). split; [intros ?%Hok; naive_solver |].
  apply Hnone. unfold valid_iface.
  split_and!; first [done | apply (bool_decide_unpack _); reflexivity].
Defined.

(** Finding: the old table is deleted in a batch of its own, so that when the
    new one is refused (as at a move of the LAN) the router runs without any
    firewall: a new connection from the WAN to any port is accepted. *)
Theorem failed_update_opens_router port :
  let '(r, kernel') := configure_firewall (mkNfEnv None (Some 12)) (lit "wan") (lit "lan") [web] installed in
  r = Err (NetlinkError 12) ∧ hook_outcome kernel' HookIn (from_wan port) = StAccept.
Proof. split; reflexivity. Qed.
End FirewallExample.
