(* ===== verification/Logging.v ===== *)
(** * Logging

    [src/src/logging.rs] and [src/src/init/kmsg.rs]: the format of log lines,
    the ring buffer that the status page shows, the log file with its rotation
    and the reclaiming of space, and the records of the kernel.  The state is
    the ring buffer, the logger and the directory of log files; the clock, the
    free space and the outcomes of file operations are the environment. *)

From Stdlib Require Import ZArith Lia.
From stdpp Require Import base gmap sets list sorting strings.
From S2P Require Import Prelude NetAddr Text Config.

#[local] Open Scope Z_scope.

Definition DEFAULT_MAX_LOG_SIZE_MB : Z := 100.
Definition BYTES_PER_MB : Z := 1024 * 1024.
Definition MIN_USABLE_LOG_SPACE : Z := 64 * 1024.
Definition MAX_RING_BUFFER_LINES : nat := 500.

(** ** Levels and lines *)

Inductive Level := LevelError | LevelWarn | LevelInfo | LevelDebug | LevelTrace.
#[global] Instance Level_eq_dec : EqDecision Level.
Proof. solve_decision. Defined.

(** [Ord] of the [log] crate's levels, and their names. *)
Definition level_rank (l : Level) : Z :=
  match l with
  | LevelError => 1 | LevelWarn => 2 | LevelInfo => 3 | LevelDebug => 4 | LevelTrace => 5
  end.
Definition filter_rank (f : LevelFilter) : Z :=
  match f with LOff => 0 | LError => 1 | LWarn => 2 | LInfo => 3 | LDebug => 4 | LTrace => 5 end.
Definition level_le (l : Level) (f : LevelFilter) : bool :=
  bool_decide (level_rank l ≤ filter_rank f).
Definition level_display (l : Level) : str :=
  match l with
  | LevelError => lit "ERROR" | LevelWarn => lit "WARN" | LevelInfo => lit "INFO"
  | LevelDebug => lit "DEBUG" | LevelTrace => lit "TRACE"
  end.

Definition parse_line_level (message : str) : Level :=
  let lower := to_ascii_lowercase message in
  let contains := λ needle, contains_str needle lower in
  if contains (lit "fatal") || contains (lit "error") || contains (lit "failed")
     || contains (lit "panic") then LevelError
  else if contains (lit "warning") || contains (lit "warn") then LevelWarn
  else if contains (lit "debug") then LevelDebug
  else if contains (lit "trace") then LevelTrace
  else LevelInfo.

(** [s.split("::")] *)
Fixpoint split_colons (s : str) : list str :=
  match s with
  | [] => [[]]
  | x :: s' =>
      match s' with
      | y :: s'' =>
          if bool_decide (x = 58) && bool_decide (y = 58) then [] :: split_colons s''
          else match split_colons s' with [] => [[x]] | h :: t => (x :: h) :: t end
      | [] => [[x]]
      end
  end.
Definition dashes (s : str) : str := map (λ c, if decide (c = 95) then 45 else c) s.
Definition clean_target (target : str) : str :=
  if bool_decide (is_Some (strip_prefix (lit "trimrouter::") target))
  then dashes (default target (last (split_colons target)))
  else dashes target.

(** What the source uses of [chrono]: the two formats of a time stamp, and its
    year and day. *)
Class Chrono := {
  ts_format : Z → str;
  ts_suffix : Z → str;
  ts_date : Z → Z * Z;
}.

Section lines.
Context `{Chrono}.
Open Scope router_scope.

Definition log_line (timestamp : Z) (level : Level) (service body : str) : str :=
  lit "[" ++ ts_format timestamp ++ lit "] [" ++ level_display level ++ lit "] [" ++ service
  ++ lit "] " ++ body ++ [LF].

(** [format_raw_line_with_explicit_level]; the slice of the test for a time
    stamp counts bytes. *)
Definition format_raw_line_with_explicit_level (timestamp : Z) (explicit_level : option Level)
    (message : str) : Outcome str :=
  let trimmed := trim_end message in
  let! formatted :=
    (if bool_decide (head trimmed = Some 91) && bool_decide (20 < str_len trimmed)
     then let! year := str_slice 1 5 trimmed in Returned (forallb is_ascii_digit year)
     else Returned false) in
  if formatted : bool then Returned (trimmed ++ [LF]) else
  match (rest ← strip_prefix [91] trimmed; split_once 93 rest) with
  | Some (service, body) =>
      let level := default (parse_line_level body) explicit_level in
      Returned (log_line timestamp level service (trim_start body))
  | None =>
      let level := default (parse_line_level trimmed) explicit_level in
      Returned (log_line timestamp level (lit "system") trimmed)
  end.
Definition format_raw_line (timestamp : Z) (message : str) : Outcome str :=
  format_raw_line_with_explicit_level timestamp None message.
Definition format_log_line (timestamp : Z) (level : Level) (service message : str) : str :=
  log_line timestamp level service message.
End lines.

(** ** Records of the kernel *)

Definition KLOG_SEV_MASK : Z := 7.
Definition KLOG_SEV_ERR_MAX : Z := 3.
Definition KLOG_SEV_WARN : Z := 4.
Definition KLOG_SEV_DEBUG : Z := 7.
Definition KERNEL_LOG_TAG : str := lit "kernel".

(** [parse_kmsg_record], on the text of a record. *)
Definition parse_kmsg_record (text : str) : option (Level * str) :=
  '(header, rest) ← split_once 59 text;
  prio_str ← head (split 44 header);
  prio ← parse_uint 32 prio_str;
  let sev := Z.land prio KLOG_SEV_MASK in
  let level :=
    if bool_decide (sev ≤ KLOG_SEV_ERR_MAX) then LevelError
    else if bool_decide (sev = KLOG_SEV_WARN) then LevelWarn
    else if bool_decide (sev = KLOG_SEV_DEBUG) then LevelDebug
    else LevelInfo in
  line ← head (lines rest);
  let msg_line := trim line in
  if bool_decide (msg_line = []) then None else Some (level, msg_line).

(** ** The logger *)

Definition U64_MAX : Z := 2 ^ 64 - 1.
Definition saturating_add (a b : Z) : Z := Z.min (a + b) U64_MAX.
Definition saturating_mul (a b : Z) : Z := Z.min (a * b) U64_MAX.

(** An entry of the log directory. *)
Inductive DirEntry := RegularFile (content : str) | Symlink | Directory.
#[global] Instance DirEntry_eq_dec : EqDecision DirEntry.
Proof. solve_decision. Defined.

(** [DEFAULT_LOG_FILE] in the directory [DEFAULT_LOG_DIR]. *)
Definition ACTIVE : str := lit "system.log".

(** [lg_log_file]: whether the log file is open. *)
Record Logger := mkLogger {
  lg_log_file : bool;
  lg_max_size_bytes : Z;
  lg_level : LevelFilter;
  lg_current_size : Z;
  lg_last_rotation_date : Z * Z;
  lg_log_disabled : bool;
}.

(** [LOG_RING_BUFFER], [GLOBAL_LOGGER] and the log directory. *)
Record LogState := mkLogState {
  ls_ring : list str;
  ls_logger : Logger;
  ls_files : gmap str DirEntry;
}.

(** What [statvfs] tells of a file system. *)
Record StatVfs := mkStatVfs { f_blocks : Z; f_bavail : Z; f_frsize : Z }.
(** [get_partition_space]: the size and the free space in bytes. *)
Definition get_partition_space (stat : option StatVfs) : option (Z * Z) :=
  (λ st, (saturating_mul (f_blocks st) (f_frsize st), saturating_mul (f_bavail st) (f_frsize st))) <$> stat.
Definition get_available_space_bytes (stat : option StatVfs) : option Z := snd <$> get_partition_space stat.

(** What the world answers during an operation: the time; whether the directory
    is there; [statvfs] when the file is opened, and later, given the files;
    whether a file can be opened, renamed and removed; whether the process is
    the init process; whether the lines of the ring buffer and the line itself
    can be written (a line that cannot be written is not written in part). *)
Record LogEnv := mkLogEnv {
  le_now : Z;
  le_dir_exists : bool;
  le_stat_open : option StatVfs;
  le_stat : gmap str DirEntry → option StatVfs;
  le_open_ok : bool;
  le_rename_ok : bool;
  le_remove_ok : str → bool;
  le_is_init : bool;
  le_flush_ok : nat → bool;
  le_write_ok : bool;
}.

(** The size of the partition, and [check_free_space]. *)
Definition le_total (env : LogEnv) : option Z := fst <$> get_partition_space (le_stat_open env).
Definition le_space (env : LogEnv) (fs : gmap str DirEntry) : option Z := get_available_space_bytes (le_stat env fs).

Definition set_files (fs : gmap str DirEntry) (s : LogState) : LogState :=
  mkLogState (ls_ring s) (ls_logger s) fs.
Definition set_logger (l : Logger) (s : LogState) : LogState :=
  mkLogState (ls_ring s) l (ls_files s).
Definition set_log_file (b : bool) (l : Logger) : Logger :=
  mkLogger b (lg_max_size_bytes l) (lg_level l) (lg_current_size l) (lg_last_rotation_date l)
    (lg_log_disabled l).
Definition set_current_size (n : Z) (l : Logger) : Logger :=
  mkLogger (lg_log_file l) (lg_max_size_bytes l) (lg_level l) n (lg_last_rotation_date l)
    (lg_log_disabled l).
Definition set_max_size (n : Z) (l : Logger) : Logger :=
  mkLogger (lg_log_file l) n (lg_level l) (lg_current_size l) (lg_last_rotation_date l)
    (lg_log_disabled l).
Definition set_disabled (b : bool) (l : Logger) : Logger :=
  mkLogger (lg_log_file l) (lg_max_size_bytes l) (lg_level l) (lg_current_size l)
    (lg_last_rotation_date l) b.
Definition set_rotation_date (d : Z * Z) (l : Logger) : Logger :=
  mkLogger (lg_log_file l) (lg_max_size_bytes l) (lg_level l) (lg_current_size l) d
    (lg_log_disabled l).

(** The contents of a file, and [write_all] at its end. *)
Definition file_content (fs : gmap str DirEntry) (name : str) : str :=
  match fs !! name with Some (RegularFile c) => c | _ => [] end.
Definition append_line (line : str) (fs : gmap str DirEntry) : gmap str DirEntry :=
  <[ACTIVE := RegularFile (file_content fs ACTIVE ++ line)]> fs.
(** [if path.is_symlink() { remove_file(path) }], which succeeds. *)
Definition unlink_symlink (name : str) (fs : gmap str DirEntry) : gmap str DirEntry :=
  if bool_decide (fs !! name = Some Symlink) then delete name fs else fs.

(** *** The ring buffer *)

Definition push_ring (line : str) (ring : list str) : list str :=
  (if bool_decide (MAX_RING_BUFFER_LINES ≤ length ring)%nat then tail ring else ring) ++ [line].

Definition passes_level (min_level : option LevelFilter) (line : str) : bool :=
  match min_level with Some f => level_le (parse_line_level line) f | None => true end.
Definition get_recent_logs (max_lines : nat) (min_level : option LevelFilter) (s : LogState) :
    list str :=
  let count := Nat.min max_lines MAX_RING_BUFFER_LINES in
  let result := filter (λ line, passes_level min_level line = true) (ls_ring s) in
  if bool_decide (count < length result)%nat then drop (length result - count) result else result.

(** *** Opening, rotating, reclaiming *)

(** [flush_ring_buffer_to_file]: the lines from number [i] on. *)
Fixpoint flush_ring_buffer_to_file (env : LogEnv) (i : nat) (lines : list str)
    (size : Z) (fs : gmap str DirEntry) : Z * gmap str DirEntry :=
  match lines with
  | [] => (size, fs)
  | line :: rest =>
      if le_flush_ok env i
      then flush_ring_buffer_to_file env (S i) rest (saturating_add size (str_len line))
             (append_line line fs)
      else (size, fs)
  end.

Definition open_log_file (env : LogEnv) (s : LogState) : LogState :=
  let l := ls_logger s in
  if negb (le_dir_exists env) then set_logger (set_log_file false l) s else
  let fs := unlink_symlink ACTIVE (ls_files s) in
  let l :=
    match le_total env with
    | Some total =>
        if bool_decide (0 < total) && bool_decide (total ≤ lg_max_size_bytes l)
        then set_max_size (Z.max (total / 2) (1024 * 1024)) l else l
    | None => l
    end in
  let was_unattached := negb (lg_log_file l) in
  if le_open_ok env && negb (bool_decide (fs !! ACTIVE = Some Directory)) then
    let fs := <[ACTIVE := RegularFile (file_content fs ACTIVE)]> fs in
    let size := Z.min (str_len (file_content fs ACTIVE)) U64_MAX in
    let '(size, fs) :=
      if was_unattached then flush_ring_buffer_to_file env 0 (ls_ring s) size fs else (size, fs) in
    mkLogState (ls_ring s) (set_disabled false (set_log_file true (set_current_size size l))) fs
  else mkLogState (ls_ring s) (set_log_file false l) fs.

(** [list_rotated_log_files]: the time stamps in the names. *)
Definition rotated_timestamp (name : str) : option str :=
  rest ← strip_prefix (lit "system.") name;
  ts ← strip_suffix (lit ".log") rest;
  if bool_decide (ts = []) then None else Some ts.
Definition rotated_name (ts : str) : str := lit "system." ++ ts ++ lit ".log".
Definition list_rotated_log_files (fs : gmap str DirEntry) : list str :=
  omap (λ kv, match kv.2 with Directory => None | _ => rotated_timestamp kv.1 end) (map_to_list fs).

(** The order of strings. *)
Fixpoint str_leb (a b : str) : bool :=
  match a, b with
  | [], _ => true
  | _ :: _, [] => false
  | x :: a', y :: b' => bool_decide (x < y) || (bool_decide (x = y) && str_leb a' b')
  end.
Definition str_le (a b : str) : Prop := str_leb a b = true.
#[global] Instance str_le_dec : RelDecision str_le.
Proof. intros a b. unfold str_le. apply _. Defined.

(** [reclaim_space]: the loop over the sorted files. *)
Fixpoint reclaim_files (env : LogEnv) (max_size_bytes : Z) (timestamps : list str)
    (fs : gmap str DirEntry) : gmap str DirEntry :=
  match timestamps with
  | [] => fs
  | ts :: rest =>
      if match le_space env fs with Some free => bool_decide (max_size_bytes ≤ free) | None => false end
      then fs
      else reclaim_files env max_size_bytes rest
             (if le_remove_ok env (rotated_name ts) then delete (rotated_name ts) fs else fs)
  end.
Definition reclaim_space (env : LogEnv) (s : LogState) : LogState :=
  if negb (le_dir_exists env) then s else
  set_files (reclaim_files env (lg_max_size_bytes (ls_logger s))
               (merge_sort str_le (list_rotated_log_files (ls_files s))) (ls_files s)) s.

Section rotation.
Context `{Chrono}.

Definition rename_active (env : LogEnv) (target : str) (fs : gmap str DirEntry) :
    gmap str DirEntry :=
  match fs !! ACTIVE with
  | Some e =>
      if le_rename_ok env && negb (bool_decide (fs !! target = Some Directory))
      then <[target := e]> (delete ACTIVE fs) else fs
  | None => fs
  end.

Definition rotate (env : LogEnv) (s : LogState) : LogState :=
  let max_size := lg_max_size_bytes (ls_logger s) in
  let s := match le_space env (ls_files s) with
           | Some free => if bool_decide (free < max_size) then reclaim_space env s else s
           | None => s
           end in
  let min_required := Z.min max_size MIN_USABLE_LOG_SPACE in
  if match le_space env (ls_files s) with Some free => bool_decide (free < min_required) | None => false end
  then set_logger (set_disabled true (ls_logger s)) s
  else
    let target := rotated_name (ts_suffix (le_now env)) in
    let fs := rename_active env target (unlink_symlink target (ls_files s)) in
    open_log_file env
      (mkLogState (ls_ring s)
         (set_current_size 0 (set_rotation_date (ts_date (le_now env)) (set_log_file false (ls_logger s))))
         fs).

(** *** Writing *)

Inductive LogOut := Console (line : str) | Broadcast (line : str).

Definition size_trigger (line : str) (l : Logger) : bool :=
  bool_decide (lg_max_size_bytes l ≤ saturating_add (lg_current_size l) (str_len line)).
Definition date_trigger (env : LogEnv) (l : Logger) : bool :=
  bool_decide (ts_date (le_now env) ≠ lg_last_rotation_date l).

Definition write_entry (env : LogEnv) (line : str) (s : LogState) : LogState * list LogOut :=
  let out := [Console line; Broadcast line] in
  let s := mkLogState (push_ring line (ls_ring s)) (ls_logger s) (ls_files s) in
  let l := ls_logger s in
  if lg_log_disabled l || negb (lg_log_file l) then (s, out) else
  let s := if le_is_init env && (size_trigger line l || date_trigger env l) then rotate env s else s in
  let l := ls_logger s in
  if lg_log_disabled l || negb (lg_log_file l) || negb (le_write_ok env) then (s, out) else
  (mkLogState (ls_ring s)
     (set_current_size (saturating_add (lg_current_size l) (str_len line)) l)
     (append_line line (ls_files s)), out).
End rotation.

(** *** The logger's interface *)

Section interface.
Context `{Chrono}.
Open Scope router_scope.

Definition Logger_new (now : Z) (max_size_mb : Z) (level : LevelFilter) : Logger :=
  mkLogger false (saturating_mul max_size_mb BYTES_PER_MB) level 0 (ts_date now) false.
(** [get_logger], the first time. *)
Definition logger_start (env : LogEnv) (fs : gmap str DirEntry) : LogState :=
  open_log_file env
    (mkLogState [] (Logger_new (le_now env) DEFAULT_MAX_LOG_SIZE_MB LInfo) fs).
(** [configure_vm_writeback]: the settings of the kernel that are written; an
    error is only printed. *)
Definition configure_vm_writeback (write_ok : str → bool) : list (str * str) :=
  filter (λ setting, write_ok setting.1 = true)
    [(lit "/proc/sys/vm/dirty_expire_centisecs", lit "3000");
     (lit "/proc/sys/vm/dirty_writeback_centisecs", lit "500")].
(** [init_logging]: the state after it, and the settings written. *)
Definition init_logging (env : LogEnv) (write_ok : str → bool) (max_size_mb : Z)
    (level : LevelFilter) (s : LogState) : LogState * list (str * str) :=
  let settings := configure_vm_writeback write_ok in
  let l := ls_logger s in
  (open_log_file env
     (set_logger (mkLogger (lg_log_file l) (saturating_mul max_size_mb BYTES_PER_MB) level
                    (lg_current_size l) (lg_last_rotation_date l) (lg_log_disabled l)) s),
   settings).

(** [RouterLogger::log], [log], [log_raw] and [log_raw_with_level]. *)
Definition router_log (env : LogEnv) (level : Level) (target message : str) (s : LogState) :
    LogState * list LogOut :=
  if level_le level (lg_level (ls_logger s))
  then write_entry env (format_log_line (le_now env) level (clean_target target) message) s
  else (s, []).
Definition log_service (env : LogEnv) (level : Level) (service message : str) (s : LogState) :
    LogState * list LogOut :=
  let formatted_line := format_log_line (le_now env) level service message in
  if level_le level (lg_level (ls_logger s)) then write_entry env formatted_line s else (s, []).
Definition log_raw (env : LogEnv) (message : str) (s : LogState) : Outcome (LogState * list LogOut) :=
  let! formatted_line := format_raw_line (le_now env) message in
  Returned (write_entry env formatted_line s).
Definition log_raw_with_level (env : LogEnv) (level : Level) (message : str) (s : LogState) :
    Outcome (LogState * list LogOut) :=
  let! formatted_line := format_raw_line_with_explicit_level (le_now env) (Some level) message in
  if level_le level (lg_level (ls_logger s)) then Returned (write_entry env formatted_line s)
  else Returned (s, []).

(** The loop of [run_kmsg_reader], on what [read] returns: a record that is text
    or not, the end, an interruption or an error. *)
Inductive KmsgRead := KmsgRecord (text : option str) | KmsgEof | KmsgInterrupted | KmsgError.
Fixpoint run_kmsg_reader (reads : list (LogEnv * bool * KmsgRead)) (s : LogState) :
    Outcome (LogState * list LogOut) :=
  match reads with
  | [] => Returned (s, [])
  | (env, shutdown, r) :: rest =>
      if shutdown : bool then Returned (s, []) else
      match r with
      | KmsgEof | KmsgError => Returned (s, [])
      | KmsgInterrupted => run_kmsg_reader rest s
      | KmsgRecord text =>
          match (text ← text; parse_kmsg_record text) with
          | Some (level, msg) =>
              let formatted := lit "[" ++ KERNEL_LOG_TAG ++ lit "] " ++ msg in
              let! logged := log_raw_with_level env level formatted s in
              let! more := run_kmsg_reader rest logged.1 in
              Returned (more.1, logged.2 ++ more.2)
          | None => run_kmsg_reader rest s
          end
      end
  end.
End interface.

(** ** The ring buffer *)

Definition lastn {A} (n : nat) (l : list A) : list A := drop (length l - n) l.

Lemma lastn_all {A} n (l : list A) : (length l ≤ n)%nat → lastn n l = l.
Proof. intros Hl. unfold lastn. by replace (length l - n)%nat with 0%nat by lia. Qed.
Lemma lastn_length {A} n (l : list A) : length (lastn n l) = Nat.min n (length l).
Proof. unfold lastn. rewrite length_drop. lia. Qed.
Lemma lastn_snoc {A} n (l : list A) x : lastn (S n) (lastn (S n) l ++ [x]) = lastn (S n) (l ++ [x]).
Proof.
  destruct (decide (length l ≤ S n)%nat) as [Hl | Hl]; [by rewrite (lastn_all (S n) l) |].
  unfold lastn. rewrite !length_app, length_drop. cbn [length].
  rewrite <-(drop_app_le l [x] (length l - S n)) by lia. rewrite drop_drop. f_equal. lia.
Qed.

Lemma push_ring_lastn line ring :
  (length ring ≤ MAX_RING_BUFFER_LINES)%nat →
  push_ring line ring = lastn MAX_RING_BUFFER_LINES (ring ++ [line]).
Proof.
  intros Hl. unfold push_ring, lastn. rewrite length_app. cbn [length].
  case_bool_decide.
  - replace (length ring + 1 - MAX_RING_BUFFER_LINES)%nat with 1%nat by lia.
    destruct ring as [|x ring]; [cbn [length] in *; unfold MAX_RING_BUFFER_LINES in *; lia | done].
  - by replace (length ring + 1 - MAX_RING_BUFFER_LINES)%nat with 0%nat by lia.
Qed.

(** ** Files and sizes *)

Lemma rotated_name_active ts : rotated_name ts ≠ ACTIVE.
Proof.
  intros E. apply (f_equal length) in E. unfold rotated_name, ACTIVE in E.
  rewrite !length_app in E. cbn in E. lia.
Qed.

Lemma reclaim_files_active env max tss fs : reclaim_files env max tss fs !! ACTIVE = fs !! ACTIVE.
Proof.
  revert fs. induction tss as [|ts tss IH]; intros fs; cbn [reclaim_files]; [done |].
  destruct (match le_space env fs with Some _ => _ | None => _ end); [done |]. rewrite IH.
  destruct (le_remove_ok env (rotated_name ts)); [|done].
  by rewrite lookup_delete_ne by apply rotated_name_active.
Qed.

Lemma saturating_add_min a b : 0 ≤ b → saturating_add (Z.min a U64_MAX) b = Z.min (a + b) U64_MAX.
Proof. unfold saturating_add. lia. Qed.

Lemma file_content_insert fs c : file_content (<[ACTIVE := RegularFile c]> fs) ACTIVE = c.
Proof. unfold file_content. by rewrite lookup_insert_eq. Qed.
Lemma append_line_insert line fs c :
  append_line line (<[ACTIVE := RegularFile c]> fs) = <[ACTIVE := RegularFile (c ++ line)]> fs.
Proof. unfold append_line. by rewrite file_content_insert, insert_insert_eq. Qed.

(** What the replay of the ring buffer adds to the file. *)
Lemma flush_ring_spec env i lines c fs :
  ∃ k, flush_ring_buffer_to_file env i lines (Z.min (str_len c) U64_MAX)
         (<[ACTIVE := RegularFile c]> fs) =
       (Z.min (str_len (c ++ concat (take k lines))) U64_MAX,
        <[ACTIVE := RegularFile (c ++ concat (take k lines))]> fs) ∧
    ((∀ j, le_flush_ok env j = true) → k = length lines).
Proof.
  revert i c. induction lines as [|line lines IH]; intros i c; cbn [flush_ring_buffer_to_file].
  { exists 0%nat. simpl. by rewrite app_nil_r. }
  destruct (le_flush_ok env i) eqn:Hi.
  - rewrite saturating_add_min by apply str_len_nonneg. rewrite <-str_len_app, append_line_insert.
    destruct (IH (S i) (c ++ line)) as (k & -> & Hk). exists (S k).
    cbn [take concat]. rewrite app_assoc. split; [done |]. intros Hall. cbn [length]. by rewrite Hk.
  - exists 0%nat. cbn [take concat]. rewrite app_nil_r. split; [done |].
    intros Hall. by rewrite Hall in Hi.
Qed.

(** The size of an attached log file is known exactly. *)
Record logger_inv (s : LogState) : Prop := {
  inv_file : lg_log_file (ls_logger s) = true →
    ∃ c, ls_files s !! ACTIVE = Some (RegularFile c) ∧
         lg_current_size (ls_logger s) = Z.min (str_len c) U64_MAX;
  inv_max : lg_max_size_bytes (ls_logger s) ≤ U64_MAX;
  inv_ring : (length (ls_ring s) ≤ MAX_RING_BUFFER_LINES)%nat;
}.

(** The limit after [open_log_file]. *)
Definition capped_max (env : LogEnv) (max_size : Z) : Z :=
  match le_total env with
  | Some total =>
      if bool_decide (0 < total) && bool_decide (total ≤ max_size)
      then Z.max (total / 2) (1024 * 1024) else max_size
  | None => max_size
  end.
Lemma capped_max_bound env max_size : max_size ≤ U64_MAX → capped_max env max_size ≤ U64_MAX.
Proof.
  intros Hm. unfold capped_max. destruct (le_total env) as [total|]; [|done].
  destruct (bool_decide_reflect (0 < total)), (bool_decide_reflect (total ≤ max_size)); simpl; try lia.
  assert (total / 2 ≤ total) by (apply Z.div_le_upper_bound; lia). unfold U64_MAX in *. lia.
Qed.

(** [open_log_file] when it opens the file. *)
Lemma open_log_file_eq env s :
  le_dir_exists env = true → le_open_ok env = true →
  unlink_symlink ACTIVE (ls_files s) !! ACTIVE ≠ Some Directory →
  let l := ls_logger s in
  let fs := unlink_symlink ACTIVE (ls_files s) in
  let c := file_content fs ACTIVE in
  ∃ k, let c' := if lg_log_file l then c else c ++ concat (take k (ls_ring s)) in
    open_log_file env s =
      mkLogState (ls_ring s)
        (mkLogger true (capped_max env (lg_max_size_bytes l)) (lg_level l)
           (Z.min (str_len c') U64_MAX) (lg_last_rotation_date l) false)
        (<[ACTIVE := RegularFile c']> fs) ∧
    ((∀ j, le_flush_ok env j = true) → k = length (ls_ring s)).
Proof.
  intros Hd Ho Hf l fs c. unfold open_log_file. rewrite Hd, Ho. fold l fs.
  rewrite (bool_decide_false (fs !! ACTIVE = Some Directory)) by done. cbn [negb andb].
  rewrite file_content_insert. fold c.
  assert (∀ b size l', lg_max_size_bytes l' = capped_max env (lg_max_size_bytes l) →
    lg_log_file l' = lg_log_file l → lg_level l' = lg_level l →
    lg_last_rotation_date l' = lg_last_rotation_date l →
    set_disabled false (set_log_file b (set_current_size size l')) =
    mkLogger b (capped_max env (lg_max_size_bytes l)) (lg_level l) size (lg_last_rotation_date l) false)
    as Hset by (intros b size [] ? ? ? ?; simpl in *; by subst).
  set (l' := match le_total env with Some _ => _ | None => l end).
  assert (lg_max_size_bytes l' = capped_max env (lg_max_size_bytes l) ∧ lg_log_file l' = lg_log_file l
    ∧ lg_level l' = lg_level l ∧ lg_last_rotation_date l' = lg_last_rotation_date l) as (E1 & E2 & E3 & E4).
  { unfold l', capped_max. destruct (le_total env) as [total|]; [|done].
    by destruct (bool_decide (0 < total) && bool_decide (total ≤ lg_max_size_bytes l)). }
  rewrite E2. destruct (lg_log_file l); cbn [negb].
  - exists (length (ls_ring s)). by rewrite (Hset true _ l' E1 E2 E3 E4).
  - destruct (flush_ring_spec env 0 (ls_ring s) c fs) as (k & -> & Hk). exists k.
    by rewrite (Hset true _ l' E1 E2 E3 E4).
Qed.

Lemma open_log_file_inv env s :
  lg_max_size_bytes (ls_logger s) ≤ U64_MAX → (length (ls_ring s) ≤ MAX_RING_BUFFER_LINES)%nat →
  logger_inv (open_log_file env s).
Proof.
  intros Hm Hr.
  destruct (le_dir_exists env) eqn:Hd; [|unfold open_log_file; rewrite Hd; by split].
  destruct (le_open_ok env && negb (bool_decide (unlink_symlink ACTIVE (ls_files s) !! ACTIVE = Some Directory)))
    eqn:Ho.
  - apply andb_true_iff in Ho as [Ho Hf%negb_true_iff%bool_decide_eq_false].
    destruct (open_log_file_eq env s Hd Ho Hf) as (k & -> & _). split; simpl.
    + intros _. eexists. split; [by rewrite lookup_insert_eq | done].
    + by apply capped_max_bound.
    + done.
  - unfold open_log_file. rewrite Hd, Ho. split; simpl; [done | | done].
    pose proof (capped_max_bound env _ Hm) as Hc. unfold capped_max in Hc.
    destruct (le_total env) as [total|]; [|done].
    by destruct (bool_decide (0 < total) && bool_decide (total ≤ _)).
Qed.

(** ** Rotation *)

Definition low_space (env : LogEnv) (n : Z) (fs : gmap str DirEntry) : Prop :=
  ∃ free, le_space env fs = Some free ∧ free < n.
#[global] Instance low_space_dec env n fs : Decision (low_space env n fs).
Proof.
  refine (match le_space env fs as o return le_space env fs = o → _ with
          | Some free => λ E, if decide (free < n) then left _ else right _
          | None => λ E, right _
          end eq_refl); unfold low_space; naive_solver lia.
Defined.

Definition remove_all (fs : gmap str DirEntry) (timestamps : list str) : gmap str DirEntry :=
  foldl (λ fs ts, delete (rotated_name ts) fs) fs timestamps.

Lemma remove_all_active fs tss : remove_all fs tss !! ACTIVE = fs !! ACTIVE.
Proof.
  unfold remove_all. revert fs. induction tss as [|ts tss IH]; intros fs; simpl; [done |].
  rewrite IH. by rewrite lookup_delete_ne by apply rotated_name_active.
Qed.

Lemma reclaim_files_spec env max_size tss fs :
  (∀ name, le_remove_ok env name = true) →
  ∃ k, (k ≤ length tss)%nat ∧ reclaim_files env max_size tss fs = remove_all fs (take k tss) ∧
    (∀ j free, (j < k)%nat → le_space env (remove_all fs (take j tss)) = Some free → free < max_size) ∧
    (k = length tss ∨ ¬ low_space env max_size (remove_all fs (take k tss))).
Proof.
  intros Hrm. revert fs. induction tss as [|ts tss IH]; intros fs; cbn [reclaim_files].
  { exists 0%nat. split_and!; [done | done | lia | by left]. }
  destruct (le_space env fs) as [free|] eqn:Hsp;
    [destruct (bool_decide_reflect (max_size ≤ free)) as [He | He] |].
  1: { exists 0%nat. split_and!; [lia | done | lia | right]. cbn. intros (free' & E & ?).
       rewrite Hsp in E. simplify_eq. lia. }
  all: rewrite Hrm; destruct (IH (delete (rotated_name ts) fs)) as (k & Hk & -> & Hlow & Hend).
  all: exists (S k); split_and!; [simpl; lia | done | | destruct Hend; [left; simpl; lia | by right]].
  all: intros [|j] free' Hj Hfree; [simpl in Hfree; rewrite Hsp in Hfree; simplify_eq; lia |].
  all: apply (Hlow j); [lia | done].
Qed.

Lemma str_leb_total a b : str_leb a b = true ∨ str_leb b a = true.
Proof.
  revert b. induction a as [|x a IH]; intros [|y b]; simpl; auto.
  destruct (Z.lt_trichotomy x y) as [Hl | [-> | Hl]].
  - left. by rewrite bool_decide_true.
  - rewrite (bool_decide_true (y = y)) by done.
    destruct (IH b) as [-> | ->]; [left | right]; apply orb_true_r.
  - right. by rewrite bool_decide_true.
Qed.
#[global] Instance str_le_total : Total str_le.
Proof. intros a b. apply str_leb_total. Qed.

(** The time stamps of the rotated files, oldest first. *)
Definition oldest_first (fs : gmap str DirEntry) : list str :=
  merge_sort str_le (list_rotated_log_files fs).
Lemma oldest_first_sorted fs :
  Sorted str_le (oldest_first fs) ∧ oldest_first fs ≡ₚ list_rotated_log_files fs.
Proof. split; [apply Sorted_merge_sort, _ | apply merge_sort_Permutation]. Qed.

(** The first part of [rotate]: what it removes. *)
Lemma rotate_reclaim env s :
  le_dir_exists env = true → (∀ name, le_remove_ok env name = true) →
  let max_size := lg_max_size_bytes (ls_logger s) in
  let fs := ls_files s in
  ∃ k, (k ≤ length (oldest_first fs))%nat ∧
    match le_space env fs with
    | Some free => if bool_decide (free < max_size) then reclaim_space env s else s
    | None => s
    end = set_files (remove_all fs (take k (oldest_first fs))) s ∧
    (∀ j, (j < k)%nat → ¬ ∃ free, le_space env (remove_all fs (take j (oldest_first fs))) = Some free ∧
                                  max_size ≤ free) ∧
    (k = length (oldest_first fs) ∨ ¬ low_space env max_size (remove_all fs (take k (oldest_first fs)))).
Proof.
  intros Hd Hrm max_size fs.
  destruct (decide (low_space env max_size fs)) as [(free & E & Hlow) | Hlow].
  - rewrite E, bool_decide_true by done. unfold reclaim_space. rewrite Hd. cbn [negb].
    destruct (reclaim_files_spec env max_size (oldest_first fs) fs Hrm) as (k & Hk & Hr & Hj & Hend).
    exists k. change (reclaim_files _ _ _ _) with (reclaim_files env max_size (oldest_first fs) fs).
    rewrite Hr. split_and!; [done | done | | done].
    intros j Hlt (free' & E' & ?). specialize (Hj j free' Hlt E'). lia.
  - exists 0%nat. split_and!; [lia | | lia | by right]. simpl.
    destruct (le_space env fs) as [free|] eqn:E; [rewrite bool_decide_false |]; [by destruct s | |by destruct s].
    intros ?. apply Hlow. by exists free.
Qed.

Section log_spec.
Context `{Chrono}.
Implicit Types (env : LogEnv) (line : str) (s : LogState).

Lemma set_files_inv s fs :
  fs !! ACTIVE = ls_files s !! ACTIVE → logger_inv s → logger_inv (set_files fs s).
Proof. intros E [Hf Hm Hr]. split; simpl; [|done | done]. intros Ha. rewrite E. by apply Hf. Qed.

Lemma rotate_inv env s : logger_inv s → logger_inv (rotate env s).
Proof.
  intros Hs. unfold rotate.
  set (s1 := match le_space env (ls_files s) with Some _ => _ | None => s end).
  assert (logger_inv s1 ∧ ls_ring s1 = ls_ring s) as [[Hf Hm Hr] Er].
  { unfold s1. destruct (le_space env (ls_files s)) as [free|]; [|done].
    case_bool_decide; [|done]. unfold reclaim_space. destruct (le_dir_exists env); [|done].
    split; [|done]. apply set_files_inv; [apply reclaim_files_active | done]. }
  destruct (match le_space env (ls_files s1) with Some _ => _ | None => _ end); [by split |].
  by apply open_log_file_inv.
Qed.

Lemma push_ring_bound line ring :
  (length ring ≤ MAX_RING_BUFFER_LINES)%nat →
  (length (push_ring line ring) ≤ MAX_RING_BUFFER_LINES)%nat.
Proof. intros Hl. rewrite push_ring_lastn by done. rewrite lastn_length. lia. Qed.

Lemma append_inv env line s :
  logger_inv s → lg_log_file (ls_logger s) = true →
  logger_inv (mkLogState (ls_ring s)
    (set_current_size (saturating_add (lg_current_size (ls_logger s)) (str_len line)) (ls_logger s))
    (append_line line (ls_files s))).
Proof.
  intros [Hf Hm Hr] Ha. destruct (Hf Ha) as (c & Ec & Hc). split; simpl; [|done | done].
  intros _. exists (c ++ line). unfold append_line, file_content. rewrite Ec, lookup_insert_eq, Hc.
  split; [done |]. rewrite saturating_add_min by apply str_len_nonneg. by rewrite str_len_app.
Qed.

Lemma write_entry_inv env line s : logger_inv s → logger_inv (write_entry env line s).1.
Proof.
  intros Hs. unfold write_entry.
  set (s0 := mkLogState (push_ring line (ls_ring s)) (ls_logger s) (ls_files s)).
  assert (logger_inv s0) as H0.
  { destruct Hs as [Hf Hm Hr]. split; [done | done | by apply push_ring_bound]. }
  destruct (_ || negb (lg_log_file (ls_logger s0))); [done |].
  set (s1 := if le_is_init env && _ then rotate env s0 else s0).
  assert (logger_inv s1) as H1 by (unfold s1; case_match; [by apply rotate_inv | done]).
  destruct (lg_log_disabled (ls_logger s1) || negb (lg_log_file (ls_logger s1)) || negb (le_write_ok env))
    eqn:Ew; [done |].
  apply append_inv; [done | done |]. by destruct (lg_log_disabled _), (lg_log_file (ls_logger s1)).
Qed.

(** The ring of a state is not changed but by [write_entry]. *)
Lemma open_log_file_ring env s : ls_ring (open_log_file env s) = ls_ring s.
Proof.
  unfold open_log_file. destruct (le_dir_exists env); [|done]. cbn [negb].
  destruct (le_open_ok env && _); [|done]. by destruct (if negb _ then _ else _).
Qed.
Lemma rotate_ring env s : ls_ring (rotate env s) = ls_ring s.
Proof.
  unfold rotate. set (s1 := match le_space env (ls_files s) with Some _ => _ | None => s end).
  assert (ls_ring s1 = ls_ring s) as Er.
  { unfold s1. destruct (le_space env (ls_files s)) as [free|]; [|done].
    case_bool_decide; [|done]. unfold reclaim_space. by destruct (le_dir_exists env). }
  destruct (match le_space env (ls_files s1) with Some _ => _ | None => _ end); [done |].
  by rewrite open_log_file_ring.
Qed.
Lemma write_entry_ring env line s :
  ls_ring (write_entry env line s).1 = push_ring line (ls_ring s).
Proof.
  unfold write_entry. set (s0 := mkLogState (push_ring line (ls_ring s)) (ls_logger s) (ls_files s)).
  destruct (_ || negb (lg_log_file (ls_logger s0))); [done |].
  set (b := le_is_init env && _). set (s1 := if b then rotate env s0 else s0).
  assert (ls_ring s1 = push_ring line (ls_ring s)) as <-
    by (unfold s1; destruct b; [rewrite rotate_ring |]; reflexivity).
  by destruct (_ || negb (le_write_ok env)).
Qed.

(** ** Runs *)

(** What happens to the logger: a line is written, or logging is set up again
    when the configuration has been read. *)
Inductive LogEvent :=
| EvWrite (env : LogEnv) (line : str)
| EvInit (env : LogEnv) (write_ok : str → bool) (max_size_mb : Z) (level : LevelFilter).
Definition log_event (s : LogState) (e : LogEvent) : LogState :=
  match e with
  | EvWrite env line => (write_entry env line s).1
  | EvInit env write_ok max_size_mb level => (init_logging env write_ok max_size_mb level s).1
  end.
Definition run_log (start : LogEnv) (fs : gmap str DirEntry) (events : list LogEvent) : LogState :=
  foldl log_event (logger_start start fs) events.
Definition written (e : LogEvent) : option str :=
  match e with EvWrite _ line => Some line | EvInit _ _ _ _ => None end.

Lemma saturating_mul_bound a b : saturating_mul a b ≤ U64_MAX.
Proof. unfold saturating_mul. lia. Qed.

Lemma run_log_inv start fs events : logger_inv (run_log start fs events).
Proof.
  unfold run_log. induction events as [|e events IH] using rev_ind; simpl.
  { apply open_log_file_inv; simpl; [apply saturating_mul_bound | lia]. }
  rewrite foldl_app. simpl. destruct e as [env line|env ok mb level]; simpl; [by apply write_entry_inv |].
  destruct IH as [_ _ Hr]. apply open_log_file_inv; simpl; [apply saturating_mul_bound | done].
Qed.

Lemma run_log_ring start fs events :
  ls_ring (run_log start fs events) = lastn MAX_RING_BUFFER_LINES (omap written events).
Proof.
  unfold run_log. induction events as [|e events IH] using rev_ind; simpl.
  { unfold logger_start. by rewrite open_log_file_ring. }
  rewrite foldl_app, omap_app. simpl. destruct e as [env line|env ok mb level]; simpl.
  - rewrite write_entry_ring, push_ring_lastn by (rewrite IH, lastn_length; lia).
    rewrite IH. change MAX_RING_BUFFER_LINES with (S 499). apply lastn_snoc.
  - by rewrite open_log_file_ring, app_nil_r.
Qed.

(** What the status page shows of the log.  Whatever happens to the log file,
    a request for the [n] most recent lines at a level returns the last [n] of
    the lines at that level, in the order written, among the last 500 lines
    written since the start. *)
Theorem get_recent_logs_spec start fs events n min_level :
  get_recent_logs n min_level (run_log start fs events) =
  lastn n (filter (λ line, passes_level min_level line = true)
             (lastn MAX_RING_BUFFER_LINES (omap written events))).
Proof.
  unfold get_recent_logs. rewrite run_log_ring.
  set (ring := lastn MAX_RING_BUFFER_LINES (omap written events)).
  set (result := filter _ ring).
  assert (length result ≤ MAX_RING_BUFFER_LINES)%nat as Hl.
  { etrans; [apply length_filter |]. unfold ring. rewrite lastn_length. lia. }
  unfold lastn. case_bool_decide.
  - f_equal. lia.
  - by replace (length result - n)%nat with 0%nat by lia.
Qed.

(** The file operations work, and the directory has no subdirectory in the way. *)
Record files_work env s : Prop := {
  fw_dir : le_dir_exists env = true;
  fw_open : le_open_ok env = true;
  fw_rename : le_rename_ok env = true;
  fw_remove : ∀ name, le_remove_ok env name = true;
  fw_flush : ∀ i, le_flush_ok env i = true;
  fw_write : le_write_ok env = true;
  fw_target : ls_files s !! rotated_name (ts_suffix (le_now env)) ≠ Some Directory;
}.

Lemma remove_all_not_directory fs tss name :
  fs !! name ≠ Some Directory → remove_all fs tss !! name ≠ Some Directory.
Proof.
  unfold remove_all. revert fs. induction tss as [|ts tss IH]; intros fs Ht; simpl; [done |].
  apply IH. destruct (decide (rotated_name ts = name)) as [-> | Hne];
    [by rewrite lookup_delete_eq | by rewrite lookup_delete_ne].
Qed.

Lemma rename_active_eq env target fs c :
  le_rename_ok env = true → fs !! target ≠ Some Directory →
  fs !! ACTIVE = Some (RegularFile c) → target ≠ ACTIVE →
  rename_active env target (unlink_symlink target fs) =
  <[target := RegularFile c]> (delete ACTIVE fs).
Proof.
  intros Hr Ht Ha Hne. unfold unlink_symlink. case_bool_decide as Hs; unfold rename_active.
  - rewrite lookup_delete_ne, Ha, Hr by done.
    rewrite bool_decide_false by (by rewrite lookup_delete_eq). cbn [andb negb].
    by rewrite delete_delete, insert_delete_eq.
  - by rewrite Ha, Hr, bool_decide_false by done.
Qed.

(** [rotate], from the reclaimed files [kept] on. *)
Lemma rotate_eq env s kept c :
  files_work env s → ls_files s !! ACTIVE = Some (RegularFile c) →
  (∃ tss, kept = remove_all (ls_files s) tss) →
  match le_space env (ls_files s) with
  | Some free => if bool_decide (free < lg_max_size_bytes (ls_logger s)) then reclaim_space env s else s
  | None => s
  end = set_files kept s →
  let l := ls_logger s in
  let c' := concat (ls_ring s) in
  let target := rotated_name (ts_suffix (le_now env)) in
  rotate env s =
    if decide (low_space env (Z.min (lg_max_size_bytes l) MIN_USABLE_LOG_SPACE) kept)
    then mkLogState (ls_ring s) (set_disabled true l) kept
    else mkLogState (ls_ring s)
           (mkLogger true (capped_max env (lg_max_size_bytes l)) (lg_level l)
              (Z.min (str_len c') U64_MAX) (ts_date (le_now env)) false)
           (<[ACTIVE := RegularFile c']> (<[target := RegularFile c]> (delete ACTIVE kept))).
Proof.
  intros Hw Hc [tss Hk] Er l c' target. unfold rotate. rewrite Er. cbn [set_files ls_files ls_logger ls_ring].
  fold l target.
  assert (kept !! ACTIVE = Some (RegularFile c)) as Ha by (by rewrite Hk, remove_all_active).
  assert (∀ b, (match le_space env kept with
     | Some free => bool_decide (free < Z.min (lg_max_size_bytes l) MIN_USABLE_LOG_SPACE) | None => false end) = b →
     (b = true ↔ low_space env (Z.min (lg_max_size_bytes l) MIN_USABLE_LOG_SPACE) kept)) as Hlow.
  { intros b <-. unfold low_space. destruct (le_space env kept) as [free|]; [|naive_solver].
    rewrite bool_decide_eq_true. naive_solver. }
  destruct (match le_space env kept with Some _ => _ | None => _ end); specialize (Hlow _ eq_refl).
  { rewrite decide_True by tauto. done. }
  rewrite decide_False by (intros Hl; by apply Hlow in Hl).
  assert (kept !! target ≠ Some Directory) as Ht
    by (rewrite Hk; apply remove_all_not_directory, (fw_target _ _ Hw)).
  rewrite (rename_active_eq env target kept c (fw_rename _ _ Hw) Ht Ha) by apply rotated_name_active.
  match goal with |- open_log_file env ?st = _ => set (s2 := st) end.
  assert (ls_files s2 !! ACTIVE = None) as Hnone.
  { simpl. rewrite lookup_insert_ne by apply rotated_name_active. apply lookup_delete_eq. }
  assert (unlink_symlink ACTIVE (ls_files s2) = ls_files s2) as Eu.
  { unfold unlink_symlink. rewrite bool_decide_false; [done |]. by rewrite Hnone. }
  destruct (open_log_file_eq env s2 (fw_dir _ _ Hw) (fw_open _ _ Hw)) as (k & -> & Hkk).
  { rewrite Eu, Hnone. done. }
  rewrite (Hkk (fw_flush _ _ Hw)), Eu. unfold file_content. rewrite Hnone. simpl.
  by rewrite firstn_all.
Qed.

(** C25: what writing a line does to the log directory.  Take any run of the
    logger and a line that the init process then writes while the log file is
    attached and enabled and the file operations work.  If neither the size nor
    the date calls for a rotation, the line is added at the end of the log file,
    which stays below the limit.  Otherwise rotated files are deleted, oldest
    first and only while the space is below the limit, until it is not or none
    is left; the active file is never deleted.  If there is then less space than
    the limit or 64 KiB, whichever is less, nothing is written and logging stops;
    with at least that much, though less than the limit, it goes on.  It then
    gives the log file its name with the time, and the new one holds the lines of
    the ring buffer, the last of which is the line, and the line once more.  In every case the size that the logger keeps is
    the size of the file. *)
Theorem write_entry_spec start fs events env line :
  let s := run_log start fs events in
  let l := ls_logger s in
  lg_log_file l = true → lg_log_disabled l = false → le_is_init env = true → files_work env s →
  let max_size := lg_max_size_bytes l in
  let content := file_content (ls_files s) ACTIVE in
  let oldest := oldest_first (ls_files s) in
  let s' := (write_entry env line s).1 in
  let rotated := <[rotated_name (ts_suffix (le_now env)) := RegularFile content]> in
  let with_active := λ c, <[ACTIVE := RegularFile c]> in
  (size_trigger line l || date_trigger env l = false →
    ls_files s' = with_active (content ++ line) (ls_files s) ∧ str_len (content ++ line) < max_size) ∧
  (size_trigger line l || date_trigger env l = true → ∃ k, let kept := remove_all (ls_files s) (take k oldest) in
    (∀ j, (j < k)%nat → ¬ ∃ free, le_space env (remove_all (ls_files s) (take j oldest)) = Some free ∧
                                  max_size ≤ free) ∧
    ((length oldest ≤ k)%nat ∨ ¬ low_space env max_size kept) ∧ kept !! ACTIVE = ls_files s !! ACTIVE ∧
    if decide (low_space env (Z.min max_size MIN_USABLE_LOG_SPACE) kept)
    then ls_files s' = kept ∧ lg_log_disabled (ls_logger s') = true
    else ls_files s' = with_active (concat (push_ring line (ls_ring s)) ++ line)
                         (rotated (delete ACTIVE kept)) ∧ lg_log_disabled (ls_logger s') = false) ∧
  (lg_log_file (ls_logger s') = true → lg_log_disabled (ls_logger s') = false →
    lg_current_size (ls_logger s') = Z.min (str_len (file_content (ls_files s') ACTIVE)) U64_MAX).
Proof.
  intros s l Ha Hdis Hinit Hw max_size content oldest s' rotated with_active.
  pose proof (run_log_inv start fs events) as Hinv. fold s in Hinv.
  destruct (inv_file s Hinv Ha) as (c & Ec & Hsize).
  assert (content = c) as Hcc by (unfold content, file_content; by rewrite Ec).
  split; [|split].
  - intros Htr. unfold s', write_entry. cbn [ls_logger]. fold l.
    rewrite Hdis, Ha, Hinit, Htr. cbn [orb negb andb ls_logger].
    rewrite ?Hdis, ?Ha, (fw_write _ _ Hw). cbn. split; [done |].
    apply orb_false_iff in Htr as [Hst%bool_decide_eq_false _].
    fold l in Hsize. rewrite Hsize, saturating_add_min in Hst by apply str_len_nonneg.
    pose proof (inv_max s Hinv) as Hmax. fold l in Hmax. rewrite Hcc, str_len_app.
    unfold max_size. lia.
  - intros Htr.
    set (s0 := mkLogState (push_ring line (ls_ring s)) l (ls_files s)).
    assert (files_work env s0) as Hw0 by (by destruct Hw).
    destruct (rotate_reclaim env s0 (fw_dir _ _ Hw) (fw_remove _ _ Hw)) as (k & Hk & Er & Hj & Hend).
    exists k. simpl in *. fold max_size oldest in Hk, Er, Hj, Hend. split; [done |].
    split; [destruct Hend as [-> |]; [by left | by right] |]. split; [apply remove_all_active |].
    pose proof (rotate_eq env s0 _ c Hw0 Ec (ex_intro _ _ eq_refl) Er) as Hrot.
    unfold s', write_entry. cbn [ls_logger]. fold l. rewrite Hdis, Ha, Hinit, Htr. cbn [orb negb andb].
    fold s0. rewrite Hrot. cbn [ls_logger ls_files ls_ring s0]. fold max_size.
    case_decide as Hlow; [done |].
    rewrite (fw_write _ _ Hw).
    cbn [orb negb lg_log_disabled lg_log_file fst ls_files ls_logger set_current_size].
    rewrite append_line_insert. unfold rotated. by rewrite Hcc.
  - intros Hf _. destruct (inv_file s' (write_entry_inv env line s Hinv) Hf) as (c' & E' & ->).
    unfold file_content. by rewrite E'.
Qed.
End log_spec.

(** ** Kernel records *)

Section kmsg.
Context `{Chrono}.

Lemma parse_kmsg_record_msg text level msg :
  parse_kmsg_record text = Some (level, msg) →
  LF ∉ msg ∧ ∃ line, msg = trim line ∧ trim line ≠ [].
Proof.
  unfold parse_kmsg_record. intros E.
  apply bind_Some in E as ([header rest] & _ & E). apply bind_Some in E as (prio_str & _ & E).
  apply bind_Some in E as (prio & _ & E). apply bind_Some in E as (line & El & E).
  case_bool_decide as Hne; [done |]. injection E as _ <-. split; [|by exists line].
  intros Hlf%trim_sub. apply (lines_elem rest line); [|done].
  destruct (lines rest); [done |]. injection El as <-. apply list_elem_of_here.
Qed.

(** The line that a kernel record becomes. *)
Lemma kernel_line_format t level line :
  trim line ≠ [] →
  format_raw_line_with_explicit_level t (Some level)
    (lit "[" ++ KERNEL_LOG_TAG ++ lit "] " ++ trim line) =
  Returned (log_line t level KERNEL_LOG_TAG (trim line)).
Proof.
  intros Hne. unfold format_raw_line_with_explicit_level.
  assert (trim_end (lit "[" ++ KERNEL_LOG_TAG ++ lit "] " ++ trim line) =
    lit "[" ++ KERNEL_LOG_TAG ++ lit "] " ++ trim line) as ->.
  { rewrite !app_assoc. unfold trim in *. by apply trim_end_last. }
  set (text := lit "[" ++ KERNEL_LOG_TAG ++ lit "] " ++ trim line).
  assert (str_slice 1 5 text = Returned (lit "kern")) as ->.
  { reflexivity. }
  assert ((if bool_decide (head text = Some 91) && bool_decide (20 < str_len text)
    then mbind (M := Outcome) (λ year, Returned (forallb is_ascii_digit year)) (Returned (lit "kern"))
    else Returned false) = Returned false) as ->
    by (by destruct (bool_decide (head text = Some 91) && bool_decide (20 < str_len text))).
  cbn [mbind outcome_bind].
  assert ((rest ← strip_prefix [91] text; split_once 93 rest) = Some (KERNEL_LOG_TAG, 32 :: trim line)) as E
    by reflexivity.
  rewrite E. by rewrite trim_start_trim.
Qed.

Lemma write_entry_out env line s : (write_entry env line s).2 = [Console line; Broadcast line].
Proof.
  unfold write_entry. destruct (_ || negb (lg_log_file _)); [done |].
  by destruct (_ || negb (le_write_ok env)).
Qed.

(** Writing does not change the level. *)
Lemma open_log_file_level env s : lg_level (ls_logger (open_log_file env s)) = lg_level (ls_logger s).
Proof.
  unfold open_log_file. destruct (le_dir_exists env); [|done]. cbn [negb].
  destruct (le_open_ok env && _); [destruct (if negb _ then _ else _) |]; simpl;
    destruct (le_total env); try done; by destruct (_ && bool_decide (_ ≤ _)).
Qed.
Lemma rotate_level env s : lg_level (ls_logger (rotate env s)) = lg_level (ls_logger s).
Proof.
  unfold rotate. set (s1 := match le_space env (ls_files s) with Some _ => _ | None => s end).
  assert (ls_logger s1 = ls_logger s) as El.
  { unfold s1. destruct (le_space env (ls_files s)) as [free|]; [|done].
    case_bool_decide; [|done]. unfold reclaim_space. by destruct (le_dir_exists env). }
  destruct (match le_space env (ls_files s1) with Some _ => _ | None => _ end); simpl; [by rewrite El |].
  rewrite open_log_file_level. simpl. by rewrite El.
Qed.
Lemma write_entry_level env line s :
  lg_level (ls_logger (write_entry env line s).1) = lg_level (ls_logger s).
Proof.
  unfold write_entry. set (s0 := mkLogState (push_ring line (ls_ring s)) (ls_logger s) (ls_files s)).
  destruct (_ || negb (lg_log_file (ls_logger s0))); [done |].
  set (b := le_is_init env && _). set (s1 := if b then rotate env s0 else s0).
  assert (lg_level (ls_logger s1) = lg_level (ls_logger s)) as <-
    by (unfold s1; destruct b; [rewrite rotate_level |]; reflexivity).
  by destruct (_ || negb (le_write_ok env)).
Qed.

(** The lines that the records read become, at a level. *)
Fixpoint kmsg_lines (f : LevelFilter) (reads : list (LogEnv * bool * KmsgRead)) : list str :=
  match reads with
  | [] => []
  | (env, shutdown, r) :: rest =>
      if shutdown : bool then [] else
      match r with
      | KmsgEof | KmsgError => []
      | KmsgInterrupted => kmsg_lines f rest
      | KmsgRecord text =>
          match text ≫= parse_kmsg_record with
          | Some (level, msg) =>
              if level_le level f
              then log_line (le_now env) level KERNEL_LOG_TAG msg :: kmsg_lines f rest
              else kmsg_lines f rest
          | None => kmsg_lines f rest
          end
      end
  end.
Definition kernel_line (l : str) : Prop :=
  ∃ t level msg, l = log_line t level KERNEL_LOG_TAG msg ∧ LF ∉ msg.
Definition line_out (l : str) : list LogOut := [Console l; Broadcast l].

(** Kernel messages in the log.  Whatever the kernel's records hold, the
    reader never panics, and what it writes is exactly one line for each record
    that can be read and whose severity is at the level of the log, up to the
    first end, error or shutdown: a line with the tag of the kernel, the level
    of the record's severity and the first line of its text, and no other line
    feed, so that no record can forge an entry of another service. *)
Theorem run_kmsg_reader_spec reads s :
  let lines := kmsg_lines (lg_level (ls_logger s)) reads in
  Forall kernel_line lines ∧
  ∃ s', run_kmsg_reader reads s = Returned (s', concat (line_out <$> lines)).
Proof.
  revert s. induction reads as [|[[env shutdown] r] reads IH]; intros s;
    cbn [run_kmsg_reader kmsg_lines].
  { split; [constructor | by exists s]. }
  destruct shutdown; [split; [constructor | by exists s] |].
  destruct r as [text| | |]; [|split; [constructor | by exists s] | apply IH |
    split; [constructor | by exists s]].
  destruct (text ≫= parse_kmsg_record) as [[level msg]|] eqn:Ep; [|apply IH].
  apply bind_Some in Ep as (txt & -> & Ep).
  destruct (parse_kmsg_record_msg _ _ _ Ep) as (Hlf & line & -> & Hne).
  unfold log_raw_with_level. rewrite kernel_line_format by done. cbn [mbind outcome_bind].
  destruct (level_le level (lg_level (ls_logger s))); cbn [mbind outcome_bind fst snd].
  - set (l := log_line (le_now env) level KERNEL_LOG_TAG (trim line)).
    pose proof (IH (write_entry env l s).1) as [Hk [s' ->]].
    rewrite write_entry_level in *. cbn [mbind outcome_bind fst snd]. rewrite write_entry_out.
    split; [constructor; [by exists (le_now env), level, (trim line) | done] | by exists s'].
  - destruct (IH s) as [Hk [s' ->]]. split; [done | by exists s'].
Qed.
End kmsg.

Module LogExample.

(** A calendar with one-letter time stamps, in which the day changes at 10. *)
#[local] Instance calendar : Chrono := {|
  ts_format t := [65 + t];
  ts_suffix t := [65 + t];
  ts_date t := if decide (t < 10) then (2026, 1) else (2026, 2);
|}.
Definition at_time (now : Z) : LogEnv :=
  mkLogEnv now true None (λ _, Some (mkStatVfs (2 ^ 29) (2 ^ 28) 4096)) true true (λ _, true) true (λ _, true) true.
Definition hello : str := lit "hello" ++ [LF].
Definition morning : str := lit "good morning" ++ [LF].
Definition first_line : list LogEvent := [EvWrite (at_time 1) hello].

Lemma write_entry_spec_witness :
  let s := run_log (at_time 0) ∅ first_line in
  ls_files (write_entry (at_time 2) morning s).1 =
    <[ACTIVE := RegularFile (hello ++ morning)]> (ls_files s).
Proof.
  intros s.
  assert (lg_log_file (ls_logger s) = true ∧ lg_log_disabled (ls_logger s) = false ∧
    size_trigger morning (ls_logger s) || date_trigger (at_time 2) (ls_logger s) = false ∧
    file_content (ls_files s) ACTIVE = hello) as (H1 & H2 & H3 & H4) by (vm_compute; done).
  assert (files_work (at_time 2) s) as Hw by (split; vm_compute; done).
  destruct (write_entry_spec (at_time 0) ∅ first_line (at_time 2) morning H1 H2 eq_refl Hw) as [H _].
  destruct (H H3) as [E _]. by rewrite <-H4.
Defined.

(** Finding: after a rotation the log file does not start afresh: the lines of
    the ring buffer, which are already in the rotated file, are written to it
    again, and the line that caused the rotation is written twice. *)
Theorem rotation_repeats_lines :
  let s := run_log (at_time 0) ∅ [EvWrite (at_time 1) hello; EvWrite (at_time 10) morning] in
  file_content (ls_files s) (rotated_name (ts_suffix 10)) = hello ∧
  file_content (ls_files s) ACTIVE = hello ++ morning ++ morning.
Proof. vm_compute. done. Qed.

(** Finding: a line that starts with a bracket, is longer than 20 bytes and has a
    character across its fifth byte makes the formatting panic. *)
Theorem format_raw_line_panics :
  format_raw_line 0 (91 :: replicate 7 26085) = Panicked.
Proof. reflexivity. Qed.
End LogExample.
