(* ===== verification/LeaseTable.v ===== *)
(** * The DHCP lease table

    [src/src/services/dhcp_server/lease_table.rs]: the table of leases with
    its index of allocated addresses, the actor that serialises the commands
    of the DHCP server's tasks, and the handle through which they are sent.
    Every operation takes [now], its reading of the clock; the order in which
    a [HashMap] is iterated is an instance of [HashOrder] where it shows. *)

From Stdlib Require Import ZArith Lia.
From stdpp Require Import base gmap sets list strings fin_maps.
From S2P Require Import Prelude NetAddr Hostname Config.

#[local] Open Scope Z_scope.

Definition CANDIDATE_HOLD_DURATION : Duration := from_secs 10.
Definition NEIGHBOR_HOLD_DURATION : Duration := from_secs 300.

Record ClientLease := mkClientLease {
  cl_ip : Ipv4Addr;
  cl_expiry : Instant;
  cl_hostname : option str;
}.

Record LeaseTable := mkLeaseTable {
  by_mac : gmap MacAddr ClientLease;
  allocated_ips : gset Ipv4Addr;
  conflicts : gmap Ipv4Addr Instant;
  lt_static_leases : gmap MacAddr StaticLease;
  reserved_ips : gset Ipv4Addr;
}.

Record LeaseConfirmation := mkLeaseConfirmation {
  lc_ip : Ipv4Addr;
  lc_hostname : option str;
  lc_old_hostname_to_deregister : option str;
}.

(** [services::ipc::DhcpLeaseInfo] *)
Record DhcpLeaseInfo := mkDhcpLeaseInfo {
  li_mac : MacAddr;
  li_ip : Ipv4Addr;
  li_hostname : option str;
  li_expires_in_seconds : Z;
  li_is_static : bool;
}.

Module LeaseTable.

Definition new : LeaseTable := mkLeaseTable ∅ ∅ ∅ ∅ ∅.

(** The loop of [with_static_leases]. *)
Definition add_reservation (acc : gmap MacAddr StaticLease * gset Ipv4Addr)
    (lease : StaticLease) : gmap MacAddr StaticLease * gset Ipv4Addr :=
  (<[sl_mac lease := lease]> acc.1, {[sl_ip lease]} ∪ acc.2).
Definition with_static_leases (static_leases : list StaticLease) : LeaseTable :=
  let '(map, reserved) := foldl add_reservation (∅, ∅) static_leases in
  mkLeaseTable ∅ ∅ ∅ map reserved.

Definition get (t : LeaseTable) (mac : MacAddr) : option ClientLease := by_mac t !! mac.

Definition is_hostname_taken_by_other (now : Instant) (t : LeaseTable) (hostname : str)
    (client_mac : MacAddr) : bool :=
  hash_any (λ mac lease, bool_decide (mac ≠ client_mac)
    && bool_decide (now < cl_expiry lease)
    && bool_decide (cl_hostname lease = Some hostname)) (by_mac t).

Definition insert (t : LeaseTable) (mac : MacAddr) (lease : ClientLease) : LeaseTable :=
  let allocated :=
    match by_mac t !! mac with
    | Some old => allocated_ips t ∖ {[cl_ip old]}
    | None => allocated_ips t
    end in
  mkLeaseTable (<[mac := lease]> (by_mac t)) ({[cl_ip lease]} ∪ allocated)
    (conflicts t) (lt_static_leases t) (reserved_ips t).

Definition remove (t : LeaseTable) (mac : MacAddr) : option ClientLease * LeaseTable :=
  match by_mac t !! mac with
  | None => (None, t)
  | Some lease =>
      (Some lease,
       mkLeaseTable (delete mac (by_mac t)) (allocated_ips t ∖ {[cl_ip lease]})
         (conflicts t) (lt_static_leases t) (reserved_ips t))
  end.

(** One turn of the loop of [set_static_leases]. *)
Definition set_static_step
    (acc : LeaseTable * (gmap MacAddr StaticLease * gset Ipv4Addr)) (lease : StaticLease) :
    LeaseTable * (gmap MacAddr StaticLease * gset Ipv4Addr) :=
  let '(t, m) := acc in
  let t' := match by_mac t !! sl_mac lease with
            | Some existing =>
                if bool_decide (cl_ip existing ≠ sl_ip lease)
                then (remove t (sl_mac lease)).2 else t
            | None => t
            end in
  (t', add_reservation m lease).
Definition set_static_leases (t : LeaseTable) (static_leases : list StaticLease) :
    LeaseTable :=
  let '(t', (map, reserved)) := foldl set_static_step (t, (∅, ∅)) static_leases in
  mkLeaseTable (by_mac t') (allocated_ips t') (conflicts t') map reserved.

Definition is_conflict_active (now : Instant) (t : LeaseTable) (ip : Ipv4Addr) : bool :=
  match conflicts t !! ip with
  | Some expiry => bool_decide (now < expiry)
  | None => false
  end.

Definition is_ip_available (now : Instant) (t : LeaseTable) (ip : Ipv4Addr) : bool :=
  bool_decide (ip ∉ allocated_ips t) && negb (is_conflict_active now t ip).

Definition is_ip_available_for_dynamic (now : Instant) (t : LeaseTable) (ip : Ipv4Addr) :
    bool :=
  is_ip_available now t ip && bool_decide (ip ∉ reserved_ips t).

Definition record_conflict (now : Instant) (t : LeaseTable) (ip : Ipv4Addr)
    (duration : Duration) : LeaseTable :=
  mkLeaseTable (by_mac t) (allocated_ips t) (<[ip := now + duration]> (conflicts t))
    (lt_static_leases t) (reserved_ips t).

Definition is_ip_taken_by_other (now : Instant) (t : LeaseTable) (ip : Ipv4Addr)
    (client_mac : MacAddr) : bool :=
  hash_any (λ mac l, bool_decide (cl_ip l = ip) && bool_decide (now < cl_expiry l)
    && bool_decide (mac ≠ client_mac)) (by_mac t).

(** [self.by_mac.values().map(|l| l.ip).collect()] *)
Definition held_ips (m : gmap MacAddr ClientLease) : gset Ipv4Addr :=
  list_to_set (cl_ip ∘ snd <$> map_to_list m).

Definition evict_expired {HO : HashOrder} (now : Instant) (t : LeaseTable) :
    list str * LeaseTable :=
  let expired_hostnames :=
    omap (λ kv, if bool_decide (now < cl_expiry kv.2) then None else cl_hostname kv.2)
      (hash_iter (by_mac t)) in
  let m := retain (λ _ l, bool_decide (now < cl_expiry l)) (by_mac t) in
  (expired_hostnames,
   mkLeaseTable m (held_ips m)
     (retain (λ _ expiry, bool_decide (now < expiry)) (conflicts t))
     (lt_static_leases t) (reserved_ips t)).

Definition get_mac_by_ip {HO : HashOrder} (now : Instant) (t : LeaseTable) (ip : Ipv4Addr) :
    option MacAddr :=
  fst <$> iter_find (λ kv, bool_decide (cl_ip kv.2 = ip)
                           && bool_decide (now < cl_expiry kv.2)) (hash_iter (by_mac t)).

Definition update_from_neighbor (now : Instant) (t : LeaseTable) (mac : MacAddr)
    (ip : Ipv4Addr) : LeaseTable :=
  if bool_decide (mac = mac_zero) || bool_decide (mac = mac_broadcast) then t
  else if match lt_static_leases t !! mac with
          | Some static_lease => bool_decide (ip ≠ sl_ip static_lease)
          | None => false
          end then t
  else if match get t mac with
          | Some existing => bool_decide (cl_ip existing = ip)
          | None => false
          end then t
  else
    let static_hostname := s ← lt_static_leases t !! mac; sl_hostname s in
    insert t mac (mkClientLease ip (now + NEIGHBOR_HOLD_DURATION) static_hostname).

Definition lease_info (now : Instant) (t : LeaseTable) (kv : MacAddr * ClientLease) :
    option DhcpLeaseInfo :=
  if bool_decide (now < cl_expiry kv.2)
  then Some (mkDhcpLeaseInfo kv.1 (cl_ip kv.2) (cl_hostname kv.2)
               (as_secs (cl_expiry kv.2 - now))
               (bool_decide (is_Some (lt_static_leases t !! kv.1))))
  else None.
Definition static_info (active_macs : gset MacAddr) (kv : MacAddr * StaticLease) :
    option DhcpLeaseInfo :=
  if bool_decide (kv.1 ∈ active_macs) then None
  else Some (mkDhcpLeaseInfo kv.1 (sl_ip kv.2) (sl_hostname kv.2) 0 true).
Definition get_active_leases {HO : HashOrder} (now : Instant) (t : LeaseTable) :
    list DhcpLeaseInfo :=
  let active := omap (lease_info now t) (hash_iter (by_mac t)) in
  let active_macs : gset MacAddr := list_to_set (li_mac <$> active) in
  active ++ omap (static_info active_macs) (hash_iter (lt_static_leases t)).

Section net.
Context {Net : Type} `{!Ipv4NetOps Net} {HO : HashOrder}.

Definition next_available_ip (now : Instant) (t : LeaseTable) (net : Net)
    (server_ip : Ipv4Addr) : option Ipv4Addr * LeaseTable :=
  let t' := (evict_expired now t).2 in
  (iter_find (λ ip, bool_decide (ip ≠ server_ip)
                    && is_ip_available_for_dynamic now t' ip) (net_hosts net), t').

Definition allocate_candidate (now : Instant) (t : LeaseTable) (client_mac : MacAddr)
    (net : Net) (server_ip : Ipv4Addr) : option Ipv4Addr * LeaseTable :=
  match lt_static_leases t !! client_mac with
  | Some static_lease =>
      let reserved_ip := sl_ip static_lease in
      if net_contains net reserved_ip && bool_decide (reserved_ip ≠ server_ip)
         && negb (is_ip_taken_by_other now t reserved_ip client_mac)
      then (Some reserved_ip,
            insert t client_mac (mkClientLease reserved_ip (now + CANDIDATE_HOLD_DURATION)
                                   (sl_hostname static_lease)))
      else (None, t)
  | None =>
      let '(found, t') := next_available_ip now t net server_ip in
      match found with
      | None => (None, t')
      | Some ip =>
          (Some ip,
           insert t' client_mac (mkClientLease ip (now + CANDIDATE_HOLD_DURATION) None))
      end
  end.

Definition validate_and_confirm (now : Instant) (t : LeaseTable) (client_mac : MacAddr)
    (requested_ip : option Ipv4Addr) (server_ip : Ipv4Addr) (net : Net)
    (duration : Duration) (requested_hostname : option str) :
    option LeaseConfirmation * LeaseTable :=
  match match requested_ip with
        | Some ip => Some ip
        | None => cl_ip <$> get t client_mac
        end with
  | None => (None, t)
  | Some target_ip =>
      if bool_decide (target_ip = server_ip) || bool_decide (target_ip = net_network net)
         || bool_decide (target_ip = net_broadcast net)
         || negb (net_contains net target_ip)
         || is_ip_taken_by_other now t target_ip client_mac
      then (None, t)
      else
        let static_lease_opt := lt_static_leases t !! client_mac in
        if match static_lease_opt with
           | Some static_lease => bool_decide (target_ip ≠ sl_ip static_lease)
           | None => bool_decide (target_ip ∈ reserved_ips t)
           end
        then (None, t)
        else
          let old_hostname := l ← get t client_mac; cl_hostname l in
          let target_hostname :=
            match (s ← static_lease_opt; sl_hostname s) with
            | Some h => Some h
            | None => requested_hostname
            end in
          let effective_hostname :=
            base ← target_hostname;
            if is_hostname_taken_by_other now t base client_mac then None else Some base in
          let old_hostname_to_deregister :=
            match old_hostname, effective_hostname with
            | Some old, Some new => if bool_decide (old ≠ new) then Some old else None
            | Some old, None => Some old
            | None, _ => None
            end in
          (Some (mkLeaseConfirmation target_ip effective_hostname old_hostname_to_deregister),
           insert t client_mac (mkClientLease target_ip (now + duration) effective_hostname))
  end.
End net.
End LeaseTable.

(** ** The actor *)

Inductive LeaseCommand (Net : Type) :=
| GetExistingIp (client_mac : MacAddr)
| AllocateCandidate (client_mac : MacAddr) (net : Net) (server_ip : Ipv4Addr)
| ConfirmLease (client_mac : MacAddr) (ip : Ipv4Addr) (duration : Duration)
    (hostname : option str)
| ValidateAndConfirmRequest (client_mac : MacAddr) (requested_ip : option Ipv4Addr)
    (server_ip : Ipv4Addr) (net : Net) (duration : Duration)
    (requested_hostname : option str)
| CheckConflict (target_ip : Ipv4Addr) (client_mac : MacAddr)
| RecordConflict (ip : Ipv4Addr) (duration : Duration)
| Release (client_mac : MacAddr)
| EvictExpired
| AddNeighbor (mac : MacAddr) (ip : Ipv4Addr)
| SetStaticLeases (static_leases : list StaticLease)
| GetActiveLeases.
Arguments GetExistingIp {Net} client_mac.
Arguments AllocateCandidate {Net} client_mac net server_ip.
Arguments ConfirmLease {Net} client_mac ip duration hostname.
Arguments ValidateAndConfirmRequest {Net} client_mac requested_ip server_ip net duration
  requested_hostname.
Arguments CheckConflict {Net} target_ip client_mac.
Arguments RecordConflict {Net} ip duration.
Arguments Release {Net} client_mac.
Arguments EvictExpired {Net}.
Arguments AddNeighbor {Net} mac ip.
Arguments SetStaticLeases {Net} static_leases.
Arguments GetActiveLeases {Net}.

(** What is sent on the command's [reply_tx], if it has one. *)
Inductive LeaseReply :=
| NoReply
| ReplyUnit
| ReplyIp (ip : option Ipv4Addr)
| ReplyConfirmation (c : option LeaseConfirmation)
| ReplyBool (b : bool)
| ReplyReleased (r : option (Ipv4Addr * option str))
| ReplyNames (names : list str)
| ReplyLeases (leases : list DhcpLeaseInfo).

Section actor.
Context {Net : Type} `{!Ipv4NetOps Net} {HO : HashOrder}.

Definition handle_lease_command (now : Instant) (cmd : LeaseCommand Net)
    (leases : LeaseTable) : LeaseReply * LeaseTable :=
  match cmd with
  | SetStaticLeases static_leases =>
      (ReplyUnit, LeaseTable.set_static_leases leases static_leases)
  | GetExistingIp client_mac =>
      (ReplyIp match lt_static_leases leases !! client_mac with
               | Some static_lease => Some (sl_ip static_lease)
               | None => cl_ip <$> LeaseTable.get leases client_mac
               end, leases)
  | AllocateCandidate client_mac net server_ip =>
      let '(ip, leases') :=
        LeaseTable.allocate_candidate now leases client_mac net server_ip in
      (ReplyIp ip, leases')
  | ConfirmLease client_mac ip duration hostname =>
      (NoReply, LeaseTable.insert leases client_mac
                  (mkClientLease ip (now + duration) hostname))
  | ValidateAndConfirmRequest client_mac requested_ip server_ip net duration name =>
      let '(result, leases') :=
        LeaseTable.validate_and_confirm now leases client_mac requested_ip server_ip net
          duration name in
      (ReplyConfirmation result, leases')
  | CheckConflict target_ip client_mac =>
      (ReplyBool match LeaseTable.get_mac_by_ip now leases target_ip with
                 | Some mac => bool_decide (mac ≠ client_mac)
                 | None => false
                 end, leases)
  | RecordConflict ip duration =>
      (NoReply, LeaseTable.record_conflict now leases ip duration)
  | Release client_mac =>
      let '(removed, leases') := LeaseTable.remove leases client_mac in
      (ReplyReleased ((λ l, (cl_ip l, cl_hostname l)) <$> removed), leases')
  | EvictExpired =>
      let '(expired, leases') := LeaseTable.evict_expired now leases in
      (ReplyNames expired, leases')
  | AddNeighbor mac ip => (NoReply, LeaseTable.update_from_neighbor now leases mac ip)
  | GetActiveLeases => (ReplyLeases (LeaseTable.get_active_leases now leases), leases)
  end.

(** One turn of [run_lease_actor_loop]: the cleanup timer or a command. *)
Definition actor_step (now : Instant) (e : option (LeaseCommand Net)) (leases : LeaseTable) :
    LeaseTable :=
  match e with
  | None => (LeaseTable.evict_expired now leases).2
  | Some cmd => (handle_lease_command now cmd leases).2
  end.
(** The table after a sequence of turns, each with its time. *)
Definition run_lease_actor (events : list (Instant * option (LeaseCommand Net)))
    (leases : LeaseTable) : LeaseTable :=
  foldl (λ t e, actor_step e.1 e.2 t) leases events.
Definition run_lease_actor_loop (events : list (Instant * option (LeaseCommand Net))) :
    LeaseTable :=
  run_lease_actor events LeaseTable.new.
End actor.

(** ** The handle

    The actor is [None] once its task has ended: a command sent then gets no
    reply and every method falls back to its default. *)

Module LeaseHandle.
Section handle.
Context {Net : Type} `{!Ipv4NetOps Net} {HO : HashOrder}.
Abbreviation Actor := (option LeaseTable) (only parsing).

Definition send (now : Instant) (cmd : LeaseCommand Net) (a : Actor) :
    option LeaseReply * Actor :=
  match a with
  | None => (None, None)
  | Some t => let '(r, t') := handle_lease_command now cmd t in (Some r, Some t')
  end.

Definition get_active_leases (now : Instant) (a : Actor) : list DhcpLeaseInfo * Actor :=
  let '(r, a') := send now GetActiveLeases a in
  (match r with Some (ReplyLeases l) => l | _ => [] end, a').
Definition get_existing_ip (now : Instant) (client_mac : MacAddr) (a : Actor) :
    option Ipv4Addr * Actor :=
  let '(r, a') := send now (GetExistingIp client_mac) a in
  (match r with Some (ReplyIp ip) => ip | _ => None end, a').
Definition allocate_candidate (now : Instant) (client_mac : MacAddr) (net : Net)
    (server_ip : Ipv4Addr) (a : Actor) : option Ipv4Addr * Actor :=
  let '(r, a') := send now (AllocateCandidate client_mac net server_ip) a in
  (match r with Some (ReplyIp ip) => ip | _ => None end, a').
Definition confirm_lease (now : Instant) (client_mac : MacAddr) (ip : Ipv4Addr)
    (duration : Duration) (hostname : option str) (a : Actor) : Actor :=
  (send now (ConfirmLease client_mac ip duration hostname) a).2.
Definition validate_and_confirm_request (now : Instant) (client_mac : MacAddr)
    (requested_ip : option Ipv4Addr) (server_ip : Ipv4Addr) (net : Net)
    (duration : Duration) (requested_hostname : option str) (a : Actor) :
    option LeaseConfirmation * Actor :=
  let '(r, a') := send now (ValidateAndConfirmRequest client_mac requested_ip server_ip net
                              duration requested_hostname) a in
  (match r with Some (ReplyConfirmation c) => c | _ => None end, a').
Definition check_conflict (now : Instant) (target_ip : Ipv4Addr) (client_mac : MacAddr)
    (a : Actor) : bool * Actor :=
  let '(r, a') := send now (CheckConflict target_ip client_mac) a in
  (match r with Some (ReplyBool b) => b | _ => false end, a').
Definition record_conflict (now : Instant) (ip : Ipv4Addr) (duration : Duration)
    (a : Actor) : Actor :=
  (send now (RecordConflict ip duration) a).2.
Definition release (now : Instant) (client_mac : MacAddr) (a : Actor) :
    option (Ipv4Addr * option str) * Actor :=
  let '(r, a') := send now (Release client_mac) a in
  (match r with Some (ReplyReleased x) => x | _ => None end, a').
Definition evict_expired (now : Instant) (a : Actor) : list str * Actor :=
  let '(r, a') := send now EvictExpired a in
  (match r with Some (ReplyNames l) => l | _ => [] end, a').
Definition add_neighbor (now : Instant) (mac : MacAddr) (ip : Ipv4Addr) (a : Actor) : Actor :=
  (send now (AddNeighbor mac ip) a).2.
Definition set_static_leases (now : Instant) (static_leases : list StaticLease)
    (a : Actor) : Actor :=
  (send now (SetStaticLeases static_leases) a).2.
End handle.
End LeaseHandle.

(** ** Lookups after each operation *)

Section lease_lemmas.
Implicit Types (t : LeaseTable) (mac : MacAddr) (ip : Ipv4Addr) (now : Instant).

Definition live now (l : ClientLease) : Prop := now < cl_expiry l.
#[global] Instance live_dec now l : Decision (live now l).
Proof. unfold live. apply _. Defined.

(** Another client holds [ip] at [now]. *)
Definition held_by_other now t ip mac : Prop :=
  ∃ m l, by_mac t !! m = Some l ∧ live now l ∧ cl_ip l = ip ∧ m ≠ mac.
(** Some client holds [ip] at [now]. *)
Definition held now t ip : Prop :=
  ∃ m l, by_mac t !! m = Some l ∧ live now l ∧ cl_ip l = ip.

Lemma is_ip_taken_by_other_iff now t ip mac :
  LeaseTable.is_ip_taken_by_other now t ip mac = true ↔ held_by_other now t ip mac.
Proof.
  unfold LeaseTable.is_ip_taken_by_other, held_by_other, live. rewrite hash_any_true.
  split; intros (m & l & Hm & H); exists m, l; revert H;
    rewrite !andb_true_iff, !bool_decide_eq_true; tauto.
Qed.

Lemma is_ip_taken_by_other_false now t ip mac :
  LeaseTable.is_ip_taken_by_other now t ip mac = false ↔ ¬ held_by_other now t ip mac.
Proof. rewrite <-is_ip_taken_by_other_iff. by destruct (LeaseTable.is_ip_taken_by_other _ _ _ _). Qed.

Lemma is_hostname_taken_by_other_iff now t h mac :
  LeaseTable.is_hostname_taken_by_other now t h mac = true ↔
  ∃ m l, by_mac t !! m = Some l ∧ live now l ∧ cl_hostname l = Some h ∧ m ≠ mac.
Proof.
  unfold LeaseTable.is_hostname_taken_by_other, live. rewrite hash_any_true.
  split; intros (m & l & Hm & H); exists m, l; revert H;
    rewrite !andb_true_iff, !bool_decide_eq_true; tauto.
Qed.

Lemma elem_of_held_ips m ip :
  ip ∈ LeaseTable.held_ips m ↔ ∃ mac l, m !! mac = Some l ∧ cl_ip l = ip.
Proof.
  unfold LeaseTable.held_ips. rewrite elem_of_list_to_set, list_elem_of_fmap. split.
  - intros ([mac l] & -> & Hin%elem_of_map_to_list). by exists mac, l.
  - intros (mac & l & Hm & <-). exists (mac, l). split; [done |].
    by apply elem_of_map_to_list.
Qed.

Lemma evict_lookup {HO : HashOrder} now t mac l :
  by_mac (LeaseTable.evict_expired now t).2 !! mac = Some l ↔
  by_mac t !! mac = Some l ∧ live now l.
Proof. simpl. rewrite retain_lookup, bool_decide_eq_true. done. Qed.

Lemma evict_conflict_active {HO : HashOrder} now t ip :
  LeaseTable.is_conflict_active now (LeaseTable.evict_expired now t).2 ip =
  LeaseTable.is_conflict_active now t ip.
Proof.
  unfold LeaseTable.is_conflict_active. simpl.
  destruct (retain _ _ !! ip) as [e|] eqn:He.
  - apply retain_lookup in He as [He _]. by rewrite He.
  - destruct (conflicts t !! ip) as [e|] eqn:Hc; [|done].
    symmetry. apply bool_decide_eq_false. intros Hlt.
    assert (retain (λ _ e', bool_decide (now < e')) (conflicts t) !! ip = Some e) as Hr.
    { apply retain_lookup. by rewrite bool_decide_eq_true. }
    congruence.
Qed.

Lemma insert_lookup t mac l m :
  by_mac (LeaseTable.insert t mac l) !! m =
  if decide (m = mac) then Some l else by_mac t !! m.
Proof.
  simpl. case_decide as Hm; [subst; apply lookup_insert_eq | by apply lookup_insert_ne].
Qed.

Lemma remove_lookup t mac m :
  by_mac (LeaseTable.remove t mac).2 !! m =
  if decide (m = mac) then None else by_mac t !! m.
Proof.
  unfold LeaseTable.remove. destruct (by_mac t !! mac) eqn:E; simpl; case_decide as Hm; subst;
    rewrite ?lookup_delete_eq, ?lookup_delete_ne by done; done.
Qed.

(** ** The index of allocated addresses

    Every address of the index is held by an entry of the table. *)

Definition index_sound t : Prop := allocated_ips t ⊆ LeaseTable.held_ips (by_mac t).

Lemma insert_index_sound t mac l :
  index_sound t → index_sound (LeaseTable.insert t mac l).
Proof.
  intros H ip. simpl. rewrite elem_of_union, elem_of_singleton, elem_of_held_ips.
  intros [-> | Hin]; [exists mac, l; by rewrite lookup_insert_eq |].
  destruct (by_mac t !! mac) as [old|] eqn:E.
  - apply elem_of_difference in Hin as [Hin Hne%not_elem_of_singleton].
    apply H, elem_of_held_ips in Hin as (m & l' & Hm & <-).
    exists m, l'. rewrite lookup_insert_ne; [done |]. congruence.
  - apply H, elem_of_held_ips in Hin as (m & l' & Hm & <-).
    exists m, l'. rewrite lookup_insert_ne; [done |]. congruence.
Qed.

Lemma remove_index_sound t mac : index_sound t → index_sound (LeaseTable.remove t mac).2.
Proof.
  intros H. unfold LeaseTable.remove. destruct (by_mac t !! mac) as [l|] eqn:E; [|done].
  intros ip. simpl. rewrite elem_of_difference, elem_of_held_ips.
  intros [Hin Hne%not_elem_of_singleton].
  apply H, elem_of_held_ips in Hin as (m & l' & Hm & <-).
  exists m, l'. rewrite lookup_delete_ne; [done |]. congruence.
Qed.

Lemma evict_index_sound {HO : HashOrder} now t :
  allocated_ips (LeaseTable.evict_expired now t).2 =
  LeaseTable.held_ips (by_mac (LeaseTable.evict_expired now t).2).
Proof. done. Qed.

(** ** The invariant of the table *)

(** No address has two live holders. *)
Definition exclusive now t : Prop :=
  ∀ m1 m2 l1 l2, by_mac t !! m1 = Some l1 → by_mac t !! m2 = Some l2 →
    live now l1 → live now l2 → cl_ip l1 = cl_ip l2 → m1 = m2.

(** The two indexes: every address in the allocation index is held by an entry,
    and every reserved address is in the reservation index. *)
Record lease_inv t : Prop := {
  li_index : index_sound t;
  li_reserved : ∀ mac s, lt_static_leases t !! mac = Some s → sl_ip s ∈ reserved_ips t;
}.

Lemma lease_inv_new : lease_inv LeaseTable.new.
Proof. split; simpl; done || set_solver. Qed.

Lemma lease_inv_insert t mac l : lease_inv t → lease_inv (LeaseTable.insert t mac l).
Proof. intros [H1 H2]. split; [by apply insert_index_sound | done]. Qed.

Lemma evict_subseteq {HO : HashOrder} now t :
  by_mac (LeaseTable.evict_expired now t).2 ⊆ by_mac t.
Proof. apply map_subseteq_spec. intros m l. rewrite evict_lookup. tauto. Qed.

Lemma remove_subseteq t mac : by_mac (LeaseTable.remove t mac).2 ⊆ by_mac t.
Proof.
  apply map_subseteq_spec. intros m l. rewrite remove_lookup. by case_decide.
Qed.

Lemma lease_inv_evict {HO : HashOrder} now t :
  lease_inv t → lease_inv (LeaseTable.evict_expired now t).2.
Proof. intros [H1 H2]. split; [unfold index_sound; by rewrite evict_index_sound | done]. Qed.

Lemma remove_static t mac :
  lt_static_leases (LeaseTable.remove t mac).2 = lt_static_leases t ∧
  reserved_ips (LeaseTable.remove t mac).2 = reserved_ips t.
Proof. unfold LeaseTable.remove. by destruct (by_mac t !! mac). Qed.
Lemma lease_inv_remove t mac : lease_inv t → lease_inv (LeaseTable.remove t mac).2.
Proof.
  intros [H1 H2]. destruct (remove_static t mac) as [Es Er].
  split; [by apply remove_index_sound | by rewrite Es, Er].
Qed.

(** ** Replacing the reservations *)

Lemma set_static_step_inv t0 ls t m :
  index_sound t0 → foldl LeaseTable.set_static_step (t0, (∅, ∅)) ls = (t, m) →
  by_mac t ⊆ by_mac t0 ∧ index_sound t ∧
  (∀ mac s l, m.1 !! mac = Some s → by_mac t !! mac = Some l → cl_ip l = sl_ip s) ∧
  (∀ mac s, m.1 !! mac = Some s → sl_ip s ∈ m.2).
Proof.
  intros H0. revert t m. induction ls as [|x ls IH] using rev_ind; intros t m.
  { simpl. intros [= <- <-]. by split_and!. }
  rewrite foldl_snoc. destruct (foldl _ _ ls) as [t1 m1].
  destruct (IH t1 m1 eq_refl) as (Hsub & Hidx & Hres & Hrsv). clear IH.
  unfold LeaseTable.set_static_step, LeaseTable.add_reservation. intros [= Et Em]. subst m. simpl.
  assert ((by_mac t !! sl_mac x = None ∨
           ∃ l, by_mac t !! sl_mac x = Some l ∧ cl_ip l = sl_ip x) ∧
          by_mac t ⊆ by_mac t1 ∧ index_sound t) as (Hx & Hsub1 & Hidx1).
  { subst t. destruct (by_mac t1 !! sl_mac x) as [l|] eqn:E; [|by split; [left |]].
    case_bool_decide as Hne.
    - split_and!; [left | apply remove_subseteq | by apply remove_index_sound].
      rewrite remove_lookup. by rewrite decide_True.
    - split_and!; [right; by exists l | done | done]. }
  split_and!; [by etrans | done | |].
  - intros mac s l. destruct (decide (mac = sl_mac x)) as [-> | Hne].
    + rewrite lookup_insert_eq. intros [= <-] Hl. destruct Hx as [? | (? & ? & ?)]; congruence.
    + rewrite lookup_insert_ne by done. intros Hs Hl. eapply Hres; [done |].
      by eapply lookup_weaken.
  - intros mac s. destruct (decide (mac = sl_mac x)) as [-> | Hne].
    + rewrite lookup_insert_eq. intros [= <-]. set_solver.
    + rewrite lookup_insert_ne by done. intros Hs%Hrsv. set_solver.
Qed.

Lemma set_static_spec t ls :
  index_sound t →
  let t' := LeaseTable.set_static_leases t ls in
  lease_inv t' ∧ by_mac t' ⊆ by_mac t ∧
  ∀ mac s l, lt_static_leases t' !! mac = Some s → by_mac t' !! mac = Some l → cl_ip l = sl_ip s.
Proof.
  intros H. unfold LeaseTable.set_static_leases.
  destruct (foldl _ _ ls) as [t' [map reserved]] eqn:E.
  destruct (set_static_step_inv t ls t' (map, reserved) H E) as (Hsub & Hidx & Hr & Hv). by split_and!.
Qed.

Lemma neighbor_cases now t mac ip :
  let t' := LeaseTable.update_from_neighbor now t mac ip in
  t' = t ∨
  (∀ s, lt_static_leases t !! mac = Some s → ip = sl_ip s) ∧
  ∃ l, cl_ip l = ip ∧ t' = LeaseTable.insert t mac l.
Proof.
  unfold LeaseTable.update_from_neighbor. destruct (_ || _); [by left |].
  destruct (lt_static_leases t !! mac) as [s|] eqn:Es.
  - case_bool_decide as Hne; [by left |].
    destruct (LeaseTable.get t mac) as [e|]; [case_bool_decide; [by left |] |];
      (right; split; [congruence | eexists; split; [|reflexivity]; reflexivity]).
  - destruct (LeaseTable.get t mac) as [e|]; [case_bool_decide; [by left |] |];
      (right; split; [done | eexists; split; [|reflexivity]; reflexivity]).
Qed.
End lease_lemmas.

(** ** Allocation and confirmation *)

Section lease_spec.
Context {Net : Type} `{!Ipv4NetOps Net, !Ipv4NetLaws Net} {HO : HashOrder}.
Implicit Types (t : LeaseTable) (mac : MacAddr) (ip : Ipv4Addr) (now : Instant) (net : Net).

(** An address the server may hand out: nobody holds it, it is under no
    conflict hold and it is not reserved. *)
Definition assignable now t ip : Prop :=
  ¬ held now t ip ∧ LeaseTable.is_conflict_active now t ip = false ∧ ip ∉ reserved_ips t.

Lemma available_after_evict now t ip :
  LeaseTable.is_ip_available_for_dynamic now (LeaseTable.evict_expired now t).2 ip = true ↔
  assignable now t ip.
Proof.
  unfold LeaseTable.is_ip_available_for_dynamic, LeaseTable.is_ip_available, assignable.
  rewrite evict_conflict_active, evict_index_sound.
  rewrite !andb_true_iff, !bool_decide_eq_true, negb_true_iff, elem_of_held_ips.
  assert ((∃ m l, by_mac (LeaseTable.evict_expired now t).2 !! m = Some l ∧ cl_ip l = ip)
          ↔ held now t ip) as ->; [|done || tauto].
  unfold held. split; intros (m & l & H); exists m, l; rewrite evict_lookup in *; tauto.
Qed.

(** The client hosts of a subnet, in the order of [hosts()]. *)
Definition host net ip : Prop :=
  net_contains net ip = true ∧ ip ≠ net_network net ∧ ip ≠ net_broadcast net.

(** The first host, in the order of [hosts()], satisfying a test. *)
Lemma find_host_Some net (p : Ipv4Addr → bool) ip :
  net_prefix_len net < 31 →
  iter_find p (net_hosts net) = Some ip →
  host net ip ∧ p ip = true ∧ ∀ ip', host net ip' → ip' < ip → p ip' = false.
Proof.
  intros Hp (i & Hi & Hip & Hj)%iter_find_Some.
  assert (ip ∈ net_hosts net) as Hin by (by eapply list_elem_of_lookup_2).
  split_and!; [by apply elem_of_net_hosts | done |].
  intros ip' Hh Hlt. apply elem_of_net_hosts in Hh; [|done].
  apply list_elem_of_lookup in Hh as [j Hh].
  rewrite net_hosts_eq in Hi, Hh by done.
  apply lookup_seqZ in Hi as [-> _]. pose proof Hh as [-> _]%lookup_seqZ.
  eapply (Hj j); [lia |]. by rewrite net_hosts_eq.
Qed.

(** The allocator of dynamic addresses is correct, whatever the state of
    the table and of its index: the address it returns is a host address of
    the subnet other than the server's, with no live lease, no conflict hold
    and no reservation on it, and it is the lowest such address; when it
    returns none, there is no such address. *)
Theorem next_available_ip_spec now t net server_ip :
  net_prefix_len net < 31 →
  match (LeaseTable.next_available_ip now t net server_ip).1 with
  | Some ip =>
      host net ip ∧ ip ≠ server_ip ∧ assignable now t ip ∧
      ∀ ip', host net ip' → ip' ≠ server_ip → ip' < ip → ¬ assignable now t ip'
  | None => ∀ ip, host net ip → ip ≠ server_ip → ¬ assignable now t ip
  end.
Proof.
  intros Hp. unfold LeaseTable.next_available_ip. cbn [fst].
  set (p := λ ip, bool_decide (ip ≠ server_ip) && _).
  assert (∀ ip, p ip = true ↔ ip ≠ server_ip ∧ assignable now t ip) as Hiff.
  { intros ip. unfold p. by rewrite andb_true_iff, bool_decide_eq_true, available_after_evict. }
  destruct (iter_find p (net_hosts net)) as [ip|] eqn:E.
  - apply find_host_Some in E as (Hh & Hip & Hlow); [|done]. apply Hiff in Hip as [Hs Ha].
    split_and!; [done.. |]. intros ip' Hh' Hs' Hlt Ha'.
    specialize (Hlow ip' Hh' Hlt). by rewrite (proj2 (Hiff ip')) in Hlow.
  - intros ip Hh Hs Ha. apply elem_of_net_hosts in Hh; [|done].
    assert (p ip = false) as Hf by (by apply (proj1 (iter_find_None p (net_hosts net)))).
    rewrite (proj2 (Hiff ip)) in Hf by done. done.
Qed.

Lemma next_available_assignable now t net server_ip ip :
  (LeaseTable.next_available_ip now t net server_ip).1 = Some ip → assignable now t ip.
Proof.
  unfold LeaseTable.next_available_ip. cbn [fst]. intros (i & _ & H & _)%iter_find_Some.
  apply andb_true_iff in H as [_ H]. by apply available_after_evict in H.
Qed.

(** ** The invariant over any run *)

(** What a turn does to the table.  Its new entry, if it writes one, is for an
    address nobody else holds and for no other than the client's reservation,
    or comes from one of the two commands that write without such a check: *)
Definition unchecked (e : option (LeaseCommand Net)) mac ip : Prop :=
  (∃ duration hostname, e = Some (ConfirmLease mac ip duration hostname)) ∨ e = Some (AddNeighbor mac ip).
Definition confirms (e : option (LeaseCommand Net)) mac ip : Prop :=
  ∃ duration hostname, e = Some (ConfirmLease mac ip duration hostname).

Record wrote now t (e : option (LeaseCommand Net)) mac (l : ClientLease) t' : Prop := {
  wr_table : ∃ t0, by_mac t0 ⊆ by_mac t ∧ t' = LeaseTable.insert t0 mac l;
  wr_static : lt_static_leases t' = lt_static_leases t;
  wr_free : held_by_other now t (cl_ip l) mac → unchecked e mac (cl_ip l);
  wr_reservation : ∀ s, lt_static_leases t !! mac = Some s → cl_ip l ≠ sl_ip s → confirms e mac (cl_ip l);
}.
Record dropped t t' : Prop := {
  dr_table : by_mac t' ⊆ by_mac t;
  dr_static : lt_static_leases t' = lt_static_leases t ∨
    ∀ mac s l, lt_static_leases t' !! mac = Some s → by_mac t' !! mac = Some l → cl_ip l = sl_ip s;
}.
Definition turned now t e t' : Prop := dropped t t' ∨ ∃ mac l, wrote now t e mac l t'.

Lemma turned_same now t e : turned now t e t.
Proof. left. by split; [|left]. Qed.
Lemma turned_evict now t e : turned now t e (LeaseTable.evict_expired now t).2.
Proof. left. split; [apply evict_subseteq | by left]. Qed.
Lemma turned_insert now t e mac l :
  ¬ held_by_other now t (cl_ip l) mac → (∀ s, lt_static_leases t !! mac = Some s → cl_ip l = sl_ip s) →
  turned now t e (LeaseTable.insert t mac l).
Proof.
  intros Hfree Hres. right. exists mac, l. split; [by exists t | done | done |].
  intros s Hs Hne. by rewrite (Hres s Hs) in Hne.
Qed.

Lemma turned_allocate now t e mac net server_ip :
  turned now t e (LeaseTable.allocate_candidate now t mac net server_ip).2.
Proof.
  unfold LeaseTable.allocate_candidate. destruct (lt_static_leases t !! mac) as [s|] eqn:Es.
  - destruct (_ && _) eqn:Hc; [|apply turned_same]. apply andb_true_iff in Hc as [_ Hc].
    apply negb_true_iff, is_ip_taken_by_other_false in Hc. simpl.
    apply turned_insert; [done |]. intros s' Hs'. simpl. congruence.
  - destruct (LeaseTable.next_available_ip now t net server_ip) as [[ip|] t'] eqn:Ea; simpl.
    2: { injection Ea as _ <-. apply turned_evict. }
    assert (t' = (LeaseTable.evict_expired now t).2) as -> by (by injection Ea).
    destruct (next_available_assignable now t net server_ip ip) as [Hn _]; [by rewrite Ea |].
    right. exists mac, (mkClientLease ip (now + CANDIDATE_HOLD_DURATION) None). split.
    + eexists. split; [apply evict_subseteq | done].
    + done.
    + intros (m & l & Hm & Hl & Hip & _). destruct Hn. by exists m, l.
    + intros s Hs. congruence.
Qed.

Lemma lease_inv_allocate now t mac net server_ip :
  lease_inv t → lease_inv (LeaseTable.allocate_candidate now t mac net server_ip).2.
Proof.
  intros H. unfold LeaseTable.allocate_candidate. destruct (lt_static_leases t !! mac) as [s|].
  - destruct (_ && _); [by apply lease_inv_insert | done].
  - unfold LeaseTable.next_available_ip. pose proof (lease_inv_evict now t H).
    destruct (iter_find _ _); [by apply lease_inv_insert | done].
Qed.

(** When a request is confirmed. *)
Definition confirmable now t mac net server_ip ip : Prop :=
  host net ip ∧ ip ≠ server_ip ∧ ¬ held_by_other now t ip mac ∧
  match lt_static_leases t !! mac with
  | Some s => ip = sl_ip s
  | None => ip ∉ reserved_ips t
  end.

(** The address a request is about. *)
Definition request_target t mac (requested_ip : option Ipv4Addr) : option Ipv4Addr :=
  match requested_ip with
  | Some ip => Some ip
  | None => cl_ip <$> by_mac t !! mac
  end.

(** The name a confirmed lease gets: the reservation's, else the requested
    one, unless another live lease has it. *)
Definition granted_name now t mac (requested : option str) : option str :=
  h ← match (s ← lt_static_leases t !! mac; sl_hostname s) with
      | Some h => Some h
      | None => requested
      end;
  if LeaseTable.is_hostname_taken_by_other now t h mac then None else Some h.
(** The client's previous name, when it is given up. *)
Definition dropped_name t mac (new : option str) : option str :=
  old ← (l ← by_mac t !! mac; cl_hostname l);
  if decide (new = Some old) then None else Some old.

Lemma validate_and_confirm_yes now t mac req server_ip net d name ip :
  request_target t mac req = Some ip → confirmable now t mac net server_ip ip →
  let h := granted_name now t mac name in
  LeaseTable.validate_and_confirm now t mac req server_ip net d name =
  (Some (mkLeaseConfirmation ip h (dropped_name t mac h)),
   LeaseTable.insert t mac (mkClientLease ip (now + d) h)).
Proof.
  intros Ht ((Hc & Hn & Hb) & Hs & Hfree & Hst). cbv zeta.
  unfold LeaseTable.validate_and_confirm, request_target, LeaseTable.get in *. rewrite Ht.
  apply is_ip_taken_by_other_false in Hfree. rewrite !bool_decide_false by done.
  rewrite Hc, Hfree. simpl.
  assert ((match lt_static_leases t !! mac with
           | Some s => bool_decide (ip ≠ sl_ip s)
           | None => bool_decide (ip ∈ reserved_ips t)
           end) = false) as ->.
  { destruct (lt_static_leases t !! mac); apply bool_decide_eq_false; naive_solver. }
  fold (granted_name now t mac name). f_equal; f_equal; f_equal.
  unfold dropped_name. destruct (by_mac t !! mac) as [l|]; [|done]. simpl.
  destruct (cl_hostname l) as [old|]; [|done]. simpl.
  destruct (granted_name now t mac name) as [new|]; [|by rewrite decide_False].
  case_bool_decide; case_decide; congruence.
Qed.

Lemma granted_name_free now t mac name h :
  granted_name now t mac name = Some h →
  ¬ ∃ m l, by_mac t !! m = Some l ∧ live now l ∧ cl_hostname l = Some h ∧ m ≠ mac.
Proof.
  unfold granted_name. rewrite <-is_hostname_taken_by_other_iff.
  destruct (match _ with Some _ => _ | None => name end) as [h'|]; [|done]. simpl.
  destruct (LeaseTable.is_hostname_taken_by_other now t h' mac) eqn:E; [done |].
  intros [= <-]. by rewrite E.
Qed.

Lemma validate_and_confirm_no now t mac req server_ip net d name :
  (∀ ip, request_target t mac req = Some ip → ¬ confirmable now t mac net server_ip ip) →
  LeaseTable.validate_and_confirm now t mac req server_ip net d name = (None, t).
Proof.
  intros H. unfold LeaseTable.validate_and_confirm.
  fold (LeaseTable.get t mac). unfold request_target, LeaseTable.get in *.
  destruct (match req with Some _ => _ | None => _ end) as [ip|]; [|done].
  specialize (H ip eq_refl). destruct (_ || _) eqn:Hb; [done |].
  destruct (match lt_static_leases t !! mac with Some _ => _ | None => _ end) eqn:Hst; [done |].
  destruct H. rewrite !orb_false_iff, !bool_decide_eq_false, negb_false_iff in Hb.
  destruct Hb as ((((Hs & Hn) & Hbc) & Hc) & Hfree%is_ip_taken_by_other_false).
  split_and!; [done.. |].
  destruct (lt_static_leases t !! mac); apply bool_decide_eq_false in Hst; [|done].
  by apply dec_stable.
Qed.

#[global] Instance held_by_other_dec now t ip mac : Decision (held_by_other now t ip mac).
Proof.
  refine (cast_if (decide (LeaseTable.is_ip_taken_by_other now t ip mac = true)));
    by rewrite <-is_ip_taken_by_other_iff.
Defined.
#[global] Instance confirmable_dec now t mac net server_ip ip :
  Decision (confirmable now t mac net server_ip ip).
Proof.
  unfold confirmable, host. destruct (lt_static_leases t !! mac); apply _.
Defined.

(** A DHCPREQUEST is confirmed exactly when it should be.  The target (the
    requested address, else the one on record) must be a client host of the
    subnet other than the server, with no other live holder, and must be the
    client's reservation if it has one, or unreserved otherwise.  The reply
    then carries that address, the name of the reservation or the requested
    one unless another live lease has it, and the client's old name when it is
    given up; the table holds exactly that lease for the client and the other
    entries are untouched.  A refused request leaves the table as it was. *)
Theorem validate_and_confirm_spec now t mac req server_ip net d name :
  let result := (LeaseTable.validate_and_confirm now t mac req server_ip net d name).1 in
  let t' := (LeaseTable.validate_and_confirm now t mac req server_ip net d name).2 in
  (∀ c, result = Some c ↔
     ∃ ip, request_target t mac req = Some ip ∧ confirmable now t mac net server_ip ip ∧
       let h := granted_name now t mac name in
       c = mkLeaseConfirmation ip h (dropped_name t mac h)) ∧
  (result = None → t' = t) ∧
  (∀ c, result = Some c →
     by_mac t' !! mac = Some (mkClientLease (lc_ip c) (now + d) (lc_hostname c)) ∧
     (∀ m, m ≠ mac → by_mac t' !! m = by_mac t !! m) ∧
     (∀ m l h, by_mac t' !! m = Some l → live now l → cl_hostname l = Some h →
        lc_hostname c = Some h → m = mac)).
Proof.
  cbv zeta. destruct (request_target t mac req) as [ip|] eqn:Ht.
  2: { rewrite validate_and_confirm_no by congruence. naive_solver. }
  destruct (decide (confirmable now t mac net server_ip ip)) as [Hc | Hc].
  2: { rewrite validate_and_confirm_no by congruence. naive_solver. }
  rewrite (validate_and_confirm_yes _ _ _ _ _ _ _ _ ip) by done. cbn [fst snd].
  split_and!; [| done |].
  - intros c. split; [intros [= <-]; by exists ip |].
    intros (ip' & [= <-] & _ & ->). done.
  - intros c [= <-]. cbn [lc_ip lc_hostname]. split_and!.
    + by rewrite insert_lookup, decide_True.
    + intros m Hm. by rewrite insert_lookup, decide_False.
    + intros m l h. rewrite insert_lookup. case_decide as Hm; [done |].
      intros Hl Hlive Hn Hg. destruct (granted_name_free now t mac name h Hg).
      by exists m, l.
Qed.

Lemma validate_cases now t mac req server_ip net d name :
  let t' := (LeaseTable.validate_and_confirm now t mac req server_ip net d name).2 in
  t' = t ∨ ∃ ip h, confirmable now t mac net server_ip ip ∧
    t' = LeaseTable.insert t mac (mkClientLease ip (now + d) h).
Proof.
  cbv zeta. destruct (request_target t mac req) as [ip|] eqn:Ht;
    [|left; by rewrite validate_and_confirm_no by congruence].
  destruct (decide (confirmable now t mac net server_ip ip)) as [Hc | Hc];
    [|left; by rewrite validate_and_confirm_no by congruence].
  right. exists ip. eexists. split; [done |]. by rewrite (validate_and_confirm_yes _ _ _ _ _ _ _ _ ip).
Qed.

Lemma actor_step_inv now (e : option (LeaseCommand Net)) t :
  lease_inv t → lease_inv (actor_step now e t).
Proof.
  intros Hinv. destruct e as [cmd|]; [|by apply lease_inv_evict].
  destruct cmd; cbn [actor_step handle_lease_command]; try done.
  - pose proof (lease_inv_allocate now t client_mac net server_ip Hinv).
    by destruct (LeaseTable.allocate_candidate now t client_mac net server_ip).
  - by apply lease_inv_insert.
  - pose proof (validate_cases now t client_mac requested_ip server_ip net duration requested_hostname) as Hv.
    destruct (LeaseTable.validate_and_confirm _ _ _ _ _ _ _ _) as [r t']. simpl in *.
    destruct Hv as [-> | (ip & h & _ & ->)]; [done | by apply lease_inv_insert].
  - destruct Hinv. by split.
  - pose proof (lease_inv_remove t client_mac Hinv). by destruct (LeaseTable.remove t client_mac).
  - by apply lease_inv_evict.
  - destruct (neighbor_cases now t mac ip) as [-> | (_ & l & _ & ->)]; [done | by apply lease_inv_insert].
  - apply (set_static_spec t static_leases), Hinv.
Qed.

Lemma actor_step_turned now (e : option (LeaseCommand Net)) t :
  index_sound t → turned now t e (actor_step now e t).
Proof.
  intros Hidx. destruct e as [cmd|]; [|apply turned_evict].
  destruct cmd; cbn [actor_step handle_lease_command]; try apply turned_same.
  - pose proof (turned_allocate now t (Some (AllocateCandidate client_mac net server_ip)) client_mac net server_ip).
    by destruct (LeaseTable.allocate_candidate now t client_mac net server_ip).
  - right. exists client_mac. eexists. split; [by exists t | done | by left; eexists _, _ | by eexists _, _].
  - pose proof (validate_cases now t client_mac requested_ip server_ip net duration requested_hostname) as Hv.
    destruct (LeaseTable.validate_and_confirm _ _ _ _ _ _ _ _) as [r t']. simpl in *.
    destruct Hv as [-> | (ip & h & (_ & _ & Hfree & Hst) & ->)]; [apply turned_same |].
    apply turned_insert; [done |]. intros s Hs. by rewrite Hs in Hst.
  - left. by split; [|left].
  - left. pose proof (remove_subseteq t client_mac). destruct (remove_static t client_mac).
    destruct (LeaseTable.remove t client_mac). by split; [|left].
  - apply turned_evict.
  - destruct (neighbor_cases now t mac ip) as [-> | (Hres & l & Hip & ->)]; [apply turned_same |].
    right. exists mac, l. split; [by exists t | done | rewrite Hip; by right |].
    intros s Hs Hne. destruct Hne. by rewrite Hip, (Hres s Hs).
  - left. destruct (set_static_spec t static_leases Hidx) as (_ & Hsub & Hres). split; [done | by right].
Qed.

(** ** Which turns break the rules *)

Abbreviation Turns := (list (Instant * option (LeaseCommand Net))).

(** Client [mac] got the entry [l] in a turn with one of the two unchecked
    commands, when [mac'] already had [l'], which was live then. *)
Definition intruded (events : Turns) mac l mac' l' : Prop :=
  ∃ pre u e post, events = pre ++ (u, e) :: post ∧ unchecked e mac (cl_ip l) ∧
    by_mac (run_lease_actor_loop pre) !! mac' = Some l' ∧ live u l' ∧
    by_mac (run_lease_actor_loop (pre ++ [(u, e)])) !! mac = Some l.
(** Client [mac] got [l] by an offer confirmed when its reservation was [s]. *)
Definition misplaced (events : Turns) mac (s : StaticLease) l : Prop :=
  ∃ pre u e post, events = pre ++ (u, e) :: post ∧ confirms e mac (cl_ip l) ∧
    lt_static_leases (run_lease_actor_loop pre) !! mac = Some s ∧
    by_mac (run_lease_actor_loop (pre ++ [(u, e)])) !! mac = Some l.

Lemma run_lease_actor_snoc (events : Turns) u e :
  run_lease_actor_loop (events ++ [(u, e)]) = actor_step u e (run_lease_actor_loop events).
Proof. unfold run_lease_actor_loop, run_lease_actor. by rewrite foldl_snoc. Qed.

Lemma run_lease_inv (events : Turns) : lease_inv (run_lease_actor_loop events).
Proof.
  induction events as [|[u e] events IH] using rev_ind; [apply lease_inv_new |].
  rewrite run_lease_actor_snoc. by apply actor_step_inv.
Qed.

Lemma intruded_snoc (events : Turns) x mac l mac' l' :
  intruded events mac l mac' l' → intruded (events ++ [x]) mac l mac' l'.
Proof.
  intros (pre & u & e & post & -> & H). exists pre, u, e, (post ++ [x]).
  split; [by rewrite <-app_assoc | done].
Qed.
Lemma misplaced_snoc (events : Turns) x mac s l :
  misplaced events mac s l → misplaced (events ++ [x]) mac s l.
Proof.
  intros (pre & u & e & post & -> & H). exists pre, u, e, (post ++ [x]).
  split; [by rewrite <-app_assoc | done].
Qed.

(** A new entry for an address somebody else has is an intrusion. *)
Lemma wrote_intruded (events : Turns) u e mac l mac' l' :
  wrote u (run_lease_actor_loop events) e mac l (run_lease_actor_loop (events ++ [(u, e)])) →
  by_mac (run_lease_actor_loop events) !! mac' = Some l' → live u l' → cl_ip l' = cl_ip l → mac' ≠ mac →
  intruded (events ++ [(u, e)]) mac l mac' l'.
Proof.
  intros [(t0 & _ & Ht) _ Hfree _] Hm' Hl Hip Hne. exists events, u, e, []. split_and!; try done.
  - apply Hfree. by exists mac', l'.
  - by rewrite Ht, insert_lookup, decide_True.
Qed.

Lemma doubles_intruded (events : Turns) now :
  Forall (λ e, e.1 ≤ now) events →
  ∀ m1 m2 l1 l2, by_mac (run_lease_actor_loop events) !! m1 = Some l1 →
    by_mac (run_lease_actor_loop events) !! m2 = Some l2 → live now l1 → live now l2 →
    cl_ip l1 = cl_ip l2 → m1 ≠ m2 → intruded events m1 l1 m2 l2 ∨ intruded events m2 l2 m1 l1.
Proof.
  induction events as [|[u e] events IH] using rev_ind; intros Hle m1 m2 l1 l2 E1 E2 L1 L2 Hip Hne.
  { unfold run_lease_actor_loop in E1. simpl in E1. by rewrite lookup_empty in E1. }
  apply Forall_app in Hle as [Hle [Hu _]%Forall_cons]. simpl in Hu. specialize (IH Hle).
  assert (∀ l, live now l → live u l) as Hlive by (unfold live; intros; lia).
  destruct (actor_step_turned u e (run_lease_actor_loop events)) as [[Hsub _] | (mac & l & Hw)];
    [apply run_lease_inv | |]; rewrite <-run_lease_actor_snoc in *.
  - destruct (IH m1 m2 l1 l2); [by eapply lookup_weaken.. | done | done | done | done | |];
      [left | right]; by apply intruded_snoc.
  - pose proof Hw as [(t0 & Hsub & Ht) _ _ _]. rewrite Ht, insert_lookup in E1, E2.
    destruct (decide (m1 = mac)) as [-> | N1], (decide (m2 = mac)) as [-> | N2]; simplify_eq.
    + left. eapply wrote_intruded; [done | by eapply lookup_weaken | by apply Hlive | done | done].
    + right. eapply wrote_intruded; [done | by eapply lookup_weaken | by apply Hlive | done | done].
    + destruct (IH m1 m2 l1 l2); [by eapply lookup_weaken.. | done | done | done | done | |];
        [left | right]; by apply intruded_snoc.
Qed.

Lemma misplaced_confirmed (events : Turns) :
  ∀ mac s l, lt_static_leases (run_lease_actor_loop events) !! mac = Some s →
    by_mac (run_lease_actor_loop events) !! mac = Some l → cl_ip l ≠ sl_ip s → misplaced events mac s l.
Proof.
  induction events as [|[u e] events IH] using rev_ind; intros m s l Es El Hne.
  { unfold run_lease_actor_loop in El. simpl in El. by rewrite lookup_empty in El. }
  destruct (actor_step_turned u e (run_lease_actor_loop events)) as [[Hsub Hst] | (mac & l' & Hw)];
    [apply run_lease_inv | |]; rewrite <-run_lease_actor_snoc in *.
  - destruct Hst as [Hst | Hst]; [|by destruct Hne; eapply Hst]. apply misplaced_snoc.
    rewrite Hst in Es. apply IH; [done | by eapply lookup_weaken | done].
  - pose proof Hw as [(t0 & Hsub & Ht) Hst _ Hres]. rewrite Hst in Es.
    rewrite Ht, insert_lookup in El. destruct (decide (m = mac)) as [-> | N]; simplify_eq.
    + exists events, u, e, []. split_and!; [done | by eapply Hres | done |].
      by rewrite Ht, insert_lookup, decide_True.
    + apply misplaced_snoc, IH; [done | by eapply lookup_weaken | done].
Qed.

(** C2: leases are exclusive, but for two commands that are not checked.  After
    any turns of the lease actor (any commands and clean-ups in any order, none
    of them later than now): every address in the allocation index is held by
    some entry, and every reserved address is in the reservation index.  If two
    clients have live leases of one address, then one of them got its present
    lease in a turn with [ConfirmLease] (the confirmation of an offer) or
    [AddNeighbor] (a neighbour event), the two commands that write an entry
    without looking at the others, when the other one already had the lease
    it still has and that lease was live; so allocations, requests, releases,
    conflict holds, clean-ups and changes of the reservations never give an
    address twice.  If a client with a reservation has an entry for another
    address, it got that entry by [ConfirmLease] under the same reservation;
    no other command, not even a change of the reservations, leaves such an
    entry. *)
Theorem lease_actor_invariant (events : Turns) now :
  Forall (λ e, e.1 ≤ now) events →
  let t := run_lease_actor_loop events in
  index_sound t ∧ (∀ mac s, lt_static_leases t !! mac = Some s → sl_ip s ∈ reserved_ips t) ∧
  (∀ m1 m2 l1 l2, by_mac t !! m1 = Some l1 → by_mac t !! m2 = Some l2 →
     live now l1 → live now l2 → cl_ip l1 = cl_ip l2 → m1 ≠ m2 →
     intruded events m1 l1 m2 l2 ∨ intruded events m2 l2 m1 l1) ∧
  (∀ mac s l, lt_static_leases t !! mac = Some s → by_mac t !! mac = Some l →
     cl_ip l ≠ sl_ip s → misplaced events mac s l).
Proof.
  intros Hle. cbv zeta. destruct (run_lease_inv events) as [H1 H2].
  split_and!; [done | done | by apply doubles_intruded | apply misplaced_confirmed].
Qed.

(** What [allocate_candidate] offers.  A client with a reservation is
    offered its reserved address, exactly when that is inside the subnet, is
    not the server's and has no other live holder; any other client is offered
    what [next_available_ip] finds.  The address offered is then held by the
    client, and by nobody else, until the candidate hold of ten seconds
    ends. *)
Theorem allocate_candidate_spec now t mac net server_ip :
  let result := (LeaseTable.allocate_candidate now t mac net server_ip).1 in
  let t' := (LeaseTable.allocate_candidate now t mac net server_ip).2 in
  match lt_static_leases t !! mac with
  | Some s => ∀ ip, result = Some ip ↔
      ip = sl_ip s ∧ net_contains net ip = true ∧ ip ≠ server_ip ∧
      ¬ held_by_other now t ip mac
  | None => result = (LeaseTable.next_available_ip now t net server_ip).1
  end ∧
  ∀ ip, result = Some ip →
    (∃ h, by_mac t' !! mac = Some (mkClientLease ip (now + CANDIDATE_HOLD_DURATION) h)) ∧
    ¬ held_by_other now t' ip mac.
Proof.
  cbv zeta. unfold LeaseTable.allocate_candidate.
  destruct (lt_static_leases t !! mac) as [s|] eqn:Es.
  - destruct (_ && _) eqn:Hc; cbn [fst snd].
    + rewrite !andb_true_iff, bool_decide_eq_true, negb_true_iff,
        is_ip_taken_by_other_false in Hc. destruct Hc as [[Hc Hs] Hf].
      split; [naive_solver |]. intros ip [= <-]. split.
      * exists (sl_hostname s). by rewrite insert_lookup, decide_True.
      * intros (m & l & Hm & Hl & Hip & Hne). rewrite insert_lookup, decide_False in Hm by done.
        destruct Hf. by exists m, l.
    + split; [|done]. intros ip. split; [done |]. intros (-> & Hn & Hs & Hf).
      apply is_ip_taken_by_other_false in Hf.
      by rewrite Hn, Hf, bool_decide_true in Hc.
  - destruct (LeaseTable.next_available_ip now t net server_ip) as [[ip|] t'] eqn:Ea;
      cbn [fst snd]; [|done].
    assert (t' = (LeaseTable.evict_expired now t).2) as -> by (by injection Ea).
    destruct (next_available_assignable now t net server_ip ip) as [Hn _]; [by rewrite Ea |].
    split; [done |]. intros ip' [= <-]. split.
    + exists None. by rewrite insert_lookup, decide_True.
    + intros (m & l & Hm & Hl & Hip & Hne). rewrite insert_lookup, decide_False in Hm by done.
      destruct Hn. apply evict_lookup in Hm as [Hm _]. by exists m, l.
Qed.

(** ** Conflict checks and telemetry *)

Lemma get_mac_by_ip_Some now t ip m :
  LeaseTable.get_mac_by_ip now t ip = Some m →
  ∃ l, by_mac t !! m = Some l ∧ live now l ∧ cl_ip l = ip.
Proof.
  unfold LeaseTable.get_mac_by_ip. rewrite fmap_Some.
  intros ([m' l] & (i & Hi & Hp & _)%iter_find_Some & ->). simpl in *.
  apply list_elem_of_lookup_2, elem_of_hash_iter in Hi.
  apply andb_true_iff in Hp as [H1%bool_decide_eq_true H2%bool_decide_eq_true]. by exists l.
Qed.

Lemma get_mac_by_ip_None now t ip :
  LeaseTable.get_mac_by_ip now t ip = None → ¬ held now t ip.
Proof.
  unfold LeaseTable.get_mac_by_ip. rewrite fmap_None, iter_find_None.
  intros H (m & l & Hm & Hl & Hip). apply elem_of_hash_iter in Hm.
  specialize (H _ Hm). simpl in H. by rewrite !bool_decide_true in H.
Qed.

(** A conflict reported by [CheckConflict] is real (another client holds a
    live lease on the address), and when the asking client has no live entry
    for the address itself, every real conflict is reported. *)
Theorem check_conflict_spec now t ip mac :
  (∀ t', handle_lease_command (Net := Net) now (CheckConflict ip mac) t = (ReplyBool true, t') →
     held_by_other now t ip mac ∧ t' = t) ∧
  ((∀ l, by_mac t !! mac = Some l → live now l → cl_ip l ≠ ip) → held_by_other now t ip mac →
   handle_lease_command (Net := Net) now (CheckConflict ip mac) t = (ReplyBool true, t)).
Proof.
  cbn [handle_lease_command]. destruct (LeaseTable.get_mac_by_ip now t ip) as [m|] eqn:E.
  - apply get_mac_by_ip_Some in E as (l & Hm & Hl & Hip). split.
    + intros t' [= Hne%bool_decide_eq_true <-]. split; [by exists m, l | done].
    + intros Hself _. rewrite bool_decide_true; [done |]. intros <-. by eapply Hself.
  - apply get_mac_by_ip_None in E. split; [done |]. intros _ (m & l & ? & ? & ? & _).
    destruct E. by exists m, l.
Qed.

Lemma li_mac_lease_info now t l :
  li_mac <$> omap (LeaseTable.lease_info now t) l `sublist_of` l.*1.
Proof.
  induction l as [|[m c] l IH]; [done |]. cbn [omap list_omap]. rewrite fmap_cons.
  unfold LeaseTable.lease_info at 1. simpl. case_bool_decide; simpl;
    [by apply sublist_skip | by apply sublist_cons].
Qed.
Lemma li_mac_static_info a l :
  li_mac <$> omap (LeaseTable.static_info a) l `sublist_of` l.*1.
Proof.
  induction l as [|[m c] l IH]; [done |]. cbn [omap list_omap]. rewrite fmap_cons.
  unfold LeaseTable.static_info at 1. simpl. case_bool_decide; simpl;
    [by apply sublist_cons | by apply sublist_skip].
Qed.

Lemma elem_of_active now t i :
  i ∈ omap (LeaseTable.lease_info now t) (hash_iter (by_mac t)) ↔
  ∃ l, by_mac t !! li_mac i = Some l ∧ live now l ∧
    i = mkDhcpLeaseInfo (li_mac i) (cl_ip l) (cl_hostname l) (as_secs (cl_expiry l - now))
          (bool_decide (is_Some (lt_static_leases t !! li_mac i))).
Proof.
  rewrite list_elem_of_omap. unfold LeaseTable.lease_info, live. split.
  - intros ([m l] & Hin%elem_of_hash_iter & Hi). simpl in Hi.
    case_bool_decide; [|done]. injection Hi as <-. by exists l.
  - intros (l & Hm & Hl & Hi). exists (li_mac i, l). rewrite elem_of_hash_iter. simpl.
    rewrite bool_decide_true by done. split; [done |]. by rewrite Hi.
Qed.

(** The lease report lists every client once: those with a live lease, with
    the seconds it has left, and the reservations whose client has none, and
    nothing else, in whatever order the maps are traversed. *)
Theorem get_active_leases_spec now t :
  NoDup (li_mac <$> LeaseTable.get_active_leases now t) ∧
  ∀ i, i ∈ LeaseTable.get_active_leases now t ↔
    (∃ l, by_mac t !! li_mac i = Some l ∧ live now l ∧
       i = mkDhcpLeaseInfo (li_mac i) (cl_ip l) (cl_hostname l) (as_secs (cl_expiry l - now))
             (bool_decide (is_Some (lt_static_leases t !! li_mac i)))) ∨
    (∃ s, lt_static_leases t !! li_mac i = Some s ∧
       (∀ l, by_mac t !! li_mac i = Some l → ¬ live now l) ∧
       i = mkDhcpLeaseInfo (li_mac i) (sl_ip s) (sl_hostname s) 0 true).
Proof.
  unfold LeaseTable.get_active_leases.
  set (active := omap (LeaseTable.lease_info now t) (hash_iter (by_mac t))).
  set (macs := list_to_set (li_mac <$> active) : gset MacAddr).
  assert (∀ m, m ∈ macs ↔ ∃ l, by_mac t !! m = Some l ∧ live now l) as Hmacs.
  { intros m. unfold macs. rewrite elem_of_list_to_set, list_elem_of_fmap. split.
    - intros (i & -> & (l & Hm & Hl & _)%elem_of_active). by exists l.
    - intros (l & Hm & Hl). eexists (mkDhcpLeaseInfo m _ _ _ _). split; [done |].
      apply elem_of_active. exists l. split_and!; [exact Hm | exact Hl | cbn [li_mac]; reflexivity]. }
  assert (∀ i, i ∈ omap (LeaseTable.static_info macs) (hash_iter (lt_static_leases t)) ↔
    ∃ s, lt_static_leases t !! li_mac i = Some s ∧ (li_mac i ∉ macs) ∧
      i = mkDhcpLeaseInfo (li_mac i) (sl_ip s) (sl_hostname s) 0 true) as Hstatic.
  { intros i. rewrite list_elem_of_omap. unfold LeaseTable.static_info. split.
    - intros ([m s] & Hin%elem_of_hash_iter & Hi). simpl in Hi.
      case_bool_decide; [done |]. injection Hi as <-. by exists s.
    - intros (s & Hm & Hn & Hi). exists (li_mac i, s). rewrite elem_of_hash_iter. simpl.
      rewrite bool_decide_false by done. split; [done |]. by rewrite Hi. }
  split.
  - rewrite fmap_app. apply list.NoDup_app. split_and!.
    + eapply sublist_NoDup; [apply (hash_iter_NoDup_fst (by_mac t)) | apply li_mac_lease_info].
    + intros m Hm (i & -> & (s & _ & Hn & _)%Hstatic)%list_elem_of_fmap.
      apply Hn. by apply elem_of_list_to_set.
    + eapply sublist_NoDup;
        [apply (hash_iter_NoDup_fst (lt_static_leases t)) | apply li_mac_static_info].
  - intros i. rewrite elem_of_app, Hstatic. unfold active. rewrite elem_of_active.
    assert ((li_mac i ∉ macs) ↔ ∀ l, by_mac t !! li_mac i = Some l → ¬ live now l) as Hn.
    { rewrite Hmacs. naive_solver. }
    by setoid_rewrite Hn.
Qed.
End lease_spec.

(** ** A small subnet, two clients and a reservation *)

Module LeaseExample.
#[local] Existing Instance forward_order.

Definition net : IpNet := mkIpNet (ipv4 192 168 7 1) 29 eq_refl.
Definition gateway : Ipv4Addr := ipv4 192 168 7 1.
Definition mac (n : Z) : MacAddr := mac6 2 0 0 0 0 n.
Definition nas : StaticLease := mkStaticLease (mac 9) (ipv4 192 168 7 2) (Some (lit "nas")).
Definition request (m : MacAddr) (ip : Ipv4Addr) : LeaseCommand IpNet :=
  ValidateAndConfirmRequest m (Some ip) gateway net (from_secs 3600) (Some (lit "laptop")).

(** A reservation, an offer, its confirmation and the request. *)
Definition run0 : LeaseTable :=
  run_lease_actor_loop [(0, Some (SetStaticLeases [nas]));
    (0, Some (AllocateCandidate (mac 1) net gateway));
    (0, Some (ConfirmLease (mac 1) (ipv4 192 168 7 3) (from_secs 10) None));
    (0, Some (request (mac 1) (ipv4 192 168 7 3))); (0, None)].

(** Two clients with one address: a neighbour event names the address offered
    to another client. *)
Definition doubled : list (Instant * option (LeaseCommand IpNet)) :=
  [(0, Some (AllocateCandidate (mac 1) net gateway)); (0, Some (AddNeighbor (mac 2) (ipv4 192 168 7 2)))].
Lemma lease_actor_invariant_witness :
  ∃ l1 l2, cl_ip l1 = ipv4 192 168 7 2 ∧ cl_ip l2 = ipv4 192 168 7 2 ∧
    by_mac (run_lease_actor_loop doubled) !! mac 1 = Some l1 ∧
    by_mac (run_lease_actor_loop doubled) !! mac 2 = Some l2 ∧
    (intruded doubled (mac 1) l1 (mac 2) l2 ∨ intruded doubled (mac 2) l2 (mac 1) l1).
Proof.
  assert (Forall (λ e, e.1 ≤ from_secs 5) doubled) as Hle
    by (repeat apply Forall_cons_2; [vm_compute; discriminate.. | apply Forall_nil_2]).
  exists (mkClientLease (ipv4 192 168 7 2) CANDIDATE_HOLD_DURATION None),
    (mkClientLease (ipv4 192 168 7 2) NEIGHBOR_HOLD_DURATION None).
  do 4 (split; [vm_compute; reflexivity |]).
  apply (proj1 (proj2 (proj2 (lease_actor_invariant (Net := IpNet) doubled (from_secs 5) Hle))));
    try (vm_compute; reflexivity). vm_compute. discriminate.
Defined.

Lemma next_available_ip_spec_witness :
  (LeaseTable.next_available_ip 0 run0 net gateway).1 = Some (ipv4 192 168 7 4) ∧
  assignable 0 run0 (ipv4 192 168 7 4).
Proof.
  assert (net_prefix_len net < 31) as Hp by (vm_compute; reflexivity).
  pose proof (next_available_ip_spec 0 run0 net gateway Hp) as H.
  assert ((LeaseTable.next_available_ip 0 run0 net gateway).1 = Some (ipv4 192 168 7 4))
    as E by (vm_compute; reflexivity).
  rewrite E in H. split; [exact E | exact (proj1 (proj2 (proj2 H)))].
Defined.

(** The index is not complete, against the comment on [LeaseTable]: after a
    neighbour event gives two clients one address, the release of one of them
    leaves the address held and not indexed. *)
Definition run1 : LeaseTable :=
  run_lease_actor_loop (Net := IpNet)
    [(0, Some (AllocateCandidate (mac 1) net gateway));
     (0, Some (AddNeighbor (mac 2) (ipv4 192 168 7 2)));
     (0, Some (Release (mac 2)))].

(** Finding: the documented invariant of the table ("an IP is in [allocated_ips] if
    and only if there is a live entry for it in [by_mac]") does not hold: a
    reachable table has a live lease on an address that is not in the
    index. *)
Theorem allocated_ips_not_iff :
  ∃ l, by_mac run1 !! mac 1 = Some l ∧ live 0 l ∧ cl_ip l ∉ allocated_ips run1.
Proof. eexists. split_and!; [vm_compute; reflexivity | done |]. vm_compute. set_solver. Qed.

(** Both clients hold the address: the offer and the neighbour event. *)
Definition run2 : LeaseTable :=
  run_lease_actor_loop (Net := IpNet)
    [(0, Some (AllocateCandidate (mac 1) net gateway));
     (0, Some (AddNeighbor (mac 2) (ipv4 192 168 7 2)))].

(** Finding: when the asking client already has an entry for the address, as it
    always has after an offer, the answer of [CheckConflict] depends on the
    iteration order of the hash map: the same conflict, with another host
    seen on the address, is reported in one order and missed in another. *)
Theorem check_conflict_order_dependent :
  held_by_other 0 run2 (ipv4 192 168 7 2) (mac 1) ∧
  ∃ o1 o2 : HashOrder,
    (handle_lease_command (Net := IpNet) (HO := o1) 0
       (CheckConflict (ipv4 192 168 7 2) (mac 1)) run2).1 = ReplyBool true ∧
    (handle_lease_command (Net := IpNet) (HO := o2) 0
       (CheckConflict (ipv4 192 168 7 2) (mac 1)) run2).1 = ReplyBool false.
Proof.
  split; [apply is_ip_taken_by_other_iff; vm_compute; reflexivity |].
  first
    [ exists forward_order, backward_order; split; vm_compute; reflexivity
    | exists backward_order, forward_order; split; vm_compute; reflexivity ].
Qed.
End LeaseExample.
