(* ===== verification/Dhcp.v ===== *)
(** * DHCP messages

    What the DHCP client and server read from and write to a message of the
    [dhcproto] crate: the fields its accessors return and the options, kept
    by option code.  Encoding and decoding the wire format are the crate's
    and are arguments of the code that calls them. *)

From Stdlib Require Import ZArith Lia.
From stdpp Require Import base gmap list strings.
From S2P Require Import Prelude NetAddr.

#[local] Open Scope Z_scope.

Inductive Opcode := BootRequest | BootReply | UnknownOpcode.
#[global] Instance Opcode_eq_dec : EqDecision Opcode.
Proof. solve_decision. Defined.

Inductive MessageType :=
| Discover | Offer | Request | Decline | Ack | Nak | ReleaseMsg | Inform | UnknownType.
#[global] Instance MessageType_eq_dec : EqDecision MessageType.
Proof. solve_decision. Defined.

Inductive DhcpOption :=
| OptSubnetMask (mask : Ipv4Addr)
| OptRouter (routers : list Ipv4Addr)
| OptDomainNameServer (servers : list Ipv4Addr)
| OptHostname (name : str)
| OptRequestedIpAddress (ip : Ipv4Addr)
| OptAddressLeaseTime (secs : Z)
| OptMessageType (t : MessageType)
| OptServerIdentifier (ip : Ipv4Addr)
| OptParameterRequestList (codes : list Z)
| OptRenewal (secs : Z)
| OptRebinding (secs : Z)
| OptOther (code : Z).

(** [OptionCode] *)
Definition SUBNET_MASK : Z := 1.
Definition ROUTER : Z := 3.
Definition DOMAIN_NAME_SERVER : Z := 6.
Definition HOSTNAME : Z := 12.
Definition REQUESTED_IP_ADDRESS : Z := 50.
Definition ADDRESS_LEASE_TIME : Z := 51.
Definition MESSAGE_TYPE : Z := 53.
Definition SERVER_IDENTIFIER : Z := 54.
Definition PARAMETER_REQUEST_LIST : Z := 55.
Definition RENEWAL : Z := 58.
Definition REBINDING : Z := 59.

Definition option_code (o : DhcpOption) : Z :=
  match o with
  | OptSubnetMask _ => SUBNET_MASK
  | OptRouter _ => ROUTER
  | OptDomainNameServer _ => DOMAIN_NAME_SERVER
  | OptHostname _ => HOSTNAME
  | OptRequestedIpAddress _ => REQUESTED_IP_ADDRESS
  | OptAddressLeaseTime _ => ADDRESS_LEASE_TIME
  | OptMessageType _ => MESSAGE_TYPE
  | OptServerIdentifier _ => SERVER_IDENTIFIER
  | OptParameterRequestList _ => PARAMETER_REQUEST_LIST
  | OptRenewal _ => RENEWAL
  | OptRebinding _ => REBINDING
  | OptOther c => c
  end.

Record Message := mkMessage {
  msg_opcode : Opcode;
  msg_xid : Z;
  msg_broadcast : bool;
  msg_ciaddr : Ipv4Addr;
  msg_yiaddr : Ipv4Addr;
  msg_siaddr : Ipv4Addr;
  msg_giaddr : Ipv4Addr;
  msg_hlen : Z;
  msg_chaddr : list Z;
  msg_opts : gmap Z DhcpOption;
}.

(** [opts_mut().insert(o)], one after the other. *)
Definition opts_of (os : list DhcpOption) : gmap Z DhcpOption :=
  foldl (λ m o, <[option_code o := o]> m) ∅ os.

(** The typed readings of options that both sides use. *)
Definition opt_message_type (m : Message) : option MessageType :=
  match msg_opts m !! MESSAGE_TYPE with Some (OptMessageType t) => Some t | _ => None end.
Definition opt_server_identifier (m : Message) : option Ipv4Addr :=
  match msg_opts m !! SERVER_IDENTIFIER with
  | Some (OptServerIdentifier ip) => Some ip
  | _ => None
  end.
