(* ===== verification/DhcpServer.v ===== *)
(** * The DHCP server

    The worker of [src/src/services/dhcp_server/worker.rs], which decides, and
    its parent in [src/src/services/dhcp_server/manager.rs], which owns the
    raw socket and checks what the worker asks it to send.

    Each packet is handled by a task of its own.  A task gives up the
    processor at every call of the lease actor and while it waits for an ARP
    probe, so it is a state machine ([Task]) with one step per actor command,
    and the worker is the interleaving of its tasks, its main loop and the
    actor's clean-up timer ([server_event]). *)

From Stdlib Require Import ZArith Lia.
From stdpp Require Import base gmap list strings.
From S2P Require Import Prelude NetAddr Hostname Packet Config LeaseTable Dhcp.

#[local] Open Scope Z_scope.

Definition LAN_LEASE_SECS : Z := 3600.
Definition DISCARD_PORT : Z := 9.
Definition CONFLICT_HOLD_DURATION : Duration := from_secs 300.

Record ServerConfig (Net : Type) := mkServerConfig {
  sc_server_ip : Ipv4Addr;
  sc_net : Net;
}.
Arguments mkServerConfig {Net} sc_server_ip sc_net.
Arguments sc_server_ip {Net} s.
Arguments sc_net {Net} s.

(** ** Messages between the worker and its parent *)

Inductive DhcpServerParentToWorkerMsg :=
| RawPacket (frame : list Z)
| NeighborAdded (ip_address : Ipv4Addr) (mac_address : MacAddr)
| StaticLeasesSet (leases : list StaticLease).

Inductive DhcpServerWorkerToParentMsg :=
| SendOffer (client_mac : MacAddr) (xid : Z) (offered_ip : Ipv4Addr) (broadcast : bool)
| SendAck (client_mac : MacAddr) (xid : Z) (leased_ip : Ipv4Addr) (broadcast : bool)
| SendNak (client_mac : MacAddr) (xid : Z)
| ProbeArpConflict (target_ip : Ipv4Addr)
| WorkerHeartbeat (leases : list DhcpLeaseInfo)
| RegisterLocalHost (name : str) (ip : Ipv4Addr)
| DeregisterLocalHost (name : str).

(** ** Reading a request *)

Definition extract_client_mac (dhcp : Message) : option MacAddr :=
  if bool_decide (msg_hlen dhcp ≠ 6) then None else
  match take 6 (msg_chaddr dhcp) with
  | [b0; b1; b2; b3; b4; b5] =>
      let mac := mac6 b0 b1 b2 b3 b4 b5 in
      if bool_decide (mac = mac_zero) || bool_decide (mac = mac_broadcast)
      then None else Some mac
  | _ => None
  end.

Definition is_spoofed_l2_packet (eth_src client_mac : MacAddr) (giaddr : Ipv4Addr) : bool :=
  is_unspecified giaddr && bool_decide (eth_src ≠ client_mac).

Definition should_process_request_server_id (dhcp : Message) (server_ip : Ipv4Addr) : bool :=
  match msg_opts dhcp !! SERVER_IDENTIFIER with
  | Some (OptServerIdentifier id) => bool_decide (id = server_ip)
  | _ => true
  end.

Definition extract_sanitized_hostname (dhcp : Message) : option str :=
  match msg_opts dhcp !! HOSTNAME with
  | Some (OptHostname name) => sanitize_hostname name
  | _ => None
  end.

Definition requested_ip_of (dhcp : Message) : option Ipv4Addr :=
  match msg_opts dhcp !! REQUESTED_IP_ADDRESS with
  | Some (OptRequestedIpAddress ip) => Some ip
  | _ => if negb (is_unspecified (msg_ciaddr dhcp)) then Some (msg_ciaddr dhcp) else None
  end.

(** ** The tasks *)

Inductive Task :=
(** [find_or_allocate_discover_ip], before [get_existing_ip] *)
| TDiscover (dhcp : Message) (client_mac : MacAddr)
(** The head of the loop of [probe_and_allocate_ip] *)
| TAllocate (dhcp : Message) (client_mac : MacAddr)
(** In the loop, after the probe of a candidate *)
| TProbed (dhcp : Message) (client_mac : MacAddr) (ip : Ipv4Addr)
(** In the loop, after a conflict was found *)
| TConflict (dhcp : Message) (client_mac : MacAddr) (ip : Ipv4Addr)
(** [handle_dhcp_discover], with the address to offer *)
| TConfirm (dhcp : Message) (client_mac : MacAddr) (ip : Ipv4Addr)
(** [handle_dhcp_request], before [validate_and_confirm_request] *)
| TRequest (dhcp : Message) (client_mac : MacAddr)
(** [verify_arp_conflict], after the probe *)
| TVerify (dhcp : Message) (client_mac : MacAddr) (c : LeaseConfirmation)
(** [verify_arp_conflict], after a conflict was found *)
| TRefuse (dhcp : Message) (client_mac : MacAddr) (ip : Ipv4Addr)
(** A DHCPRELEASE or DHCPDECLINE *)
| TRelease (client_mac : MacAddr)
| TDone.

Section worker.
Context {Net : Type} `{!Ipv4NetOps Net} {HO : HashOrder} {PN : Pnet}.
Context (decode : list Z → option Message).
Abbreviation Actor := (option LeaseTable) (only parsing).
Abbreviation Out := (list DhcpServerWorkerToParentMsg) (only parsing).

(** [process_incoming_packet], up to its first suspension: the task that
    handles the packet, if any. *)
Definition process_incoming_packet (config : ServerConfig Net) (buf : list Z) :
    option Task :=
  dhcp ← parse_dhcp_payload decode buf SERVER_PORT;
  if bool_decide (msg_opcode dhcp ≠ BootRequest) then None else
  client_mac ← extract_client_mac dhcp;
  if bool_decide (blen buf < ETH_HEADER_LEN) then None else
  if is_spoofed_l2_packet (eh_source (eth_header buf)) client_mac (msg_giaddr dhcp)
  then None else
  msg_type ← opt_message_type dhcp;
  match msg_type with
  | Discover => Some (TDiscover dhcp client_mac)
  | Request =>
      if negb (should_process_request_server_id dhcp (sc_server_ip config)) then None
      else Some (TRequest dhcp client_mac)
  | Decline | ReleaseMsg => Some (TRelease client_mac)
  | _ => None
  end.

Definition find_or_allocate_discover_ip (now : Instant) (dhcp : Message)
    (client_mac : MacAddr) (a : Actor) : Task * Actor * Out :=
  let '(existing_ip, a') := LeaseHandle.get_existing_ip (Net := Net) now client_mac a in
  match existing_ip with
  | Some ip => (TConfirm dhcp client_mac ip, a', [])
  | None => (TAllocate dhcp client_mac, a', [])
  end.

(** [probe_and_allocate_ip]: allocation and probe, ... *)
Definition probe_and_allocate_ip (config : ServerConfig Net) (now : Instant)
    (dhcp : Message) (client_mac : MacAddr) (a : Actor) : Task * Actor * Out :=
  let '(candidate, a') :=
    LeaseHandle.allocate_candidate now client_mac (sc_net config) (sc_server_ip config) a in
  match candidate with
  | None => (TDone, a', [])
  | Some ip => (TProbed dhcp client_mac ip, a', [ProbeArpConflict ip])
  end.
(** ... the check once the probe had time to be answered, ... *)
Definition probe_check (now : Instant) (dhcp : Message) (client_mac : MacAddr)
    (ip : Ipv4Addr) (a : Actor) : Task * Actor * Out :=
  let '(is_conflict, a') := LeaseHandle.check_conflict (Net := Net) now ip client_mac a in
  if is_conflict : bool then (TConflict dhcp client_mac ip, a', [])
  else (TConfirm dhcp client_mac ip, a', []).
(** ... and the hold on a candidate that is in use, before the next turn. *)
Definition probe_conflict (now : Instant) (dhcp : Message) (client_mac : MacAddr)
    (ip : Ipv4Addr) (a : Actor) : Task * Actor * Out :=
  (TAllocate dhcp client_mac,
   LeaseHandle.record_conflict (Net := Net) now ip CONFLICT_HOLD_DURATION a, []).

Definition handle_dhcp_discover (now : Instant) (dhcp : Message) (client_mac : MacAddr)
    (leased_ip : Ipv4Addr) (a : Actor) : Task * Actor * Out :=
  let requested_hostname := extract_sanitized_hostname dhcp in
  (TDone,
   LeaseHandle.confirm_lease (Net := Net) now client_mac leased_ip (from_secs LAN_LEASE_SECS)
     requested_hostname a,
   [SendOffer client_mac (msg_xid dhcp) leased_ip (msg_broadcast dhcp)]).

(** [handle_dhcp_request], up to the ARP verification, ... *)
Definition handle_dhcp_request (config : ServerConfig Net) (now : Instant) (dhcp : Message)
    (client_mac : MacAddr) (a : Actor) : Task * Actor * Out :=
  let '(confirmation, a') :=
    LeaseHandle.validate_and_confirm_request now client_mac (requested_ip_of dhcp)
      (sc_server_ip config) (sc_net config) (from_secs LAN_LEASE_SECS)
      (extract_sanitized_hostname dhcp) a in
  match confirmation with
  | None => (TDone, a', [SendNak client_mac (msg_xid dhcp)])
  | Some c => (TVerify dhcp client_mac c, a', [ProbeArpConflict (lc_ip c)])
  end.
(** ... and after it. *)
Definition verify_arp_conflict (now : Instant) (dhcp : Message) (client_mac : MacAddr)
    (c : LeaseConfirmation) (a : Actor) : Task * Actor * Out :=
  let '(is_conflict, a') :=
    LeaseHandle.check_conflict (Net := Net) now (lc_ip c) client_mac a in
  if is_conflict : bool then (TRefuse dhcp client_mac (lc_ip c), a', [])
  else
    (TDone, a',
     [SendAck client_mac (msg_xid dhcp) (lc_ip c) (msg_broadcast dhcp)]
     ++ match lc_old_hostname_to_deregister c with
        | Some old_name => [DeregisterLocalHost old_name]
        | None => []
        end
     ++ match lc_hostname c with
        | Some name => [RegisterLocalHost name (lc_ip c)]
        | None => []
        end).
Definition refuse_request (now : Instant) (dhcp : Message) (client_mac : MacAddr)
    (ip : Ipv4Addr) (a : Actor) : Task * Actor * Out :=
  (TDone, LeaseHandle.record_conflict (Net := Net) now ip CONFLICT_HOLD_DURATION a,
   [SendNak client_mac (msg_xid dhcp)]).

Definition handle_release (now : Instant) (client_mac : MacAddr) (a : Actor) :
    Task * Actor * Out :=
  let '(removed, a') := LeaseHandle.release (Net := Net) now client_mac a in
  (TDone, a', match removed with
              | Some (_, Some name) => [DeregisterLocalHost name]
              | _ => []
              end).

(** A task runs up to its next suspension. *)
Definition task_step (config : ServerConfig Net) (now : Instant) (t : Task) (a : Actor) :
    Task * Actor * Out :=
  match t with
  | TDiscover dhcp mac => find_or_allocate_discover_ip now dhcp mac a
  | TAllocate dhcp mac => probe_and_allocate_ip config now dhcp mac a
  | TProbed dhcp mac ip => probe_check now dhcp mac ip a
  | TConflict dhcp mac ip => probe_conflict now dhcp mac ip a
  | TConfirm dhcp mac ip => handle_dhcp_discover now dhcp mac ip a
  | TRequest dhcp mac => handle_dhcp_request config now dhcp mac a
  | TVerify dhcp mac c => verify_arp_conflict now dhcp mac c a
  | TRefuse dhcp mac ip => refuse_request now dhcp mac ip a
  | TRelease mac => handle_release now mac a
  | TDone => (TDone, a, [])
  end.

(** ** The main loop *)

Record Server := mkServer {
  sv_actor : Actor;
  sv_tasks : list Task;
  (** the heartbeat arm is between its two commands *)
  sv_evict_pending : bool;
  sv_running : bool;
}.

Inductive ServerEvent :=
| HeartbeatTimer
| HeartbeatEvict
| ParentMessage (m : DhcpServerParentToWorkerMsg)
| ParentClosed
| ActorCleanup
| RunTask (i : nat).

(** [sync_initial_static_leases]: the state the loop starts from; [None] when
    the worker gives up. *)
Definition sync_initial_static_leases (now : Instant)
    (first : option DhcpServerParentToWorkerMsg) : option Server :=
  match first with
  | Some (StaticLeasesSet leases) =>
      Some (mkServer (LeaseHandle.set_static_leases (Net := Net) now leases
                        (Some LeaseTable.new)) [] false true)
  | Some _ => Some (mkServer (Some LeaseTable.new) [] false true)
  | None => None
  end.

Definition handle_parent_message (config : ServerConfig Net) (now : Instant)
    (m : DhcpServerParentToWorkerMsg) (s : Server) : Server :=
  match m with
  | RawPacket frame =>
      match process_incoming_packet config frame with
      | Some t => mkServer (sv_actor s) (sv_tasks s ++ [t]) (sv_evict_pending s) (sv_running s)
      | None => s
      end
  | NeighborAdded ip mac =>
      if net_contains (sc_net config) ip && bool_decide (ip ≠ sc_server_ip config)
      then mkServer (LeaseHandle.add_neighbor (Net := Net) now mac ip (sv_actor s))
             (sv_tasks s) (sv_evict_pending s) (sv_running s)
      else s
  | StaticLeasesSet leases =>
      mkServer (LeaseHandle.set_static_leases (Net := Net) now leases (sv_actor s))
        (sv_tasks s) (sv_evict_pending s) (sv_running s)
  end.

Definition run_task (config : ServerConfig Net) (now : Instant) (i : nat) (s : Server) :
    Server * Out :=
  match sv_tasks s !! i with
  | None => (s, [])
  | Some t =>
      let '(t', a', out) := task_step config now t (sv_actor s) in
      (mkServer a' (<[i := t']> (sv_tasks s)) (sv_evict_pending s) (sv_running s), out)
  end.

(** One event of [run_server_loop], of a task or of the actor's timer; the
    messages reach the parent in the order in which they are produced. *)
Definition server_event (config : ServerConfig Net) (now : Instant) (e : ServerEvent)
    (s : Server) : Server * Out :=
  if negb (sv_running s) then (s, []) else
  match e with
  | HeartbeatTimer =>
      if sv_evict_pending s then (s, []) else
      let '(active_leases, a') := LeaseHandle.get_active_leases (Net := Net) now (sv_actor s) in
      (mkServer a' (sv_tasks s) true true, [WorkerHeartbeat active_leases])
  | HeartbeatEvict =>
      if sv_evict_pending s then
        let '(expired, a') := LeaseHandle.evict_expired (Net := Net) now (sv_actor s) in
        (mkServer a' (sv_tasks s) false true, DeregisterLocalHost <$> expired)
      else (s, [])
  | ParentMessage m =>
      if sv_evict_pending s then (s, []) else (handle_parent_message config now m s, [])
  | ParentClosed =>
      if sv_evict_pending s then (s, [])
      else (mkServer (sv_actor s) (sv_tasks s) false false, [])
  | ActorCleanup =>
      (mkServer ((λ t, (LeaseTable.evict_expired now t).2) <$> sv_actor s) (sv_tasks s)
         (sv_evict_pending s) (sv_running s), [])
  | RunTask i => run_task config now i s
  end.

Fixpoint run_server (config : ServerConfig Net) (events : list (Instant * ServerEvent))
    (s : Server) : Server * Out :=
  match events with
  | [] => (s, [])
  | (now, e) :: events' =>
      let '(s1, o1) := server_event config now e s in
      let '(s2, o2) := run_server config events' s1 in
      (s2, o1 ++ o2)
  end.

(** [run_dhcp_server_worker], on the parent's first message and the events of
    the loop. *)
Definition run_dhcp_server_worker (lan_ip : str) (start : Instant)
    (first : option DhcpServerParentToWorkerMsg) (events : list (Instant * ServerEvent)) :
    option (Server * Out) :=
  net ← net_parse (Net := Net) lan_ip;
  s ← sync_initial_static_leases start first;
  Some (run_server (mkServerConfig (net_addr net) net) events s).
End worker.

(** ** The parent *)

Record ServerNetworkConfig (Net : Type) := mkServerNetworkConfig {
  nc_server_mac : MacAddr;
  nc_server_ip : Ipv4Addr;
  nc_subnet_mask : Ipv4Addr;
  nc_lan_net : Net;
}.
Arguments mkServerNetworkConfig {Net}.
Arguments nc_server_mac {Net}.
Arguments nc_server_ip {Net}.
Arguments nc_subnet_mask {Net}.
Arguments nc_lan_net {Net}.

(** Whether the channels to the watchdog and to the DNS forwarder exist. *)
Record DhcpMonitorParams := mkDhcpMonitorParams {
  mp_has_heartbeat : bool;
  mp_has_local_hosts : bool;
  mp_static_leases : list StaticLease;
  mp_lan_ip : str;
}.

Inductive ParentAction :=
| PSendFrame (frame : list Z)
| PHeartbeat
| PPublishLeases (leases : list DhcpLeaseInfo)
| PHostEvent (e : LocalHostEvent)
| PToWorker (m : DhcpServerParentToWorkerMsg)
| PTerminateWorker.

(** What [parse_neighbor_update] reads of a netlink message. *)
Inductive NeighbourAttribute :=
| NDestinationInet (ip : Ipv4Addr)
| NLinkLayerAddress (bytes : list Z)
| NOtherAttribute.
Inductive NeighbourPayload :=
| NewNeighbour (ifindex : Z) (attributes : list NeighbourAttribute)
| NOtherPayload.

(** The loop over the attributes: the last address of each kind wins. *)
Definition neighbour_attribute (acc : option Ipv4Addr * option MacAddr)
    (nla : NeighbourAttribute) : option Ipv4Addr * option MacAddr :=
  match nla with
  | NDestinationInet ip => (Some ip, acc.2)
  | NLinkLayerAddress [b0; b1; b2; b3; b4; b5] => (acc.1, Some (mac6 b0 b1 b2 b3 b4 b5))
  | _ => acc
  end.

Section parent.
Context {Net : Type} `{!Ipv4NetOps Net} {PN : Pnet}.
(** [dhcproto]'s [Message::encode]. *)
Context (encode : Message → option (list Z)).

Definition parse_neighbor_update (payload : NeighbourPayload) (lan_ifindex : option Z)
    (lan_net : option Net) (lan_gateway_ip : option Ipv4Addr) : option (Ipv4Addr * MacAddr) :=
  match payload with
  | NOtherPayload => None
  | NewNeighbour ifindex attributes =>
      if match lan_ifindex with
         | Some target_idx => bool_decide (ifindex ≠ target_idx)
         | None => false
         end then None else
      let '(ip_opt, mac_opt) := foldl neighbour_attribute (None, None) attributes in
      ip ← ip_opt; mac ← mac_opt;
      if match lan_net, lan_gateway_ip with
         | Some net, Some gw => negb (net_contains net ip) || bool_decide (ip = gw)
         | _, _ => false
         end then None else Some (ip, mac)
  end.

(** [build_dhcp_reply_payload]: the message, ... *)
Definition dhcp_reply (msg_type : MessageType) (client_mac : MacAddr) (xid : Z)
    (broadcast : bool) (leased_ip server_ip subnet_mask : Ipv4Addr) : Message :=
  mkMessage BootReply xid broadcast UNSPECIFIED leased_ip server_ip UNSPECIFIED 6
    (mac_octets client_mac)
    (opts_of [OptMessageType msg_type; OptServerIdentifier server_ip;
              OptSubnetMask subnet_mask; OptRouter [server_ip];
              OptDomainNameServer [server_ip]; OptAddressLeaseTime LAN_LEASE_SECS]).
(** ... encoded. *)
Definition build_dhcp_reply_payload (msg_type : MessageType) (client_mac : MacAddr) (xid : Z)
    (broadcast : bool) (leased_ip server_ip subnet_mask : Ipv4Addr) : option (list Z) :=
  encode (dhcp_reply msg_type client_mac xid broadcast leased_ip server_ip subnet_mask).

Definition dhcp_nak (client_mac : MacAddr) (xid : Z) (server_ip : Ipv4Addr) : Message :=
  mkMessage BootReply xid false UNSPECIFIED UNSPECIFIED UNSPECIFIED UNSPECIFIED 6
    (mac_octets client_mac) (opts_of [OptMessageType Nak; OptServerIdentifier server_ip]).
Definition build_dhcp_nak_payload (client_mac : MacAddr) (xid : Z) (server_ip : Ipv4Addr) :
    option (list Z) :=
  encode (dhcp_nak client_mac xid server_ip).

Definition get_dest_mac_ip (broadcast : bool) (client_mac : MacAddr) (target_ip : Ipv4Addr) :
    MacAddr * Ipv4Addr :=
  if broadcast then (mac_broadcast, BROADCAST) else (client_mac, target_ip).

(** [raw_sock.send(&frame)] of a packet, if it could be built. *)
Definition send_packet (r : Result RouterError (list Z)) : list ParentAction :=
  match r with Ok frame => [PSendFrame frame] | Err _ => [] end.

Definition handle_send_offer (config : ServerNetworkConfig Net) (client_mac : MacAddr)
    (xid : Z) (offered_ip : Ipv4Addr) (broadcast : bool) : list ParentAction :=
  if negb (net_contains (nc_lan_net config) offered_ip)
     || bool_decide (offered_ip = nc_server_ip config) then [] else
  match build_dhcp_reply_payload Offer client_mac xid broadcast offered_ip
          (nc_server_ip config) (nc_subnet_mask config) with
  | None => []
  | Some payload =>
      let '(dest_mac, dest_ip) := get_dest_mac_ip broadcast client_mac offered_ip in
      send_packet (build_raw_packet (nc_server_mac config) dest_mac (nc_server_ip config)
                     dest_ip SERVER_PORT CLIENT_PORT payload)
  end.

Definition handle_send_ack (config : ServerNetworkConfig Net) (client_mac : MacAddr)
    (xid : Z) (leased_ip : Ipv4Addr) (broadcast : bool) : list ParentAction :=
  if negb (net_contains (nc_lan_net config) leased_ip)
     || bool_decide (leased_ip = nc_server_ip config) then [] else
  match build_dhcp_reply_payload Ack client_mac xid broadcast leased_ip
          (nc_server_ip config) (nc_subnet_mask config) with
  | None => []
  | Some payload =>
      let '(dest_mac, dest_ip) := get_dest_mac_ip broadcast client_mac leased_ip in
      send_packet (build_raw_packet (nc_server_mac config) dest_mac (nc_server_ip config)
                     dest_ip SERVER_PORT CLIENT_PORT payload)
  end.

Definition handle_send_nak (server_mac : MacAddr) (server_ip : Ipv4Addr)
    (client_mac : MacAddr) (xid : Z) : list ParentAction :=
  match build_dhcp_nak_payload client_mac xid server_ip with
  | None => []
  | Some payload =>
      send_packet (build_raw_packet server_mac mac_broadcast server_ip BROADCAST
                     SERVER_PORT CLIENT_PORT payload)
  end.

Definition handle_probe_arp (server_mac : MacAddr) (server_ip : Ipv4Addr) (lan_net : Net)
    (target_ip : Ipv4Addr) : list ParentAction :=
  if negb (net_contains lan_net target_ip) || bool_decide (target_ip = server_ip) then [] else
  send_packet (build_raw_packet server_mac mac_broadcast server_ip target_ip
                 DISCARD_PORT DISCARD_PORT [0]).

Definition handle_worker_ipc_msg (msg : DhcpServerWorkerToParentMsg)
    (params : DhcpMonitorParams) (server_mac : MacAddr) (lan_net : Net) : list ParentAction :=
  let server_ip := net_addr lan_net in
  let config := mkServerNetworkConfig server_mac server_ip (net_netmask lan_net) lan_net in
  match msg with
  | WorkerHeartbeat leases =>
      (if mp_has_heartbeat params then [PHeartbeat] else []) ++ [PPublishLeases leases]
  | RegisterLocalHost name ip =>
      if mp_has_local_hosts params then [PHostEvent (HostRegister name ip)] else []
  | DeregisterLocalHost name =>
      if mp_has_local_hosts params then [PHostEvent (HostDeregister name)] else []
  | SendOffer client_mac xid offered_ip broadcast =>
      handle_send_offer config client_mac xid offered_ip broadcast
  | SendAck client_mac xid leased_ip broadcast =>
      handle_send_ack config client_mac xid leased_ip broadcast
  | SendNak client_mac xid => handle_send_nak server_mac server_ip client_mac xid
  | ProbeArpConflict target_ip => handle_probe_arp server_mac server_ip lan_net target_ip
  end.

(** ** The parent's loop *)

Inductive ParentEvent :=
| PShutdown
| PFrameReceived (frame : list Z) (ipc_ok : bool)
| PSocketError
| PWorkerMessage (m : DhcpServerWorkerToParentMsg)
| PWorkerClosed
| PNeighbour (p : NeighbourPayload) (ipc_ok : bool).

(** One turn of the loop of [run_parent_dhcp_server_monitor]; [false] leaves
    it. *)
Definition monitor_event (params : DhcpMonitorParams) (server_mac : MacAddr) (lan_net : Net)
    (lan_ifindex : option Z) (e : ParentEvent) : list ParentAction * bool :=
  match e with
  | PShutdown => ([], false)
  | PFrameReceived frame ipc_ok => ([PToWorker (RawPacket frame)], ipc_ok)
  | PSocketError => ([], true)
  | PWorkerMessage m => (handle_worker_ipc_msg m params server_mac lan_net, true)
  | PWorkerClosed => ([], false)
  | PNeighbour p ipc_ok =>
      match parse_neighbor_update p lan_ifindex (Some lan_net) (Some (net_addr lan_net)) with
      | Some (ip, mac) => ([PToWorker (NeighborAdded ip mac)], ipc_ok)
      | None => ([], true)
      end
  end.

Fixpoint monitor_loop (params : DhcpMonitorParams) (server_mac : MacAddr) (lan_net : Net)
    (lan_ifindex : option Z) (events : list ParentEvent) : list ParentAction :=
  match events with
  | [] => []
  | e :: events' =>
      let '(out, continue) := monitor_event params server_mac lan_net lan_ifindex e in
      out ++ if continue : bool then monitor_loop params server_mac lan_net lan_ifindex events'
             else [PTerminateWorker]
  end.

(** [run_parent_dhcp_server_monitor], with the answers of the system: the MAC
    of the interface, whether netlink could be opened, and the interface's
    index. *)
Definition run_parent_dhcp_server_monitor (params : DhcpMonitorParams)
    (interface_mac : option MacAddr) (netlink_ok : bool) (lan_ifindex : option Z)
    (events : list ParentEvent) : list ParentAction :=
  [PToWorker (StaticLeasesSet (mp_static_leases params))] ++
  match net_parse (mp_lan_ip params) with
  | None => [PTerminateWorker]
  | Some lan_net =>
      match interface_mac with
      | None => [PTerminateWorker]
      | Some server_mac =>
          if negb netlink_ok then [PTerminateWorker]
          else monitor_loop params server_mac lan_net lan_ifindex events
      end
  end.
End parent.

(** ** What the worker asks for *)

Section worker_spec.
Context {Net : Type} `{!Ipv4NetOps Net, !Ipv4NetLaws Net} {HO : HashOrder} {PN : Pnet}.
Context (decode : list Z → option Message).
Context (config : ServerConfig Net).
Context (Hprefix : net_prefix_len (sc_net config) < 31).
Implicit Types (t : LeaseTable) (now : Instant) (ip : Ipv4Addr).

(** An address of the LAN other than the server's. *)
Definition in_lan ip : Prop :=
  net_contains (sc_net config) ip = true ∧ ip ≠ sc_server_ip config.
Definition name_ok (o : option str) : Prop :=
  match o with Some h => valid_label h | None => True end.
Definition reservation_ok (s : StaticLease) : Prop :=
  in_lan (sl_ip s) ∧ name_ok (sl_hostname s).

Record table_ok t : Prop := {
  to_leases mac l : by_mac t !! mac = Some l → in_lan (cl_ip l) ∧ name_ok (cl_hostname l);
  to_static mac s : lt_static_leases t !! mac = Some s → reservation_ok s;
}.

Definition confirmation_ok (c : LeaseConfirmation) : Prop :=
  host (sc_net config) (lc_ip c) ∧ lc_ip c ≠ sc_server_ip config ∧
  name_ok (lc_hostname c) ∧ name_ok (lc_old_hostname_to_deregister c).

Definition command_ok (cmd : LeaseCommand Net) : Prop :=
  match cmd with
  | AllocateCandidate _ net server_ip => net = sc_net config ∧ server_ip = sc_server_ip config
  | ConfirmLease _ ip _ name => in_lan ip ∧ name_ok name
  | ValidateAndConfirmRequest _ _ server_ip net _ name =>
      net = sc_net config ∧ server_ip = sc_server_ip config ∧ name_ok name
  | AddNeighbor _ ip => in_lan ip
  | SetStaticLeases ls => Forall reservation_ok ls
  | _ => True
  end.
Definition reply_ok (r : LeaseReply) : Prop :=
  match r with
  | ReplyIp (Some ip) => in_lan ip
  | ReplyConfirmation (Some c) => confirmation_ok c
  | ReplyReleased (Some (_, name)) => name_ok name
  | ReplyNames names => Forall valid_label names
  | ReplyLeases ls => Forall (λ i, in_lan (li_ip i)) ls
  | _ => True
  end.

Lemma host_in_lan ip : host (sc_net config) ip → ip ≠ sc_server_ip config → in_lan ip.
Proof. intros (H & _) Hs. by split. Qed.

Lemma table_ok_insert t mac l :
  table_ok t → in_lan (cl_ip l) → name_ok (cl_hostname l) →
  table_ok (LeaseTable.insert t mac l).
Proof.
  intros [H1 H2] Hip Hn. split; [|done].
  intros m l'. rewrite insert_lookup. case_decide; [intros [= <-]; done | apply H1].
Qed.

Lemma table_ok_shrink t t' :
  table_ok t → by_mac t' ⊆ by_mac t → lt_static_leases t' = lt_static_leases t → table_ok t'.
Proof.
  intros [H1 H2] Hsub Hs. split; [|by rewrite Hs].
  intros m l Hl. eapply H1. by eapply lookup_weaken.
Qed.

Lemma table_ok_evict now t : table_ok t → table_ok (LeaseTable.evict_expired now t).2.
Proof. intros H. eapply table_ok_shrink; [done | apply evict_subseteq | done]. Qed.

Lemma table_ok_set_static t ls :
  table_ok t → Forall reservation_ok ls → table_ok (LeaseTable.set_static_leases t ls).
Proof.
  intros H Hls. unfold LeaseTable.set_static_leases.
  destruct (foldl _ _ ls) as [t' [map reserved]] eqn:E.
  assert (by_mac t' ⊆ by_mac t ∧ ∀ mac s, map !! mac = Some s → reservation_ok s) as [Hs Hm].
  { revert t' map reserved E. induction ls as [|x ls IH] using rev_ind; intros t' map reserved.
    - simpl. intros [= <- <- <-]. split; [done |]. by intros mac s; rewrite lookup_empty.
    - apply Forall_app in Hls as [Hls Hx]. rewrite foldl_snoc.
      destruct (foldl _ _ ls) as [t1 [m1 r1]]. destruct (IH Hls t1 m1 r1 eq_refl) as [I1 I2].
      unfold LeaseTable.set_static_step, LeaseTable.add_reservation. intros [= <- <- <-].
      split.
      + etrans; [|exact I1]. destruct (by_mac t1 !! sl_mac x); [|done].
        case_bool_decide; [apply remove_subseteq | done].
      + intros mac s. simpl. destruct (decide (mac = sl_mac x)) as [-> | Hne].
        * rewrite lookup_insert_eq. intros [= <-]. by inversion Hx.
        * rewrite lookup_insert_ne by done. apply I2. }
  split; simpl; [|exact Hm]. intros mac l Hl. eapply (to_leases t H). by eapply lookup_weaken.
Qed.

Lemma allocate_ok now t mac :
  table_ok t →
  let r := LeaseTable.allocate_candidate now t mac (sc_net config) (sc_server_ip config) in
  table_ok r.2 ∧ ∀ ip, r.1 = Some ip → in_lan ip.
Proof.
  intros H. cbv zeta. unfold LeaseTable.allocate_candidate.
  destruct (lt_static_leases t !! mac) as [s|] eqn:Es.
  - destruct (to_static t H mac s Es) as [Hs Hn].
    destruct (_ && _); simpl; [|done]. split; [by apply table_ok_insert |].
    by intros ip [= <-].
  - unfold LeaseTable.next_available_ip.
    destruct (iter_find _ _) as [ip|] eqn:Ei; simpl; [|split; [by apply table_ok_evict | done]].
    apply find_host_Some in Ei as (Hh & Hp & _); [|done].
    apply andb_true_iff in Hp as [Hp%bool_decide_eq_true _].
    assert (in_lan ip) by (by apply host_in_lan).
    split; [|by intros ? [= <-]]. apply table_ok_insert; [by apply table_ok_evict | done..].
Qed.

Lemma granted_name_ok now t mac name :
  table_ok t → name_ok name → name_ok (granted_name now t mac name).
Proof.
  intros H Hn. unfold granted_name.
  assert (name_ok (match (s ← lt_static_leases t !! mac; sl_hostname s) with
                   | Some h => Some h | None => name end)) as Hm.
  { destruct (lt_static_leases t !! mac) as [s|] eqn:Es; simpl; [|done].
    destruct (to_static t H mac s Es) as [_ Hs]. by destruct (sl_hostname s). }
  destruct (match _ with Some h => Some h | None => name end); simpl in *; [|done].
  by destruct (LeaseTable.is_hostname_taken_by_other _ _ _ _).
Qed.

Lemma dropped_name_ok t mac new : table_ok t → name_ok (dropped_name t mac new).
Proof.
  intros H. unfold dropped_name. destruct (by_mac t !! mac) as [l|] eqn:El; simpl; [|done].
  destruct (to_leases t H mac l El) as [_ Hn]. destruct (cl_hostname l); simpl in *; [|done].
  by case_decide.
Qed.

Lemma validate_ok now t mac req d name :
  table_ok t → name_ok name →
  let r := LeaseTable.validate_and_confirm now t mac req (sc_server_ip config)
             (sc_net config) d name in
  table_ok r.2 ∧ ∀ c, r.1 = Some c → confirmation_ok c.
Proof.
  intros H Hn. cbv zeta.
  destruct (request_target t mac req) as [ip|] eqn:Ht;
    [|by rewrite validate_and_confirm_no by congruence].
  destruct (decide (confirmable now t mac (sc_net config) (sc_server_ip config) ip)) as [Hc | Hc];
    [|by rewrite validate_and_confirm_no by congruence].
  rewrite (validate_and_confirm_yes _ _ _ _ _ _ _ _ ip) by done. cbn [fst snd].
  destruct Hc as (Hh & Hs & _).
  assert (name_ok (granted_name now t mac name)) by (by apply granted_name_ok).
  split; [apply table_ok_insert; [done | by apply host_in_lan | done] |].
  intros c [= <-]. split_and!; [done.. |]. by apply dropped_name_ok.
Qed.

Lemma neighbor_ok now t mac ip :
  table_ok t → in_lan ip → table_ok (LeaseTable.update_from_neighbor now t mac ip).
Proof.
  intros H Hip. unfold LeaseTable.update_from_neighbor. destruct (_ || _); [done |].
  assert (name_ok (s ← lt_static_leases t !! mac; sl_hostname s)) as Hn.
  { destruct (lt_static_leases t !! mac) as [s|] eqn:Es; [|done].
    by destruct (to_static t H mac s Es). }
  destruct (match lt_static_leases t !! mac with Some _ => _ | None => _ end); [done |].
  destruct (match LeaseTable.get t mac with Some _ => _ | None => _ end); [done |].
  by apply table_ok_insert.
Qed.

Lemma evict_names_ok now t :
  table_ok t → Forall valid_label (LeaseTable.evict_expired now t).1.
Proof.
  intros H. apply list.Forall_forall. simpl.
  intros n ([m l] & Hin%elem_of_hash_iter & Hn)%list_elem_of_omap. simpl in Hn.
  case_bool_decide; [done |]. destruct (to_leases t H m l Hin) as [_ Hl]. by rewrite Hn in Hl.
Qed.

Lemma active_leases_ok now t :
  table_ok t → Forall (λ i, in_lan (li_ip i)) (LeaseTable.get_active_leases now t).
Proof.
  intros H. apply list.Forall_forall. unfold LeaseTable.get_active_leases.
  intros i [Hi | Hi]%elem_of_app; apply list_elem_of_omap in Hi
    as ([m l] & Hin%elem_of_hash_iter & Hl).
  - unfold LeaseTable.lease_info in Hl. simpl in Hl. case_bool_decide; [|done].
    injection Hl as <-. by apply (to_leases t H m l).
  - unfold LeaseTable.static_info in Hl. simpl in Hl. case_bool_decide; [done |].
    injection Hl as <-. by apply (to_static t H m l).
Qed.

Lemma lease_command_ok now t cmd :
  table_ok t → command_ok cmd →
  table_ok (handle_lease_command now cmd t).2 ∧ reply_ok (handle_lease_command now cmd t).1.
Proof.
  intros H Hc. destruct cmd; cbn [handle_lease_command].
  - split; [done |]. cbn [fst reply_ok]. unfold LeaseTable.get.
    destruct (lt_static_leases t !! client_mac) as [s|] eqn:Es; [by apply (to_static t H client_mac s) |].
    destruct (by_mac t !! client_mac) as [l|] eqn:El; [|done]. by apply (to_leases t H client_mac l).
  - destruct Hc as [-> ->]. pose proof (allocate_ok now t client_mac H) as [H1 H2].
    destruct (LeaseTable.allocate_candidate _ _ _ _ _) as [[ip|] t']; simpl in *; [|done].
    split; [done | by apply H2].
  - destruct Hc as [Hip Hn]. split; [by apply table_ok_insert | done].
  - destruct Hc as (-> & -> & Hn).
    pose proof (validate_ok now t client_mac requested_ip duration requested_hostname H Hn)
      as [H1 H2].
    destruct (LeaseTable.validate_and_confirm _ _ _ _ _ _ _ _) as [[c|] t']; simpl in *; [|done].
    split; [done | by apply H2].
  - done.
  - split; [|done]. by destruct H; split.
  - unfold LeaseTable.remove. destruct (by_mac t !! client_mac) as [l|] eqn:El; [|done]. simpl.
    split; [|by apply (to_leases t H client_mac l)].
    eapply table_ok_shrink; [exact H | apply delete_subseteq | done].
  - split; [by apply table_ok_evict | by apply evict_names_ok].
  - split; [by apply neighbor_ok | done].
  - split; [by apply table_ok_set_static | done].
  - split; [done | by apply active_leases_ok].
Qed.

Definition actor_ok (a : option LeaseTable) : Prop :=
  match a with Some t => table_ok t | None => True end.

Lemma send_ok now cmd a :
  actor_ok a → command_ok cmd →
  actor_ok (LeaseHandle.send now cmd a).2 ∧
  match (LeaseHandle.send now cmd a).1 with Some r => reply_ok r | None => True end.
Proof.
  intros Ha Hc. destruct a as [t|]; [|done]. simpl.
  pose proof (lease_command_ok now t cmd Ha Hc).
  by destruct (handle_lease_command now cmd t).
Qed.

Definition task_ok (t : Task) : Prop :=
  match t with
  | TProbed _ _ ip | TConflict _ _ ip | TConfirm _ _ ip | TRefuse _ _ ip => in_lan ip
  | TVerify _ _ c => confirmation_ok c
  | _ => True
  end.

(** What a message of the worker may say. *)
Definition msg_ok (m : DhcpServerWorkerToParentMsg) : Prop :=
  match m with
  | SendOffer _ _ ip _ => in_lan ip
  | SendAck _ _ ip _ => host (sc_net config) ip ∧ ip ≠ sc_server_ip config
  | SendNak _ _ => True
  | ProbeArpConflict ip => in_lan ip
  | WorkerHeartbeat ls => Forall (λ i, in_lan (li_ip i)) ls
  | RegisterLocalHost name ip => valid_label name ∧ host (sc_net config) ip
  | DeregisterLocalHost name => valid_label name
  end.

Lemma extract_sanitized_hostname_ok dhcp : name_ok (extract_sanitized_hostname dhcp).
Proof.
  unfold extract_sanitized_hostname. destruct (msg_opts dhcp !! HOSTNAME) as [[]|]; try done.
  destruct (sanitize_hostname name) eqn:E; [|done]. by eapply sanitize_hostname_label.
Qed.

Definition step_ok (r : Task * option LeaseTable * list DhcpServerWorkerToParentMsg) : Prop :=
  task_ok r.1.1 ∧ actor_ok r.1.2 ∧ Forall msg_ok r.2.

Lemma check_conflict_ok now ip mac a :
  actor_ok a → actor_ok (LeaseHandle.check_conflict (Net := Net) now ip mac a).2.
Proof.
  intros Ha. unfold LeaseHandle.check_conflict.
  destruct (send_ok now (CheckConflict ip mac) a Ha I) as [H _].
  by destruct (LeaseHandle.send now _ a).
Qed.

(** Obligations on a list of messages, one by one. *)
Ltac forall_msgs :=
  solve [simpl; repeat first [done | apply Forall_nil_2 | apply Forall_cons_2]].

Lemma task_step_ok now (k : Task) a :
  task_ok k → actor_ok a → step_ok (task_step config now k a).
Proof.
  intros Ht Ha. unfold step_ok. destruct k; cbn [task_step task_ok] in *.
  - unfold find_or_allocate_discover_ip, LeaseHandle.get_existing_ip.
    destruct (send_ok now (GetExistingIp client_mac) a Ha I) as [H1 H2].
    destruct (LeaseHandle.send _ _ a) as [[[]|] a']; simpl in *; try (split_and!; forall_msgs).
    destruct ip; split_and!; forall_msgs.
  - unfold probe_and_allocate_ip, LeaseHandle.allocate_candidate.
    destruct (send_ok now (AllocateCandidate client_mac (sc_net config) (sc_server_ip config)) a
      Ha ltac:(done)) as [H1 H2].
    destruct (LeaseHandle.send _ _ a) as [[[]|] a']; simpl in *; try (split_and!; forall_msgs).
    destruct ip; split_and!; forall_msgs.
  - unfold probe_check. pose proof (check_conflict_ok now ip client_mac a Ha) as H.
    destruct (LeaseHandle.check_conflict _ _ _ a) as [[] a']; simpl in *;
      split_and!; forall_msgs.
  - unfold probe_conflict, LeaseHandle.record_conflict. simpl.
    split_and!; [done | by apply send_ok | constructor].
  - unfold handle_dhcp_discover, LeaseHandle.confirm_lease. simpl.
    split_and!; [done | | forall_msgs]. apply send_ok; [done |].
    split; [done | apply extract_sanitized_hostname_ok].
  - unfold handle_dhcp_request, LeaseHandle.validate_and_confirm_request.
    set (cmd := ValidateAndConfirmRequest _ _ _ _ _ _).
    destruct (send_ok now cmd a Ha) as [H1 H2].
    { split_and!; [done | done | apply extract_sanitized_hostname_ok]. }
    destruct (LeaseHandle.send now cmd a) as [[[]|] a']; simpl in *;
      try (split_and!; forall_msgs).
    destruct c; [|split_and!; forall_msgs].
    destruct H2 as (Hh & Hs & ? & ?). pose proof (host_in_lan _ Hh Hs).
    split_and!; forall_msgs.
  - unfold verify_arp_conflict. pose proof (check_conflict_ok now (lc_ip c) client_mac a Ha) as H.
    destruct Ht as (Hh & Hs & Hn & Ho).
    destruct (LeaseHandle.check_conflict _ _ _ a) as [[] a']; simpl in *.
    { split_and!; [by apply host_in_lan | done | constructor]. }
    split_and!; [done | done |]. constructor; [done |]. apply Forall_app. split.
    + by destruct (lc_old_hostname_to_deregister c); forall_msgs.
    + by destruct (lc_hostname c); forall_msgs.
  - unfold refuse_request, LeaseHandle.record_conflict. simpl.
    split_and!; [done | by apply send_ok | forall_msgs].
  - unfold handle_release, LeaseHandle.release.
    destruct (send_ok now (Release client_mac) a Ha I) as [H1 H2].
    destruct (LeaseHandle.send _ _ a) as [[[]|] a']; simpl in *; try (split_and!; forall_msgs).
    destruct r as [[ip [n|]]|]; split_and!; forall_msgs.
  - split_and!; forall_msgs.
Qed.

Record server_ok (s : Server) : Prop := {
  so_actor : actor_ok (sv_actor s);
  so_tasks : Forall task_ok (sv_tasks s);
}.

(** The parent only sends reservations of the LAN with valid names. *)
Definition event_ok (e : ServerEvent) : Prop :=
  match e with
  | ParentMessage (StaticLeasesSet ls) => Forall reservation_ok ls
  | _ => True
  end.

Lemma process_incoming_packet_ok buf k :
  process_incoming_packet decode config buf = Some k → task_ok k.
Proof.
  unfold process_incoming_packet.
  destruct (parse_dhcp_payload _ _ _) as [dhcp|]; [|done]. simpl. case_bool_decide; [done |].
  destruct (extract_client_mac dhcp); [|done]. simpl. case_bool_decide; [done |].
  destruct (is_spoofed_l2_packet _ _ _); [done |]. destruct (opt_message_type dhcp) as [[]|];
    simpl; try done; try (intros [= <-]; done).
  destruct (should_process_request_server_id _ _); [|done]. by intros [= <-].
Qed.

Lemma handle_parent_message_ok now m s :
  server_ok s → event_ok (ParentMessage m) →
  server_ok (handle_parent_message decode config now m s).
Proof.
  intros [Ha Ht] He. destruct m; cbn [handle_parent_message].
  - destruct (process_incoming_packet _ _ _) as [k|] eqn:Ek; [|done].
    split; simpl; [done |]. apply Forall_app. split; [done |].
    apply Forall_cons_2; [|apply Forall_nil_2]. by eapply process_incoming_packet_ok.
  - destruct (_ && _) eqn:Hc; [|done]. apply andb_true_iff in Hc as [H1 H2%bool_decide_eq_true].
    split; simpl; [|done]. unfold LeaseHandle.add_neighbor. by apply send_ok.
  - split; simpl; [|done]. unfold LeaseHandle.set_static_leases. by apply send_ok.
Qed.

Lemma server_event_ok now e s :
  server_ok s → event_ok e →
  server_ok (server_event decode config now e s).1 ∧
  Forall msg_ok (server_event decode config now e s).2.
Proof.
  intros Hs He. pose proof Hs as [Ha Ht]. unfold server_event.
  destruct (sv_running s); [simpl | split; [done | apply Forall_nil_2]].
  assert (server_ok s ∧ Forall msg_ok ([] : list DhcpServerWorkerToParentMsg)) as Hsame
    by (split; [done | apply Forall_nil_2]).
  destruct e; [destruct (sv_evict_pending s); try exact Hsame.. | |].
  - unfold LeaseHandle.get_active_leases.
    destruct (send_ok now GetActiveLeases (sv_actor s) Ha I) as [H1 H2].
    destruct (LeaseHandle.send _ _ _) as [[[]|] a']; simpl in *; split; try (by split);
      forall_msgs.
  - unfold LeaseHandle.evict_expired.
    destruct (send_ok now EvictExpired (sv_actor s) Ha I) as [H1 H2].
    destruct (LeaseHandle.send _ _ _) as [[[]|] a']; simpl in *; split; try (by split);
      try forall_msgs.
    by apply Forall_fmap.
  - split; [by apply handle_parent_message_ok | apply Forall_nil_2].
  - split; [by split | apply Forall_nil_2].
  - split; [|apply Forall_nil_2]. split; simpl; [|done].
    destruct (sv_actor s); [|done]. by apply table_ok_evict.
  - unfold run_task. destruct (sv_tasks s !! i) as [k|] eqn:Ek;
      [|split; [done | apply Forall_nil_2]].
    destruct (task_step_ok now k (sv_actor s)) as (H1 & H2 & H3);
      [by eapply Forall_lookup_1 | done |].
    destruct (task_step config now k (sv_actor s)) as [[k' a'] out]. simpl in *.
    split; [|done]. split; simpl; [done |]. by apply Forall_insert.
Qed.

Lemma run_server_ok events s :
  server_ok s → Forall (λ e, event_ok e.2) events →
  server_ok (run_server decode config events s).1 ∧
  Forall msg_ok (run_server decode config events s).2.
Proof.
  intros Hs He. revert s Hs. induction He as [|[now e] events He _ IH]; intros s Hs.
  { split; [done | apply Forall_nil_2]. }
  cbn [run_server]. destruct (server_event_ok now e s Hs He) as [H1 H2].
  destruct (server_event decode config now e s) as [s1 o1]. simpl in *.
  destruct (IH s1 H1) as [H3 H4]. destruct (run_server decode config events s1) as [s2 o2].
  simpl in *. split; [done |]. by apply Forall_app.
Qed.
End worker_spec.

(** The table and the messages of the worker, for the reservations of a validated
    configuration. *)
Lemma worker_messages_sound {Net : Type} `{!Ipv4NetOps Net, !Ipv4NetLaws Net}
    {HO : HashOrder} {PN : Pnet} (decode : list Z → option Message)
    (lan backup : Net) (c : RouterConfig) (start : Instant)
    (events : list (Instant * ServerEvent)) s out :
  valid_config lan backup c →
  (∀ now ls, (now, ParentMessage (StaticLeasesSet ls)) ∈ events → ls = static_leases c) →
  run_dhcp_server_worker (Net := Net) decode (lan_ip c) start
    (Some (StaticLeasesSet (static_leases c))) events = Some (s, out) →
  let config := mkServerConfig (net_addr lan) lan in server_ok config s ∧ Forall (msg_ok config) out.
Proof.
  intros Hv Hev. unfold run_dhcp_server_worker. rewrite (vc_lan _ _ _ Hv).
  intros [= Hrun]. set (config := mkServerConfig (net_addr lan) lan) in *.
  assert (net_prefix_len (sc_net config) < 31) as Hp.
  { destruct (vc_prefix _ _ _ Hv) as [_ ?]. simpl. lia. }
  assert (Forall (reservation_ok config) (static_leases c)) as Hres.
  { destruct (vc_leases _ _ _ Hv) as [Hl _]. eapply Forall_impl; [exact Hl |].
    intros l (_ & ((H1 & _ & _ & H2) & _) & H3). split; [done |]. unfold name_ok.
    destruct (sl_hostname l); [by destruct H3 | done]. }
  assert (table_ok config LeaseTable.new) as Hnew
    by (split; intros ?? Hl; simpl in Hl; by rewrite lookup_empty in Hl).
  destruct (run_server_ok decode config Hp events
    (mkServer (LeaseHandle.set_static_leases (Net := Net) start (static_leases c)
       (Some LeaseTable.new)) [] false true)) as [H1 H2].
  - split; simpl; [|apply Forall_nil_2]. by apply table_ok_set_static.
  - apply list.Forall_forall. intros [now e] He. destruct e; try done. destruct m; try done.
    simpl. by rewrite (Hev now leases He).
  - by rewrite Hrun in H1, H2.
Qed.

(** A name is registered only together with the acknowledgement of its address. *)
Definition names_acked (o : list DhcpServerWorkerToParentMsg) : Prop :=
  ∀ name ip, RegisterLocalHost name ip ∈ o →
    ∃ client_mac xid broadcast, SendAck client_mac xid ip broadcast ∈ o.
Definition registers (m : DhcpServerWorkerToParentMsg) : bool :=
  match m with RegisterLocalHost _ _ => true | _ => false end.

Section names_acked.
Context {Net : Type} `{!Ipv4NetOps Net} {HO : HashOrder} {PN : Pnet} (decode : list Z → option Message).

Lemma names_acked_none o : forallb (negb ∘ registers) o = true → names_acked o.
Proof.
  rewrite forallb_forall. intros Ho name ip Hin%list_elem_of_In. by apply Ho in Hin.
Qed.
Lemma names_acked_app o1 o2 : names_acked o1 → names_acked o2 → names_acked (o1 ++ o2).
Proof.
  intros H1 H2 name ip [H|H]%elem_of_app; [destruct (H1 _ _ H) as (m & x & b & Hin)
    | destruct (H2 _ _ H) as (m & x & b & Hin)]; exists m, x, b; apply elem_of_app; auto.
Qed.

Lemma task_step_acked (config : ServerConfig Net) now (k : Task) a :
  names_acked (task_step config now k a).2.
Proof.
  destruct k; cbn [task_step].
  - unfold find_or_allocate_discover_ip. destruct (LeaseHandle.get_existing_ip _ _ _) as [[] ?];
      by apply names_acked_none.
  - unfold probe_and_allocate_ip. destruct (LeaseHandle.allocate_candidate _ _ _ _ _) as [[] ?];
      by apply names_acked_none.
  - unfold probe_check. destruct (LeaseHandle.check_conflict _ _ _ _) as [[] ?]; by apply names_acked_none.
  - by apply names_acked_none.
  - by apply names_acked_none.
  - unfold handle_dhcp_request. destruct (LeaseHandle.validate_and_confirm_request _ _ _ _ _ _ _ _) as [[] ?];
      by apply names_acked_none.
  - unfold verify_arp_conflict. destruct (LeaseHandle.check_conflict _ _ _ _) as [[] ?];
      [by apply names_acked_none |]. simpl. intros name ip Hin.
    assert (ip = lc_ip c) as ->; [|exists client_mac, (msg_xid dhcp), (msg_broadcast dhcp); apply list_elem_of_here].
    destruct (lc_old_hostname_to_deregister c), (lc_hostname c); simpl in Hin; set_solver.
  - by apply names_acked_none.
  - unfold handle_release. destruct (LeaseHandle.release _ _ _) as [[[ip [n|]]|] ?]; by apply names_acked_none.
  - by apply names_acked_none.
Qed.

Lemma server_event_acked (config : ServerConfig Net) now e s :
  names_acked (server_event decode config now e s).2.
Proof.
  unfold server_event. destruct (negb _); [by apply names_acked_none |]. destruct e.
  - destruct (sv_evict_pending s); [by apply names_acked_none |].
    destruct (LeaseHandle.get_active_leases _ _). by apply names_acked_none.
  - destruct (sv_evict_pending s); [|by apply names_acked_none].
    destruct (LeaseHandle.evict_expired _ _) as [expired a']. simpl.
    intros name ip (n & ? & _)%list_elem_of_fmap. done.
  - destruct (sv_evict_pending s); by apply names_acked_none.
  - destruct (sv_evict_pending s); by apply names_acked_none.
  - by apply names_acked_none.
  - unfold run_task. destruct (sv_tasks s !! i) as [t|]; [|by apply names_acked_none].
    pose proof (task_step_acked config now t (sv_actor s)) as H. by destruct (task_step _ _ _ _) as [[] ?].
Qed.

Lemma run_server_acked (config : ServerConfig Net) events s :
  names_acked (run_server decode config events s).2.
Proof.
  revert s. induction events as [|[now e] events IH]; intros s; [by apply names_acked_none |].
  cbn [run_server]. pose proof (server_event_acked config now e s) as H.
  destruct (server_event decode config now e s) as [s1 o1]. specialize (IH s1).
  destruct (run_server decode config events s1) as [s2 o2]. by apply names_acked_app.
Qed.
Lemma worker_names_acked lan_ip start first events s out :
  run_dhcp_server_worker (Net := Net) decode lan_ip start first events = Some (s, out) →
  names_acked out.
Proof.
  unfold run_dhcp_server_worker. intros (net & _ & H)%bind_Some.
  apply bind_Some in H as (s0 & _ & [= H]). pose proof (run_server_acked (mkServerConfig (net_addr net) net) events s0) as Ha.
  by rewrite H in Ha.
Qed.
End names_acked.

(** C26: the DHCP worker, for every interleaving of its tasks, its heartbeat,
    the lease actor's clean-up, neighbour events and any packets at all, only
    asks its parent for sensible things: every address it acknowledges is a
    client host of the LAN and not the server's; every address it offers or
    probes is an address of the LAN and not the server's; every name it
    registers or deregisters is a valid lower-case DNS label, registered for a
    client host.  The reservations are those of a validated configuration,
    for its primary network. *)
Theorem worker_messages_ok {Net : Type} `{!Ipv4NetOps Net, !Ipv4NetLaws Net}
    {HO : HashOrder} {PN : Pnet} (decode : list Z → option Message)
    (lan backup : Net) (c : RouterConfig) (start : Instant)
    (events : list (Instant * ServerEvent)) s out :
  valid_config lan backup c →
  (∀ now ls, (now, ParentMessage (StaticLeasesSet ls)) ∈ events → ls = static_leases c) →
  run_dhcp_server_worker (Net := Net) decode (lan_ip c) start
    (Some (StaticLeasesSet (static_leases c))) events = Some (s, out) →
  Forall (msg_ok (mkServerConfig (net_addr lan) lan)) out.
Proof.
  intros Hv Hev Hrun. by destruct (worker_messages_sound decode lan backup c start events s out Hv Hev Hrun).
Qed.

(** ** What the parent sends *)

Section parent_spec.
Context {Net : Type} `{!Ipv4NetOps Net, !Ipv4NetLaws Net} {PN : Pnet} `{!PnetLaws}.
Context (encode : Message → option (list Z)).
Implicit Types (lan : Net).

(** The DHCP replies the parent lets through: from the router, and giving
    out an address of the LAN, the router as gateway and resolver, and the
    LAN's mask, or refusing. *)
Definition reply_allowed lan (msg : Message) : Prop :=
  msg_opcode msg = BootReply ∧ opt_server_identifier msg = Some (net_addr lan) ∧
  (opt_message_type msg = Some Nak ∨
   (opt_message_type msg = Some Offer ∨ opt_message_type msg = Some Ack) ∧
   net_contains lan (msg_yiaddr msg) = true ∧ msg_yiaddr msg ≠ net_addr lan ∧
   msg_opts msg !! SUBNET_MASK = Some (OptSubnetMask (net_netmask lan)) ∧
   msg_opts msg !! ROUTER = Some (OptRouter [net_addr lan]) ∧
   msg_opts msg !! DOMAIN_NAME_SERVER = Some (OptDomainNameServer [net_addr lan])).

(** The values of a message are of their Rust types. *)
Definition worker_msg_wf (m : DhcpServerWorkerToParentMsg) : Prop :=
  match m with
  | SendOffer mac _ _ _ | SendAck mac _ _ _ | SendNak mac _ => mac_wf mac
  | _ => True
  end.

(** A frame on the wire: its endpoints, and a DHCP reply or an ARP probe. *)
Definition frame_allowed lan (server_mac : MacAddr) (frame : list Z) : Prop :=
  ∃ ep payload, frame_of ep payload frame ∧ src_mac ep = server_mac ∧
    src_ip ep = net_addr lan ∧
    ((src_port ep = SERVER_PORT ∧ dest_port ep = CLIENT_PORT ∧
      ∃ msg, encode msg = Some payload ∧ reply_allowed lan msg) ∨
     (src_port ep = DISCARD_PORT ∧ dest_port ep = DISCARD_PORT ∧ payload = [0] ∧
      net_contains lan (dest_ip ep) = true ∧ dest_ip ep ≠ net_addr lan)).

Lemma send_packet_frame sm dm si di sp dp payload frame :
  endpoints_wf (mkRawPacketEndpoints sm dm si di sp dp) →
  PSendFrame frame ∈ send_packet (build_raw_packet sm dm si di sp dp payload) →
  frame_of (mkRawPacketEndpoints sm dm si di sp dp) payload frame.
Proof.
  intros Hep Hin.
  destruct (decide (blen payload ≤ MAX_RAW_PACKET_PAYLOAD)) as [Hle | Hgt].
  - destruct (build_raw_packet_frame _ payload Hep Hle) as (f & E & Hf).
    cbn [src_mac dest_mac src_ip dest_ip src_port dest_port] in E. rewrite E in Hin.
    apply list_elem_of_singleton in Hin. by injection Hin as ->.
  - unfold build_raw_packet in Hin. rewrite bool_decide_true in Hin by lia.
    by apply not_elem_of_nil in Hin.
Qed.

Lemma net_addr_is_u32 lan : is_u32 (net_addr lan).
Proof. apply net_addr_u32. Qed.

Lemma mac_broadcast_wf : mac_wf mac_broadcast.
Proof. unfold mac_wf, mac_octets, mac_broadcast, is_u. simpl. repeat constructor; lia. Qed.

Lemma ports_u16 : is_u16 SERVER_PORT ∧ is_u16 CLIENT_PORT ∧ is_u16 DISCARD_PORT.
Proof. unfold is_u, SERVER_PORT, CLIENT_PORT, DISCARD_PORT. lia. Qed.

(** The destination of a reply. *)
Lemma get_dest_wf b mac ip lan :
  mac_wf mac → net_contains lan ip = true →
  mac_wf (get_dest_mac_ip b mac ip).1 ∧ is_u32 (get_dest_mac_ip b mac ip).2.
Proof.
  intros Hm Hip. destruct b; simpl.
  - split; [apply mac_broadcast_wf |]. unfold is_u, BROADCAST, u32_max. lia.
  - split; [done | by eapply net_contains_u32].
Qed.

Lemma reply_frame_allowed lan server_mac t mac xid b ip payload frame :
  mac_wf server_mac → mac_wf mac → t = Offer ∨ t = Ack →
  net_contains lan ip = true → ip ≠ net_addr lan →
  build_dhcp_reply_payload encode t mac xid b ip (net_addr lan) (net_netmask lan)
    = Some payload →
  PSendFrame frame ∈ (let '(dm, di) := get_dest_mac_ip b mac ip in
    send_packet (build_raw_packet server_mac dm (net_addr lan) di SERVER_PORT CLIENT_PORT
                   payload)) →
  frame_allowed lan server_mac frame.
Proof.
  intros Hsm Hm Ht Hin Hne Henc. destruct (get_dest_wf b mac ip lan Hm Hin) as [Hd1 Hd2].
  destruct (get_dest_mac_ip b mac ip) as [dm di]. simpl in Hd1, Hd2. intros Hf.
  apply send_packet_frame in Hf.
  2: { pose proof ports_u16 as (? & ? & ?). split_and!; simpl; try done. apply net_addr_is_u32. }
  eexists _, payload. split_and!; [exact Hf | done | done |]. left.
  split_and!; [done | done |]. eexists. split; [exact Henc |].
  split_and!; [done | reflexivity |]. right.
  split_and!; [destruct Ht as [-> | ->]; [left | right]; reflexivity | done | done | reflexivity..].
Qed.

(** C27: the parent process confines the worker: whatever message the worker
    sends, even a compromised one, every frame that goes out on the raw socket
    comes from the router's own MAC and address and is either an ARP probe of
    another address of the LAN or a well-formed DHCP reply that names the
    router as server, gateway and resolver and gives out an address of the LAN
    that is not the router's. *)
Theorem parent_confines_worker lan server_mac params m frame :
  mac_wf server_mac → worker_msg_wf m →
  PSendFrame frame ∈ handle_worker_ipc_msg encode m params server_mac lan →
  frame_allowed lan server_mac frame.
Proof.
  intros Hsm Hm Hin. destruct m; cbn in Hin, Hm.
  - unfold handle_send_offer in Hin. cbn in Hin.
    destruct (_ || _) eqn:Hc in Hin; [by apply not_elem_of_nil in Hin |].
    apply orb_false_iff in Hc as [H1%negb_false_iff H2%bool_decide_eq_false].
    destruct (build_dhcp_reply_payload _ _ _ _ _ _ _) as [p|] eqn:Hp;
      [|by apply not_elem_of_nil in Hin].
    eapply (reply_frame_allowed lan server_mac Offer); eauto.
  - unfold handle_send_ack in Hin. cbn in Hin.
    destruct (_ || _) eqn:Hc in Hin; [by apply not_elem_of_nil in Hin |].
    apply orb_false_iff in Hc as [H1%negb_false_iff H2%bool_decide_eq_false].
    destruct (build_dhcp_reply_payload _ _ _ _ _ _ _) as [p|] eqn:Hp;
      [|by apply not_elem_of_nil in Hin].
    eapply (reply_frame_allowed lan server_mac Ack); eauto.
  - unfold handle_send_nak in Hin.
    destruct (build_dhcp_nak_payload _ _ _) as [p|] eqn:Hp; [|by apply not_elem_of_nil in Hin].
    apply send_packet_frame in Hin.
    2: { pose proof ports_u16 as (? & ? & ?). pose proof mac_broadcast_wf.
         split_and!; simpl; first [done | apply net_addr_is_u32 |
           unfold is_u, BROADCAST, u32_max; lia]. }
    eexists _, p. split_and!; [exact Hin | done | done |]. left. split_and!; [done | done |].
    eexists. split; [exact Hp |]. split_and!; [done | reflexivity | left; reflexivity].
  - unfold handle_probe_arp in Hin.
    destruct (_ || _) eqn:Hc in Hin; [by apply not_elem_of_nil in Hin |].
    apply orb_false_iff in Hc as [H1%negb_false_iff H2%bool_decide_eq_false].
    apply send_packet_frame in Hin.
    2: { pose proof ports_u16 as (? & ? & ?). pose proof mac_broadcast_wf.
         split_and!; simpl; first [done | apply net_addr_is_u32 | by eapply net_contains_u32]. }
    eexists _, [0]. split_and!; [exact Hin | done | done |]. right. by split_and!.
  - destruct (mp_has_heartbeat params); cbn in Hin; set_solver.
  - destruct (mp_has_local_hosts params); cbn in Hin; set_solver.
  - destruct (mp_has_local_hosts params); cbn in Hin; set_solver.
Qed.
End parent_spec.

(** ** Termination of the tasks

    The loop of [probe_and_allocate_ip] ends because a candidate in conflict
    is put on hold for [CONFLICT_HOLD_DURATION] and is not proposed again
    before the hold ends.  Within a window of that length the number of hosts
    that can still be proposed decreases with every turn, whatever the other
    tasks do. *)

Section termination.
Context {Net : Type} `{!Ipv4NetOps Net, !Ipv4NetLaws Net} {HO : HashOrder} {PN : Pnet}.
Context (decode : list Z → option Message) (config : ServerConfig Net).
(** The window: it ends at [W], at most a hold duration after its start. *)
Context (start W : Instant) (HW : W ≤ start + CONFLICT_HOLD_DURATION).
Implicit Types (a : option LeaseTable) (now : Instant) (ip : Ipv4Addr) (k : Task).

Definition on_hold a ip : bool :=
  match a with
  | Some t => match conflicts t !! ip with Some e => bool_decide (W ≤ e) | None => false end
  | None => false
  end.
Definition reservations_of a : gmap MacAddr StaticLease :=
  match a with Some t => lt_static_leases t | None => ∅ end.

(** Hosts that can still be proposed, with or without a given candidate. *)
Definition proposable a : nat :=
  match a with
  | Some _ => length (filter (λ ip, on_hold a ip = false) (net_hosts (sc_net config)))
  | None => 0
  end.
Definition proposable_but a ip : nat :=
  match a with
  | Some _ =>
      length (filter (λ ip', on_hold a ip' = false ∧ ip' ≠ ip) (net_hosts (sc_net config)))
  | None => 0
  end.

Definition rank a k : nat :=
  match k with
  | TDiscover _ _ => 3 * proposable a + 3
  | TAllocate _ _ => 3 * proposable a + 2
  | TProbed _ _ ip => 3 * proposable_but a ip + 4
  | TConflict _ _ ip => 3 * proposable_but a ip + 3
  | TRequest _ _ => 3
  | TVerify _ _ _ => 2
  | TConfirm _ _ _ | TRefuse _ _ _ | TRelease _ => 1
  | TDone => 0
  end%nat.

(** A client in the allocation loop has no reservation. *)
Definition unreserved a k : Prop :=
  match k with
  | TAllocate _ mac | TProbed _ mac _ | TConflict _ mac _ => reservations_of a !! mac = None
  | _ => True
  end.

(** What an event leaves in place. *)
Definition keeps a a' : Prop :=
  (∀ ip, on_hold a ip = true → on_hold a' ip = true) ∧
  reservations_of a' = reservations_of a ∧ (a = None → a' = None).

Lemma keeps_refl a : keeps a a.
Proof. by split. Qed.

Lemma filter_length_le {A} (P Q : A → Prop) `{∀ x, Decision (P x), ∀ x, Decision (Q x)} l :
  (∀ x, P x → Q x) → (length (filter P l) ≤ length (filter Q l))%nat.
Proof.
  intros HPQ. induction l as [|x l IH]; [done |]. rewrite !filter_cons.
  repeat case_decide; simpl; try lia. naive_solver.
Qed.

Lemma filter_length_lt {A} (P Q : A → Prop) `{∀ x, Decision (P x), ∀ x, Decision (Q x)} l x :
  (∀ y, P y → Q y) → Q x → ¬ P x → x ∈ l → (length (filter P l) < length (filter Q l))%nat.
Proof.
  intros HPQ Hq Hp. induction l as [|y l IH]; [by intros ?%not_elem_of_nil |].
  rewrite !filter_cons. intros [-> | Hin]%elem_of_cons.
  - rewrite decide_False, decide_True by done. simpl.
    pose proof (filter_length_le P Q l HPQ). lia.
  - specialize (IH Hin). destruct (decide (P y)), (decide (Q y)); simpl; try lia. naive_solver.
Qed.

Lemma keeps_off a a' ip : keeps a a' → on_hold a' ip = false → on_hold a ip = false.
Proof. intros [H _] Ho. destruct (on_hold a ip) eqn:E; [|done]. by rewrite H in Ho. Qed.

Lemma rank_keeps a a' k : keeps a a' → (rank a' k ≤ rank a k)%nat.
Proof.
  intros Hk. assert (a = None ∧ a' = None ∨ is_Some a) as [[-> ->] | [t ->]];
    [destruct a; [by right | left; split; [done | by apply Hk]] | done |].
  destruct a' as [t'|]; [|destruct k; simpl; lia].
  assert (proposable (Some t') ≤ proposable (Some t))%nat.
  { apply filter_length_le. eauto using keeps_off. }
  assert (∀ ip, proposable_but (Some t') ip ≤ proposable_but (Some t) ip)%nat as Hb.
  { intros ip. apply filter_length_le. intros x [? ?]. eauto using keeps_off. }
  destruct k; cbn [rank]; try lia; specialize (Hb ip); lia.
Qed.

Lemma unreserved_keeps a a' k : keeps a a' → unreserved a k → unreserved a' k.
Proof. intros (_ & H & _). destruct k; simpl; try done; by rewrite H. Qed.

(** ** One step of a task *)

Definition in_window now : Prop := start ≤ now < W.

Definition command_keeps (cmd : LeaseCommand Net) : Prop :=
  match cmd with
  | SetStaticLeases _ => False
  | RecordConflict _ d => d = CONFLICT_HOLD_DURATION
  | _ => True
  end.

Lemma evict_on_hold now t ip :
  in_window now → on_hold (Some t) ip = true →
  on_hold (Some (LeaseTable.evict_expired now t).2) ip = true.
Proof.
  intros [_ Hw] H. simpl in *. destruct (conflicts t !! ip) as [e|] eqn:E; [|done].
  apply bool_decide_eq_true in H.
  assert (retain (λ _ e', bool_decide (now < e')) (conflicts t) !! ip = Some e) as ->.
  { apply retain_lookup. split; [done |]. apply bool_decide_eq_true. lia. }
  by apply bool_decide_eq_true.
Qed.

Lemma evict_keeps now t :
  in_window now → keeps (Some t) (Some (LeaseTable.evict_expired now t).2).
Proof. intros Hw. split; [|done]. intros ip. by apply evict_on_hold. Qed.

Lemma insert_keeps t mac l : keeps (Some t) (Some (LeaseTable.insert t mac l)).
Proof. by split. Qed.

Lemma keeps_trans a1 a2 a3 : keeps a1 a2 → keeps a2 a3 → keeps a1 a3.
Proof. intros (H1 & E1 & N1) (H2 & E2 & N2). split_and!; [eauto | congruence | eauto]. Qed.

Lemma command_keeps_ok now cmd t :
  in_window now → command_keeps cmd →
  keeps (Some t) (Some (handle_lease_command now cmd t).2).
Proof.
  intros Hw Hc. destruct cmd; cbn [handle_lease_command]; try apply keeps_refl.
  - unfold LeaseTable.allocate_candidate.
    destruct (lt_static_leases t !! client_mac); [by destruct (_ && _) |].
    unfold LeaseTable.next_available_ip. destruct (iter_find _ _); cbn [snd];
      [eapply keeps_trans; [by apply evict_keeps | apply insert_keeps] | by apply evict_keeps].
  - apply insert_keeps.
  - destruct (request_target t client_mac requested_ip) as [ip|] eqn:Ht;
      [|rewrite validate_and_confirm_no by congruence; apply keeps_refl].
    destruct (decide (confirmable now t client_mac net server_ip ip)) as [Hcf | Hcf];
      [|rewrite validate_and_confirm_no by congruence; apply keeps_refl].
    rewrite (validate_and_confirm_yes _ _ _ _ _ _ _ _ ip) by done. apply insert_keeps.
  - cbn in Hc. subst duration. split; [|done]. intros ip' H. simpl in *.
    destruct (decide (ip' = ip)) as [-> | Hne].
    + rewrite lookup_insert_eq. apply bool_decide_eq_true. destruct Hw. lia.
    + by rewrite lookup_insert_ne.
  - unfold LeaseTable.remove. by destruct (by_mac t !! client_mac).
  - by apply evict_keeps.
  - unfold LeaseTable.update_from_neighbor.
    destruct (_ || _); [apply keeps_refl |].
    destruct (match lt_static_leases t !! mac with Some _ => _ | None => _ end);
      [apply keeps_refl |].
    destruct (match LeaseTable.get t mac with Some _ => _ | None => _ end);
      [apply keeps_refl |]. apply insert_keeps.
  - done.
Qed.

Lemma send_keeps now cmd a :
  in_window now → command_keeps cmd → keeps a (LeaseHandle.send now cmd a).2.
Proof.
  intros Hw Hc. destruct a as [t|]; [|apply keeps_refl]. simpl.
  pose proof (command_keeps_ok now cmd t Hw Hc) as H.
  by destruct (handle_lease_command now cmd t).
Qed.

Lemma rank_bound a k : (rank a k ≤ 3 * length (net_hosts (sc_net config)) + 4)%nat.
Proof.
  set (l := net_hosts (sc_net config)).
  assert (proposable a ≤ length l)%nat as H1.
  { destruct a; simpl; [apply length_filter | lia]. }
  assert (∀ ip, proposable_but a ip ≤ length l)%nat as H2.
  { intros ip. destruct a; simpl; [apply length_filter | lia]. }
  destruct k; cbn [rank]; try lia; specialize (H2 ip); lia.
Qed.

(** The decrease at the two steps that touch the holds. *)
Lemma allocate_decreases now dhcp mac a :
  in_window now → reservations_of a !! mac = None →
  net_prefix_len (sc_net config) < 31 →
  let r := probe_and_allocate_ip config now dhcp mac a in
  (rank r.1.2 r.1.1 < 3 * proposable a + 2)%nat ∧ unreserved r.1.2 r.1.1.
Proof.
  intros Hw Hres Hp. cbv zeta. unfold probe_and_allocate_ip, LeaseHandle.allocate_candidate.
  destruct a as [t|]; [|simpl; split; [lia | done]]. simpl in Hres.
  cbn [LeaseHandle.send handle_lease_command].
  unfold LeaseTable.allocate_candidate. rewrite Hres. unfold LeaseTable.next_available_ip.
  destruct (iter_find _ _) as [ip|] eqn:Ei; cbv beta iota zeta; cbn [fst snd rank unreserved];
    [|split; [lia | done]].
  split; [|done]. set (a' := Some (LeaseTable.insert _ _ _)).
  assert (keeps (Some t) a') as Hk
    by (eapply keeps_trans; [by apply evict_keeps | apply insert_keeps]).
  apply find_host_Some in Ei as (Hh & Hfree & _); [|done].
  apply andb_true_iff in Hfree as [_ Hfree]. apply available_after_evict in Hfree as (_ & Hc & _).
  assert (on_hold (Some t) ip = false) as Hoff.
  { unfold LeaseTable.is_conflict_active in Hc. simpl.
    destruct (conflicts t !! ip) as [e|]; [|done].
    apply bool_decide_eq_false in Hc. apply bool_decide_eq_false. destruct Hw. lia. }
  assert (proposable_but a' ip < proposable (Some t))%nat; [|lia].
  apply Nat.le_lt_trans with (proposable_but (Some t) ip).
  - apply filter_length_le. intros x [? ?]. eauto using keeps_off.
  - unfold proposable_but, proposable. apply filter_length_lt with ip; [|done | naive_solver |].
    + naive_solver.
    + by apply elem_of_net_hosts.
Qed.

Lemma conflict_decreases now dhcp mac ip a :
  in_window now → reservations_of a !! mac = None →
  let r := probe_conflict (Net := Net) now dhcp mac ip a in
  (rank r.1.2 r.1.1 < 3 * proposable_but a ip + 3)%nat ∧ unreserved r.1.2 r.1.1.
Proof.
  intros Hw Hres. cbv zeta. unfold probe_conflict, LeaseHandle.record_conflict.
  cbn [fst snd rank unreserved]. set (cmd := RecordConflict ip CONFLICT_HOLD_DURATION).
  pose proof (send_keeps now cmd a Hw eq_refl) as Hk.
  split; [|by destruct Hk as (_ & -> & _)].
  assert (proposable (LeaseHandle.send now cmd a).2 ≤ proposable_but a ip)%nat; [|lia].
  destruct a as [t|].
  - apply filter_length_le. intros x Hx. split; [by eapply keeps_off |].
    intros ->. simpl in Hx. rewrite lookup_insert_eq in Hx.
    apply bool_decide_eq_false in Hx. destruct Hw. lia.
  - done.
Qed.

Lemma task_step_keeps now k a :
  in_window now → keeps a (task_step config now k a).1.2.
Proof.
  intros Hw.
  assert (∀ cmd, command_keeps cmd → keeps a (LeaseHandle.send now cmd a).2) as Hs
    by (intros; by apply send_keeps).
  destruct k; cbn [task_step];
    unfold find_or_allocate_discover_ip, probe_and_allocate_ip, probe_check, handle_dhcp_request,
      verify_arp_conflict, handle_release, LeaseHandle.get_existing_ip,
      LeaseHandle.allocate_candidate, LeaseHandle.check_conflict,
      LeaseHandle.validate_and_confirm_request, LeaseHandle.release;
    try (by apply Hs); try apply keeps_refl;
    match goal with |- context [LeaseHandle.send now ?cmd a] =>
      specialize (Hs cmd I); destruct (LeaseHandle.send now cmd a) as [[[]|] a'] end;
    simpl in *; try done; by repeat case_match.
Qed.

Lemma task_step_decreases now k a :
  in_window now → net_prefix_len (sc_net config) < 31 → unreserved a k →
  let r := task_step config now k a in
  keeps a r.1.2 ∧ unreserved r.1.2 r.1.1 ∧
  (rank r.1.2 r.1.1 ≤ pred (rank a k))%nat.
Proof.
  intros Hw Hp Hu. cbv zeta. destruct k; cbn [task_step unreserved] in *.
  - unfold find_or_allocate_discover_ip, LeaseHandle.get_existing_ip.
    destruct a as [t|]; [|simpl; split_and!; [apply keeps_refl | done | lia]].
    cbn [LeaseHandle.send handle_lease_command].
    destruct (lt_static_leases t !! client_mac) as [s|] eqn:Es;
      [simpl; split_and!; [apply keeps_refl | done | lia] |].
    destruct (cl_ip <$> LeaseTable.get t client_mac); simpl;
      (split_and!; [apply keeps_refl | done | lia]).
  - destruct (allocate_decreases now dhcp client_mac a Hw Hu Hp) as [H1 H2].
    split_and!; [|done | simpl; lia].
    unfold probe_and_allocate_ip, LeaseHandle.allocate_candidate.
    set (cmd := AllocateCandidate _ _ _). pose proof (send_keeps now cmd a Hw I) as Hk.
    destruct (LeaseHandle.send now cmd a) as [[[]|] a']; simpl in *; try done. by destruct ip.
  - unfold probe_check, LeaseHandle.check_conflict.
    set (cmd := CheckConflict ip client_mac). destruct a as [t|]; simpl.
    + destruct (match LeaseTable.get_mac_by_ip _ _ _ with Some _ => _ | None => _ end); simpl;
        (split_and!; [apply keeps_refl | done | lia]).
    + split_and!; [apply keeps_refl | done | lia].
  - destruct (conflict_decreases now dhcp client_mac ip a Hw Hu) as [H1 H2].
    split_and!; [by apply send_keeps | done | simpl in *; lia].
  - split_and!; [by apply send_keeps | done | simpl; lia].
  - unfold handle_dhcp_request, LeaseHandle.validate_and_confirm_request.
    set (cmd := ValidateAndConfirmRequest _ _ _ _ _ _).
    pose proof (send_keeps now cmd a Hw I) as Hk.
    destruct (LeaseHandle.send now cmd a) as [[[]|] a']; simpl in *;
      try (split_and!; [done | done | lia]).
    destruct c; simpl; split_and!; done || lia.
  - unfold verify_arp_conflict, LeaseHandle.check_conflict.
    set (cmd := CheckConflict _ _). pose proof (send_keeps now cmd a Hw I) as Hk.
    destruct (LeaseHandle.send now cmd a) as [[[]|] a']; simpl in *;
      try (split_and!; [done | done | lia]).
    destruct b; simpl; split_and!; done || lia.
  - split_and!; [by apply send_keeps | done | simpl; lia].
  - unfold handle_release, LeaseHandle.release.
    set (cmd := Release _). pose proof (send_keeps now cmd a Hw I) as Hk.
    destruct (LeaseHandle.send now cmd a) as [[[]|] a']; simpl in *; split_and!; done || lia.
  - split_and!; [apply keeps_refl | done | simpl; lia].
Qed.

Definition runs (i : nat) (e : Instant * ServerEvent) : bool :=
  match e.2 with RunTask j => Nat.eqb i j | _ => false end.

(** An event of the window: no change of the reservations, no shutdown. *)
Definition window_event (e : Instant * ServerEvent) : Prop :=
  in_window e.1 ∧
  match e.2 with
  | ParentMessage (StaticLeasesSet _) | ParentClosed => False
  | _ => True
  end.

Lemma server_event_keeps now e s i k :
  window_event (now, e) → net_prefix_len (sc_net config) < 31 → sv_running s = true →
  sv_tasks s !! i = Some k → unreserved (sv_actor s) k →
  let s' := (server_event decode config now e s).1 in
  sv_running s' = true ∧ ∃ k', sv_tasks s' !! i = Some k' ∧ unreserved (sv_actor s') k' ∧
  (rank (sv_actor s') k' ≤
   (if runs i (now, e) then pred (rank (sv_actor s) k) else rank (sv_actor s) k))%nat.
Proof.
  intros [Hw He] Hp Hrun Hi Hu. cbv zeta. unfold server_event. rewrite Hrun. cbn [negb].
  (* every event but a run of the task itself keeps the task *)
  assert (∀ s', keeps (sv_actor s) (sv_actor s') → sv_tasks s' !! i = Some k →
    sv_running s' = true → sv_running s' = true ∧ ∃ k', sv_tasks s' !! i = Some k' ∧
      unreserved (sv_actor s') k' ∧ (rank (sv_actor s') k' ≤ rank (sv_actor s) k)%nat) as Hother.
  { intros s' Hk Ht Hr. split; [done |]. exists k.
    split_and!; eauto using unreserved_keeps, rank_keeps. }
  pose proof (keeps_refl (sv_actor s)) as Hrefl.
  destruct e as [| |m| | |j]; cbn [runs snd].
  - destruct (sv_evict_pending s); [by apply Hother |].
    unfold LeaseHandle.get_active_leases. pose proof (send_keeps now GetActiveLeases (sv_actor s)
      Hw I). destruct (LeaseHandle.send _ _ _). by apply Hother.
  - destruct (sv_evict_pending s); [|by apply Hother].
    unfold LeaseHandle.evict_expired. pose proof (send_keeps now EvictExpired (sv_actor s) Hw I).
    destruct (LeaseHandle.send _ _ _). by apply Hother.
  - destruct (sv_evict_pending s); [by apply Hother |]. destruct m; cbn [handle_parent_message fst].
    + destruct (process_incoming_packet _ _ _); apply Hother; try done. simpl.
      by apply lookup_app_l_Some.
    + destruct (_ && _); apply Hother; try done. by apply send_keeps.
    + done.
  - done.
  - apply Hother; try done. simpl. destruct (sv_actor s); [|done]. by apply evict_keeps.
  - unfold run_task, runs. cbn [snd]. destruct (sv_tasks s !! j) as [kj|] eqn:Ej.
    2: { rewrite (proj2 (Nat.eqb_neq i j)) by congruence. by apply Hother. }
    destruct (Nat.eqb_spec i j) as [<- | Hne].
    + rewrite Hi in Ej. injection Ej as <-.
      destruct (task_step_decreases now k (sv_actor s) Hw Hp Hu) as (_ & H2 & H3).
      destruct (task_step config now k (sv_actor s)) as [[k' a'] out]. simpl in *.
      split; [done |]. exists k'. split_and!; [|done..].
      apply list_lookup_insert_eq. by eapply lookup_lt_Some.
    + assert (keeps (sv_actor s) (task_step config now kj (sv_actor s)).1.2) as Hk
        by (by apply task_step_keeps).
      destruct (task_step config now kj (sv_actor s)) as [[k' a'] out]. cbn [fst snd] in *.
      apply Hother; try done. simpl. by rewrite list_lookup_insert_ne by done.
Qed.

(** C38: every task of the DHCP server finishes, the allocation loop included.
    In any interleaving with other tasks, packets, neighbour events, heartbeats
    and clean-ups, as long as the reservations do not change and the events lie
    within one conflict-hold period of five minutes, a task that gets to run
    three times per host of the subnet, plus four, has ended: no address is
    proposed to its client twice. *)
Theorem task_terminates events s i k :
  net_prefix_len (sc_net config) < 31 → sv_running s = true →
  sv_tasks s !! i = Some k → unreserved (sv_actor s) k →
  Forall window_event events →
  (3 * length (net_hosts (sc_net config)) + 4 ≤ length (filter (runs i) events))%nat →
  sv_tasks (run_server decode config events s).1 !! i = Some TDone.
Proof.
  intros Hp Hrun Hi Hu Hev Hcount.
  assert (rank (sv_actor s) k ≤ 3 * length (net_hosts (sc_net config)) + 4)%nat as Hbound
    by apply rank_bound.
  assert (∃ k', sv_tasks (run_server decode config events s).1 !! i = Some k' ∧
    (rank (sv_actor (run_server decode config events s).1) k' ≤
     rank (sv_actor s) k - length (filter (runs i) events))%nat) as (k' & Hk' & Hr).
  { clear Hcount Hbound. revert s k Hrun Hi Hu.
    induction Hev as [|[now e] events He _ IH]; intros s k Hrun Hi Hu.
    { exists k. split; [done |]. simpl. lia. }
    destruct (server_event_keeps now e s i k He Hp Hrun Hi Hu) as (Hrun' & k1 & H1 & H2 & H3).
    cbn [run_server]. destruct (server_event decode config now e s) as [s1 o1]. simpl in *.
    destruct (IH s1 k1 Hrun' H1 H2) as (k2 & H4 & H5).
    destruct (run_server decode config events s1) as [s2 o2]. simpl in *.
    exists k2. split; [done |]. rewrite filter_cons.
    destruct (runs i (now, e)); [rewrite decide_True by done | rewrite decide_False by auto];
      simpl; lia. }
  assert (rank (sv_actor (run_server decode config events s).1) k' = 0)%nat as Hz by lia.
  rewrite Hk'. destruct k'; cbn [rank] in Hz; done || lia.
Qed.
End termination.

(** ** Which packets are served *)

Section admission.
Context {Net : Type} `{!Ipv4NetOps Net} {PN : Pnet}.
Context (decode : list Z → option Message) (config : ServerConfig Net).

(** The task a message of each type starts. *)
Definition serves (dhcp : Message) (mac : MacAddr) (k : Task) : Prop :=
  match opt_message_type dhcp with
  | Some Discover => k = TDiscover dhcp mac
  | Some Request =>
      k = TRequest dhcp mac ∧
      ∀ id, opt_server_identifier dhcp = Some id → id = sc_server_ip config
  | Some Decline | Some ReleaseMsg => k = TRelease mac
  | _ => False
  end.

Lemma should_process_iff dhcp :
  should_process_request_server_id dhcp (sc_server_ip config) = true ↔
  ∀ id, opt_server_identifier dhcp = Some id → id = sc_server_ip config.
Proof.
  unfold should_process_request_server_id, opt_server_identifier.
  destruct (msg_opts dhcp !! SERVER_IDENTIFIER) as [[]|]; try (split; [intros _ ? [=] | done]).
  rewrite bool_decide_eq_true. split; [by intros -> ? [= <-] | auto].
Qed.

(** A frame is served exactly when it is a UDP packet to the DHCP server
    port that decodes to a BOOTREQUEST from a client with a six-byte hardware
    address that is neither zero nor broadcast, whose Ethernet source is that
    very address unless a relay forwarded it, and whose message type is one
    the server handles; a DHCPREQUEST that names another server is ignored.
    Everything else is dropped without a trace. *)
Theorem process_incoming_packet_spec buf k :
  process_incoming_packet decode config buf = Some k ↔
  ∃ dhcp mac, parse_dhcp_payload decode buf SERVER_PORT = Some dhcp ∧
    msg_opcode dhcp = BootRequest ∧ extract_client_mac dhcp = Some mac ∧
    (msg_giaddr dhcp = UNSPECIFIED → eh_source (eth_header buf) = mac) ∧
    serves dhcp mac k.
Proof.
  unfold process_incoming_packet, serves. split.
  - destruct (parse_dhcp_payload _ _ _) as [dhcp|]; [|done]. simpl. case_bool_decide; [done |].
    destruct (extract_client_mac dhcp) as [mac|] eqn:Em; [|done]. simpl.
    case_bool_decide; [done |]. destruct (is_spoofed_l2_packet _ _ _) eqn:Hsp; [done |].
    destruct (opt_message_type dhcp) as [ty|] eqn:Ety; [|done]. simpl. intros Hk.
    exists dhcp, mac. split_and!; try done.
    + intros Hg. unfold is_spoofed_l2_packet, is_unspecified in Hsp. rewrite Hg in Hsp.
      rewrite bool_decide_true in Hsp by done. simpl in Hsp.
      apply bool_decide_eq_false in Hsp. by apply dec_stable.
    + rewrite Ety. destruct ty; simplify_eq/=; try done.
      rewrite <-should_process_iff. destruct (should_process_request_server_id _ _); naive_solver.
  - intros (dhcp & mac & Hp & Ho & Hm & Hg & Hk). rewrite Hp. simpl.
    rewrite bool_decide_false by naive_solver. rewrite Hm. simpl.
    assert (¬ blen buf < ETH_HEADER_LEN) as Hlen.
    { intros Hl. unfold parse_dhcp_payload in Hp. by rewrite bool_decide_true in Hp. }
    rewrite (bool_decide_false (blen buf < ETH_HEADER_LEN)) by done.
    assert (is_spoofed_l2_packet (eh_source (eth_header buf)) mac (msg_giaddr dhcp) = false) as ->.
    { unfold is_spoofed_l2_packet, is_unspecified. case_bool_decide as Hgi; [|done]. simpl.
      apply bool_decide_eq_false. intros Hne. by apply Hne, Hg. }
    destruct (opt_message_type dhcp) as [[]|]; try done; simpl; try (by subst).
    destruct Hk as [-> Hid]. by rewrite (proj2 (should_process_iff dhcp) Hid).
Qed.
End admission.

(** ** A small LAN, with two clients *)

Module ServerExample.
#[local] Existing Instance forward_order.
Import LeaseTable.LeaseExample.

Definition config : ServerConfig IpNet := mkServerConfig gateway net.
Definition lan_cidr : str := lit "192.168.7.1/29".

Definition request_msg (t : MessageType) (m : MacAddr) (os : list DhcpOption) : Message :=
  mkMessage BootRequest 77 false UNSPECIFIED UNSPECIFIED UNSPECIFIED UNSPECIFIED 6
    (mac_octets m) (opts_of (OptMessageType t :: os)).
(** A stand-in for the wire format: a message is known by its number. *)
Definition decode (payload : list Z) : option Message :=
  match payload with
  | [1] => Some (request_msg Discover (mac 1) [])
  | [2] => Some (request_msg Request (mac 2) [OptRequestedIpAddress (ipv4 192 168 7 2);
                                              OptHostname (lit "Printer")])
  | _ => None
  end.
Definition packet (n : Z) : ServerEvent :=
  ParentMessage (RawPacket
    match build_raw_packet (mac n) mac_broadcast UNSPECIFIED BROADCAST CLIENT_PORT SERVER_PORT [n]
    with Ok f => f | Err _ => [] end).

(** The first client is served at time 0 and does not renew.  Just after its
    lease has ended, and before the next clean-up, the second client asks for
    the address and the first one comes back. *)
Definition events : list (Instant * ServerEvent) :=
  [(0, packet 1); (0, RunTask 0); (0, RunTask 0); (0, RunTask 0); (0, RunTask 0);
   (from_secs 3600, packet 2); (from_secs 3600, RunTask 1); (from_secs 3600, RunTask 1);
   (from_secs 3601, packet 1); (from_secs 3601, RunTask 2); (from_secs 3601, RunTask 2)].
Definition final : Server * list DhcpServerWorkerToParentMsg :=
  default (mkServer None [] false false, [])
    (run_dhcp_server_worker (Net := IpNet) decode lan_cidr 0 (Some (StaticLeasesSet [])) events).

(** Finding: the server can give one address to two clients.  A DHCPDISCOVER from a
    client whose lease has expired but has not been cleaned up yet is answered
    with that client's old address without looking at the other leases, and
    the entry is renewed: here the address was acknowledged to another client
    a second before, and both leases are then live. *)
Theorem discover_can_double_lease :
  (∃ t, sv_actor final.1 = Some t ∧ ¬ exclusive (from_secs 3601) t) ∧
  SendAck (mac 2) 77 (ipv4 192 168 7 2) false ∈ final.2 ∧
  SendOffer (mac 1) 77 (ipv4 192 168 7 2) false ∈ final.2.
Proof.
  assert (∃ t l1 l2, sv_actor final.1 = Some t ∧ by_mac t !! mac 1 = Some l1 ∧
    by_mac t !! mac 2 = Some l2 ∧ cl_ip l1 = cl_ip l2 ∧
    (from_secs 3601 <? cl_expiry l1) && (from_secs 3601 <? cl_expiry l2) = true)
    as (t & l1 & l2 & Ht & H1 & H2 & Hip & Hl).
  { do 3 eexists. split_and!; vm_compute; reflexivity. }
  split_and!.
  - exists t. split; [done |]. intros He. apply andb_true_iff in Hl as [L1%Z.ltb_lt L2%Z.ltb_lt].
    by pose proof (He (mac 1) (mac 2) l1 l2 H1 H2 L1 L2 Hip).
  - assert (final.2 !! 3%nat = Some (SendAck (mac 2) 77 (ipv4 192 168 7 2) false)) as H
      by (vm_compute; reflexivity).
    by eapply list_elem_of_lookup_2.
  - assert (final.2 !! 5%nat = Some (SendOffer (mac 1) 77 (ipv4 192 168 7 2) false)) as H
      by (vm_compute; reflexivity).
    by eapply list_elem_of_lookup_2.
Qed.

Definition ack_events : list (Instant * ServerEvent) :=
  [(0, packet 2); (0, RunTask 0); (0, RunTask 0); (0, HeartbeatTimer); (0, HeartbeatEvict)].
Definition ack_out : list DhcpServerWorkerToParentMsg :=
  match run_dhcp_server_worker (Net := IpNet) decode (lan_ip Config.Example.parsed) 0
          (Some (StaticLeasesSet (static_leases Config.Example.parsed))) ack_events with
  | Some (_, out) => out
  | None => []
  end.

Lemma worker_messages_ok_witness :
  nth 1 ack_out (SendNak (mac 0) 0) = SendAck (mac 2) 77 (ipv4 192 168 7 2) false ∧
  Forall (msg_ok (mkServerConfig (net_addr Config.Example.lan_net) Config.Example.lan_net))
    ack_out.
Proof.
  split; [vm_compute; reflexivity |].
  assert (∃ s, run_dhcp_server_worker (Net := IpNet) decode (lan_ip Config.Example.parsed) 0
    (Some (StaticLeasesSet (static_leases Config.Example.parsed))) ack_events
    = Some (s, ack_out)) as [s E] by (eexists; vm_compute; reflexivity).
  refine (worker_messages_ok decode Config.Example.lan_net Config.Example.backup_net
            Config.Example.parsed 0 ack_events s ack_out Config.Example.parsed_valid _ E).
  assert (Forall (λ e : Instant * ServerEvent,
    match e.2 with ParentMessage (StaticLeasesSet _) => False | _ => True end) ack_events) as HF
    by (repeat apply Forall_cons_2; [exact I.. | apply Forall_nil_2]).
  intros now ls Hin. destruct (proj1 (list.Forall_forall _ _) HF _ Hin).
Defined.

Definition params : DhcpMonitorParams := mkDhcpMonitorParams true true [] lan_cidr.
Definition encode (m : Message) : option (list Z) := Some [msg_yiaddr m mod 256; 1; 2].
Definition ack : DhcpServerWorkerToParentMsg := SendAck (mac 2) 77 (ipv4 192 168 7 2) false.
Definition ack_frame : list Z :=
  match handle_worker_ipc_msg encode ack params (mac 9) net with
  | PSendFrame f :: _ => f
  | _ => []
  end.

Lemma parent_confines_worker_witness :
  handle_worker_ipc_msg encode ack params (mac 9) net = [PSendFrame ack_frame] ∧
  frame_allowed encode net (mac 9) ack_frame.
Proof.
  assert (handle_worker_ipc_msg encode ack params (mac 9) net = [PSendFrame ack_frame])
    as E by (vm_compute; reflexivity).
  assert (∀ n, 0 ≤ n ≤ 255 → mac_wf (mac n)) as Hwf.
  { intros n Hn. unfold mac_wf, mac_octets, mac, is_u. simpl. repeat constructor; lia. }
  split; [exact E |].
  refine (parent_confines_worker encode net (mac 9) params ack ack_frame _ _ _).
  - apply Hwf. lia.
  - apply Hwf. lia.
  - rewrite E. apply list_elem_of_here.
Defined.

Definition discover_task : Task := TDiscover (request_msg Discover (mac 1) []) (mac 1).
Lemma task_terminates_witness :
  sv_tasks (run_server decode config (replicate 22 (0, RunTask 0))
    (mkServer (Some LeaseTable.new) [discover_task] false true)).1 !! 0%nat = Some TDone.
Proof.
  refine (task_terminates decode config 0 (from_secs 300) _ (replicate 22 (0, RunTask 0))
            _ 0 discover_task _ _ _ _ _ _).
  - vm_compute. discriminate.
  - vm_compute. reflexivity.
  - reflexivity.
  - reflexivity.
  - exact I.
  - apply Forall_replicate. split; [split; vm_compute; done | exact I].
  - vm_compute. lia.
Defined.
End ServerExample.
