(* ===== verification/DhcpClient.v ===== *)
(** * The DHCP client

    The worker of [src/src/services/dhcp_client/worker.rs], a state machine
    that obtains and renews the WAN lease, and its parent in
    [src/src/services/dhcp_client/manager.rs], which sends its packets and
    configures the WAN interface.

    Each turn of a loop of the worker sends what it has to send and then waits
    for packets until a deadline.  [client_step] is one such turn: the clock
    at its start and at its end, the packets that arrived before the deadline
    and the random numbers drawn are its environment. *)

From Stdlib Require Import ZArith Lia.
From stdpp Require Import base gmap list strings.
From S2P Require Import Prelude NetAddr Hostname Packet Config LeaseTable Dhcp DhcpServer.

#[local] Open Scope Z_scope.

Definition DEFAULT_LEASE_SECS : Z := 3600.
Definition MAX_RETRY_DELAY_SECS : Z := 64.
Definition INITIAL_RETRY_DELAY_SECS : Z := 4.
Definition DEFAULT_SUBNET_MASK : Ipv4Addr := ipv4 255 255 255 0.
Definition BOUND_HEARTBEAT_INTERVAL_SECS : Z := 3.

(** [DhcpError], with the protocol messages that the code tells apart. *)
Inductive DhcpError :=
| ErrIo
| ErrIpcClosed
| ErrLeaseExpired
| ErrExpiredDuringRenewal
| ErrNak.
#[global] Instance DhcpError_eq_dec : EqDecision DhcpError.
Proof. solve_decision. Defined.

Record DhcpOffer := mkDhcpOffer {
  offered_ip : Ipv4Addr;
  offer_server_ip : option Ipv4Addr;
}.
Record DhcpAck := mkDhcpAck {
  ack_ip : Ipv4Addr;
  ack_mask : Ipv4Addr;
  ack_gateway : option Ipv4Addr;
  ack_server_ip : option Ipv4Addr;
  ack_lease_secs : Z;
  ack_dns_servers : list Ipv4Addr;
}.
Record LeaseOptions := mkLeaseOptions {
  lo_mask : Ipv4Addr;
  lo_gateway : option Ipv4Addr;
  lo_dns_servers : list Ipv4Addr;
  lo_lease_secs : Z;
}.
Inductive ParseAckResult := PAck (a : DhcpAck) | PNak | PNone.

(** [services::ipc::DhcpClientToParentMsg] *)
Inductive DhcpClientToParentMsg :=
| SendDiscover (xid : Z)
| SendRequest (xid : Z) (requested_ip : Ipv4Addr) (server_ip : option Ipv4Addr)
    (ciaddr : Ipv4Addr)
| ApplyWanLease (ip_address : Ipv4Addr) (prefix_len : Z) (gateway : Ipv4Addr)
    (dns_servers : list Ipv4Addr)
| ClearWanLease
| ClientHeartbeat.

(** ** Timers *)

Definition calculate_next_delay (current_delay : Z) : Z :=
  let doubled := current_delay * 2 in
  if bool_decide (doubled > MAX_RETRY_DELAY_SECS) then MAX_RETRY_DELAY_SECS else doubled.

Definition calculate_renewal_params (current_elapsed t2_secs lease_secs : Z)
    (server_ip : option Ipv4Addr) : Z * Ipv4Addr * bool :=
  let in_rebinding := bool_decide (t2_secs ≤ current_elapsed) in
  let '(retry_interval, dest_ip) :=
    if in_rebinding then
      let remaining := u32_saturating_sub lease_secs current_elapsed in
      let interval :=
        if bool_decide (remaining > 60) then Z.max (remaining / 2) 60
        else Z.max (remaining / 2) 1 in
      (interval, BROADCAST)
    else
      let remaining := u32_saturating_sub t2_secs current_elapsed in
      let interval :=
        if bool_decide (remaining > 60) then Z.max (remaining / 2) 60
        else Z.max (remaining / 2) 1 in
      (interval, default BROADCAST server_ip) in
  (retry_interval, dest_ip, in_rebinding).

(** [(lease_secs as f64 * 0.875) as u32]: the product of a [u32] and 7/8 has
    at most 35 significant bits, so it is exact in an [f64], and the cast
    truncates. *)
Definition t2_of (lease_secs : Z) : Z := lease_secs * 7 / 8.

(** [d.as_secs() as u32] *)
Definition as_secs_u32 (d : Duration) : Z := as_secs d mod 2 ^ 32.

(** ** Reading replies *)

Definition get_server_identifier (dhcp : Message) : option Ipv4Addr :=
  match msg_opts dhcp !! SERVER_IDENTIFIER with
  | Some (OptServerIdentifier ip) => Some ip
  | _ => None
  end.

Definition parse_offer (dhcp : Message) (xid : Z) : option DhcpOffer :=
  if bool_decide (msg_xid dhcp ≠ xid) then None else
  match msg_opts dhcp !! MESSAGE_TYPE with
  | Some (OptMessageType Offer) =>
      Some (mkDhcpOffer (msg_yiaddr dhcp) (get_server_identifier dhcp))
  | _ => None
  end.

Definition parse_lease_options (dhcp : Message) : LeaseOptions :=
  mkLeaseOptions
    match msg_opts dhcp !! SUBNET_MASK with
    | Some (OptSubnetMask m) => m
    | _ => DEFAULT_SUBNET_MASK
    end
    match msg_opts dhcp !! ROUTER with
    | Some (OptRouter (r :: _)) => Some r
    | _ => None
    end
    match msg_opts dhcp !! DOMAIN_NAME_SERVER with
    | Some (OptDomainNameServer l) => l
    | _ => []
    end
    match msg_opts dhcp !! ADDRESS_LEASE_TIME with
    | Some (OptAddressLeaseTime t) => t
    | _ => DEFAULT_LEASE_SECS
    end.

Definition parse_ack_nak (dhcp : Message) (xid : Z) : ParseAckResult :=
  if bool_decide (msg_xid dhcp ≠ xid) then PNone else
  match msg_opts dhcp !! MESSAGE_TYPE with
  | Some (OptMessageType Ack) =>
      let opts := parse_lease_options dhcp in
      PAck (mkDhcpAck (msg_yiaddr dhcp) (lo_mask opts) (lo_gateway opts)
              (get_server_identifier dhcp) (lo_lease_secs opts) (lo_dns_servers opts))
  | Some (OptMessageType Nak) => PNak
  | _ => PNone
  end.

(** ** Building requests *)

Definition build_discover_message (mac : MacAddr) (xid : Z) : Message :=
  mkMessage BootRequest xid true UNSPECIFIED UNSPECIFIED UNSPECIFIED UNSPECIFIED 6
    (mac_octets mac)
    (opts_of [OptMessageType Discover;
              OptParameterRequestList [SUBNET_MASK; ROUTER; DOMAIN_NAME_SERVER]]).

Definition build_request_message (mac : MacAddr) (xid : Z) (requested_ip : Ipv4Addr)
    (server_ip : option Ipv4Addr) (ciaddr : Ipv4Addr) : Message :=
  mkMessage BootRequest xid (is_unspecified ciaddr) ciaddr UNSPECIFIED UNSPECIFIED
    UNSPECIFIED 6 (mac_octets mac)
    (opts_of
       ((if is_unspecified ciaddr then
           [OptRequestedIpAddress requested_ip]
           ++ match server_ip with Some srv => [OptServerIdentifier srv] | None => [] end
         else [])
        ++ [OptMessageType Request])).

(** ** Receiving *)

(** What [ipc.recv()] can return before the deadline. *)
Inductive Recv := RFrame (frame : list Z) | RClosed | RIoError.

Section client.
Context {PN : Pnet} (decode : list Z → option Message) (mac : MacAddr).

(** A packet for this client: [d.chaddr().starts_with(&mac.octets())]. *)
Definition accept_frame (frame : list Z) : option Message :=
  dhcp ← parse_dhcp_payload decode frame CLIENT_PORT;
  if bool_decide (take 6 (msg_chaddr dhcp) = mac_octets mac) then Some dhcp else None.

(** [recv_dhcp_packet], on what arrives before the deadline; the rest is left
    for the caller. *)
Fixpoint recv_dhcp_packet (inbox : list Recv) :
    Result DhcpError (option Message * list Recv) :=
  match inbox with
  | [] => Ok (None, [])
  | RFrame frame :: rest =>
      match accept_frame frame with
      | Some dhcp => Ok (Some dhcp, rest)
      | None => recv_dhcp_packet rest
      end
  | RClosed :: _ => Err ErrIpcClosed
  | RIoError :: _ => Err ErrIo
  end.

(** [wait_for_offer] and [wait_for_ack]: packets are received, all before the
    same deadline, until one is understood. *)
Fixpoint wait_for_offer (xid : Z) (inbox : list Recv) : Result DhcpError (option DhcpOffer) :=
  match inbox with
  | [] => Ok None
  | RFrame frame :: rest =>
      match accept_frame frame with
      | Some dhcp =>
          match parse_offer dhcp xid with
          | Some offer => Ok (Some offer)
          | None => wait_for_offer xid rest
          end
      | None => wait_for_offer xid rest
      end
  | RClosed :: _ => Err ErrIpcClosed
  | RIoError :: _ => Err ErrIo
  end.

Fixpoint wait_for_ack (xid : Z) (inbox : list Recv) :
    Result DhcpError (option ParseAckResult) :=
  match inbox with
  | [] => Ok None
  | RFrame frame :: rest =>
      match accept_frame frame with
      | Some dhcp =>
          match parse_ack_nak dhcp xid with
          | PNone => wait_for_ack xid rest
          | res => Ok (Some res)
          end
      | None => wait_for_ack xid rest
      end
  | RClosed :: _ => Err ErrIpcClosed
  | RIoError :: _ => Err ErrIo
  end.

(** The loops are what repeated [recv_dhcp_packet] gives. *)
Lemma wait_for_offer_recv xid inbox :
  wait_for_offer xid inbox =
  (let? r := recv_dhcp_packet inbox in
   match r with
   | (None, _) => Ok None
   | (Some dhcp, rest) =>
       match parse_offer dhcp xid with
       | Some offer => Ok (Some offer)
       | None => wait_for_offer xid rest
       end
   end).
Proof.
  induction inbox as [|[frame| |] inbox IH]; try done. simpl.
  by destruct (accept_frame frame).
Qed.

Lemma wait_for_ack_recv xid inbox :
  wait_for_ack xid inbox =
  (let? r := recv_dhcp_packet inbox in
   match r with
   | (None, _) => Ok None
   | (Some dhcp, rest) =>
       match parse_ack_nak dhcp xid with
       | PNone => wait_for_ack xid rest
       | res => Ok (Some res)
       end
   end).
Proof.
  induction inbox as [|[frame| |] inbox IH]; try done. simpl.
  by destruct (accept_frame frame).
Qed.

(** ** The state machine *)

Inductive ClientState :=
(** The loop of [discover_phase] *)
| SDiscover (xid : Z) (retry_delay_secs : Z)
(** The loop of [request_phase] *)
| SRequest (xid : Z) (offer : DhcpOffer) (retry_delay_secs : Z)
(** The loop of [bound_phase] *)
| SBound (ack : DhcpAck) (bound_at : Instant)
(** The loop of [renew_lease] *)
| SRenew (ack : DhcpAck) (bound_at : Instant) (renew_xid : Z) (renew_sent : option Instant)
(** The pause in [handle_phase_failure] *)
| SBackoff
| SStopped.

Record ClientEnv := mkClientEnv {
  (** the clock at the head of the loop and at the end of the wait *)
  ce_now : Instant;
  ce_fin : Instant;
  ce_random : Z;
  ce_inbox : list Recv;
  (** whether a lease could be sent to the parent *)
  ce_send_ok : bool;
}.

Definition apply_lease_config (a : DhcpAck) : DhcpClientToParentMsg :=
  let prefix_len := default 24 (ok (mask_to_prefix_len (ack_mask a))) in
  ApplyWanLease (ack_ip a) prefix_len (default UNSPECIFIED (ack_gateway a))
    (ack_dns_servers a).

(** [run], when a phase returns an error. *)
Definition phase_failed (e : DhcpError) : ClientState * list DhcpClientToParentMsg :=
  if bool_decide (e = ErrIpcClosed) then (SStopped, []) else (SBackoff, [ClearWanLease]).

(** A lease was obtained or renewed: [bound_phase] applies it. *)
Definition enter_bound (env : ClientEnv) (a : DhcpAck) :
    ClientState * list DhcpClientToParentMsg :=
  if ce_send_ok env then (SBound a (ce_fin env), [apply_lease_config a])
  else phase_failed ErrIo.

(** An error inside [bound_phase] after [deconfigure]. *)
Definition bound_failed (e : DhcpError) : ClientState * list DhcpClientToParentMsg :=
  let '(s, out) := phase_failed e in (s, ClearWanLease :: out).

Definition discover_phase (env : ClientEnv) (xid retry_delay_secs : Z) :
    ClientState * list DhcpClientToParentMsg :=
  let '(s, out) :=
    match wait_for_offer xid (ce_inbox env) with
    | Err e => phase_failed e
    | Ok (Some offer) => (SRequest xid offer INITIAL_RETRY_DELAY_SECS, [])
    | Ok None => (SDiscover xid (calculate_next_delay retry_delay_secs), [])
    end in
  (s, [ClientHeartbeat; SendDiscover xid] ++ out).

(** [handle_ack_result] *)
Definition handle_ack_result (r : ParseAckResult) : option (Result DhcpError DhcpAck) :=
  match r with
  | PAck a => Some (Ok a)
  | PNak => Some (Err ErrNak)
  | PNone => None
  end.

Definition request_phase (env : ClientEnv) (xid : Z) (offer : DhcpOffer)
    (retry_delay_secs : Z) : ClientState * list DhcpClientToParentMsg :=
  let '(s, out) :=
    match wait_for_ack xid (ce_inbox env) with
    | Err e => phase_failed e
    | Ok r =>
        match r ≫= handle_ack_result with
        | Some (Ok a) => enter_bound env a
        | Some (Err e) => phase_failed e
        | None => (SRequest xid offer (calculate_next_delay retry_delay_secs), [])
        end
    end in
  (s, [ClientHeartbeat;
       SendRequest xid (offered_ip offer) (offer_server_ip offer) UNSPECIFIED] ++ out).

Definition bound_phase (env : ClientEnv) (a : DhcpAck) (bound_at : Instant) :
    ClientState * list DhcpClientToParentMsg :=
  let elapsed := as_secs_u32 (duration_since (ce_now env) bound_at) in
  if bool_decide (ack_lease_secs a ≤ elapsed) then bound_failed ErrLeaseExpired
  else
    let t1_secs := ack_lease_secs a / 2 in
    if bool_decide (elapsed < t1_secs) then
      match ce_inbox env with
      | [] | RFrame _ :: _ => (SBound a bound_at, [ClientHeartbeat])
      | RClosed :: _ | RIoError :: _ =>
          let '(s, out) := bound_failed ErrIpcClosed in (s, ClientHeartbeat :: out)
      end
    else (SRenew a bound_at (ce_random env) None, []).

Definition renew_lease (env : ClientEnv) (a : DhcpAck) (bound_at : Instant) (renew_xid : Z)
    (renew_sent : option Instant) : ClientState * list DhcpClientToParentMsg :=
  let lease_secs := ack_lease_secs a in
  let current_elapsed := as_secs_u32 (duration_since (ce_now env) bound_at) in
  let '(s, out) :=
    if bool_decide (lease_secs ≤ current_elapsed) then bound_failed ErrExpiredDuringRenewal
    else
      let '(retry_interval, _, in_rebinding) :=
        calculate_renewal_params current_elapsed (t2_of lease_secs) lease_secs
          (ack_server_ip a) in
      let should_send :=
        match renew_sent with
        | None => true
        | Some t => bool_decide (retry_interval ≤ as_secs_u32 (duration_since (ce_now env) t))
        end in
      let target_server_ip := if in_rebinding : bool then None else ack_server_ip a in
      let sent :=
        if should_send then [SendRequest renew_xid (ack_ip a) target_server_ip (ack_ip a)]
        else [] in
      let renew_sent' := if should_send then Some (ce_now env) else renew_sent in
      let '(s, out) :=
        match wait_for_ack renew_xid (ce_inbox env) with
        | Err e => bound_failed e
        | Ok (Some (PAck new_ack)) => enter_bound env new_ack
        | Ok (Some PNak) => bound_failed ErrNak
        | Ok (Some PNone) | Ok None => (SRenew a bound_at renew_xid renew_sent', [])
        end in
      (s, sent ++ out) in
  (s, ClientHeartbeat :: out).

Definition handle_phase_failure (env : ClientEnv) :
    ClientState * list DhcpClientToParentMsg :=
  match ce_inbox env with
  | [] | RFrame _ :: _ => (SDiscover (ce_random env) INITIAL_RETRY_DELAY_SECS, [])
  | RClosed :: _ | RIoError :: _ => (SStopped, [])
  end.

Definition client_step (env : ClientEnv) (s : ClientState) :
    ClientState * list DhcpClientToParentMsg :=
  match s with
  | SDiscover xid delay => discover_phase env xid delay
  | SRequest xid offer delay => request_phase env xid offer delay
  | SBound a bound_at => bound_phase env a bound_at
  | SRenew a bound_at renew_xid renew_sent => renew_lease env a bound_at renew_xid renew_sent
  | SBackoff => handle_phase_failure env
  | SStopped => (SStopped, [])
  end.

Fixpoint client_run (envs : list ClientEnv) (s : ClientState) :
    ClientState * list DhcpClientToParentMsg :=
  match envs with
  | [] => (s, [])
  | env :: envs' =>
      let '(s1, o1) := client_step env s in
      let '(s2, o2) := client_run envs' s1 in
      (s2, o1 ++ o2)
  end.
End client.

(** ** The parent *)

Inductive ClientParentAction :=
| CHeartbeat
| CSendFrame (frame : list Z)
| CPublish (lease : WanLease)
| CFlushAddresses (index : Z)
| CLinkUp (index : Z)
| CAddAddress (index : Z) (ip : Ipv4Addr) (prefix_len : Z)
| CAddDefaultRoute (index : Z) (gw : Ipv4Addr)
| CToWorker (frame : list Z)
| CTerminateWorker.

(** What the kernel answers while the WAN interface is configured. *)
Record NetlinkEnv := mkNetlinkEnv {
  nl_index : option Z;
  nl_flush : bool;
  nl_connection : bool;
  nl_link_up : bool;
  nl_add_address : bool;
}.

Section client_parent.
Context {Net : Type} `{!Ipv4NetOps Net} {PN : Pnet}.
Context (encode : Message → option (list Z)).
Abbreviation Parent := (Act WanLease ClientParentAction) (only parsing).

Definition is_valid_gateway (gw ip : Ipv4Addr) (prefix_len : Z) : bool :=
  negb (is_unspecified gw) && negb (is_broadcast gw)
  && default false ((λ net : Net, net_contains net gw) <$> net_new ip prefix_len).

(** The requests that are made of the kernel, up to the first that fails. *)
Definition configure_wan (nl : NetlinkEnv) (ip mask : Ipv4Addr) (gateway : option Ipv4Addr) :
    list ClientParentAction :=
  match mask_to_prefix_len mask with
  | Err _ => []
  | Ok prefix_len =>
      match nl_index nl with
      | None => []
      | Some index =>
          CFlushAddresses index ::
          if negb (nl_flush nl) then [] else
          if negb (nl_connection nl) then [] else
          CLinkUp index ::
          if negb (nl_link_up nl) then [] else
          CAddAddress index ip prefix_len ::
          if negb (nl_add_address nl) then [] else
          match gateway with
          | Some gw => if is_valid_gateway gw ip prefix_len then [CAddDefaultRoute index gw] else []
          | None => []
          end
      end
  end.

Definition deconfigure_wan (nl : NetlinkEnv) (ip mask : Ipv4Addr) : list ClientParentAction :=
  match mask_to_prefix_len mask, nl_index nl with
  | Ok _, Some index => [CFlushAddresses index]
  | _, _ => []
  end.

Definition act_emit_all {S O} (os : list O) : Act S O () := act_iter act_emit os.

Definition apply_parent_lease (nl : NetlinkEnv) (ip_address mask gateway : Ipv4Addr)
    (dns_servers : list Ipv4Addr) : Parent () :=
  let new_lease := mkWanLease (Some ip_address) (Some mask) (Some gateway) dns_servers in
  let* current := act_get in
  act_when (bool_decide (current ≠ new_lease))
    (let* _ := act_modify (λ _, new_lease) in
     let* _ := act_emit (CPublish new_lease) in
     act_emit_all (configure_wan nl ip_address mask (Some gateway))).

Definition clear_parent_lease (nl : NetlinkEnv) : Parent () :=
  let* current := act_get in
  let* _ := act_modify (λ _, WanLease_default) in
  let* _ := act_emit (CPublish WanLease_default) in
  match wl_ip current, wl_mask current with
  | Some ip, Some mask => act_emit_all (deconfigure_wan nl ip mask)
  | _, _ => mret tt
  end.

Definition send_built (r : Result RouterError (list Z)) : Parent () :=
  match r with Ok frame => act_emit (CSendFrame frame) | Err _ => mret tt end.

Definition handle_send_discover (wan_mac : MacAddr) (xid : Z) : Parent () :=
  match encode (build_discover_message wan_mac xid) with
  | None => mret tt
  | Some payload =>
      send_built (build_raw_packet wan_mac mac_broadcast UNSPECIFIED BROADCAST
                    CLIENT_PORT SERVER_PORT payload)
  end.

Definition handle_send_request (wan_mac : MacAddr) (xid : Z) (requested_ip : Ipv4Addr)
    (server_ip : option Ipv4Addr) (ciaddr : Ipv4Addr) : Parent () :=
  match encode (build_request_message wan_mac xid requested_ip server_ip ciaddr) with
  | None => mret tt
  | Some payload =>
      let '(src_ip, dest_ip) :=
        if is_unspecified ciaddr then (UNSPECIFIED, BROADCAST)
        else (ciaddr, default BROADCAST server_ip) in
      send_built (build_raw_packet wan_mac mac_broadcast src_ip dest_ip
                    CLIENT_PORT SERVER_PORT payload)
  end.

Definition handle_client_ipc_msg (has_heartbeat : bool) (wan_mac : MacAddr)
    (nl : NetlinkEnv) (msg : DhcpClientToParentMsg) : Parent () :=
  let* _ := act_when has_heartbeat (act_emit CHeartbeat) in
  match msg with
  | SendDiscover xid => handle_send_discover wan_mac xid
  | SendRequest xid requested_ip server_ip ciaddr =>
      handle_send_request wan_mac xid requested_ip server_ip ciaddr
  | ApplyWanLease ip_address prefix_len gateway dns_servers =>
      apply_parent_lease nl ip_address (prefix_len_to_mask prefix_len) gateway dns_servers
  | ClearWanLease => clear_parent_lease nl
  | ClientHeartbeat => mret tt
  end.

(** One turn of the loop of [run_parent_dhcp_monitor]; the result says
    whether the loop goes on. *)
Inductive ClientParentEvent :=
| EvFrame (frame : list Z) (ipc_send_ok : bool)
| EvSocketError
| EvWorkerMsg (msg : DhcpClientToParentMsg) (nl : NetlinkEnv)
| EvIpcClosed
| EvIpcError.

Definition monitor_turn (has_heartbeat : bool) (wan_mac : MacAddr) (e : ClientParentEvent) :
    Parent bool :=
  match e with
  | EvFrame frame true => let* _ := act_emit (CToWorker frame) in mret true
  | EvFrame _ false => mret false
  | EvSocketError => mret true
  | EvWorkerMsg msg nl =>
      let* _ := handle_client_ipc_msg has_heartbeat wan_mac nl msg in mret true
  | EvIpcClosed | EvIpcError => mret false
  end.

Fixpoint parent_loop (has_heartbeat : bool) (wan_mac : MacAddr)
    (events : list ClientParentEvent) : Parent bool :=
  match events with
  | [] => mret true
  | e :: events' =>
      let* continue := monitor_turn has_heartbeat wan_mac e in
      if continue : bool then parent_loop has_heartbeat wan_mac events' else mret false
  end.

(** [run_parent_dhcp_monitor], with what [get_interface_mac] returns; the
    result says whether the monitor is still running. *)
Definition run_parent_dhcp_monitor (has_heartbeat : bool)
    (interface_mac : option MacAddr) (events : list ClientParentEvent) : Parent bool :=
  match interface_mac with
  | None => let* _ := act_emit CTerminateWorker in mret false
  | Some wan_mac =>
      let* running := parent_loop has_heartbeat wan_mac events in
      let* _ := act_when (negb running) (act_emit CTerminateWorker) in
      mret running
  end.
End client_parent.

(** ** The lease the worker holds *)

(** The lease a state holds, and what the parent publishes for it. *)
Definition held (s : ClientState) : option (DhcpAck * Instant) :=
  match s with
  | SBound a t | SRenew a t _ _ => Some (a, t)
  | _ => None
  end.
Definition ack_prefix (a : DhcpAck) : Z := default 24 (ok (mask_to_prefix_len (ack_mask a))).
Definition lease_of (a : DhcpAck) : WanLease :=
  mkWanLease (Some (ack_ip a)) (Some (prefix_len_to_mask (ack_prefix a)))
    (Some (default UNSPECIFIED (ack_gateway a))) (ack_dns_servers a).
Definition lease_in (s : ClientState) : WanLease :=
  from_option (λ p, lease_of p.1) WanLease_default (held s).

(** What a message does to the published lease. *)
Definition published (w : WanLease) (m : DhcpClientToParentMsg) : WanLease :=
  match m with
  | ApplyWanLease ip p gw dns =>
      mkWanLease (Some ip) (Some (prefix_len_to_mask p)) (Some gw) dns
  | ClearWanLease => WanLease_default
  | _ => w
  end.

Section worker_lease.
Context {PN : Pnet} (decode : list Z → option Message) (mac : MacAddr).

(** Every error path ends without a lease. *)
Lemma phase_failed_held e : held (phase_failed e).1 = None.
Proof. by destruct e. Qed.
Lemma bound_failed_spec e :
  ∃ s out, bound_failed e = (s, ClearWanLease :: out) ∧ held s = None ∧
    (out = [] ∨ out = [ClearWanLease]).
Proof. destruct e; eexists _, _; cbn; eauto. Qed.

Lemma bound_failed_published e w :
  foldl published w (bound_failed e).2 = lease_in (bound_failed e).1.
Proof. by destruct e. Qed.
Lemma phase_failed_published e w :
  w = WanLease_default → foldl published w (phase_failed e).2 = lease_in (phase_failed e).1.
Proof. intros ->. by destruct e. Qed.
Lemma enter_bound_published env a w :
  foldl published w (enter_bound env a).2 = lease_in (enter_bound env a).1.
Proof. unfold enter_bound. by destruct (ce_send_ok env). Qed.

(** One turn of the worker: the messages it sends take the published lease
    from the one of its state to the one of its next state. *)
Lemma client_step_published env s :
  foldl published (lease_in s) (client_step decode mac env s).2
  = lease_in (client_step decode mac env s).1.
Proof.
  destruct s as [xid delay | xid offer delay | a t | a t x sent | |]; cbn [client_step].
  - unfold discover_phase.
    destruct (wait_for_offer _ _ _ _) as [[offer|]|e]; [done.. |].
    pose proof (phase_failed_published e WanLease_default eq_refl).
    by destruct (phase_failed e).
  - unfold request_phase.
    destruct (wait_for_ack _ _ _ _) as [r|e].
    2: { pose proof (phase_failed_published e WanLease_default eq_refl).
         by destruct (phase_failed e). }
    destruct (r ≫= handle_ack_result) as [[a|e]|]; [| |done].
    + pose proof (enter_bound_published env a WanLease_default).
      by destruct (enter_bound env a).
    + pose proof (phase_failed_published e WanLease_default eq_refl).
      by destruct (phase_failed e).
  - unfold bound_phase. case_bool_decide; [apply bound_failed_published |].
    case_bool_decide; [|done]. by destruct (ce_inbox env) as [|[] ?].
  - unfold renew_lease. case_bool_decide; [done |].
    destruct (calculate_renewal_params _ _ _ _) as [[interval dest] rebinding].
    set (b := match sent with Some _ => _ | None => _ end).
    set (m := SendRequest _ _ _ _).
    assert (∀ out, foldl published (lease_in (SRenew a t x sent))
      ((if b then [m] else []) ++ out) = foldl published (lease_of a) out) as Hs
      by (intros out; by destruct b).
    destruct (wait_for_ack _ _ _ _) as [[[new| |]|]|e].
    + pose proof (enter_bound_published env new (lease_of a)) as He.
      destruct (enter_bound env new). cbn [snd fst foldl published] in *. by rewrite Hs.
    + pose proof (bound_failed_published ErrNak (lease_of a)) as He.
      destruct (bound_failed ErrNak). cbn [snd fst foldl published] in *. by rewrite Hs.
    + cbn [snd fst foldl published]. by rewrite Hs.
    + cbn [snd fst foldl published]. by rewrite Hs.
    + pose proof (bound_failed_published e (lease_of a)) as He.
      destruct (bound_failed e). cbn [snd fst foldl published] in *. by rewrite Hs.
  - unfold handle_phase_failure. by destruct (ce_inbox env) as [|[] ?].
  - done.
Qed.

Lemma client_run_published envs s :
  foldl published (lease_in s) (client_run decode mac envs s).2
  = lease_in (client_run decode mac envs s).1.
Proof.
  revert s. induction envs as [|env envs IH]; intros s; [done |]. cbn [client_run].
  pose proof (client_step_published env s) as Hs.
  destruct (client_step decode mac env s) as [s1 o1]. specialize (IH s1).
  destruct (client_run decode mac envs s1) as [s2 o2]. cbn [fst snd] in *.
  by rewrite foldl_app, Hs.
Qed.
End worker_lease.

(** A turn in which nothing arrives. *)
Definition silent (turn : Instant * Instant) : ClientEnv :=
  mkClientEnv turn.1 turn.2 0 [] true.

(** Finding: a server that falls silent after its offer is asked for ever.  The
    REQUEST phase has no time-out of its own: however many turns pass without
    an answer, the worker stays in it, with the same offer, and never sends
    another DISCOVER. *)
Theorem silent_request_never_restarts {PN : Pnet} (decode : list Z → option Message)
    (mac : MacAddr) xid offer delay turns :
  ∃ delay' out,
    client_run decode mac (silent <$> turns) (SRequest xid offer delay)
      = (SRequest xid offer delay', out) ∧
    ∀ m, m ∈ out → m = ClientHeartbeat ∨
      m = SendRequest xid (offered_ip offer) (offer_server_ip offer) UNSPECIFIED.
Proof.
  revert delay. induction turns as [|t turns IH]; intros delay.
  { exists delay, []. split; [done |]. by intros m ?%not_elem_of_nil. }
  destruct (IH (calculate_next_delay delay)) as (delay' & out & E & Hout).
  exists delay'. eexists. cbn [fmap list_fmap client_run client_step].
  split; [simpl; by rewrite E |]. intros m Hm. cbn [app] in Hm.
  apply elem_of_cons in Hm as [-> | [-> | Hm]%elem_of_cons]; [by left | by right |].
  by apply Hout.
Qed.

(** ** The lease the parent publishes and the address the interface has *)

(** The worker's messages among the events of the parent. *)
Definition worker_msg (e : ClientParentEvent) : option DhcpClientToParentMsg :=
  match e with EvWorkerMsg m _ => Some m | _ => None end.

(** The addresses of the interface after an action. *)
Definition interface_addresses (l : list (Ipv4Addr * Z)) (a : ClientParentAction) :
    list (Ipv4Addr * Z) :=
  match a with
  | CFlushAddresses _ => []
  | CAddAddress _ ip p => l ++ [(ip, p)]
  | _ => l
  end.

(** The addresses that belong to a published lease. *)
Definition lease_addresses (w : WanLease) : list (Ipv4Addr * Z) :=
  match wl_ip w, wl_mask w with
  | Some ip, Some mask =>
      match mask_to_prefix_len mask with Ok p => [(ip, p)] | Err _ => [] end
  | _, _ => []
  end.

(** Every request of the kernel succeeds. *)
Definition netlink_works (nl : NetlinkEnv) : Prop :=
  is_Some (nl_index nl) ∧ nl_flush nl = true ∧ nl_connection nl = true ∧
  nl_link_up nl = true ∧ nl_add_address nl = true.
Definition event_works (e : ClientParentEvent) : Prop :=
  match e with EvWorkerMsg _ nl => netlink_works nl | _ => True end.

Lemma prefix_mask_prefix p : ∃ p', mask_to_prefix_len (prefix_len_to_mask p) = Ok p'.
Proof.
  destruct (decide (0 ≤ p ≤ 32)) as [Hp | Hp].
  { exists p. apply mask_to_prefix_len_iff; [apply prefix_len_to_mask_u32 | done]. }
  destruct (decide (p > 32)) as [Hgt | Hlt].
  - exists 0. unfold prefix_len_to_mask. by rewrite (bool_decide_true (p > 32)), orb_true_r.
  - exists 0. unfold prefix_len_to_mask, u32_shl.
    rewrite (bool_decide_false (p = 0)), (bool_decide_false (p > 32)) by lia. simpl orb. cbv iota.
    replace u32_max with (Z.ones 32) by reflexivity.
    rewrite Z.land_ones by lia.
    replace (32 - p) with (32 + -p) by lia.
    rewrite Z.shiftl_mul_pow2, Z.pow_add_r, Z.mul_assoc by lia.
    rewrite <-(Z.mul_comm (2 ^ (-p))), Z.mul_assoc, Z.mod_mul by lia. by vm_compute.
Qed.

Lemma ack_prefix_mask a : mask_to_prefix_len (prefix_len_to_mask (ack_prefix a)) = Ok (ack_prefix a).
Proof.
  apply mask_to_prefix_len_iff; [apply prefix_len_to_mask_u32 |]. split; [|done].
  unfold ack_prefix, mask_to_prefix_len. case_bool_decide; [simpl; lia |]. simpl.
  destruct (leading_ones_from_spec 32 (ack_mask a)) as [Hl _]. exact Hl.
Qed.

Section parent_lease.
Context {Net : Type} `{!Ipv4NetOps Net} {PN : Pnet} (encode : Message → option (list Z)).
Implicit Types (nl : NetlinkEnv) (w : WanLease).

Lemma act_emit_all_eq {S O} (os : list O) (s : S) : act_emit_all os s = (tt, s, os).
Proof. unfold act_emit_all. rewrite (act_iter_emit id). by rewrite list_fmap_id. Qed.

Lemma apply_parent_lease_eq nl ip mask gw dns w :
  apply_parent_lease (Net := Net) nl ip mask gw dns w =
  let new := mkWanLease (Some ip) (Some mask) (Some gw) dns in
  (tt, new, if decide (w = new) then []
            else CPublish new :: configure_wan (Net := Net) nl ip mask (Some gw)).
Proof.
  unfold apply_parent_lease, act_when, act_get, act_modify, act_emit, mbind, act_bind.
  simpl. case_bool_decide as Hd; case_decide; try done; subst; [|done].
  by rewrite act_emit_all_eq.
Qed.

Lemma clear_parent_lease_eq nl w :
  clear_parent_lease nl w =
  (tt, WanLease_default, CPublish WanLease_default ::
     match wl_ip w, wl_mask w with
     | Some ip, Some mask => deconfigure_wan nl ip mask
     | _, _ => []
     end).
Proof.
  unfold clear_parent_lease, act_get, act_modify, act_emit, mbind, act_bind. simpl.
  destruct (wl_ip w) as [ip|], (wl_mask w) as [mask|]; try done.
  by rewrite act_emit_all_eq.
Qed.

Lemma send_built_eq r w :
  send_built r w = (tt, w, match r with Ok frame => [CSendFrame frame] | Err _ => [] end).
Proof. by destruct r. Qed.

(** The messages that only send a packet. *)
Lemma handle_send_discover_eq wan_mac xid w :
  ∃ out, handle_send_discover encode wan_mac xid w = (tt, w, out) ∧
    ∀ l, foldl interface_addresses l out = l.
Proof.
  unfold handle_send_discover. destruct (encode _); [|by eexists].
  rewrite send_built_eq. eexists. split; [done |]. by destruct (build_raw_packet _ _ _ _ _ _ _).
Qed.
Lemma handle_send_request_eq wan_mac xid ip srv ciaddr w :
  ∃ out, handle_send_request encode wan_mac xid ip srv ciaddr w = (tt, w, out) ∧
    ∀ l, foldl interface_addresses l out = l.
Proof.
  unfold handle_send_request. destruct (encode _); [|by eexists].
  destruct (if is_unspecified ciaddr then _ else _) as [src dst].
  rewrite send_built_eq. eexists. split; [done |]. by destruct (build_raw_packet _ _ _ _ _ _ _).
Qed.

(** A message changes the published lease as [published] says and, when the
    kernel does what it is asked to, the addresses with it. *)
Lemma handle_client_ipc_msg_spec hb wan_mac nl m w :
  ∃ out, handle_client_ipc_msg (Net := Net) encode hb wan_mac nl m w = (tt, published w m, out) ∧
    (netlink_works nl →
     foldl interface_addresses (lease_addresses w) out = lease_addresses (published w m)).
Proof.
  unfold handle_client_ipc_msg.
  assert (∀ k w' out, k w = (tt, w', out) →
    (netlink_works nl → foldl interface_addresses (lease_addresses w) out = lease_addresses w') →
    ∃ out', (let* _ := act_when hb (act_emit CHeartbeat) in k) w = (tt, w', out') ∧
      (netlink_works nl →
       foldl interface_addresses (lease_addresses w) out' = lease_addresses w')) as Hhb.
  { intros k w' out E Hl. unfold mbind, act_bind, act_when. destruct hb; simpl; rewrite E.
    - by eexists. - by exists out. }
  destruct m as [xid | xid ip srv ci | ip p gw dns | |].
  - destruct (handle_send_discover_eq wan_mac xid w) as (out & E & Hl).
    by eapply Hhb; [exact E | intros _; apply Hl].
  - destruct (handle_send_request_eq wan_mac xid ip srv ci w) as (out & E & Hl).
    by eapply Hhb; [exact E | intros _; apply Hl].
  - eapply Hhb; [apply apply_parent_lease_eq |]. intros ((i & Hi) & Hf & Hc & Hu & Ha).
    cbn zeta. case_decide as Hd; [by rewrite Hd |].
    destruct (prefix_mask_prefix p) as [p' Hp'].
    unfold configure_wan, lease_addresses. cbn [published wl_ip wl_mask]. rewrite Hp', Hi, Hf, Hc, Hu, Ha. simpl.
    by destruct (is_valid_gateway _ _ _).
  - eapply Hhb; [apply clear_parent_lease_eq |]. intros ((i & Hi) & _).
    unfold lease_addresses, deconfigure_wan. rewrite Hi.
    destruct (wl_ip w) as [ip|]; [|done]. destruct (wl_mask w) as [mask|]; [|done].
    by destruct (mask_to_prefix_len mask).
  - eapply Hhb; [reflexivity | done].
Qed.

Lemma parent_loop_spec hb wan_mac events w :
  act_result (parent_loop (Net := Net) encode hb wan_mac events) w = true →
  act_state (parent_loop (Net := Net) encode hb wan_mac events) w
    = foldl published w (omap worker_msg events) ∧
  (Forall event_works events →
   foldl interface_addresses (lease_addresses w)
     (act_out (parent_loop (Net := Net) encode hb wan_mac events) w)
   = lease_addresses (foldl published w (omap worker_msg events))).
Proof.
  revert w. induction events as [|e events IH]; intros w; [done |]. cbn [parent_loop].
  autorewrite with act.
  destruct e as [frame [] | | m nl | |]; cbn [omap list_omap worker_msg]; try done.
  - unfold act_result, act_state, act_out. simpl. intros Hr. destruct (IH w Hr) as [H1 H2].
    split; [done |]. intros [_ Hw]%Forall_cons. exact (H2 Hw).
  - unfold act_result, act_state, act_out. simpl. intros Hr. destruct (IH w Hr) as [H1 H2].
    split; [done |]. intros [_ Hw]%Forall_cons. exact (H2 Hw).
  - destruct (handle_client_ipc_msg_spec hb wan_mac nl m w) as (out & E & Hl).
    unfold act_result, act_state, act_out, monitor_turn, mbind, act_bind. rewrite E.
    simpl. intros Hr. destruct (IH _ Hr) as [H1 H2]. split; [done |].
    intros [Hw Hws]%Forall_cons. rewrite app_nil_r, foldl_app, (Hl Hw). exact (H2 Hws).
Qed.
End parent_lease.

(** What the parent publishes is what the worker holds. *)
Lemma client_lease_published {Net : Type} `{!Ipv4NetOps Net} {PN : Pnet}
    (encode : Message → option (list Z)) (decode : list Z → option Message)
    (mac wan_mac : MacAddr) envs xid hb events s out :
  client_run decode mac envs (SDiscover xid INITIAL_RETRY_DELAY_SECS) = (s, out) →
  omap worker_msg events = out →
  let monitor := run_parent_dhcp_monitor (Net := Net) encode hb (Some wan_mac) events in
  act_result monitor WanLease_default = true →
  act_state monitor WanLease_default = lease_in s.
Proof.
  intros Hrun Hev monitor Hres. unfold monitor in *.
  pose proof (client_run_published decode mac envs (SDiscover xid INITIAL_RETRY_DELAY_SECS)) as Hp.
  rewrite Hrun in Hp. cbn [fst snd] in Hp. rewrite <-Hev in Hp.
  unfold run_parent_dhcp_monitor in *. autorewrite with act in *.
  unfold act_result in Hres at 1. simpl in Hres.
  destruct (parent_loop_spec encode hb wan_mac events WanLease_default Hres) as [H1 _].
  rewrite Hres. simpl. by rewrite H1.
Qed.

(** C8: the WAN lease and the WAN address follow the client.  Run the worker
    over any sequence of packets, losses, time-outs and failures, and let its
    parent handle the messages, interleaved with any traffic.  As long as the
    monitor runs, the lease the parent publishes to the rest of the router is
    exactly the lease of the acknowledgement the worker holds, and the empty
    lease when it holds none; and if the kernel carries out the requests, the
    interface has exactly the leased address with the leased prefix, or no
    address. *)
Theorem wan_lease_follows_client {Net : Type} `{!Ipv4NetOps Net} {PN : Pnet}
    (encode : Message → option (list Z)) (decode : list Z → option Message)
    (mac wan_mac : MacAddr) envs xid hb events s out :
  client_run decode mac envs (SDiscover xid INITIAL_RETRY_DELAY_SECS) = (s, out) →
  omap worker_msg events = out →
  act_result (run_parent_dhcp_monitor (Net := Net) encode hb (Some wan_mac) events)
    WanLease_default = true →
  act_state (run_parent_dhcp_monitor (Net := Net) encode hb (Some wan_mac) events)
    WanLease_default = lease_in s ∧
  (Forall event_works events →
   foldl interface_addresses []
     (act_out (run_parent_dhcp_monitor (Net := Net) encode hb (Some wan_mac) events)
        WanLease_default)
   = match held s with Some (a, _) => [(ack_ip a, ack_prefix a)] | None => [] end).
Proof.
  intros Hrun Hev Hres.
  pose proof (client_run_published decode mac envs (SDiscover xid INITIAL_RETRY_DELAY_SECS)) as Hp.
  rewrite Hrun in Hp. cbn [fst snd] in Hp. rewrite <-Hev in Hp.
  unfold run_parent_dhcp_monitor in *. autorewrite with act in *.
  unfold act_result in Hres at 1. simpl in Hres.
  destruct (parent_loop_spec encode hb wan_mac events WanLease_default Hres) as [H1 H2].
  rewrite Hres. simpl. rewrite H1.
  split; [exact Hp |]. intros Hw. specialize (H2 Hw).
  change (lease_addresses WanLease_default) with (@nil (Ipv4Addr * Z)) in H2.
  rewrite app_nil_r, H2.
  change WanLease_default with (lease_in (SDiscover xid INITIAL_RETRY_DELAY_SECS)).
  rewrite Hp. unfold lease_in, lease_addresses.
  destruct (held s) as [[a t]|]; [|done]. cbn. by rewrite ack_prefix_mask.
Qed.

(** ** Timing *)

(** How long a turn may wait for packets when a lease is held; the phases
    without a lease may wait for any time. *)
Definition wait_limit (now : Instant) (s : ClientState) : option Duration :=
  match s with
  | SBound a t =>
      let elapsed := as_secs_u32 (duration_since now t) in
      let t1_secs := ack_lease_secs a / 2 in
      if bool_decide (elapsed < t1_secs)
      then Some (from_secs (Z.min BOUND_HEARTBEAT_INTERVAL_SECS (t1_secs - elapsed)))
      else Some 0
  | SRenew a t _ _ =>
      let elapsed := as_secs_u32 (duration_since now t) in
      let '(retry_interval, _, _) :=
        calculate_renewal_params elapsed (t2_of (ack_lease_secs a)) (ack_lease_secs a)
          (ack_server_ip a) in
      Some (from_secs retry_interval)
  | _ => None
  end.

Lemma renewal_interval_bounds elapsed lease srv interval dest rebinding :
  0 ≤ elapsed < lease → 
  calculate_renewal_params elapsed (t2_of lease) lease srv = (interval, dest, rebinding) →
  1 ≤ interval ∧ elapsed + interval ≤ (if rebinding then lease else t2_of lease).
Proof.
  intros He. unfold calculate_renewal_params, u32_saturating_sub.
  assert (t2_of lease ≤ lease) as Ht2
    by (unfold t2_of; apply Z.div_le_upper_bound; lia).
  revert Ht2. generalize (t2_of lease). intros t2 Ht2.
  case_bool_decide as Hr; rewrite Z.max_r by lia; case_bool_decide as H60;
    intros [= <- <- <-]; Z.to_euclidean_division_equations; lia.
Qed.

Section timing.
Context {PN : Pnet} (decode : list Z → option Message) (mac : MacAddr).
(** The latency of the scheduler and of the parent, per turn. *)
Context (slack : Duration).

(** The turns follow each other, and none overruns its wait by more than
    [slack]. *)
Definition prompt_step (env : ClientEnv) (s : ClientState) : Prop :=
  ce_now env ≤ ce_fin env ∧
  match wait_limit (ce_now env) s with
  | Some d => ce_fin env ≤ ce_now env + d + slack
  | None => True
  end.
Fixpoint prompt (now : Instant) (envs : list ClientEnv) (s : ClientState) : Prop :=
  match envs with
  | [] => True
  | env :: envs' =>
      ce_now env = now ∧ prompt_step env s ∧
      prompt (ce_fin env) envs' (client_step decode mac env s).1
  end.
Definition end_time (now : Instant) (envs : list ClientEnv) : Instant :=
  from_option ce_fin now (last envs).

(** A lease time that the 32-bit second counter can tell from its
    successors; 0xffffffff, DHCP's infinite lease, is not one. *)
Definition finite_lease (a : DhcpAck) : Prop := 0 ≤ ack_lease_secs a < 2 ^ 32 - 2.

Definition in_time (now : Instant) (s : ClientState) : Prop :=
  ∀ a t, held s = Some (a, t) → finite_lease a →
    t ≤ now < t + from_secs (ack_lease_secs a + 1) + slack.

Hypothesis slack_small : 0 ≤ slack ≤ NANOS.

Lemma elapsed_secs now s a t :
  in_time now s → held s = Some (a, t) → finite_lease a →
  0 ≤ as_secs_u32 (duration_since now t) ∧
  from_secs (as_secs_u32 (duration_since now t)) ≤ now - t
    < from_secs (as_secs_u32 (duration_since now t) + 1).
Proof.
  intros Hin Hh Hl. destruct (Hin a t Hh Hl) as [H1 H2]. unfold finite_lease in Hl.
  unfold as_secs_u32, duration_since. rewrite Z.max_r by lia.
  unfold as_secs, from_secs, NANOS in *.
  pose proof (Z.div_mod (now - t) 1000000000 ltac:(done)).
  pose proof (Z.mod_pos_bound (now - t) 1000000000 ltac:(done)).
  assert (0 ≤ (now - t) / 1000000000 < 2 ^ 32) by lia.
  rewrite Z.mod_small by lia. lia.
Qed.

Lemma in_time_none now s : held s = None → in_time now s.
Proof. intros E a t E'. congruence. Qed.
Lemma in_time_bound env a : in_time (ce_fin env) (enter_bound env a).1.
Proof.
  unfold enter_bound. destruct (ce_send_ok env); [|by apply in_time_none].
  intros a' t [= <- <-] Hl. unfold finite_lease, from_secs, NANOS in *. lia.
Qed.
Lemma in_time_failed now e : in_time now (bound_failed e).1.
Proof. apply in_time_none. by destruct e. Qed.

Lemma t2_of_le lease : 0 ≤ lease → t2_of lease ≤ lease.
Proof. intros H. unfold t2_of. apply Z.div_le_upper_bound; lia. Qed.

Lemma bound_in_time env a t :
  in_time (ce_now env) (SBound a t) → prompt_step env (SBound a t) →
  in_time (ce_fin env) (bound_phase env a t).1.
Proof.
  intros Hin [Hle Hwait]. unfold bound_phase. cbn [wait_limit] in Hwait.
  set (e := as_secs_u32 _) in *.
  destruct (bool_decide_reflect (ack_lease_secs a ≤ e)) as [Hexp | Hexp]; [apply in_time_failed |].
  assert (∀ s, held s = Some (a, t) → in_time (ce_fin env) s) as Hheld.
  { intros s Hs a' t' Ha Hl. rewrite Hs in Ha. injection Ha as <- <-.
    destruct (elapsed_secs _ _ a t Hin eq_refl Hl) as [He0 He]. fold e in He, He0.
    destruct (Hin a t eq_refl Hl) as [Ht _]. unfold finite_lease in Hl.
    case_bool_decide as Ht1;
      unfold from_secs, NANOS in *; Z.to_euclidean_division_equations; lia. }
  destruct (bool_decide (e < ack_lease_secs a / 2)); [|by apply Hheld].
  destruct (ce_inbox env) as [|[frame| |] rest]; first [by apply Hheld | by apply in_time_none].
Qed.

Lemma renew_in_time env a t x sent :
  in_time (ce_now env) (SRenew a t x sent) → prompt_step env (SRenew a t x sent) →
  in_time (ce_fin env) (renew_lease decode mac env a t x sent).1.
Proof.
  intros Hin [Hle Hwait]. unfold renew_lease. cbn [wait_limit] in Hwait.
  set (e := as_secs_u32 (duration_since (ce_now env) t)) in *.
  case_bool_decide as Hexp; [by apply in_time_none |].
  destruct (calculate_renewal_params _ _ _ _) as [[interval dest] rebinding] eqn:Hc.
  assert (∀ sent', in_time (ce_fin env) (SRenew a t x sent')) as Hheld.
  { intros sent' a' t' [= <- <-] Hl.
    destruct (elapsed_secs _ _ a t Hin eq_refl Hl) as [He0 He]. fold e in He, He0.
    destruct (Hin a t eq_refl Hl) as [Ht _]. unfold finite_lease in Hl.
    destruct (renewal_interval_bounds e (ack_lease_secs a) _ _ _ _ ltac:(lia) Hc) as [_ Hb].
    pose proof (t2_of_le (ack_lease_secs a) ltac:(lia)).
    destruct rebinding; unfold from_secs, NANOS in *; lia. }
  destruct (wait_for_ack _ _ _ _) as [[[new| |]|]|err].
  - pose proof (in_time_bound env new). by destruct (enter_bound env new).
  - by apply in_time_none.
  - apply Hheld.
  - apply Hheld.
  - pose proof (in_time_failed (ce_fin env) err). by destruct (bound_failed err).
Qed.

Lemma client_step_in_time env s :
  in_time (ce_now env) s → prompt_step env s →
  in_time (ce_fin env) (client_step decode mac env s).1.
Proof.
  intros Hin Hp. destruct s as [xid delay | xid offer delay | a t | a t x sent | |];
    cbn [client_step].
  - apply in_time_none. unfold discover_phase.
    destruct (wait_for_offer _ _ _ _) as [[offer|]|e]; [done.. |].
    pose proof (phase_failed_held e). by destruct (phase_failed e).
  - unfold request_phase.
    destruct (wait_for_ack _ _ _ _) as [r|e].
    2: { pose proof (phase_failed_held e). apply in_time_none. by destruct (phase_failed e). }
    destruct (r ≫= handle_ack_result) as [[a|e]|]; [| |by apply in_time_none].
    + pose proof (in_time_bound env a). by destruct (enter_bound env a).
    + pose proof (phase_failed_held e). apply in_time_none. by destruct (phase_failed e).
  - by apply bound_in_time.
  - by apply renew_in_time.
  - unfold handle_phase_failure. apply in_time_none. by destruct (ce_inbox env) as [|[] ?].
  - by apply in_time_none.
Qed.

Lemma client_run_in_time now envs s :
  in_time now s → prompt now envs s →
  in_time (end_time now envs) (client_run decode mac envs s).1.
Proof.
  revert now s. induction envs as [|env envs IH]; intros now s Hin; [done |].
  intros (<- & Hp & Hrest). cbn [client_run].
  pose proof (client_step_in_time env s Hin Hp) as Hs.
  destruct (client_step decode mac env s) as [s1 o1]. cbn [fst] in Hs, Hrest.
  specialize (IH _ _ Hs Hrest). destruct (client_run decode mac envs s1) as [s2 o2].
  unfold end_time in *. rewrite last_cons. by destruct (last envs).
Qed.

(** C39: a lease is not used past its end.  Run the worker over any packets
    and losses, with each wait overrunning its deadline by at most [slack] (at
    most a second).  A worker that still holds a lease of a finite lease time
    does so for less than the lease time, a second and [slack] since it was
    acknowledged: the renewal time-outs never wait past the end
    of the lease, and the elapsed time, computed in 32 bits, does not wrap. *)
Theorem lease_not_outlived start envs xid a t :
  prompt start envs (SDiscover xid INITIAL_RETRY_DELAY_SECS) →
  held (client_run decode mac envs (SDiscover xid INITIAL_RETRY_DELAY_SECS)).1 = Some (a, t) →
  finite_lease a →
  t ≤ end_time start envs < t + from_secs (ack_lease_secs a + 1) + slack.
Proof.
  intros Hp Hh Hl. eapply (client_run_in_time start envs); [|exact Hp | exact Hh | exact Hl].
  by apply in_time_none.
Qed.
End timing.

(** ** Where a lease comes from *)

Section provenance.
Context {PN : Pnet} (decode : list Z → option Message) (mac : MacAddr).

(** The worker received an acknowledgement of transaction [xid], addressed to
    it, that grants [a]. *)
Definition acked (inbox : list Recv) (xid : Z) (a : DhcpAck) : Prop :=
  ∃ frame dhcp, RFrame frame ∈ inbox ∧
    parse_dhcp_payload decode frame CLIENT_PORT = Some dhcp ∧
    take 6 (msg_chaddr dhcp) = mac_octets mac ∧ msg_xid dhcp = xid ∧
    opt_message_type dhcp = Some Ack ∧ ack_ip a = msg_yiaddr dhcp ∧
    parse_ack_nak dhcp xid = PAck a.

Lemma accept_frame_Some frame dhcp :
  accept_frame decode mac frame = Some dhcp →
  parse_dhcp_payload decode frame CLIENT_PORT = Some dhcp ∧
  take 6 (msg_chaddr dhcp) = mac_octets mac.
Proof.
  unfold accept_frame. destruct (parse_dhcp_payload _ _ _) as [d|]; [|done]. simpl.
  case_bool_decide; [|done]. by intros [= <-].
Qed.

Lemma parse_ack_nak_Ack dhcp xid a :
  parse_ack_nak dhcp xid = PAck a →
  msg_xid dhcp = xid ∧ opt_message_type dhcp = Some Ack ∧ ack_ip a = msg_yiaddr dhcp.
Proof.
  unfold parse_ack_nak, opt_message_type. case_bool_decide as Hx; [done |].
  destruct (msg_opts dhcp !! MESSAGE_TYPE) as [o|]; [|done].
  destruct o as [t| | | | | | | | | | |]; try done. destruct t; try done. by intros [= <-].
Qed.

Lemma wait_for_ack_Ack xid inbox a :
  wait_for_ack decode mac xid inbox = Ok (Some (PAck a)) → acked inbox xid a.
Proof.
  induction inbox as [|[frame| |] inbox IH]; try done. simpl.
  assert (acked inbox xid a → acked (RFrame frame :: inbox) xid a) as Hmono.
  { intros (f & d & Hin & H). exists f, d. split; [by apply list_elem_of_further | exact H]. }
  destruct (accept_frame decode mac frame) as [dhcp|] eqn:Ha; [|auto].
  destruct (parse_ack_nak dhcp xid) as [a'| |] eqn:Hp; [|done | auto].
  intros [= ->]. apply accept_frame_Some in Ha as [Hd Hm].
  apply parse_ack_nak_Ack in Hp as Hk. destruct Hk as (? & ? & ?).
  exists frame, dhcp. split_and!; [apply list_elem_of_here | done..].
Qed.

(** A request of transaction [xid] was sent. *)
Definition requested (past : list DhcpClientToParentMsg) (xid : Z) : Prop :=
  ∃ ip srv ci, SendRequest xid ip srv ci ∈ past.

(** A renewal that was sent is among the messages. *)
Definition renewal_sent (past : list DhcpClientToParentMsg) (s : ClientState) : Prop :=
  match s with
  | SRenew _ _ x (Some _) => requested past x
  | _ => True
  end.

(** A lease among the messages [out] is one that was requested and
    acknowledged. *)
Definition justified (inbox : list Recv) (past out : list DhcpClientToParentMsg) : Prop :=
  ∀ pre post ip p gw dns, out = pre ++ ApplyWanLease ip p gw dns :: post →
    ∃ xid a, requested (past ++ pre) xid ∧ acked inbox xid a ∧
      apply_lease_config a = ApplyWanLease ip p gw dns.

Lemma requested_app past out xid : requested past xid → requested (past ++ out) xid.
Proof. intros (ip & srv & ci & Hin). exists ip, srv, ci. apply elem_of_app. by left. Qed.

Definition is_apply (m : DhcpClientToParentMsg) : bool :=
  match m with ApplyWanLease _ _ _ _ => true | _ => false end.

Lemma justified_none inbox past out : forallb (negb ∘ is_apply) out = true →
  justified inbox past out.
Proof.
  intros Hf pre post ip p gw dns ->. rewrite forallb_app in Hf. simpl in Hf.
  by rewrite andb_false_r in Hf.
Qed.

Lemma justified_enter inbox past sent env xid a :
  forallb (negb ∘ is_apply) sent = true → requested (past ++ sent) xid → acked inbox xid a →
  justified inbox past (sent ++ (enter_bound env a).2).
Proof.
  intros Hf Hreq Hack pre post ip p gw dns Heq. unfold enter_bound in Heq.
  destruct (ce_send_ok env); cbn [snd phase_failed] in Heq.
  - exists xid, a. apply app_eq_inv in Heq as [(k & E1 & E2) | (k & E1 & E2)].
    + destruct k as [|m k].
      * rewrite app_nil_r in E1. subst. apply (f_equal (hd ClearWanLease)) in E2. by split_and!.
      * exfalso. simplify_eq/=. rewrite forallb_app in Hf. simpl in Hf.
        by rewrite andb_false_r in Hf.
    + destruct k as [|m k]; [|by destruct k]. apply (f_equal (hd ClearWanLease)) in E2.
      subst pre. rewrite app_nil_r. by split_and!.
  - exfalso. change (phase_failed ErrIo).2 with [ClearWanLease] in Heq.
    assert (forallb (negb ∘ is_apply) (sent ++ [ClearWanLease]) = true) as Hn
      by (by rewrite forallb_app, Hf).
    rewrite Heq, forallb_app in Hn. simpl in Hn. by rewrite andb_false_r in Hn.
Qed.

Lemma forallb_failed e : forallb (negb ∘ is_apply) (phase_failed e).2 = true.
Proof. by destruct e. Qed.

Lemma request_justified past env xid offer delay :
  justified (ce_inbox env) past (request_phase decode mac env xid offer delay).2 ∧
  ∀ past', renewal_sent past' (request_phase decode mac env xid offer delay).1.
Proof.
  unfold request_phase.
  destruct (wait_for_ack _ _ _ _) as [r|e] eqn:Hw.
  2: { pose proof (forallb_failed e) as Hf. destruct e; (split; [by apply justified_none | done]). }
  destruct r as [r|]; [|split; [by apply justified_none | done]].
  destruct r as [a| |]; cbn [mbind option_bind handle_ack_result].
  - apply wait_for_ack_Ack in Hw. unfold justified.
    pose proof (justified_enter (ce_inbox env) past
      [ClientHeartbeat; SendRequest xid (offered_ip offer) (offer_server_ip offer) UNSPECIFIED]
      env xid a eq_refl) as Hj.
    assert (∀ past', renewal_sent past' (enter_bound env a).1) as Hr
      by (intros past'; unfold enter_bound; by destruct (ce_send_ok env)).
    destruct (enter_bound env a) as [s o]. split; [|exact Hr]. apply Hj; [|done].
    eexists _, _, _. apply elem_of_app. right. apply list_elem_of_further, list_elem_of_here.
  - split; [by apply justified_none | done].
  - split; [by apply justified_none | done].
Qed.

Lemma renew_justified past env a t x sent :
  renewal_sent past (SRenew a t x sent) →
  justified (ce_inbox env) past (renew_lease decode mac env a t x sent).2 ∧
  renewal_sent (past ++ (renew_lease decode mac env a t x sent).2)
    (renew_lease decode mac env a t x sent).1.
Proof.
  intros Hs. unfold renew_lease. case_bool_decide; [split; [by apply justified_none | done] |].
  destruct (calculate_renewal_params _ _ _ _) as [[interval dest] rebinding].
  set (b := match sent with Some _ => _ | None => _ end).
  set (m := SendRequest _ _ _ _).
  set (pre := ClientHeartbeat :: if b then [m] else []).
  assert (requested (past ++ pre) x) as Hreq.
  { destruct b eqn:Eb; unfold pre.
    - eexists _, _, _. apply elem_of_app. right. apply list_elem_of_further, list_elem_of_here.
    - unfold b in Eb. destruct sent; [|done]. by apply requested_app. }
  assert (forallb (negb ∘ is_apply) pre = true) as Hf by (unfold pre; by destruct b).
  assert (∀ out, forallb (negb ∘ is_apply) out = true →
    justified (ce_inbox env) past (pre ++ out)) as Hnone
    by (intros out Ho; apply justified_none; by rewrite forallb_app, Hf).
  assert (renewal_sent (past ++ pre ++ [])
    (SRenew a t x (if b then Some (ce_now env) else sent))) as Hkeep.
  { rewrite app_nil_r. cbn [renewal_sent]. destruct b; [done |]. by destruct sent. }
  destruct (wait_for_ack _ _ _ _) as [[[new| |]|]|e] eqn:Hw.
  - apply wait_for_ack_Ack in Hw.
    pose proof (justified_enter (ce_inbox env) past pre env x new Hf Hreq Hw) as Hj.
    assert (∀ past', renewal_sent past' (enter_bound env new).1) as Hr
      by (intros past'; unfold enter_bound; by destruct (ce_send_ok env)).
    destruct (enter_bound env new) as [s o]. split; [exact Hj | apply Hr].
  - split; [by apply (Hnone [ClearWanLease; ClearWanLease]) | done].
  - split; [by apply (Hnone []) | exact Hkeep].
  - split; [by apply (Hnone []) | exact Hkeep].
  - destruct e; (split; [by eapply Hnone | done]).
Qed.

Lemma client_step_justified past env s :
  renewal_sent past s →
  justified (ce_inbox env) past (client_step decode mac env s).2 ∧
  renewal_sent (past ++ (client_step decode mac env s).2) (client_step decode mac env s).1.
Proof.
  intros Hs. destruct s as [xid delay | xid offer delay | a t | a t x sent | |];
    cbn [client_step].
  - unfold discover_phase.
    destruct (wait_for_offer _ _ _ _) as [[offer|]|[]]; (split; [by apply justified_none | done]).
  - destruct (request_justified past env xid offer delay) as [Hj Hr]. split; [done | apply Hr].
  - unfold bound_phase. case_bool_decide; [split; [by apply justified_none | done] |].
    case_bool_decide; [|split; [by apply justified_none | done]].
    destruct (ce_inbox env) as [|[] ?]; (split; [by apply justified_none | done]).
  - by apply renew_justified.
  - unfold handle_phase_failure.
    destruct (ce_inbox env) as [|[] ?]; (split; [by apply justified_none | done]).
  - split; [by apply justified_none | done].
Qed.

Lemma client_run_justified past envs s pre post ip p gw dns :
  renewal_sent past s →
  (client_run decode mac envs s).2 = pre ++ ApplyWanLease ip p gw dns :: post →
  ∃ env xid a, env ∈ envs ∧ requested (past ++ pre) xid ∧ acked (ce_inbox env) xid a ∧
    apply_lease_config a = ApplyWanLease ip p gw dns.
Proof.
  revert past s pre. induction envs as [|env envs IH]; intros past s pre Hs; cbn [client_run].
  { intros E. by destruct pre. }
  destruct (client_step_justified past env s Hs) as [Hj Hr].
  destruct (client_step decode mac env s) as [s1 o1]. cbn [fst snd] in Hj, Hr.
  specialize (IH (past ++ o1) s1). destruct (client_run decode mac envs s1) as [s2 o2].
  cbn [fst snd] in *. intros [(k & E1 & E2) | (k & E1 & E2)]%app_eq_inv.
  - destruct k as [|m k].
    + rewrite app_nil_r in E1. subst o1. symmetry in E2.
      destruct (IH [] Hr E2) as (env' & xid & a & Hin & Hq & H).
      exists env', xid, a. split; [by apply list_elem_of_further |].
      by rewrite app_nil_r in Hq.
    + injection E2 as <- E2. destruct (Hj pre k ip p gw dns E1) as (xid & a & H).
      exists env, xid, a. split; [apply list_elem_of_here | done].
  - subst pre. destruct (IH k Hr E2) as (env' & xid & a & Hin & Hq & H).
    exists env', xid, a. split; [by apply list_elem_of_further |].
    by rewrite <-app_assoc in Hq.
Qed.

(** The worker applies only leases it asked for.  Whatever packets arrive
    over a whole run, each lease the worker hands to its parent was granted by
    a DHCPACK received in that run, addressed to the worker's own MAC, for a
    transaction in which the worker had sent a DHCPREQUEST before; and the
    address of the lease is the one that packet grants. *)
Theorem leases_were_acknowledged envs xid0 delay pre post ip p gw dns :
  (client_run decode mac envs (SDiscover xid0 delay)).2
    = pre ++ ApplyWanLease ip p gw dns :: post →
  ∃ env xid a, env ∈ envs ∧ requested pre xid ∧ acked (ce_inbox env) xid a ∧
    apply_lease_config a = ApplyWanLease ip p gw dns.
Proof. apply (client_run_justified []). done. Qed.
End provenance.

(** ** What the parent does for the worker *)

Section confinement.
Context {Net : Type} `{!Ipv4NetOps Net} {PN : Pnet} `{!PnetLaws}.
Context (encode : Message → option (list Z)).

(** The addresses of a message are of their Rust type. *)
Definition client_msg_wf (m : DhcpClientToParentMsg) : Prop :=
  match m with
  | SendRequest _ _ srv ci => is_u32 ci ∧ from_option (is_u 32) True srv
  | _ => True
  end.

(** A DHCP request of the router's own, broadcast on the link. *)
Definition client_frame (wan_mac : MacAddr) (frame : list Z) : Prop :=
  ∃ ep payload msg, frame_of ep payload frame ∧ src_mac ep = wan_mac ∧
    dest_mac ep = mac_broadcast ∧ src_port ep = CLIENT_PORT ∧ dest_port ep = SERVER_PORT ∧
    encode msg = Some payload ∧ msg_opcode msg = BootRequest ∧
    msg_chaddr msg = mac_octets wan_mac.

(** The gateway is on the link of an address. *)
Definition on_link (gw ip : Ipv4Addr) (p : Z) : Prop :=
  gw ≠ UNSPECIFIED ∧ gw ≠ BROADCAST ∧
  ∃ net : Net, net_new ip p = Some net ∧ net_contains net gw = true.

Lemma is_valid_gateway_iff gw ip p : is_valid_gateway (Net := Net) gw ip p = true ↔ on_link gw ip p.
Proof.
  unfold is_valid_gateway, on_link, is_unspecified, is_broadcast.
  rewrite !andb_true_iff, !negb_true_iff, !bool_decide_eq_false. split.
  - intros [[H1 H2] H3]. destruct (net_new ip p) as [net|]; [|done]. split_and!; eauto.
  - intros (H1 & H2 & net & E & H3). by rewrite E.
Qed.

Lemma build_client_frame wan_mac src dst msg payload frame :
  mac_wf wan_mac → is_u32 src → is_u32 dst → encode msg = Some payload →
  msg_opcode msg = BootRequest → msg_chaddr msg = mac_octets wan_mac →
  build_raw_packet wan_mac mac_broadcast src dst CLIENT_PORT SERVER_PORT payload = Ok frame →
  client_frame wan_mac frame.
Proof.
  intros Hm Hs Hd Henc Hop Hch Hb. pose proof ports_u16 as (? & ? & ?).
  exists (mkRawPacketEndpoints wan_mac mac_broadcast src dst CLIENT_PORT SERVER_PORT), payload, msg.
  split_and!; try done. apply send_packet_frame.
  - split_and!; try done. apply mac_broadcast_wf.
  - rewrite Hb. apply list_elem_of_here.
Qed.

Lemma special_u32 : is_u32 UNSPECIFIED ∧ is_u32 BROADCAST.
Proof. unfold is_u, UNSPECIFIED, BROADCAST, u32_max. lia. Qed.

Lemma configure_wan_route nl ip mask gw o :
  o ∈ configure_wan (Net := Net) nl ip mask (Some gw) →
  match o with
  | CSendFrame _ | CPublish _ | CToWorker _ | CTerminateWorker | CHeartbeat => False
  | CAddDefaultRoute index gw' =>
      ∃ p, mask_to_prefix_len mask = Ok p ∧ gw' = gw ∧ on_link gw ip p ∧
        CAddAddress index ip p ∈ configure_wan (Net := Net) nl ip mask (Some gw)
  | _ => True
  end.
Proof.
  unfold configure_wan. destruct (mask_to_prefix_len mask) as [p|]; [|intros []%not_elem_of_nil].
  destruct (nl_index nl) as [i|]; [|intros []%not_elem_of_nil].
  destruct (nl_flush nl), (nl_connection nl), (nl_link_up nl), (nl_add_address nl),
    (is_valid_gateway gw ip p) eqn:Hg; cbn -[elem_of];
  rewrite ?elem_of_cons, ?list_elem_of_singleton; intros Ho;
  repeat destruct Ho as [-> | Ho]; try (by apply not_elem_of_nil in Ho); subst; try done.
  apply is_valid_gateway_iff in Hg. exists p. split_and!; [done.. |].
  rewrite !elem_of_cons. auto.
Qed.

Lemma send_built_frame r w o :
  o ∈ act_out (send_built r) w → ∃ frame, o = CSendFrame frame ∧ r = Ok frame.
Proof.
  unfold act_out. rewrite send_built_eq. destruct r as [f|]; simpl; [|by intros ?%not_elem_of_nil].
  intros ->%list_elem_of_singleton. by exists f.
Qed.

(** C40: the parent confines the client worker.  Whatever message the worker
    sends, even a compromised one, every frame that goes out is a DHCP request
    from the router's own WAN MAC and for that MAC, from port 68 to port 67,
    broadcast on the link; and a default route is only added together with an
    address whose subnet contains the gateway, and never through 0.0.0.0 or
    255.255.255.255. *)
Theorem client_parent_confines hb wan_mac nl m w o :
  mac_wf wan_mac → client_msg_wf m →
  o ∈ act_out (handle_client_ipc_msg (Net := Net) encode hb wan_mac nl m) w →
  match o with
  | CSendFrame frame => client_frame wan_mac frame
  | CAddDefaultRoute index gw =>
      ∃ ip p, on_link gw ip p ∧
        CAddAddress index ip p ∈
          act_out (handle_client_ipc_msg (Net := Net) encode hb wan_mac nl m) w
  | CToWorker _ | CTerminateWorker => False
  | _ => True
  end.
Proof.
  intros Hm Hwf. unfold handle_client_ipc_msg. rewrite act_out_bind, elem_of_app.
  assert (act_state (act_when hb (act_emit CHeartbeat)) w = w) as -> by (by destruct hb).
  intros [Ho | Ho].
  { destruct hb; [|by apply not_elem_of_nil in Ho]. apply list_elem_of_singleton in Ho. by subst. }
  pose proof special_u32 as [Hu Hb].
  destruct m as [xid | xid ip srv ci | ip p gw dns | |].
  - unfold handle_send_discover in Ho. destruct (encode _) as [payload|] eqn:He;
      [|by apply not_elem_of_nil in Ho].
    apply send_built_frame in Ho as (f & -> & Hf).
    by apply (build_client_frame _ _ _ _ _ _ Hm Hu Hb He eq_refl eq_refl Hf).
  - unfold handle_send_request in Ho. destruct (encode _) as [payload|] eqn:He;
      [|by apply not_elem_of_nil in Ho].
    destruct Hwf as [Hci Hsrv].
    destruct (is_unspecified ci);
      apply send_built_frame in Ho as (f & -> & Hf);
      refine (build_client_frame _ _ _ _ _ _ Hm _ _ He eq_refl eq_refl Hf); try done.
    by destruct srv.
  - unfold act_out in Ho |- *. rewrite apply_parent_lease_eq in Ho |- *.
    cbn -[elem_of] in Ho |- *. case_decide; [by apply not_elem_of_nil in Ho |].
    apply elem_of_cons in Ho as [-> | Ho]; [done |].
    apply configure_wan_route in Ho. destruct o; try done.
    destruct Ho as (p' & _ & -> & Hl & Ha). exists ip, p'. split; [done |].
    apply elem_of_app. right. by apply elem_of_cons; right.
  - unfold act_out in Ho. rewrite clear_parent_lease_eq in Ho. cbn -[elem_of] in Ho.
    apply elem_of_cons in Ho as [-> | Ho]; [done |]. unfold deconfigure_wan in Ho.
    destruct (wl_ip w), (wl_mask w); try (by apply not_elem_of_nil in Ho).
    destruct (mask_to_prefix_len _), (nl_index nl); try (by apply not_elem_of_nil in Ho).
    apply list_elem_of_singleton in Ho. by subst.
  - by apply not_elem_of_nil in Ho.
Qed.
End confinement.

(** ** The client and the server understand each other *)

Section interop.
Context {Net : Type} `{!Ipv4NetOps Net, !Ipv4NetLaws Net} {PN : Pnet} `{!PnetLaws}.
Context (encode : Message → option (list Z)) (decode : list Z → option Message).

(** The DHCP codec carries this message in one UDP packet. *)
Definition carries (m : Message) : Prop :=
  ∃ payload, encode m = Some payload ∧ decode payload = Some m ∧
    blen payload ≤ MAX_RAW_PACKET_PAYLOAD.

(** A frame that [encode m] was packed into is read as [m]. *)
Lemma carried_frame m sm dm si di sp dp :
  carries m → endpoints_wf (mkRawPacketEndpoints sm dm si di sp dp) →
  ∃ payload frame, encode m = Some payload ∧
    build_raw_packet sm dm si di sp dp payload = Ok frame ∧
    eh_source (eth_header frame) = sm ∧ ETH_HEADER_LEN ≤ blen frame ∧
    parse_dhcp_payload decode frame dp = Some m.
Proof.
  intros (payload & He & Hd & Hlen) Hep.
  destruct (build_raw_packet_frame _ payload Hep Hlen) as (f & E & Hf).
  exists payload, f. split_and!; [done | exact E | | |].
  - by rewrite (fo_eth _ _ _ Hf).
  - rewrite (fo_len _ _ _ Hf). pose proof (blen_nonneg payload).
    unfold ETH_HEADER_LEN, IPV4_HEADER_LEN, UDP_HEADER_LEN. lia.
  - rewrite (parse_frame_of decode _ _ _ dp Hf). cbn [dest_port]. by rewrite decide_True.
Qed.

(** A request for this client's MAC that reaches the server. *)
Lemma server_accepts (config : ServerConfig Net) m frame mac :
  mac ≠ mac_zero → mac ≠ mac_broadcast → parse_dhcp_payload decode frame SERVER_PORT = Some m →
  eh_source (eth_header frame) = mac → ETH_HEADER_LEN ≤ blen frame →
  msg_opcode m = BootRequest → msg_hlen m = 6 → msg_chaddr m = mac_octets mac →
  process_incoming_packet decode config frame =
    (t ← opt_message_type m;
     match t with
     | Discover => Some (TDiscover m mac)
     | Request =>
         if negb (should_process_request_server_id m (sc_server_ip config)) then None
         else Some (TRequest m mac)
     | Decline | ReleaseMsg => Some (TRelease mac)
     | _ => None
     end).
Proof.
  intros Hz Hb Hp Hsrc Hlen Hop Hhl Hch. unfold process_incoming_packet. rewrite Hp. simpl.
  rewrite bool_decide_false by (intros Hx; by apply Hx).
  assert (extract_client_mac m = Some mac) as ->.
  { unfold extract_client_mac. rewrite Hhl, Hch, bool_decide_false by (intros Hx; by apply Hx).
    destruct mac. cbn -[mac_zero mac_broadcast].
    by rewrite (bool_decide_false _ Hz), (bool_decide_false _ Hb). }
  simpl. rewrite bool_decide_false by lia. rewrite Hsrc.
  unfold is_spoofed_l2_packet. rewrite (bool_decide_false (mac ≠ mac)) by (intros Hx; by apply Hx).
  by rewrite andb_false_r.
Qed.

Lemma mac_octets_take mac : take 6 (mac_octets mac) = mac_octets mac.
Proof. by destruct mac. Qed.

Lemma accept_own frame m mac :
  parse_dhcp_payload decode frame CLIENT_PORT = Some m → msg_chaddr m = mac_octets mac →
  accept_frame decode mac frame = Some m.
Proof.
  intros Hp Hc. unfold accept_frame. rewrite Hp. simpl.
  by rewrite bool_decide_true by (rewrite Hc; apply mac_octets_take).
Qed.

Section exchange.
Context (lan : Net) (server_mac mac : MacAddr) (xid : Z) (ip : Ipv4Addr).
Abbreviation server := (net_addr lan).
Abbreviation netconf := (mkServerNetworkConfig server_mac server (net_netmask lan) lan).
Abbreviation config := (mkServerConfig server lan).

(** The four messages of an exchange. *)
Definition discover_of : Message := build_discover_message mac xid.
Definition offer_of : Message := dhcp_reply Offer mac xid true ip server (net_netmask lan).
Definition request_of : Message :=
  build_request_message mac xid ip (Some server) UNSPECIFIED.
Definition ack_of : Message := dhcp_reply Ack mac xid true ip server (net_netmask lan).

Hypothesis Hmac : mac_wf mac ∧ mac ≠ mac_zero ∧ mac ≠ mac_broadcast.
Hypothesis Hserver : mac_wf server_mac.
Hypothesis Hip : net_contains lan ip = true ∧ ip ≠ server.
Hypothesis Hcarries : Forall carries [discover_of; offer_of; request_of; ack_of].

Lemma client_endpoints dst : is_u32 dst →
  endpoints_wf (mkRawPacketEndpoints mac mac_broadcast UNSPECIFIED dst CLIENT_PORT SERVER_PORT).
Proof.
  intros Hd. pose proof ports_u16 as (? & ? & ?). pose proof special_u32 as [??].
  split_and!; try done; [apply Hmac | apply mac_broadcast_wf].
Qed.
Lemma server_endpoints :
  endpoints_wf (mkRawPacketEndpoints server_mac mac_broadcast server BROADCAST
                  SERVER_PORT CLIENT_PORT).
Proof.
  pose proof ports_u16 as (? & ? & ?). pose proof special_u32 as [??].
  split_and!; try done; [apply mac_broadcast_wf | apply net_addr_is_u32].
Qed.

(** C34: this client obtains a lease from this server.  Provided that the DHCP
    codec carries the four messages, the frame the client's parent sends for a
    DISCOVER starts the server's DISCOVER task for the client's MAC; the frame
    the server's parent sends for an offer is understood by the client as the
    offer of that address; the REQUEST that follows starts the server's
    REQUEST task, which reads the offered address out of it; and the
    acknowledgement gives the client the address, the LAN's mask, the router
    as gateway, resolver and server, and the server's lease time. *)
Theorem exchange_completes w :
  (∃ f, act_out (handle_send_discover encode mac xid) w = [CSendFrame f] ∧
     process_incoming_packet decode config f = Some (TDiscover discover_of mac)) ∧
  (∃ f, handle_send_offer encode netconf mac xid ip (msg_broadcast discover_of) = [PSendFrame f] ∧
     wait_for_offer decode mac xid [RFrame f] = Ok (Some (mkDhcpOffer ip (Some server)))) ∧
  (∃ f, act_out (handle_send_request encode mac xid ip (Some server) UNSPECIFIED) w
        = [CSendFrame f] ∧
     process_incoming_packet decode config f = Some (TRequest request_of mac) ∧
     requested_ip_of request_of = Some ip) ∧
  (∃ f, handle_send_ack encode netconf mac xid ip (msg_broadcast request_of) = [PSendFrame f] ∧
     wait_for_ack decode mac xid [RFrame f]
     = Ok (Some (PAck (mkDhcpAck ip (net_netmask lan) (Some server) (Some server)
                         LAN_LEASE_SECS [server])))).
Proof.
  destruct Hip as [Hin Hne]. destruct Hmac as (Hm & Hz & Hb).
  pose proof Hcarries as [Hc1 [Hc2 [Hc3 [Hc4 _]%Forall_cons]%Forall_cons]%Forall_cons]%Forall_cons.
  pose proof special_u32 as [Hu Hbr].
  split_and!.
  - destruct (carried_frame _ _ _ _ _ _ _ Hc1 (client_endpoints BROADCAST Hbr))
      as (p & f & E1 & E2 & E3 & E4 & E5). exists f.
    unfold handle_send_discover. unfold discover_of in E1. rewrite E1, E2. split; [done |].
    by rewrite (server_accepts config discover_of f mac).
  - destruct (carried_frame _ _ _ _ _ _ _ Hc2 server_endpoints)
      as (p & f & E1 & E2 & _ & _ & E5). exists f.
    unfold handle_send_offer, build_dhcp_reply_payload. cbn [nc_lan_net nc_server_ip nc_subnet_mask
      nc_server_mac discover_of build_discover_message msg_broadcast].
    rewrite Hin, bool_decide_false by done. cbn [negb orb]. unfold offer_of in E1.
    rewrite E1. cbn [get_dest_mac_ip]. rewrite E2. split; [done |].
    cbn [wait_for_offer]. rewrite (accept_own f offer_of mac E5 eq_refl).
    unfold parse_offer. by rewrite bool_decide_false by (intros Hx; by apply Hx).
  - destruct (carried_frame _ _ _ _ _ _ _ Hc3 (client_endpoints BROADCAST Hbr))
      as (p & f & E1 & E2 & E3 & E4 & E5). exists f.
    unfold handle_send_request. unfold request_of in E1. rewrite E1.
    change (is_unspecified UNSPECIFIED) with true. cbv iota. rewrite E2.
    split_and!; [done | | done].
    rewrite (server_accepts config request_of f mac) by done.
    assert (should_process_request_server_id request_of server = true) as Hs
      by (by apply bool_decide_true).
    change (opt_message_type request_of) with (Some Request). cbn [mbind option_bind sc_server_ip].
    by rewrite Hs.
  - destruct (carried_frame _ _ _ _ _ _ _ Hc4 server_endpoints)
      as (p & f & E1 & E2 & _ & _ & E5). exists f.
    unfold handle_send_ack, build_dhcp_reply_payload. cbn [nc_lan_net nc_server_ip nc_subnet_mask
      nc_server_mac].
    rewrite Hin, bool_decide_false by done. cbn [negb orb]. unfold ack_of in E1.
    change (msg_broadcast request_of) with true.
    rewrite E1. cbn [get_dest_mac_ip]. rewrite E2. split; [done |].
    cbn [wait_for_ack]. rewrite (accept_own f ack_of mac E5 eq_refl).
    unfold parse_ack_nak. by rewrite bool_decide_false by (intros Hx; by apply Hx).
Qed.
End exchange.
End interop.

(** ** An exchange, byte by byte *)

Module ClientExample.
Import LeaseTable.LeaseExample.

Definition wan_mac : MacAddr := mac 5.
Definition lease_ip : Ipv4Addr := ipv4 192 168 7 3.
(** A stand-in for the wire format: a message is known by its type. *)
Definition encode (m : Message) : option (list Z) :=
  match opt_message_type m with
  | Some Discover => Some [1]
  | Some Offer => Some [2]
  | Some Request => Some [3]
  | Some Ack => Some [4]
  | _ => None
  end.
Definition decode (payload : list Z) : option Message :=
  match payload with
  | [1] => Some (discover_of wan_mac 77)
  | [2] => Some (offer_of net wan_mac 77 lease_ip)
  | [3] => Some (request_of net wan_mac 77 lease_ip)
  | [4] => Some (ack_of net wan_mac 77 lease_ip)
  | _ => None
  end.
Definition reply (n : Z) : list Z :=
  match build_raw_packet (mac 9) mac_broadcast gateway BROADCAST SERVER_PORT CLIENT_PORT [n] with
  | Ok f => f
  | Err _ => []
  end.

(** A first DISCOVER is lost; the offer and the acknowledgement arrive; then
    one heartbeat interval passes. *)
Definition envs : list ClientEnv :=
  [mkClientEnv 0 4000000000 0 [] true;
   mkClientEnv 4000000000 5000000000 0 [RFrame (reply 4); RFrame (reply 2)] true;
   mkClientEnv 5000000000 6000000000 0 [RFrame (reply 4)] true;
   mkClientEnv 6000000000 9000000000 0 [] true].
Definition ack : DhcpAck :=
  mkDhcpAck lease_ip (ipv4 255 255 255 248) (Some gateway) (Some gateway) 3600 [gateway].
Definition final : ClientState := SBound ack 6000000000.
Definition apply_msg : DhcpClientToParentMsg := ApplyWanLease lease_ip 29 gateway [gateway].
Definition before : list DhcpClientToParentMsg :=
  [ClientHeartbeat; SendDiscover 77; ClientHeartbeat; SendDiscover 77; ClientHeartbeat;
   SendRequest 77 lease_ip (Some gateway) UNSPECIFIED].
Definition out : list DhcpClientToParentMsg := before ++ [apply_msg; ClientHeartbeat].
Definition start : ClientState := SDiscover 77 INITIAL_RETRY_DELAY_SECS.

Lemma client_run_eq : client_run decode wan_mac envs start = (final, out).
Proof. vm_compute. reflexivity. Qed.

Definition nl : NetlinkEnv := mkNetlinkEnv (Some 3) true true true true.
Definition events : list ClientParentEvent := (λ m, EvWorkerMsg m nl) <$> out.
Definition monitor : Act WanLease ClientParentAction bool :=
  run_parent_dhcp_monitor (Net := IpNet) encode true (Some wan_mac) events.

Lemma wan_lease_follows_client_witness :
  act_state monitor WanLease_default
    = mkWanLease (Some lease_ip) (Some (ipv4 255 255 255 248)) (Some gateway) [gateway] ∧
  foldl interface_addresses [] (act_out monitor WanLease_default) = [(lease_ip, 29)].
Proof.
  destruct (wan_lease_follows_client (Net := IpNet) encode decode wan_mac wan_mac envs 77 true
              events final out client_run_eq) as [H1 H2].
  - vm_compute. reflexivity.
  - vm_compute. reflexivity.
  - split; [exact (eq_trans H1 eq_refl) |].
    refine (eq_trans (H2 _) eq_refl). apply Forall_fmap, Forall_true.
    intros m. split_and!; [by eexists | done..].
Defined.

Lemma lease_not_outlived_witness :
  6000000000 ≤ end_time 0 envs < 6000000000 + from_secs 3601 + 0.
Proof.
  refine (lease_not_outlived decode wan_mac 0 _ 0 envs 77 ack 6000000000 _ _ _).
  - unfold NANOS. lia.
  - vm_compute. repeat split; congruence.
  - change (SDiscover 77 INITIAL_RETRY_DELAY_SECS) with start. by rewrite client_run_eq.
  - unfold finite_lease. simpl. lia.
Defined.

Lemma leases_were_acknowledged_witness :
  ∃ env xid a, env ∈ envs ∧ requested before xid ∧ acked decode wan_mac (ce_inbox env) xid a ∧
    apply_lease_config a = apply_msg.
Proof.
  refine (leases_were_acknowledged decode wan_mac envs 77 INITIAL_RETRY_DELAY_SECS before
            [ClientHeartbeat] lease_ip 29 gateway [gateway] _).
  change (SDiscover 77 INITIAL_RETRY_DELAY_SECS) with start. by rewrite client_run_eq.
Defined.

Lemma mac_u8_wf n : 0 ≤ n ≤ 255 → mac_wf (mac n).
Proof. intros Hn. unfold mac_wf, mac_octets, mac, is_u. simpl. repeat constructor; lia. Qed.

Lemma client_parent_confines_witness :
  ∃ ip p, on_link (Net := IpNet) gateway ip p ∧ CAddAddress 3 ip p ∈
    act_out (handle_client_ipc_msg (Net := IpNet) encode true wan_mac nl apply_msg)
      WanLease_default.
Proof.
  refine (client_parent_confines (Net := IpNet) encode true wan_mac nl apply_msg WanLease_default
            (CAddDefaultRoute 3 gateway) _ I _).
  - apply mac_u8_wf. lia.
  - apply (list_elem_of_lookup_2 _ 5). vm_compute. reflexivity.
Defined.

Lemma exchange_completes_witness :
  ∃ f, handle_send_ack encode (mkServerNetworkConfig (mac 9) gateway (ipv4 255 255 255 248) net)
         wan_mac 77 lease_ip true = [PSendFrame f] ∧
    wait_for_ack decode wan_mac 77 [RFrame f] = Ok (Some (PAck ack)).
Proof.
  refine (proj2 (proj2 (proj2 (exchange_completes encode decode net (mac 9) wan_mac 77 lease_ip
    _ _ _ _ WanLease_default)))).
  - split_and!; [apply mac_u8_wf; lia | done | done].
  - apply mac_u8_wf. lia.
  - split; [vm_compute; reflexivity | done].
  - repeat (apply Forall_cons; split); try apply Forall_nil_2;
      (eexists; split_and!; [reflexivity | reflexivity | vm_compute; congruence]).
Defined.

(** Finding: a lease whose configuration failed is not configured again.  When the
    kernel refuses the address, the lease is published all the same, and the
    renewals that grant the same lease, however well the kernel works then,
    only send a heartbeat: the interface stays without an address until the
    lease changes or is cleared. *)
Theorem failed_configuration_not_retried :
  let broken := mkNetlinkEnv (Some 3) true true true false in
  let handle nl := handle_client_ipc_msg (Net := IpNet) encode true wan_mac nl apply_msg in
  let published := act_state (handle broken) WanLease_default in
  wl_ip published = Some lease_ip ∧
  act_out (handle broken) WanLease_default
    = [CHeartbeat; CPublish published; CFlushAddresses 3; CLinkUp 3; CAddAddress 3 lease_ip 29] ∧
  ∀ nl', act_out (handle nl') published = [CHeartbeat] ∧ act_state (handle nl') published = published.
Proof.
  cbv zeta. split_and!; [vm_compute; reflexivity | vm_compute; reflexivity |].
  intros nl'. split; vm_compute; reflexivity.
Qed.
End ClientExample.
