(* ===== verification/Watchdog.v ===== *)
(** * The hardware watchdog

    [src/src/init/watchdog.rs]: the heartbeats of the supervised services, the
    monitor task that judges them, and the device it feeds.  The heartbeat
    channel is the bounded queue of the source; the monitor's turns and the
    services' heartbeats are events in the order in which they happen. *)

From Stdlib Require Import ZArith Lia.
From stdpp Require Import base sets list.
From S2P Require Import Prelude NetAddr Packet Dhcp DhcpClient.

#[local] Open Scope Z_scope.

Definition DEFAULT_WATCHDOG_INTERVAL_SECS : Z := 5.
Definition DEFAULT_HEARTBEAT_TIMEOUT_SECS : Z := 30.
Definition HEARTBEAT_CHANNEL_CAPACITY : nat := 64.
Definition KEEPALIVE_BYTE : Z := 0.
Definition MAGIC_CLOSE_BYTE : Z := 86.
Definition MONITORED_SERVICE_COUNT : nat := 4.

Inductive MonitoredService := DnsForwarderSvc | InterfaceMonitor | DhcpClientSvc | LanManager.
#[global] Instance MonitoredService_eq_dec : EqDecision MonitoredService.
Proof. solve_decision. Defined.

Definition ALL : list MonitoredService :=
  [DnsForwarderSvc; InterfaceMonitor; DhcpClientSvc; LanManager].
Definition service_index (s : MonitoredService) : nat :=
  match s with DnsForwarderSvc => 0 | InterfaceMonitor => 1 | DhcpClientSvc => 2 | LanManager => 3 end.

(** ** The device

    [LinuxWatchdog], with the file as open or closed; whether a write succeeds
    is up to the kernel. *)

Record LinuxWatchdog := mkLinuxWatchdog {
  wd_file : bool;
  wd_driver_timeout : option Duration;
}.

(** [LinuxWatchdog::open], with the answer of the [WDIOC_GETTIMEOUT] ioctl. *)
Definition watchdog_open (opened : bool) (ioctl : option Z) : option LinuxWatchdog :=
  if opened then
    Some (mkLinuxWatchdog true
      (match ioctl with
       | Some hw_timeout => if bool_decide (hw_timeout > 0) then Some (from_secs hw_timeout) else None
       | None => None
       end))
  else None.

(** The outcome and the bytes that reach the device. *)
Definition keepalive (write_ok : bool) (w : LinuxWatchdog) : bool * list Z :=
  if wd_file w then (if write_ok then (true, [KEEPALIVE_BYTE]) else (false, []))
  else (false, []).
Definition disarm (write_ok : bool) (w : LinuxWatchdog) : LinuxWatchdog * list Z :=
  (mkLinuxWatchdog false (wd_driver_timeout w),
   if wd_file w && write_ok then [MAGIC_CLOSE_BYTE] else []).

(** ** Heartbeats *)

(** [send_service_heartbeat]: a [try_send], which drops the message when the
    channel is full. *)
Definition send_service_heartbeat (service : MonitoredService) (queue : list MonitoredService) :
    list MonitoredService :=
  if bool_decide (length queue < HEARTBEAT_CHANNEL_CAPACITY)%nat then queue ++ [service] else queue.

Abbreviation ServiceLivenessMap := (list (option Instant)) (only parsing).

(** Each message that was queued marks its service as seen [now]. *)
Definition drain_heartbeats (now : Instant) (queue : list MonitoredService)
    (liveness : ServiceLivenessMap) : ServiceLivenessMap :=
  foldl (λ l s, <[service_index s := Some now]> l) liveness queue.

Fixpoint evaluate_health (now : Instant) (expected_services : list MonitoredService)
    (liveness : ServiceLivenessMap) (timeout : Duration) : bool :=
  match expected_services with
  | [] => true
  | service :: rest =>
      match mjoin (liveness !! service_index service) with
      | Some last =>
          if bool_decide (duration_since now last ≤ timeout)
          then evaluate_health now rest liveness timeout else false
      | None => false
      end
  end.

(** ** The monitor *)

(** The interval between turns: half the driver's time-out if that is less
    than five seconds. *)
Definition watchdog_interval (driver_timeout : option Duration) : Duration :=
  let base_interval := from_secs DEFAULT_WATCHDOG_INTERVAL_SECS in
  match driver_timeout with
  | Some hw =>
      if bool_decide (hw / 2 < base_interval) && bool_decide (hw / 2 > 0) then hw / 2
      else base_interval
  | None => base_interval
  end.

Record Monitor := mkMonitor {
  mo_watchdog : LinuxWatchdog;
  mo_rx : list MonitoredService;
  mo_liveness : ServiceLivenessMap;
  mo_running : bool;
}.

Definition monitor_start (w : LinuxWatchdog) (expected_services : list MonitoredService)
    (start_time : Instant) : Monitor :=
  mkMonitor w []
    (foldl (λ l s, <[service_index s := Some start_time]> l)
       (replicate MONITORED_SERVICE_COUNT None) expected_services)
    true.

Inductive WdEvent :=
(** A service sends a heartbeat *)
| Beat (service : MonitoredService)
(** The ticker of the monitor fires *)
| Tick (shutdown write_ok : bool).

Definition monitor_tick (expected_services : list MonitoredService) (now : Instant)
    (shutdown write_ok : bool) (m : Monitor) : Monitor * list Z :=
  if shutdown then
    let '(w, bytes) := disarm write_ok (mo_watchdog m) in
    (mkMonitor w (mo_rx m) (mo_liveness m) false, bytes)
  else
    let liveness := drain_heartbeats now (mo_rx m) (mo_liveness m) in
    let bytes :=
      if evaluate_health now expected_services liveness (from_secs DEFAULT_HEARTBEAT_TIMEOUT_SECS)
      then (keepalive write_ok (mo_watchdog m)).2 else [] in
    (mkMonitor (mo_watchdog m) [] liveness true, bytes).

Definition watchdog_event (expected_services : list MonitoredService) (now : Instant) (e : WdEvent)
    (m : Monitor) : Monitor * list Z :=
  match e with
  | Beat s =>
      (mkMonitor (mo_watchdog m) (send_service_heartbeat s (mo_rx m)) (mo_liveness m)
         (mo_running m), [])
  | Tick shutdown write_ok =>
      if mo_running m then monitor_tick expected_services now shutdown write_ok m else (m, [])
  end.

(** The bytes written at each event of a run. *)
Fixpoint run_monitor (expected_services : list MonitoredService)
    (events : list (Instant * WdEvent)) (m : Monitor) : Monitor * list (list Z) :=
  match events with
  | [] => (m, [])
  | (now, e) :: events' =>
      let '(m1, bytes) := watchdog_event expected_services now e m in
      let '(m2, out) := run_monitor expected_services events' m1 in
      (m2, bytes :: out)
  end.

(** [start_watchdog_monitor] *)
Definition start_watchdog_monitor (w : LinuxWatchdog) (expected_services : list MonitoredService)
    (start_time : Instant) (events : list (Instant * WdEvent)) : Monitor * list (list Z) :=
  run_monitor expected_services events (monitor_start w expected_services start_time).

(** [init_and_spawn_watchdog]: the monitor to spawn, if any; the second
    component is what is published as [watchdog_active]. *)
Definition init_and_spawn_watchdog (enabled opened : bool) (ioctl : option Z)
    (expected_services : list MonitoredService) (now : Instant) : option Monitor * bool :=
  if enabled then
    match watchdog_open opened ioctl with
    | Some w => (Some (monitor_start w expected_services now), true)
    | None => (None, false)
    end
  else (None, false).

(** ** When the device is fed *)

Lemma service_index_inj s s' : service_index s = service_index s' → s = s'.
Proof. by destruct s, s'. Qed.
Lemma service_index_lt s : (service_index s < MONITORED_SERVICE_COUNT)%nat.
Proof. unfold MONITORED_SERVICE_COUNT. destruct s; simpl; lia. Qed.

Section feeding.
Implicit Types (now t u : Instant) (s : MonitoredService).

Lemma mark_length now l queue : length (drain_heartbeats now queue l) = length l.
Proof.
  revert l. induction queue as [|s queue IH]; intros l; [done |].
  etrans; [apply IH | apply length_insert].
Qed.

Lemma drain_lookup now l queue s :
  length l = MONITORED_SERVICE_COUNT →
  drain_heartbeats now queue l !! service_index s
  = if decide (s ∈ queue) then Some (Some now) else l !! service_index s.
Proof.
  intros Hl. induction queue as [|s' queue IH] using rev_ind.
  { by rewrite decide_False by apply not_elem_of_nil. }
  unfold drain_heartbeats. rewrite foldl_app. cbn [foldl].
  destruct (decide (s = s')) as [-> | Hne].
  - rewrite list_lookup_insert_eq, decide_True; [done | set_solver |].
    fold (drain_heartbeats now queue l). rewrite mark_length, Hl. apply service_index_lt.
  - rewrite list_lookup_insert_ne by (intros ?%service_index_inj; congruence).
    unfold drain_heartbeats in IH. rewrite IH. apply decide_ext. set_solver.
Qed.

(** What the monitor should know of one service: whether it has been heard of
    since the last turn, and the turn at which it was last found alive. *)
Definition seen_step s (x : bool * Instant) (e : Instant * WdEvent) : bool * Instant :=
  match e.2 with
  | Beat s' => (x.1 || bool_decide (s' = s), x.2)
  | Tick false _ => (false, if x.1 then e.1 else x.2)
  | Tick true _ => x
  end.
Definition seen (start : Instant) s (events : list (Instant * WdEvent)) : bool * Instant :=
  foldl (seen_step s) (false, start) events.

(** At most 64 heartbeats between two turns: none is dropped. *)
Fixpoint calm (n : nat) (events : list (Instant * WdEvent)) : Prop :=
  match events with
  | [] => True
  | (_, Beat _) :: events' => (n < HEARTBEAT_CHANNEL_CAPACITY)%nat ∧ calm (S n) events'
  | (_, Tick _ _) :: events' => calm 0 events'
  end.
Fixpoint clock (now : Instant) (events : list (Instant * WdEvent)) : Prop :=
  match events with
  | [] => True
  | (t, _) :: events' => now ≤ t ∧ clock t events'
  end.
Definition no_shutdown (events : list (Instant * WdEvent)) : Prop :=
  Forall (λ e, ∀ ok, e.2 ≠ Tick true ok) events.

(** The state of the monitor that agrees with [seen]. *)
Record tracks (w : LinuxWatchdog) (expected : list MonitoredService)
    (f : MonitoredService → bool * Instant) (m : Monitor) : Prop := {
  tr_watchdog : mo_watchdog m = w;
  tr_running : mo_running m = true;
  tr_length : length (mo_liveness m) = MONITORED_SERVICE_COUNT;
  tr_queue s : s ∈ mo_rx m ↔ (f s).1 = true;
  tr_liveness s : s ∈ expected → mo_liveness m !! service_index s = Some (Some (f s).2);
}.

Lemma monitor_start_tracks w expected start :
  tracks w expected (λ s, seen start s []) (monitor_start w expected start).
Proof.
  pose proof (length_replicate MONITORED_SERVICE_COUNT (A := option Instant) None) as Hr.
  assert (mo_liveness (monitor_start w expected start)
    = drain_heartbeats start expected (replicate MONITORED_SERVICE_COUNT None)) as E by done.
  split; [done | done | by rewrite E, mark_length | | ].
  - intros s. simpl. split; [by intros ?%not_elem_of_nil | done].
  - intros s Hs. by rewrite E, drain_lookup, decide_True.
Qed.

Lemma monitor_event_tracks w expected now e f m :
  tracks w expected f m → (∀ ok, e ≠ Tick true ok) →
  (∀ s, e = Beat s → length (mo_rx m) < HEARTBEAT_CHANNEL_CAPACITY)%nat →
  tracks w expected (λ s, seen_step s (f s) (now, e)) (watchdog_event expected now e m).1.
Proof.
  intros [Hw Hrun Hlen Hq Hl] Hsh Hroom. destruct e as [s' | [] ok]; [| by destruct (Hsh ok) |].
  - simpl. unfold send_service_heartbeat. rewrite bool_decide_true by (by eapply Hroom).
    split; simpl; [done | done | done | | done].
    intros s. rewrite elem_of_app, list_elem_of_singleton, Hq, orb_true_iff.
    rewrite bool_decide_eq_true. naive_solver.
  - simpl. rewrite Hrun. unfold monitor_tick. split; simpl; [done | done | by rewrite mark_length | |].
    + intros s. split; [by intros ?%not_elem_of_nil | done].
    + intros s Hs. rewrite drain_lookup by done. case_decide as Hin.
      * apply Hq in Hin. by rewrite Hin.
      * rewrite (Hl s Hs). rewrite Hq in Hin. by destruct (f s).1.
Qed.

Lemma queue_length expected now e m :
  mo_running m = true →
  length (mo_rx (watchdog_event expected now e m).1) =
  match e with
  | Beat _ => Nat.min (S (length (mo_rx m))) (Nat.max HEARTBEAT_CHANNEL_CAPACITY (length (mo_rx m)))
  | Tick true _ => length (mo_rx m)
  | Tick false _ => 0%nat
  end.
Proof.
  intros Hrun. destruct e as [s | [] ok]; cbn [watchdog_event fst mo_rx];
    [|rewrite Hrun; by destruct m | by rewrite Hrun].
  unfold send_service_heartbeat. case_bool_decide; [rewrite length_app; cbn [length] |]; lia.
Qed.

Lemma run_tracks w expected events : ∀ (f : MonitoredService → bool * Instant) m,
  tracks w expected f m → no_shutdown events → calm (length (mo_rx m)) events →
  tracks w expected (λ s, foldl (seen_step s) (f s) events) (run_monitor expected events m).1.
Proof.
  induction events as [|[now e] events IH]; intros f m Ht Hs Hc; [done |].
  apply list.Forall_cons in Hs as [He Hs]. simpl in He.
  assert (∀ s, e = Beat s → length (mo_rx m) < HEARTBEAT_CHANNEL_CAPACITY)%nat as Hroom
    by (intros s ->; by destruct Hc).
  pose proof (monitor_event_tracks w expected now e f m Ht He Hroom) as Ht1.
  pose proof (queue_length expected now e m (tr_running _ _ _ _ Ht)) as Hq.
  cbn [run_monitor]. destruct (watchdog_event expected now e m) as [m1 bytes]. cbn [fst] in *.
  specialize (IH _ m1 Ht1 Hs). destruct (run_monitor expected events m1) as [m2 out].
  apply IH. rewrite Hq. destruct e as [s | [] ok]; [|by destruct (He ok) | exact Hc].
  destruct Hc as [Hn Hc]. by rewrite Nat.min_l by lia.
Qed.

Lemma run_monitor_app expected ev1 ev2 m :
  run_monitor expected (ev1 ++ ev2) m =
  let '(m1, o1) := run_monitor expected ev1 m in
  let '(m2, o2) := run_monitor expected ev2 m1 in (m2, o1 ++ o2).
Proof.
  revert m. induction ev1 as [|[now e] ev1 IH]; intros m; simpl.
  { by destruct (run_monitor expected ev2 m). }
  destruct (watchdog_event expected now e m) as [m1 bytes]. rewrite IH.
  destruct (run_monitor expected ev1 m1) as [m2 o2].
  by destruct (run_monitor expected ev2 m2).
Qed.

Lemma run_monitor_length expected events m :
  length (run_monitor expected events m).2 = length events.
Proof.
  revert m. induction events as [|[now e] events IH]; intros m; [done |]. simpl.
  destruct (watchdog_event expected now e m) as [m1 bytes]. specialize (IH m1).
  destruct (run_monitor expected events m1). simpl in *. by rewrite IH.
Qed.

Lemma evaluate_health_true now expected liveness timeout :
  evaluate_health now expected liveness timeout = true ↔
  ∀ s, s ∈ expected → ∃ u, mjoin (liveness !! service_index s) = Some u ∧
    duration_since now u ≤ timeout.
Proof.
  induction expected as [|s expected IH]; simpl.
  { split; [|done]. intros _ s ?%not_elem_of_nil. done. }
  destruct (mjoin (liveness !! service_index s)) as [u|] eqn:E.
  - case_bool_decide as Hu.
    + rewrite IH. split; intros H s' Hs'; [|by apply H, list_elem_of_further].
      apply elem_of_cons in Hs' as [-> | Hs']; [by exists u | by apply H].
    + split; [done |]. intros H. destruct (H s (list_elem_of_here _ _)) as (u' & E' & Hu').
      destruct Hu. rewrite E in E'. by injection E' as ->.
  - split; [done |]. intros H. destruct (H s (list_elem_of_here _ _)) as (u' & E' & _). by rewrite E in E'.
Qed.

(** The turn at [t], after the events [pre]. *)
Lemma tick_bytes w expected start pre t ok post :
  wd_file w = true → no_shutdown pre → calm 0 pre →
  (start_watchdog_monitor w expected start (pre ++ (t, Tick false ok) :: post)).2 !! length pre
  = Some (if forallb (λ s, bool_decide
              (duration_since t (seen_step s (seen start s pre) (t, Tick false ok)).2
               ≤ from_secs DEFAULT_HEARTBEAT_TIMEOUT_SECS)) expected
          then (if ok then [KEEPALIVE_BYTE] else []) else []).
Proof.
  intros Hf Hs Hc. unfold start_watchdog_monitor. rewrite run_monitor_app.
  pose proof (run_tracks w expected pre _ _ (monitor_start_tracks w expected start) Hs Hc) as Ht.
  pose proof (run_monitor_length expected pre (monitor_start w expected start)) as Hlen.
  destruct (run_monitor expected pre (monitor_start w expected start)) as [m1 o1].
  cbn [fst snd] in *.
  pose proof (monitor_event_tracks w expected t (Tick false ok) _ m1 Ht) as Ht2.
  assert (tracks w expected (λ s, seen_step s (seen start s pre) (t, Tick false ok))
    (watchdog_event expected t (Tick false ok) m1).1) as [_ _ _ _ Hl] by (apply Ht2; done). clear Ht2.
  destruct Ht as [Hw Hrun _ _ _]. cbn [run_monitor watchdog_event] in *. rewrite Hrun in *.
  cbn [monitor_tick fst mo_liveness] in *. unfold monitor_tick in *.
  cbn [fst mo_liveness] in Hl.
  destruct (run_monitor expected post _) as [m2 o2].
  cbn [snd]. rewrite lookup_app_r, Hlen, Nat.sub_diag by lia. cbn [lookup list_lookup]. f_equal.
  rewrite Hw. unfold keepalive. rewrite Hf.
  match goal with |- (if ?a then _ else _) = (if ?b then _ else _) =>
    assert (a = b) as ->; [|by destruct b, ok] end.
  apply eq_bool_prop_intro. rewrite forallb_True, list.Forall_forall, Is_true_true, evaluate_health_true. split; intros H s Hin.
  - destruct (H s Hin) as (u & E & Hu). rewrite (Hl s Hin) in E. injection E as <-.
    by apply bool_decide_pack.
  - exists (seen_step s (seen start s pre) (t, Tick false ok)).2. rewrite (Hl s Hin).
    split; [done |]. exact (bool_decide_unpack _ (H s Hin)).
Qed.

Lemma clock_ge now ev e : clock now ev → e ∈ ev → now ≤ e.1.
Proof.
  revert now. induction ev as [|[t x] ev IH]; intros now Hc He.
  { by apply not_elem_of_nil in He. }
  destruct Hc as [Ht Hc]. apply elem_of_cons in He as [-> | He]; [done |].
  specialize (IH _ Hc He). lia.
Qed.

Lemma clock_app now ev1 ev2 :
  clock now (ev1 ++ ev2) → clock now ev1 ∧ ∀ e e', e ∈ ev1 → e' ∈ ev2 → e.1 ≤ e'.1.
Proof.
  revert now. induction ev1 as [|[t x] ev1 IH]; intros now Hc; simpl.
  { split; [done |]. by intros e e' ?%not_elem_of_nil. }
  destruct Hc as [Ht Hc]. destruct (IH _ Hc) as [H1 H2]. split; [done |].
  intros e e' [-> | He]%elem_of_cons He'; [|by apply H2].
  eapply clock_ge; [exact Hc | apply elem_of_app; by right].
Qed.

(** A heartbeat is accounted for at its own time or later ... *)
Lemma seen_fresh start s tb events :
  clock start events → (tb, Beat s) ∈ events ∨ tb ≤ start →
  (seen start s events).1 = true ∨ tb ≤ (seen start s events).2.
Proof.
  unfold seen. induction events as [|[t e] events IH] using rev_ind; intros Hc H.
  { destruct H as [?%not_elem_of_nil | H]; [done | by right]. }
  pose proof (clock_ge _ _ (t, e) Hc ltac:(apply elem_of_app; right; by left)) as Hst.
  apply clock_app in Hc as [Hc Hle]. rewrite foldl_app. cbn [foldl].
  rewrite elem_of_app, list_elem_of_singleton in H.
  assert ((t, e) = (tb, Beat s) ∨ tb ≤ t ∧ ((tb, Beat s) ∈ events ∨ tb ≤ start))
    as [[= -> ->] | [Ht H']].
  { destruct H as [[H | H] | H]; [right | by left | right; simpl in *; split; [lia | by right]].
    split; [|by left]. by apply (Hle _ (t, e) H), list_elem_of_singleton. }
  { left. simpl. rewrite bool_decide_true by done. apply orb_true_r. }
  destruct (foldl _ _ events) as [p u]. destruct (IH Hc H') as [E | E]; simpl in E;
    destruct e as [s' | [] ok]; subst; simpl; [by left | by left | by right | by right | by right |].
  destruct p; by right.
Qed.

(** ... and without heartbeats since the turn at [u], its service is not
    found alive after [u]. *)
Lemma seen_stale start s before u ok after :
  clock start (before ++ (u, Tick false ok) :: after) → (∀ tb, (tb, Beat s) ∉ after) →
  (seen start s (before ++ (u, Tick false ok) :: after)).1 = false ∧
  (seen start s (before ++ (u, Tick false ok) :: after)).2 ≤ u.
Proof.
  intros Hc Hs. unfold seen. rewrite foldl_app. cbn [foldl].
  assert ((foldl (seen_step s) (false, start) before).2 ≤ u) as Hu.
  { pose proof (clock_ge _ _ (u, Tick false ok) Hc ltac:(apply elem_of_app; right; by left)).
    apply clock_app in Hc as [_ Hle].
    assert (∀ e, e ∈ before → e.1 ≤ u) as Hb
      by (intros e He; by apply (Hle _ (u, Tick false ok) He), elem_of_cons; left).
    clear Hle Hs. induction before as [|[t e] before IH] using rev_ind; [done |].
    rewrite foldl_app. cbn [foldl].
    assert ((foldl (seen_step s) (false, start) before).2 ≤ u)
      by (apply IH; intros x Hx; apply Hb, elem_of_app; by left).
    pose proof (Hb (t, e) ltac:(apply elem_of_app; right; by left)).
    destruct (foldl _ _ before) as [[] v], e as [s' | [] ok']; simpl in *; done. }
  set (x := seen_step s _ (u, Tick false ok)).
  assert (x.1 = false ∧ x.2 ≤ u) as Hx by (unfold x; simpl; split; [done | by case_match]).
  clearbody x. clear Hu Hc. revert x Hx.
  induction after as [|[t e] after IH]; intros x [H1 H2]; [done |]. cbn [foldl].
  apply IH; [intros tb Htb; apply (Hs tb); by apply elem_of_cons; right |].
  destruct x as [p v], e as [s' | [] ok']; simpl in *; subst; [|done | done].
  rewrite bool_decide_false; [done |]. intros ->. apply (Hs t), list_elem_of_here.
Qed.

(** The turns come every five seconds, or twice in the time-out of the driver if
    that is shorter. *)
Lemma watchdog_interval_eq ioctl w :
  watchdog_open true ioctl = Some w →
  watchdog_interval (wd_driver_timeout w) =
    match wd_driver_timeout w with
    | Some hw => Z.min (from_secs DEFAULT_WATCHDOG_INTERVAL_SECS) (hw / 2)
    | None => from_secs DEFAULT_WATCHDOG_INTERVAL_SECS
    end.
Proof.
  unfold watchdog_open. intros [= <-]. simpl. destruct ioctl as [n|]; [|done].
  case_bool_decide as Hn; [|done].
  unfold watchdog_interval, from_secs, DEFAULT_WATCHDOG_INTERVAL_SECS, NANOS in *.
  case_bool_decide; case_bool_decide; simpl; Z.to_euclidean_division_equations; lia.
Qed.

Lemma run_stopped expected events m :
  mo_running m = false → Forall (λ bytes, bytes = []) (run_monitor expected events m).2.
Proof.
  revert m. induction events as [|[now e] events IH]; intros m Hm; [constructor |]. cbn [run_monitor].
  assert (∃ m', watchdog_event expected now e m = (m', []) ∧ mo_running m' = false) as (m' & -> & Hm').
  { destruct e; simpl; rewrite ?Hm; by eexists. }
  specialize (IH m' Hm'). destruct (run_monitor expected events m'). by constructor.
Qed.
(** The turn that finds the shutdown flag: the device is disarmed, and nothing
    is written to it any more. *)
Lemma shutdown_bytes w expected start pre t ok post :
  wd_file w = true → no_shutdown pre → calm 0 pre →
  ∃ out silence, (start_watchdog_monitor w expected start (pre ++ (t, Tick true ok) :: post)).2 =
    out ++ (if ok then [MAGIC_CLOSE_BYTE] else []) :: silence ∧
    length out = length pre ∧ Forall (λ bytes, bytes = []) silence.
Proof.
  intros Hf Hs Hc. unfold start_watchdog_monitor. rewrite run_monitor_app.
  pose proof (run_tracks w expected pre _ _ (monitor_start_tracks w expected start) Hs Hc) as Ht.
  pose proof (run_monitor_length expected pre (monitor_start w expected start)) as Hlen.
  destruct (run_monitor expected pre (monitor_start w expected start)) as [m1 o1].
  cbn [fst snd] in *. destruct Ht as [Hw Hrun _ _ _]. cbn [run_monitor watchdog_event]. rewrite Hrun.
  unfold monitor_tick, disarm. rewrite Hw, Hf. cbn [andb].
  pose proof (run_stopped expected post
    (mkMonitor (mkLinuxWatchdog false (wd_driver_timeout w)) (mo_rx m1) (mo_liveness m1) false) eq_refl) as Hq.
  destruct (run_monitor expected post _) as [m2 o2]. by exists o1, o2.
Qed.

(** A service that has been silent for more than 30 seconds: the device is not
    fed. *)
Lemma silent_not_fed w expected start before u ok' after t ok post s :
  wd_file w = true → clock start (before ++ (u, Tick false ok') :: after) →
  no_shutdown (before ++ (u, Tick false ok') :: after) → calm 0 (before ++ (u, Tick false ok') :: after) →
  s ∈ expected → (∀ tb, (tb, Beat s) ∉ after) → from_secs DEFAULT_HEARTBEAT_TIMEOUT_SECS < t - u →
  let pre := before ++ (u, Tick false ok') :: after in
  (start_watchdog_monitor w expected start (pre ++ (t, Tick false ok) :: post)).2 !! length pre = Some [].
Proof.
  intros Hf Hc Hs Hcalm Hin Hn Hlt. cbv zeta. rewrite tick_bytes by done.
  replace (forallb _ expected) with false; [done |]. symmetry. apply not_true_is_false.
  intros Hall. rewrite forallb_forall in Hall.
  specialize (Hall s (proj1 (list_elem_of_In _ _) Hin)). apply bool_decide_eq_true in Hall.
  destruct (seen_stale start s before u ok' after Hc Hn) as [H1 H2].
  unfold seen_step in Hall. cbn [fst snd] in Hall. rewrite H1 in Hall.
  unfold duration_since in *. lia.
Qed.

(** C13: the watchdog is fed while the router lives and not when it does not.
    Take a run of the monitor with the device open, and one of its turns, such
    that no turn before it found the shutdown flag and no more than 64 heartbeats
    came between two turns, so that none was lost to a full channel.
    - If every monitored service has sent a heartbeat within the last 30 seconds,
      or the monitor was started within them, the keep-alive byte is written,
      provided the device accepts it.
    - If some service has been silent since a turn more than 30 seconds ago,
      nothing is written, whatever the others do.
    - If the turn finds the shutdown flag, the device is disarmed with the magic
      byte, provided it accepts it, and nothing is written to it afterwards.
    - Turns come every five seconds, or every half of the driver's time-out if
      that is less; so at least twice in the time-out. *)
Theorem watchdog_feeding ioctl w expected start pre t ok post :
  watchdog_open true ioctl = Some w →
  clock start (pre ++ (t, Tick false ok) :: post) → no_shutdown pre → calm 0 pre →
  let bytes := (start_watchdog_monitor w expected start (pre ++ (t, Tick false ok) :: post)).2
                 !! length pre in
  let timeout := from_secs DEFAULT_HEARTBEAT_TIMEOUT_SECS in
  (ok = true →
   (∀ s, s ∈ expected → t - start ≤ timeout ∨ ∃ tb, (tb, Beat s) ∈ pre ∧ t - tb ≤ timeout) →
   bytes = Some [KEEPALIVE_BYTE]) ∧
  (∀ s before u ok' after, s ∈ expected → pre = before ++ (u, Tick false ok') :: after →
   (∀ tb, (tb, Beat s) ∉ after) → timeout < t - u → bytes = Some []) ∧
  (∀ ok' post', ∃ out silence,
   (start_watchdog_monitor w expected start (pre ++ (t, Tick true ok') :: post')).2 =
     out ++ (if ok' : bool then [MAGIC_CLOSE_BYTE] else []) :: silence ∧
   length out = length pre ∧ Forall (λ bytes, bytes = []) silence) ∧
  let interval := watchdog_interval (wd_driver_timeout w) in
  match wd_driver_timeout w with
  | Some hw => interval = Z.min (from_secs 5) (hw / 2) ∧ 2 * interval ≤ hw
  | None => interval = from_secs 5
  end.
Proof.
  intros Hw Hc Hs Hcalm bytes timeout.
  assert (wd_file w = true) as Hf by (by injection Hw as <-).
  pose proof (tick_bytes w expected start pre t ok post Hf Hs Hcalm) as E. fold bytes in E.
  pose proof (clock_app _ _ _ Hc) as [Hpre Hle]. split_and!.
  - intros -> H. rewrite E. replace (forallb _ expected) with true; [done |]. symmetry.
    apply forallb_forall. intros s Hin%list_elem_of_In. apply bool_decide_true.
    assert (∃ tb, t - tb ≤ timeout ∧ ((tb, Beat s) ∈ pre ∨ tb ≤ start)) as (tb & Htb & Hor).
    { destruct (H s Hin) as [? | (tb & ? & ?)]; [exists start | exists tb]; auto with lia. }
    unfold duration_since, seen_step. cbn [fst snd].
    destruct (seen_fresh start s tb pre Hpre Hor) as [-> | Hu]; [|destruct (seen start s pre).1];
      unfold timeout, from_secs, DEFAULT_HEARTBEAT_TIMEOUT_SECS, NANOS in *; lia.
  - intros s before u ok' after Hin Epre Hn Hlt. unfold bytes. clear E bytes. subst pre. by apply (silent_not_fed _ _ _ _ _ _ _ _ _ _ s).
  - intros ok' post'. by apply shutdown_bytes.
  - cbv zeta. rewrite (watchdog_interval_eq _ _ Hw). destruct (wd_driver_timeout w) as [hw|]; [|done].
    split; [done |]. pose proof (Z.mul_div_le hw 2). lia.
Qed.
End feeding.

(** ** Examples *)

Module WatchdogExample.

Definition device : LinuxWatchdog := mkLinuxWatchdog true (Some (from_secs 60)).

(** A run of half a minute with heartbeats of every service at 20 s. *)
Definition healthy : list (Instant * WdEvent) :=
  [(from_secs 5, Tick false true)] ++ ((λ s, (from_secs 20, Beat s)) <$> ALL)
  ++ [(from_secs 25, Tick false true)].

Lemma watchdog_feeding_witness :
  (start_watchdog_monitor device ALL 0 (healthy ++ [(from_secs 45, Tick false true)])).2
    !! length healthy = Some [KEEPALIVE_BYTE].
Proof.
  refine (proj1 (watchdog_feeding (Some 60) device ALL 0 healthy (from_secs 45) true []
    _ _ _ _) eq_refl _).
  - reflexivity.
  - unfold healthy. simpl. unfold from_secs, NANOS. repeat split; lia.
  - unfold healthy. simpl. repeat constructor; simpl; intros; discriminate.
  - repeat split; apply Nat.ltb_lt; reflexivity.
  - intros s _. right. exists (from_secs 20). split; [|unfold from_secs, NANOS,
      DEFAULT_HEARTBEAT_TIMEOUT_SECS; lia].
    unfold healthy. apply elem_of_app. right. apply elem_of_app. left.
    apply list_elem_of_fmap. exists s. split; [done |]. destruct s; set_solver.
Defined.

(** The turns of a DHCP client that gets no answer, each as long as the delay
    of the back-off, and the run of the watchdog: the client's heartbeats come
    with its turns, the other services send theirs every five seconds, and the
    monitor takes its turns. *)
Definition turns : list (Instant * Instant) :=
  (λ x, (from_secs x.1, from_secs x.2)) <$> [(0, 4); (4, 12); (12, 28); (28, 60)].
Definition silent_isp : list (Instant * WdEvent) :=
  flat_map (λ n, let t := Z.of_nat n in
    (if bool_decide (t ∈ [0; 4; 12; 28; 60]) then [(from_secs t, Beat DhcpClientSvc)] else [])
    ++ (if bool_decide (t mod 5 = 0)
        then ((λ s, (from_secs t, Beat s)) <$> [DnsForwarderSvc; InterfaceMonitor; LanManager])
             ++ [(from_secs t, Tick false true)]
        else [])) (seq 0 122).
Definition fed_at (events : list (Instant * WdEvent)) : list Z :=
  (λ x, as_secs x.1.1) <$>
    filter (λ x, x.2 ≠ []) (zip events (start_watchdog_monitor device ALL 0 events).2).

(** Finding: a slow provider makes the router reset itself.  A client that gets
    no answer to its DISCOVER doubles its delay up to 64 seconds and sends a
    heartbeat only when it sends the next DISCOVER, but the monitor expects one
    within 30 seconds: although every process works, the device is not fed
    between the 90th and at least the 120th second. *)
Theorem slow_provider_starves_watchdog :
  (∃ out, client_run (PN := Wire.wire_pnet) (λ _, None) mac_broadcast (silent <$> turns)
     (SDiscover 7 INITIAL_RETRY_DELAY_SECS) = (SDiscover 7 64, out) ∧
     out = concat (replicate 4 [ClientHeartbeat; SendDiscover 7])) ∧
  fed_at silent_isp = [0; 5; 10; 15; 20; 25; 30; 35; 40; 45; 50; 55; 60; 65; 70; 75; 80; 85; 90].
Proof. split; [eexists; split; [reflexivity | reflexivity] | vm_compute; reflexivity]. Qed.
End WatchdogExample.
