(* ===== verification/Supervisor.v ===== *)
(** * Supervision of worker processes

    [src/src/services/supervisor.rs] with the restart delay of
    [src/src/services/utils.rs]: the controller of a service's task, and
    [ExternalWorker], whose task restarts a worker process until it is told to
    stop.  The task and the caller of [stop] run in different threads and share
    the shutdown flag and the process id, so each is a state machine with one
    step per access to them, and a run is an interleaving of their steps with
    the deaths of processes. *)

From Stdlib Require Import ZArith Lia.
From stdpp Require Import base gmap sets list.
From S2P Require Import Prelude.

#[local] Open Scope Z_scope.

(** ** The service controller *)

Inductive ServiceError := AlreadyRunning | NotRunning | ServiceIo | FailedToStart (msg : str).

(** [ServiceController]: the sender of the shutdown channel, as the value it
    last sent, and whether there is a task. *)
Record ServiceController := mkServiceController {
  ct_shutdown_tx : option bool;
  ct_task_handle : bool;
}.

Definition controller_new : ServiceController := mkServiceController None false.
Definition is_running (c : ServiceController) : bool := ct_task_handle c.
Definition controller_start (c : ServiceController) :
    Result ServiceError ServiceController :=
  if is_running c then Err AlreadyRunning else Ok (mkServiceController (Some false) true).
Definition signal_shutdown (c : ServiceController) : ServiceController :=
  mkServiceController ((λ _, true) <$> ct_shutdown_tx c) (ct_task_handle c).
(** [stop]: the new controller and what the channel last carried when the
    task is awaited. *)
Definition controller_stop (c : ServiceController) :
    Result ServiceError (ServiceController * option bool) :=
  if ct_task_handle c
  then Ok (mkServiceController None false, (λ _, true) <$> ct_shutdown_tx c)
  else Err NotRunning.

(** ** Restart delays *)

Definition MAX_SUPERVISOR_RESTART_DELAY_SECS : Z := 60.

Definition calculate_supervisor_restart_delay (attempt : Z) : Duration :=
  if bool_decide (attempt = 0) then 0
  else
    let shift := Z.min attempt 6 in
    from_secs (Z.min (Z.shiftl 1 shift) MAX_SUPERVISOR_RESTART_DELAY_SECS).

(** ** Ending a process

    [terminate_worker], with the answer to its [SIGTERM] and what its polls of
    the process find: the time elapsed and whether it still runs. *)

Inductive KillResult := KillOk | KillNoProcess | KillRefused.
Inductive Signal := SIGTERM | SIGKILL.

Fixpoint terminate_polls (polls : list (Duration * bool)) (sigkill_sent : bool) : list Signal :=
  match polls with
  | [] | (_, false) :: _ => []
  | (elapsed, true) :: polls' =>
      let kill := negb sigkill_sent && bool_decide (from_secs 1 < elapsed) in
      (if kill then [SIGKILL] else []) ++
      (if bool_decide (from_secs 2 < elapsed) then []
       else terminate_polls polls' (sigkill_sent || kill))
  end.
Definition terminate_worker_signals (term : KillResult) (polls : list (Duration * bool)) :
    list Signal :=
  SIGTERM :: match term with KillOk => terminate_polls polls false | _ => [] end.

(** ** The supervised worker *)

(** Where the task of [start_supervised] is. *)
Inductive LoopPc :=
(** The head of the loop *)
| LHead
(** [handle_supervisor_restart_delay], asleep *)
| LDelay
(** [attempt_supervised_run], before its first look at the flag *)
| LSetup
(** After [setup_attempt], before the second look *)
| LReady
(** About to spawn the process *)
| LFork
(** In [spawn_and_track_process], before the id is stored *)
| LStore (pid : Z)
(** Before [run_monitor] *)
| LStart (pid : Z)
(** Awaiting the monitor *)
| LMonitor (pid : Z) (spawn_time : Instant)
(** The task has ended *)
| LDone.

(** Where the caller of [ExternalWorker::stop] is. *)
Inductive StopPc := StopIdle | StopSignalled | StopAwait | StopDone.

Record Supervisor := mkSupervisor {
  su_shutdown : bool;
  (** [child_pid], 0 when there is none *)
  su_child_pid : Z;
  su_attempt : Z;
  su_loop : LoopPc;
  su_stop : StopPc;
  (** the worker processes that exist *)
  su_alive : gset Z;
}.

Definition supervisor_start : Supervisor :=
  mkSupervisor false 0 0 LHead StopIdle ∅.

Definition go (pc : LoopPc) (s : Supervisor) : Supervisor :=
  mkSupervisor (su_shutdown s) (su_child_pid s) (su_attempt s) pc (su_stop s) (su_alive s).
Definition set_attempt (n : Z) (s : Supervisor) : Supervisor :=
  mkSupervisor (su_shutdown s) (su_child_pid s) n (su_loop s) (su_stop s) (su_alive s).
Definition set_child_pid (pid : Z) (s : Supervisor) : Supervisor :=
  mkSupervisor (su_shutdown s) pid (su_attempt s) (su_loop s) (su_stop s) (su_alive s).
Definition set_alive (ps : gset Z) (s : Supervisor) : Supervisor :=
  mkSupervisor (su_shutdown s) (su_child_pid s) (su_attempt s) (su_loop s) (su_stop s) ps.

(** [terminate_worker], as the task sees it: the kernel takes a [SIGTERM] for a
    child of process 1 unless it is gone already, and a process that was sent
    [SIGKILL] ends.  The signals that are sent, and when, are those of
    [terminate_worker_signals]. *)
Definition terminate_worker (pid : Z) (s : Supervisor) : Supervisor :=
  set_alive (su_alive s ∖ {[pid]}) s.

(** What the outside decides in a step of the task. *)
Record SupEnv := mkSupEnv {
  se_now : Instant;
  (** the sleep ends before the flag is seen to change *)
  se_slept : bool;
  se_setup_ok : bool;
  (** the id of the process, if it can be spawned *)
  se_spawned : option Z;
  se_monitor_ok : bool;
  (** the monitor ends by itself, after an I/O error *)
  se_monitor_ends : bool;
}.

(** The monitors of the DNS forwarder and of the DHCP server end when the
    shutdown flag is raised; that of the DHCP client is not given the flag. *)
Section worker.
Variable heeds_shutdown : bool.

Definition handle_supervisor_restart_delay (s : Supervisor) : Supervisor :=
  go LSetup (set_attempt (u32_saturating_add (su_attempt s) 1) s).

Definition loop_step (env : SupEnv) (s : Supervisor) : Supervisor :=
  match su_loop s with
  | LHead =>
      if su_shutdown s then go LDone s
      else if bool_decide (0 < su_attempt s) then go LDelay s
      else handle_supervisor_restart_delay s
  | LDelay =>
      if su_shutdown s && negb (se_slept env) then go LDone s
      else handle_supervisor_restart_delay s
  | LSetup =>
      if su_shutdown s then go LHead s
      else if se_setup_ok env then go LReady s else go LHead s
  | LReady => if su_shutdown s then go LHead s else go LFork s
  | LFork =>
      match se_spawned env with
      | Some pid => go (LStore pid) (set_alive ({[pid]} ∪ su_alive s) s)
      | None => go LHead s
      end
  | LStore pid => go (LStart pid) (set_child_pid pid s)
  | LStart pid =>
      if se_monitor_ok env then go (LMonitor pid (se_now env)) s
      else go LHead (terminate_worker pid s)
  | LMonitor pid spawn_time =>
      if (heeds_shutdown && su_shutdown s) || bool_decide (pid ∉ su_alive s) || se_monitor_ends env
      then
        let s1 := terminate_worker pid s in
        go LHead (if bool_decide (from_secs 60 ≤ duration_since (se_now env) spawn_time)
                  then set_attempt 0 s1 else s1)
      else s
  | LDone => s
  end.

Definition set_stop (pc : StopPc) (s : Supervisor) : Supervisor :=
  mkSupervisor (su_shutdown s) (su_child_pid s) (su_attempt s) (su_loop s) pc (su_alive s).

(** [ExternalWorker::stop] *)
Definition stop_step (s : Supervisor) : Supervisor :=
  match su_stop s with
  | StopIdle =>
      set_stop StopSignalled
        (mkSupervisor true (su_child_pid s) (su_attempt s) (su_loop s) (su_stop s) (su_alive s))
  | StopSignalled =>
      let child_pid := su_child_pid s in
      let s1 := set_child_pid 0 s in
      set_stop StopAwait (if bool_decide (child_pid ≠ 0) then terminate_worker child_pid s1 else s1)
  | StopAwait => match su_loop s with LDone => set_stop StopDone s | _ => s end
  | StopDone => s
  end.

Inductive SupEvent :=
| ELoop (env : SupEnv)
| EStop
(** A worker process dies *)
| EExit (pid : Z).

Definition sup_event (e : SupEvent) (s : Supervisor) : Supervisor :=
  match e with
  | ELoop env => loop_step env s
  | EStop => stop_step s
  | EExit pid => set_alive (su_alive s ∖ {[pid]}) s
  end.
Definition run_supervisor (events : list SupEvent) (s : Supervisor) : Supervisor :=
  foldl (λ s e, sup_event e s) s events.
End worker.

(** ** Theorems *)

(** Only a process that outlives its [SIGTERM] by a second is killed, once. *)
Lemma terminate_worker_signals_spec term polls :
  terminate_worker_signals term polls = [SIGTERM] ∨
  terminate_worker_signals term polls = [SIGTERM; SIGKILL] ∧ term = KillOk ∧
  ∃ elapsed, (elapsed, true) ∈ polls ∧ from_secs 1 < elapsed.
Proof.
  unfold terminate_worker_signals. destruct term; [|by left | by left].
  assert (∀ ps, terminate_polls ps true = []) as Hsent.
  { induction ps as [|[d []] ps IH]; [done | simpl | done]. by case_bool_decide. }
  induction polls as [|[d []] ps IH]; [by left | cbn [terminate_polls negb andb orb] | by left].
  destruct (bool_decide_reflect (from_secs 1 < d)) as [Hd | Hd].
  - right. simpl. rewrite Hsent. split; [by case_bool_decide |].
    split; [done |]. exists d. split; [apply list_elem_of_here | done].
  - case_bool_decide; [by left |]. simpl.
    destruct IH as [E | (E & _ & d' & ? & ?)]; [by left | right].
    split; [done |]. split; [done |]. exists d'. split; [by apply list_elem_of_further | done].
Qed.

(** The delay before the [n]-th restart. *)
Lemma restart_delay_spec attempt :
  0 ≤ attempt →
  calculate_supervisor_restart_delay attempt
  = if decide (attempt = 0) then 0
    else if decide (attempt ≤ 5) then from_secs (2 ^ attempt) else from_secs 60.
Proof.
  intros H. unfold calculate_supervisor_restart_delay, MAX_SUPERVISOR_RESTART_DELAY_SECS.
  case_bool_decide; case_decide; try done. rewrite Z.shiftl_mul_pow2, Z.mul_1_l by lia.
  case_decide as H5.
  - rewrite (Z.min_l attempt 6) by lia. f_equal. apply Z.min_l.
    transitivity (2 ^ 5); [by apply Z.pow_le_mono_r | done].
  - by rewrite (Z.min_r attempt 6) by lia.
Qed.

Section supervisor_spec.
Context (heeds_shutdown : bool).
Implicit Types s : Supervisor.

(** The process the task knows of. *)
Definition loop_pids (pc : LoopPc) : gset Z :=
  match pc with
  | LStore pid | LStart pid | LMonitor pid _ => {[pid]}
  | _ => ∅
  end.

Record sup_inv s : Prop := {
  si_alive : su_alive s ⊆ loop_pids (su_loop s);
  si_shutdown : su_stop s ≠ StopIdle → su_shutdown s = true;
  si_done : su_stop s = StopDone → su_loop s = LDone;
}.

Lemma loop_step_inv env s : sup_inv s → sup_inv (loop_step heeds_shutdown env s).
Proof.
  intros [Ha Hs Hd]. unfold loop_step, handle_supervisor_restart_delay, terminate_worker.
  destruct (su_loop s) eqn:E; simpl in Ha; repeat case_match; simpl;
    split; simpl; rewrite ?E; try set_solver; intros; by apply Hs || by rewrite Hd in E.
Qed.

Lemma stop_step_inv s : sup_inv s → sup_inv (stop_step s).
Proof.
  intros [Ha Hs Hd]. unfold stop_step, terminate_worker. destruct (su_stop s) eqn:E.
  - by split.
  - case_bool_decide; split; simpl; try done; [set_solver | auto | auto].
  - destruct (su_loop s) eqn:El; (split; [simpl; by rewrite ?El | auto | by rewrite ?E, ?El]).
  - split; [done | by rewrite E | by rewrite E].
Qed.

Lemma run_supervisor_inv events s : sup_inv s → sup_inv (run_supervisor heeds_shutdown events s).
Proof.
  revert s. induction events as [|e events IH]; intros s Hs; [done |]. apply IH.
  destruct e; [by apply loop_step_inv | by apply stop_step_inv |].
  destruct Hs as [Ha Hs Hd]. split; simpl; [set_solver | done | done].
Qed.

Lemma supervisor_start_inv : sup_inv supervisor_start.
Proof. by split. Qed.

(** C12: no worker is left behind.  In every interleaving of the task that
    restarts the worker, of a [stop] from another thread and of the deaths of
    processes, at most one worker process exists, and once the task has ended,
    in particular once [stop] has returned, none does. *)
Theorem no_orphan_worker events :
  let s := run_supervisor heeds_shutdown events supervisor_start in
  (size (su_alive s) ≤ 1)%nat ∧
  (su_loop s = LDone ∨ su_stop s = StopDone → su_alive s = ∅).
Proof.
  intros s.
  destruct (run_supervisor_inv events _ supervisor_start_inv) as [Ha _ Hd]. fold s in Ha, Hd. split.
  - etrans; [by apply subseteq_size |].
    destruct (su_loop s); cbn [loop_pids];
      first [rewrite size_empty; lia | rewrite size_singleton; lia].
  - intros H. assert (su_loop s = LDone) as El by (destruct H; auto). rewrite El in Ha. set_solver.
Qed.
End supervisor_spec.

(** ** Stopping *)

(** The steps the task can still take once the flag is raised. *)
Definition loop_rank (pc : LoopPc) : nat :=
  match pc with
  | LDone => 0 | LHead => 1 | LSetup | LReady | LMonitor _ _ => 2 | LDelay | LStart _ => 3
  | LStore _ => 4 | LFork => 5
  end.
Definition is_loop (e : SupEvent) : bool := match e with ELoop _ => true | _ => false end.
Definition is_stop (e : SupEvent) : bool := match e with EStop => true | _ => false end.

(** The monitor will end: it heeds the flag, or no worker is left that it could
    wait for and none is about to be spawned. *)
Definition will_end (heeds_shutdown : bool) (s : Supervisor) : Prop :=
  heeds_shutdown = true ∨ (su_alive s = ∅ ∧ su_loop s ≠ LFork).

Lemma loop_step_rank heeds env s :
  su_shutdown s = true → will_end heeds s →
  su_shutdown (loop_step heeds env s) = true ∧ will_end heeds (loop_step heeds env s) ∧
  (loop_rank (su_loop (loop_step heeds env s)) ≤ loop_rank (su_loop s) - 1)%nat.
Proof.
  intros Hs He.
  assert (∀ s', su_shutdown s' = true → su_alive s' ⊆ su_alive s → su_loop s' ≠ LFork →
    (loop_rank (su_loop s') ≤ loop_rank (su_loop s) - 1)%nat →
    su_shutdown s' = true ∧ will_end heeds s' ∧ (loop_rank (su_loop s') ≤ loop_rank (su_loop s) - 1)%nat) as Hgo.
  { intros s' ? Ha ? ?. split_and!; [done | | done]. destruct He as [->|[He _]]; [by left | right].
    split; [|done]. rewrite He in Ha. by apply equiv_empty_L. }
  unfold loop_step, handle_supervisor_restart_delay, terminate_worker. rewrite Hs.
  destruct (su_loop s) eqn:E; cbn [loop_rank andb] in Hgo |- *.
  5: { destruct He as [->|[_ ?]]; [|done]. destruct (se_spawned env); simpl; (split_and!; [done | by left | lia]). }
  7: { destruct ((heeds && true) || bool_decide (pid ∉ su_alive s) || se_monitor_ends env) eqn:Hc.
       - apply Hgo; clear -Hs; destruct (bool_decide (from_secs 60 ≤ _)); simpl;
           first [exact Hs | lia | discriminate | apply subseteq_difference_l; reflexivity].
       - destruct He as [->|[He _]]; [done |]. rewrite He, (bool_decide_true (pid ∉ ∅)) in Hc by set_solver.
         by rewrite orb_true_r in Hc. }
  all: apply Hgo; clear -Hs E; repeat case_match; simpl; rewrite ?E; simpl;
    first [exact Hs | lia | discriminate | reflexivity | apply subseteq_difference_l; reflexivity].
Qed.

Lemma stop_step_ends heeds s :
  su_loop (stop_step s) = su_loop s ∧ (su_shutdown s = true → su_shutdown (stop_step s) = true) ∧
  (will_end heeds s → will_end heeds (stop_step s)).
Proof.
  unfold stop_step, will_end. destruct (su_stop s); repeat case_match; simpl; split_and!; try done; try congruence.
  all: intros [->|[He Hf]]; [by left | right; split; [set_solver | congruence]].
Qed.

Lemma run_rank heeds events s :
  su_shutdown s = true → will_end heeds s →
  su_shutdown (run_supervisor heeds events s) = true ∧
  (loop_rank (su_loop (run_supervisor heeds events s))
   ≤ loop_rank (su_loop s) - length (filter (λ e, is_loop e = true) events))%nat.
Proof.
  revert s. induction events as [|e events IH]; intros s Hs He; [simpl; split; [done | lia] |].
  assert (su_shutdown (sup_event heeds e s) = true ∧ will_end heeds (sup_event heeds e s) ∧
    loop_rank (su_loop (sup_event heeds e s)) ≤ loop_rank (su_loop s) -
      length (filter (λ e, is_loop e = true) [e]))%nat as (Hs1 & He1 & Hr).
  { destruct e; simpl; [by apply loop_step_rank | |].
    - destruct (stop_step_ends heeds s) as (-> & H1 & H2). split_and!; [auto | auto | lia].
    - split_and!; [done | | lia]. destruct He as [->|[He Hf]]; [by left | right; split; [set_solver | done]]. }
  destruct (IH _ Hs1 He1) as [H1 H2]. split; [done |]. simpl in H2 |- *.
  rewrite filter_cons in *. destruct (decide (is_loop e = true)); simpl in *; lia.
Qed.

Lemma run_stops heeds events s :
  su_loop s = LDone → su_stop s ≠ StopIdle →
  (2 ≤ length (filter (λ e, is_stop e = true) events))%nat →
  su_stop (run_supervisor heeds events s) = StopDone.
Proof.
  set (rank pc := match pc with StopDone => 0 | StopAwait => 1 | _ => 2 end%nat).
  assert (∀ events s, su_loop s = LDone → su_stop s ≠ StopIdle →
    (rank (su_stop s) ≤ length (filter (λ e, is_stop e = true) events))%nat →
    su_stop (run_supervisor heeds events s) = StopDone) as H.
  { clear. induction events as [|e events IH]; intros s Hl Hs Hn.
    { simpl in *. destruct (su_stop s); simpl in *; done || lia. }
    rewrite filter_cons in Hn. destruct e as [env | | pid]; simpl in Hn |- *.
    - unfold loop_step. rewrite Hl. by apply IH.
    - unfold stop_step. rewrite Hl.
      destruct (su_stop s) eqn:E; simpl in Hn; [done | | |];
        apply IH; try case_bool_decide; simpl; rewrite ?E; simpl; done || lia.
    - by apply IH. }
  intros Hl Hs Hn. apply H; [done | done |]. unfold rank. destruct (su_stop s); lia.
Qed.

Lemma run_stop_begun heeds events s :
  su_stop s ≠ StopIdle → su_stop (run_supervisor heeds events s) ≠ StopIdle.
Proof.
  revert s. induction events as [|e events IH]; intros s Hs; [done |]. apply IH.
  destruct e; simpl; [| |done].
  - unfold loop_step, handle_supervisor_restart_delay. destruct (su_loop s); repeat case_match; done.
  - unfold stop_step. destruct (su_stop s) eqn:E; repeat case_match; simpl; congruence.
Qed.

(** C36: stopping a worker ends.  Take any point of any interleaving at which
    [stop] has raised the flag, where either the worker's monitor heeds the flag,
    as those of the DNS forwarder and of the DHCP server do, or, for the monitor
    of the DHCP client, which does not, no worker process is left and the task is
    not just spawning one; the latter is so once [stop] has ended the process
    whose id was stored.  Five more steps of the restarting task, in any mixture
    with steps of [stop] and deaths of processes, and after them two steps of
    [stop], again in any mixture, end with [stop] returned and no worker process
    left. *)
Theorem stop_completes heeds events more1 more2 :
  let s := run_supervisor heeds events supervisor_start in
  let s' := run_supervisor heeds more2 (run_supervisor heeds more1 s) in
  su_stop s ≠ StopIdle → heeds = true ∨ (su_alive s = ∅ ∧ su_loop s ≠ LFork) →
  (5 ≤ length (filter (λ e, is_loop e = true) more1))%nat →
  (2 ≤ length (filter (λ e, is_stop e = true) more2))%nat →
  su_stop s' = StopDone ∧ su_alive s' = ∅.
Proof.
  intros s s' Hs Hend H1 H2.
  pose proof (run_supervisor_inv heeds events _ supervisor_start_inv) as Hi. fold s in Hi.
  destruct (run_rank heeds more1 s (si_shutdown _ Hi Hs) Hend) as [Hsh Hr].
  pose proof (run_supervisor_inv heeds more1 s Hi) as Hi1.
  set (s1 := run_supervisor heeds more1 s) in *.
  assert (su_loop s1 = LDone) as Hl.
  { assert (loop_rank (su_loop s) ≤ 5)%nat by (destruct (su_loop s); simpl; lia).
    destruct (su_loop s1); simpl in Hr; done || lia. }
  assert (su_stop s1 ≠ StopIdle) as Hs1 by (by apply run_stop_begun).
  pose proof (run_stops heeds more2 s1 Hl Hs1 H2) as Hd. fold s' in Hd. split; [done |].
  destruct (run_supervisor_inv heeds more2 s1 Hi1) as [Ha _ Hdone]. fold s' in Ha, Hdone.
  rewrite (Hdone Hd) in Ha. set_solver.
Qed.

(** ** Examples *)

Module SupervisorExample.

Definition env : SupEnv := mkSupEnv 0 false true (Some 100) true false.
Definition loops (n : nat) : list SupEvent := replicate n (ELoop env).

(** A worker is running when [stop] is called: with a monitor that heeds the flag,
    and with one that does not, after [stop] has ended the process. *)
Lemma stop_completes_witness :
  (let s := run_supervisor true (loops 6 ++ [EStop]) supervisor_start in
   let s' := run_supervisor true [EStop; EStop] (run_supervisor true (loops 5) s) in
   su_alive s = {[100]} ∧ su_stop s' = StopDone ∧ su_alive s' = ∅) ∧
  (let s := run_supervisor false (loops 6 ++ [EStop; EStop]) supervisor_start in
   let s' := run_supervisor false [EStop; EStop] (run_supervisor false (loops 5) s) in
   su_stop s' = StopDone ∧ su_alive s' = ∅).
Proof.
  split; [intros s s'; split; [reflexivity |] | intros s s'].
  - apply (stop_completes true (loops 6 ++ [EStop]) (loops 5) [EStop; EStop]);
      [discriminate | by left | simpl; lia | simpl; lia].
  - apply (stop_completes false (loops 6 ++ [EStop; EStop]) (loops 5) [EStop; EStop]);
      [discriminate | right; split; [vm_compute; reflexivity | discriminate] | simpl; lia | simpl; lia].
Defined.

(** Finding: [stop] can wait for ever for a DHCP client.  If the flag is raised
    after the task's second look at it and the process id is taken before the
    new process has stored it, the process is not signalled; and the monitor of
    the DHCP client, which is not given the flag, goes on serving it: neither
    the task nor [stop] can take a step that changes anything as long as the
    worker lives. *)
Theorem stop_can_hang :
  let s := run_supervisor false (loops 4 ++ [EStop; EStop] ++ loops 3) supervisor_start in
  su_stop s = StopAwait ∧ 100 ∈ su_alive s ∧
  (∀ e, stop_step s = s ∧ (se_monitor_ends e = false → loop_step false e s = s)).
Proof.
  intros s.
  assert (s = mkSupervisor true 100 1 (LMonitor 100 0) StopAwait {[100]}) as ->
    by (vm_compute; reflexivity).
  split; [done |]. split; [set_solver |]. intros e. split; [done |]. intros He.
  unfold loop_step. cbn [su_loop su_shutdown su_alive andb orb]. rewrite He.
  rewrite bool_decide_false by set_solver. done.
Qed.

(** Finding: [stop] signals the id of a process that is gone.  The id of a
    worker is kept after the worker has died and been reaped, so that a [stop]
    during the back-off sends [SIGTERM] to whatever has that id by then. *)
Theorem stop_signals_stale_pid :
  let s := run_supervisor true (loops 6 ++ [EExit 100; ELoop env; ELoop env]) supervisor_start in
  su_loop s = LDelay ∧ su_alive s = ∅ ∧ su_child_pid s = 100.
Proof. vm_compute. split_and!; reflexivity. Qed.

(** Finding: the first four restarts are delayed by 2, 4, 8 and 16 seconds, the
    whole of the 30 seconds in which the watchdog wants a heartbeat; the
    watchdog's specification counts 1, 2, 4 and 8. *)
Theorem first_restart_delays :
  calculate_supervisor_restart_delay <$> [1; 2; 3; 4] = from_secs <$> [2; 4; 8; 16].
Proof. reflexivity. Qed.
End SupervisorExample.
