(* ===== verification/Sntp.v ===== *)
(** * The SNTP client

    The worker of [src/src/services/sntp_client/worker.rs], which asks a time
    server and schedules the next attempt, and its parent in
    [src/src/services/sntp_client/manager.rs], which runs the worker while
    there is a WAN lease, resolves the server's name and sets the clock. *)

From Stdlib Require Import ZArith Lia.
From stdpp Require Import base sets list strings.
From S2P Require Import Prelude NetAddr.

#[local] Open Scope Z_scope.

Definition SYNC_INTERVAL : Duration := from_secs 1800.
Definition RETRY_INTERVAL : Duration := from_secs 60.
Definition MAX_RETRY_INTERVAL : Duration := from_secs 900.
Definition NANOS_PER_MICRO : Z := 1000.
Definition MIN_SANE_EPOCH_SECS : Z := 1700000000.
Definition MAX_SANE_EPOCH_SECS : Z := 4102444800.
Definition NANOS_PER_SEC : Z := 1000000000.

(** Messages between the two ([services::ipc]). *)
Inductive SntpClientToParentMsg :=
| SetSystemTime (seconds nanoseconds : Z)
| ResolveTimeServer.
Inductive SntpParentToClientMsg :=
| TimeServerResolved (result : Result str Ipv4Addr).

(** What is used of the [sntpc] and [chrono] crates: the conversion of the
    fraction of an NTP time stamp, and [Utc.timestamp_opt(..).single()], with a
    [DateTime<Utc>] as nanoseconds since the epoch. *)
Class NtpLib := {
  fraction_to_microseconds : Z → Z;
  timestamp_opt : Z → Z → option Z;
}.
Class NtpLibLaws `{NtpLib} : Prop := {
  fraction_range f : is_u32 f → 0 ≤ fraction_to_microseconds f < 1000000;
  timestamp_opt_nanos secs nanos dt :
    0 ≤ nanos < NANOS_PER_SEC → timestamp_opt secs nanos = Some dt →
    dt = secs * NANOS_PER_SEC + nanos;
  timestamp_opt_recent secs nanos :
    0 ≤ secs < 2 ^ 32 → 0 ≤ nanos < NANOS_PER_SEC → is_Some (timestamp_opt secs nanos);
}.

(** ** The worker *)

Record SyncScheduleResult := mkSyncScheduleResult {
  next_sync_delay : Duration;
  next_retry_delay : Duration;
}.
Record TimeComponents := mkTimeComponents { tc_seconds : Z; tc_nanoseconds : Z }.

(** [Duration::saturating_mul] cannot saturate here: the delay is at most 15
    minutes. *)
Definition calculate_next_retry_delay (current : Duration) : Duration :=
  Z.min (current * 2) MAX_RETRY_INTERVAL.

(** [to_std] fails for a time before the epoch. *)
Definition datetime_to_time_components (chrono_dt : Z) : option TimeComponents :=
  if bool_decide (0 ≤ chrono_dt)
  then Some (mkTimeComponents (chrono_dt / NANOS_PER_SEC) (chrono_dt mod NANOS_PER_SEC))
  else None.

Definition send_time_to_parent (chrono_dt : Z) : list SntpClientToParentMsg :=
  match datetime_to_time_components chrono_dt with
  | Some c => [SetSystemTime (tc_seconds c) (tc_nanoseconds c)]
  | None => []
  end.

Section sntp.
Context `{!NtpLib}.

(** [query_ntp_time]: [answer] is what [get_time] returned in time, as the
    seconds and the fraction of the time stamp. *)
Definition query_ntp_time (answer : option (Z * Z)) : option Z :=
  match answer with
  | None => None
  | Some (sec, sec_fraction) =>
      let micros := fraction_to_microseconds sec_fraction in
      let nanos := Z.min u32_max (micros * NANOS_PER_MICRO) in
      timestamp_opt sec nanos
  end.

Definition handle_time_server_resolved (result : Result str Ipv4Addr) (answer : option (Z * Z))
    (current_retry_delay : Duration) : SyncScheduleResult * list SntpClientToParentMsg :=
  let retry :=
    mkSyncScheduleResult current_retry_delay (calculate_next_retry_delay current_retry_delay) in
  match result with
  | Ok ntp_server_ip =>
      if is_valid_ntp_server_ip ntp_server_ip then
        match query_ntp_time answer with
        | Some chrono_dt =>
            (mkSyncScheduleResult SYNC_INTERVAL RETRY_INTERVAL, send_time_to_parent chrono_dt)
        | None => (retry, [])
        end
      else (retry, [])
  | Err _ => (retry, [])
  end.

Record SntpWorker := mkSntpWorker {
  sw_retry_delay : Duration;
  (** the next tick of [sync_timer] *)
  sw_next_tick : Instant;
  sw_running : bool;
}.

(** The start of [run_sntp_worker_loop]. *)
Definition sntp_worker_start (now : Instant) : SntpWorker * list SntpClientToParentMsg :=
  (mkSntpWorker RETRY_INTERVAL now true, [ResolveTimeServer]).

Inductive SntpWorkerEvent :=
| WkTick (send_ok : bool)
| WkMessage (msg : SntpParentToClientMsg) (answer : option (Z * Z))
| WkClosed.

Definition sntp_worker_event (now : Instant) (e : SntpWorkerEvent) (w : SntpWorker) :
    SntpWorker * list SntpClientToParentMsg :=
  if negb (sw_running w) then (w, []) else
  match e with
  | WkTick send_ok =>
      if bool_decide (now < sw_next_tick w) then (w, [])
      else if send_ok
      then (mkSntpWorker (sw_retry_delay w) (sw_next_tick w + SYNC_INTERVAL) true,
            [ResolveTimeServer])
      else (mkSntpWorker (sw_retry_delay w) (sw_next_tick w + SYNC_INTERVAL) false, [])
  | WkMessage (TimeServerResolved result) answer =>
      let '(schedule, out) := handle_time_server_resolved result answer (sw_retry_delay w) in
      (mkSntpWorker (next_retry_delay schedule) (now + next_sync_delay schedule) true, out)
  | WkClosed => (mkSntpWorker (sw_retry_delay w) (sw_next_tick w) false, [])
  end.

Fixpoint run_sntp_worker_loop (events : list (Instant * SntpWorkerEvent)) (w : SntpWorker) :
    SntpWorker * list SntpClientToParentMsg :=
  match events with
  | [] => (w, [])
  | (now, e) :: events' =>
      let '(w1, o1) := sntp_worker_event now e w in
      let '(w2, o2) := run_sntp_worker_loop events' w1 in
      (w2, o1 ++ o2)
  end.
End sntp.

(** ** The parent *)

(** [resolve_host], over the addresses the resolver returned ([None] for an
    address that is not IPv4). *)
Fixpoint resolve_host (addrs : list (option Ipv4Addr)) : option Ipv4Addr :=
  match addrs with
  | [] => None
  | Some ip :: rest => if is_valid_ntp_server_ip ip then Some ip else resolve_host rest
  | None :: rest => resolve_host rest
  end.
(** [resolve_time_server_ip]; the lookup has the message of its failure or
    time-out. *)
Definition resolve_time_server_ip (lookup : Result str (list (option Ipv4Addr))) :
    Result str Ipv4Addr :=
  let? addrs := lookup in
  ok_or (lit "No valid routable IPv4 address resolved for time.google.com") (resolve_host addrs).

Definition is_valid_system_time (seconds nanoseconds : Z) : bool :=
  bool_decide (MIN_SANE_EPOCH_SECS ≤ seconds ≤ MAX_SANE_EPOCH_SECS)
  && bool_decide (0 ≤ nanoseconds < NANOS_PER_SEC).

Inductive SntpAction :=
| SSpawned (pid : Z)
| STerminate (pid : Z)
| SSetClock (seconds nanoseconds : Z)
| SPublishSynchronized
| SToWorker (msg : SntpParentToClientMsg).

(** [set_system_clock]; [clock_ok] is the outcome of [clock_settime]. *)
Definition set_system_clock (seconds nanoseconds : Z) (clock_ok : bool) : list SntpAction :=
  if negb (is_valid_system_time seconds nanoseconds) then []
  else SSetClock seconds nanoseconds :: (if clock_ok then [SPublishSynchronized] else []).

(** The worker that runs and the value of the lease channel. *)
Record SntpManager := mkSntpManager {
  sm_active_child : option Z;
  sm_has_wan : bool;
  sm_running : bool;
}.

Inductive SntpManagerEvent :=
| MgShutdown
(** The lease changes, with what spawning a worker would give *)
| MgLease (has_wan : bool) (spawned : option Z)
| MgLeaseClosed
(** A message of the worker, [None] when its channel is closed or fails *)
| MgIpc (msg : option SntpClientToParentMsg) (clock_ok : bool)
    (lookup : Result str (list (option Ipv4Addr))).

Definition spawn_sntp_worker (spawned : option Z) : option Z * list SntpAction :=
  match spawned with Some pid => (Some pid, [SSpawned pid]) | None => (None, []) end.

Definition handle_sntp_ipc_msg (msg : option SntpClientToParentMsg) (clock_ok : bool)
    (lookup : Result str (list (option Ipv4Addr))) (active_child : option Z) :
    option Z * list SntpAction :=
  match msg with
  | Some (SetSystemTime seconds nanoseconds) =>
      (active_child, set_system_clock seconds nanoseconds clock_ok)
  | Some ResolveTimeServer =>
      match active_child with
      | Some _ => (active_child, [SToWorker (TimeServerResolved (resolve_time_server_ip lookup))])
      | None => (active_child, [])
      end
  | None =>
      match active_child with
      | Some pid => (None, [STerminate pid])
      | None => (None, [])
      end
  end.

(** The end of [run_sntp_manager_loop]. *)
Definition sntp_manager_end (m : SntpManager) : SntpManager * list SntpAction :=
  (mkSntpManager None (sm_has_wan m) false,
   match sm_active_child m with Some pid => [STerminate pid] | None => [] end).

Definition sntp_manager_event (e : SntpManagerEvent) (m : SntpManager) :
    SntpManager * list SntpAction :=
  if negb (sm_running m) then (m, []) else
  match e with
  | MgShutdown | MgLeaseClosed => sntp_manager_end m
  | MgLease has_wan spawned =>
      if has_wan && bool_decide (sm_active_child m = None) then
        let '(child, out) := spawn_sntp_worker spawned in (mkSntpManager child has_wan true, out)
      else if negb has_wan then
        (mkSntpManager None has_wan true,
         match sm_active_child m with Some pid => [STerminate pid] | None => [] end)
      else (mkSntpManager (sm_active_child m) has_wan true, [])
  | MgIpc msg clock_ok lookup =>
      match sm_active_child m with
      (* with no worker this arm is never ready *)
      | None => (m, [])
      | Some _ =>
          let '(child, out) := handle_sntp_ipc_msg msg clock_ok lookup (sm_active_child m) in
          (mkSntpManager child (sm_has_wan m) true, out)
      end
  end.

Fixpoint sntp_manager_events (events : list SntpManagerEvent) (m : SntpManager) :
    SntpManager * list SntpAction :=
  match events with
  | [] => (m, [])
  | e :: events' =>
      let '(m1, o1) := sntp_manager_event e m in
      let '(m2, o2) := sntp_manager_events events' m1 in
      (m2, o1 ++ o2)
  end.

(** [run_sntp_manager_loop]: the check at the start, then the loop. *)
Definition run_sntp_manager_loop (has_wan : bool) (spawned : option Z)
    (events : list SntpManagerEvent) : SntpManager * list SntpAction :=
  let '(child, o1) := if has_wan then spawn_sntp_worker spawned else (None, []) in
  let '(m, o2) := sntp_manager_events events (mkSntpManager child has_wan true) in
  (m, o1 ++ o2).

(** ** Theorems *)

(** The processes that were spawned and not terminated. *)
Definition sntp_processes (out : list SntpAction) : list Z :=
  foldl (λ ps o, match o with
    | SSpawned pid => ps ++ [pid]
    | STerminate pid => filter (λ p, p ≠ pid) ps
    | _ => ps
    end) [] out.

Definition sntp_sane (o : SntpAction) : Prop :=
  match o with
  | SSetClock seconds nanoseconds =>
      MIN_SANE_EPOCH_SECS ≤ seconds ≤ MAX_SANE_EPOCH_SECS ∧ 0 ≤ nanoseconds < NANOS_PER_SEC
  | SToWorker (TimeServerResolved (Ok ip)) => is_valid_ntp_server_ip ip = true
  | _ => True
  end.

Definition child_list (m : SntpManager) : list Z :=
  match sm_active_child m with Some pid => [pid] | None => [] end.

Definition sntp_inv (m : SntpManager) (out : list SntpAction) : Prop :=
  sntp_processes out = child_list m ∧ Forall sntp_sane out ∧
  (is_Some (sm_active_child m) → sm_has_wan m = true ∧ sm_running m = true).

Lemma child_list_Some m : child_list m ≠ [] → is_Some (sm_active_child m).
Proof. unfold child_list. destruct (sm_active_child m); [by eexists | done]. Qed.

Lemma resolve_host_valid addrs ip :
  resolve_host addrs = Some ip → is_valid_ntp_server_ip ip = true.
Proof.
  induction addrs as [|[a|] addrs IH]; simpl; [done | | done].
  destruct (is_valid_ntp_server_ip a) eqn:E; [by intros [= <-] | done].
Qed.

Lemma set_system_clock_sane seconds nanoseconds clock_ok :
  Forall sntp_sane (set_system_clock seconds nanoseconds clock_ok).
Proof.
  unfold set_system_clock. destruct (is_valid_system_time _ _) eqn:E; [|constructor].
  unfold is_valid_system_time in E. apply andb_true_iff in E as [E1 E2].
  apply bool_decide_eq_true in E1, E2. constructor; [done |]. destruct clock_ok; by repeat constructor.
Qed.

Lemma sntp_processes_app o1 o2 :
  (∀ pid, SSpawned pid ∉ o2) → (∀ pid, STerminate pid ∉ o2) →
  sntp_processes (o1 ++ o2) = sntp_processes o1.
Proof.
  intros H1 H2. unfold sntp_processes. rewrite foldl_app.
  generalize (foldl (λ ps o, match o with SSpawned pid => ps ++ [pid]
    | STerminate pid => filter (λ p, p ≠ pid) ps | _ => ps end) [] o1) as ps.
  induction o2 as [|o o2 IH]; intros ps; [done |]. simpl.
  destruct o; [by destruct (H1 pid); left | by destruct (H2 pid); left | | |];
    (apply IH; [intros p Hp; apply (H1 p) | intros p Hp; apply (H2 p)]; by right).
Qed.

Lemma sntp_processes_end m out :
  sntp_processes out = child_list m →
  sntp_processes (out ++ match sm_active_child m with Some pid => [STerminate pid] | None => [] end)
  = [].
Proof.
  unfold child_list. destruct (sm_active_child m) as [pid|]; intros Hp; [|by rewrite app_nil_r].
  unfold sntp_processes in *. rewrite foldl_app, Hp. simpl. by rewrite filter_cons_False by congruence.
Qed.

Lemma sntp_sane_end m out :
  Forall sntp_sane out →
  Forall sntp_sane
    (out ++ match sm_active_child m with Some pid => [STerminate pid] | None => [] end).
Proof. intros H. apply Forall_app. split; [done |]. destruct (sm_active_child m); by repeat constructor. Qed.

Lemma sntp_inv_spawn m out spawned :
  sntp_inv m out → sm_active_child m = None →
  sntp_inv (mkSntpManager (spawn_sntp_worker spawned).1 true true)
    (out ++ (spawn_sntp_worker spawned).2).
Proof.
  intros (Hp & Hs & _) Hn. unfold child_list in Hp. rewrite Hn in Hp.
  destruct spawned as [pid|]; simpl; [|rewrite app_nil_r; by split_and!].
  split; [|split; [apply Forall_app; split; [done | by repeat constructor] | done]].
  unfold sntp_processes in *. by rewrite foldl_app, Hp.
Qed.

Lemma sntp_inv_ipc msg clock_ok lookup m out :
  sntp_inv m out → sm_running m = true → is_Some (sm_active_child m) →
  sntp_inv (mkSntpManager (handle_sntp_ipc_msg msg clock_ok lookup (sm_active_child m)).1
              (sm_has_wan m) true)
    (out ++ (handle_sntp_ipc_msg msg clock_ok lookup (sm_active_child m)).2).
Proof.
  intros (Hp & Hs & Hw) Hr [pid E]. rewrite E. destruct msg as [[seconds nanoseconds|]|]; simpl.
  - split; [|split; [|by intros; destruct Hw]].
    + rewrite sntp_processes_app, Hp; [by unfold child_list; rewrite E | |];
        intros p Hin; unfold set_system_clock in Hin; repeat case_match; set_solver.
    + apply Forall_app. split; [done | apply set_system_clock_sane].
  - split; [|split; [|by intros; destruct Hw]].
    + rewrite sntp_processes_app, Hp; [by unfold child_list; rewrite E | set_solver | set_solver].
    + apply Forall_app. split; [done |]. repeat constructor. simpl.
      destruct (resolve_time_server_ip lookup) as [ip|] eqn:Er; [|done].
      unfold resolve_time_server_ip in Er. inv_ok. by eapply resolve_host_valid.
  - pose proof (sntp_processes_end m out Hp) as He. pose proof (sntp_sane_end m out Hs) as Hse.
    rewrite E in He, Hse. split; [done |]. split; [done |]. by intros [? ?].
Qed.

Lemma sntp_inv_event e m out :
  sntp_inv m out →
  sntp_inv (sntp_manager_event e m).1 (out ++ (sntp_manager_event e m).2).
Proof.
  intros Hi. pose proof Hi as (Hp & Hs & Hw). unfold sntp_manager_event.
  destruct (sm_running m) eqn:Hr; cbn [negb]; [|by rewrite app_nil_r].
  assert (∀ w r, sntp_inv (mkSntpManager None w r)
    (out ++ match sm_active_child m with Some pid => [STerminate pid] | None => [] end)) as Hend.
  { intros w r. split; [by apply sntp_processes_end |]. split; [by apply sntp_sane_end |].
    by intros [? ?]. }
  destruct e as [|has_wan spawned | | msg clock_ok lookup]; [apply Hend | | apply Hend |].
  - destruct has_wan; cbn [andb negb]; [|apply Hend]. case_bool_decide as Hn.
    + pose proof (sntp_inv_spawn m out spawned Hi Hn) as H.
      by destruct (spawn_sntp_worker spawned).
    + simpl. rewrite app_nil_r. split; [done |]. split; done.
  - destruct (sm_active_child m) as [pid|] eqn:E; [|by rewrite app_nil_r].
    pose proof (sntp_inv_ipc msg clock_ok lookup m out Hi Hr ltac:(by rewrite E)) as H.
    rewrite E in H. by destruct (handle_sntp_ipc_msg _ _ _ _).
Qed.

Lemma sntp_inv_events events m out :
  sntp_inv m out →
  sntp_inv (sntp_manager_events events m).1 (out ++ (sntp_manager_events events m).2).
Proof.
  revert m out. induction events as [|e events IH]; intros m out Hi; simpl; [by rewrite app_nil_r |].
  pose proof (sntp_inv_event e m out Hi) as H1. destruct (sntp_manager_event e m) as [m1 o1].
  specialize (IH m1 (out ++ o1) H1). destruct (sntp_manager_events events m1) as [m2 o2].
  simpl in *. by rewrite app_assoc.
Qed.

(** C35: the parent of the SNTP client is safe against its worker and its
    environment.  Whatever the worker sends, the clock is only ever set to a
    time between November 2023 and 2100, and the worker is only ever told to
    ask a server with a routable address.  The worker processes spawned and not
    terminated are exactly the active one, if any; there is one only while
    there is a WAN lease, and none once the loop has ended. *)
Theorem sntp_manager_safe has_wan spawned events :
  let '(m, out) := run_sntp_manager_loop has_wan spawned events in
  Forall sntp_sane out ∧ sntp_processes out = child_list m ∧
  (child_list m ≠ [] → sm_has_wan m = true ∧ sm_running m = true).
Proof.
  unfold run_sntp_manager_loop.
  assert (sntp_inv (mkSntpManager None true true) []) as H0 by (by split_and!; [|constructor | intros []]).
  destruct has_wan.
  - pose proof (sntp_inv_spawn _ _ spawned H0 eq_refl) as H1.
    destruct (spawn_sntp_worker spawned) as [child o1].
    pose proof (sntp_inv_events events _ _ H1) as (Hp & Hs & Hw). simpl in *.
    destruct (sntp_manager_events events _) as [m o2]. split_and!; [done | done |].
    intros Hc. by apply Hw, child_list_Some.
  - pose proof (sntp_inv_events events (mkSntpManager None false true) []) as H1.
    destruct H1 as (Hp & Hs & Hw); [by split_and!; [|constructor | intros []] |]. simpl in *.
    destruct (sntp_manager_events events _) as [m o2]. split_and!; [done | done |].
    intros Hc. by apply Hw, child_list_Some.
Qed.

(** ** Synchronisation *)

Section sync_spec.
Context `{NL : !NtpLib} {NLL : NtpLibLaws}.

(** [n] failures in a row. *)
Definition retry_delay (n : nat) : Duration := Nat.iter n calculate_next_retry_delay RETRY_INTERVAL.

Lemma retry_delay_eq n :
  retry_delay n = from_secs (Z.min (60 * 2 ^ Z.of_nat n) 900).
Proof.
  induction n as [|n IH]; [done |]. unfold retry_delay in *. simpl Nat.iter. rewrite IH.
  unfold calculate_next_retry_delay, MAX_RETRY_INTERVAL, from_secs, NANOS.
  rewrite Nat2Z.inj_succ, Z.pow_succ_r by lia. lia.
Qed.

Lemma query_ntp_time_spec sec frac :
  0 ≤ sec < 2 ^ 32 → is_u32 frac →
  query_ntp_time (Some (sec, frac))
  = Some (sec * NANOS_PER_SEC + fraction_to_microseconds frac * NANOS_PER_MICRO).
Proof.
  intros Hs Hf. simpl. pose proof (fraction_range frac Hf) as Hm.
  unfold NANOS_PER_MICRO, u32_max. rewrite Z.min_r by lia.
  assert (0 ≤ fraction_to_microseconds frac * 1000 < NANOS_PER_SEC) as Hn
    by (unfold NANOS_PER_SEC; lia).
  destruct (timestamp_opt_recent sec _ Hs Hn) as [dt E]. rewrite E.
  by rewrite (timestamp_opt_nanos _ _ _ Hn E).
Qed.

(** The time of the server reaches the clock.  When the worker is given
    the server's address and the server answers, the message the worker sends
    makes the parent set the clock to exactly the server's time, to the
    microsecond, if that lies between November 2023 and 2100, and to nothing
    otherwise; the next attempt is half an hour later.  After [n] failures in a
    row (no address, no valid address, no answer) the next attempt follows
    after 60 seconds doubled [n] times, at most a quarter of an hour, and
    nothing is sent. *)
Theorem sntp_time_delivered now next n ip sec frac clock_ok failure answer :
  is_valid_ntp_server_ip ip = true → 0 ≤ sec < 2 ^ 32 → is_u32 frac →
  (∀ ip', failure = Ok ip' → is_valid_ntp_server_ip ip' = false ∨ answer = None) →
  let w := mkSntpWorker (retry_delay n) next true in
  let nanos := fraction_to_microseconds frac * NANOS_PER_MICRO in
  (∃ msg, sntp_worker_event now (WkMessage (TimeServerResolved (Ok ip)) (Some (sec, frac))) w
     = (mkSntpWorker RETRY_INTERVAL (now + from_secs 1800) true, [msg]) ∧
   ∀ lookup pid, handle_sntp_ipc_msg (Some msg) clock_ok lookup (Some pid)
     = (Some pid,
        if decide (MIN_SANE_EPOCH_SECS ≤ sec ≤ MAX_SANE_EPOCH_SECS)
        then SSetClock sec nanos :: (if clock_ok then [SPublishSynchronized] else []) else [])) ∧
  sntp_worker_event now (WkMessage (TimeServerResolved failure) answer) w
  = (mkSntpWorker (retry_delay (S n)) (now + from_secs (Z.min (60 * 2 ^ Z.of_nat n) 900)) true, []).
Proof.
  intros Hip Hs Hf Hfail w nanos.
  pose proof (fraction_range frac Hf) as Hm.
  assert (0 ≤ nanos < NANOS_PER_SEC) as Hn
    by (unfold nanos, NANOS_PER_SEC, NANOS_PER_MICRO; lia).
  split.
  - exists (SetSystemTime sec nanos). split.
    + unfold sntp_worker_event, handle_time_server_resolved. cbn [sw_running w negb].
      rewrite Hip, query_ntp_time_spec by done.
      unfold send_time_to_parent, datetime_to_time_components. fold nanos.
      rewrite bool_decide_true by (unfold NANOS_PER_SEC in *; lia). cbn [tc_seconds tc_nanoseconds].
      rewrite (Z.add_comm (sec * _) nanos), Z.div_add, Z.mod_add, Z.div_small, Z.mod_small by done.
      done.
    + intros lookup pid. simpl. unfold set_system_clock, is_valid_system_time.
      rewrite (bool_decide_true (0 ≤ nanos < NANOS_PER_SEC)), andb_true_r by done.
      case_bool_decide; case_decide; done.
  - rewrite <-retry_delay_eq. unfold sntp_worker_event, handle_time_server_resolved.
    cbn [sw_running w negb sw_retry_delay]. destruct failure as [ip'|]; [|done].
    destruct (Hfail ip' eq_refl) as [-> | ->]; [done |]. by destruct (is_valid_ntp_server_ip ip').
Qed.
End sync_spec.

(** ** Examples *)

Module SntpExample.

(** The crates' functions on the range that is used. *)
#[local] Instance exact_ntp_lib : NtpLib := {|
  fraction_to_microseconds f := f * 1000000 / 2 ^ 32;
  timestamp_opt secs nanos := Some (secs * NANOS_PER_SEC + nanos);
|}.
#[local] Instance exact_ntp_lib_laws : NtpLibLaws.
Proof.
  split; simpl.
  - intros f [H0 H1]. split; [apply Z.div_pos; lia | apply Z.div_lt_upper_bound; lia].
  - intros secs nanos dt _ [= <-]. done.
  - intros. by eexists.
Qed.

Definition time_server : Ipv4Addr := ipv4 216 239 35 0.

Lemma sntp_time_delivered_witness :
  let w := mkSntpWorker (retry_delay 3) 0 true in
  sntp_worker_event 7 (WkMessage (TimeServerResolved (Err [])) None) w
  = (mkSntpWorker (retry_delay 4) (7 + from_secs 480) true, []).
Proof.
  intros w.
  refine (proj2 (sntp_time_delivered 7 0 3 time_server 1790000000 2147483648 true (Err []) None
    _ _ _ _)).
  - reflexivity.
  - lia.
  - unfold is_u. lia.
  - discriminate.
Defined.

(** Finding: a worker that dies is not replaced.  When the channel of the
    worker closes, the parent forgets the worker and waits for the lease to
    change: with a lease that stays, the clock is never set again. *)
Theorem dead_worker_not_replaced events :
  (∀ has_wan spawned, MgLease has_wan spawned ∉ events) → MgShutdown ∉ events →
  MgLeaseClosed ∉ events →
  sntp_manager_events events (run_sntp_manager_loop true (Some 9)
    [MgIpc None true (Ok [])]).1 = (mkSntpManager None true true, []).
Proof.
  simpl. induction events as [|e events IH]; intros H1 H2 H3; [done |].
  destruct e as [|w p | | msg ok lookup]; simpl;
    [by destruct H2; left | by destruct (H1 w p); left | by destruct H3; left |].
  rewrite IH; [done | intros w p Hin; apply (H1 w p); by right | |]; set_solver.
Qed.
End SntpExample.
