(* ===== verification/Kmod.v ===== *)
(** * The kernel module loader

    [src/src/init/kmod.rs]: the matcher of device aliases, the resolution of
    dependencies from [modules.dep], and the loading of modules.  The file
    system and the kernel are the environment; the three global caches are the
    state. *)

From Stdlib Require Import ZArith Lia.
From stdpp Require Import base gmap sets list strings.
From S2P Require Import Prelude NetAddr Text.

#[local] Open Scope Z_scope.

(** ** Text and paths *)

Definition STAR : char := 42.
Definition QUESTION : char := 63.
Definition PERIOD : char := 46.

(** [s.replace('_', "-")] *)
Definition normalize (s : str) : str := map (λ c, if decide (c = 95) then 45 else c) s.

(** [Path::file_name]: the last component, unless it is [..]. *)
Definition path_components (p : str) : list str :=
  filter (λ c, c ≠ [] ∧ c ≠ [PERIOD]) (split SLASH p).
Definition file_name (p : str) : option str :=
  match last (path_components p) with
  | Some c => if decide (c = [PERIOD; PERIOD]) then None else Some c
  | None => None
  end.

(** [path.file_name()...split('.').next()...replace('_', "-")]: the name of
    the module in a file. *)
Definition module_stem (p : str) : option str :=
  (λ f, normalize (take_until PERIOD f)) <$> file_name p.

(** [path.extension()]: what follows the last period of the file name, if
    something precedes it. *)
Definition path_extension (p : str) : str :=
  match file_name p with
  | Some f =>
      match reverse (split PERIOD f) with
      | ext :: _ :: _ => if decide (f = PERIOD :: ext) then [] else ext
      | _ => []
      end
  | None => []
  end.

(** ** Aliases *)

(** The first loop of [wildcard_match]: [None] when the fuel runs out, [Some
    None] for [return false], and otherwise the index into the pattern at which
    the loop ends. *)
Fixpoint wildcard_loop (fuel : nat) (pattern input : str) (p_idx s_idx : nat)
    (star_idx : option nat) (match_idx : nat) : option (option nat) :=
  match fuel with
  | O => None
  | S fuel' =>
      match input !! s_idx with
      | None => Some (Some p_idx)
      | Some c =>
          if bool_decide (pattern !! p_idx = Some QUESTION) || bool_decide (pattern !! p_idx = Some c)
          then wildcard_loop fuel' pattern input (S p_idx) (S s_idx) star_idx match_idx
          else if bool_decide (pattern !! p_idx = Some STAR)
          then wildcard_loop fuel' pattern input (S p_idx) s_idx (Some p_idx) s_idx
          else match star_idx with
               | Some star =>
                   wildcard_loop fuel' pattern input (S star) (S match_idx) star_idx (S match_idx)
               | None => Some None
               end
      end
  end.

(** The second loop: skip the stars at the end of the pattern. *)
Fixpoint skip_stars (pattern : str) : str :=
  match pattern with
  | c :: pattern' => if decide (c = STAR) then skip_stars pattern' else pattern
  | [] => []
  end.

Definition wildcard_fuel (pattern input : str) : nat :=
  S (length input * S (length pattern) + length pattern).

Definition wildcard_match (pattern input : str) : bool :=
  match wildcard_loop (wildcard_fuel pattern input) pattern input 0 0 None 0 with
  | Some (Some p_idx) => bool_decide (skip_stars (drop p_idx pattern) = [])
  | _ => false
  end.

Definition parse_modules_alias_line (line : str) : option (str * str) :=
  match split_whitespace line with
  | word :: rest =>
      if negb (bool_decide (word = lit "alias")) then None else
      match rest with
      | pattern :: module :: _ => Some (pattern, module)
      | _ => None
      end
  | [] => None
  end.
(** [load_alias_list], on the contents of [modules.alias]. *)
Definition load_alias_list (content : option str) : list (str * str) :=
  match content with
  | Some content => omap parse_modules_alias_line (lines content)
  | None => []
  end.

(** ** Dependencies *)

Abbreviation DepMap := (gmap str (str * list str)) (only parsing).

(** One line of [modules.dep]. *)
Definition parse_dep_line (modules_dir line : str) : option (str * (str * list str)) :=
  match split COLON line with
  | [] => None
  | part0 :: parts =>
      let mod_path := trim part0 in
      stem ← module_stem mod_path;
      let deps :=
        match parts with
        | part1 :: _ =>
            filter (λ d, d ≠ [])
              ((λ dep, default [] (module_stem (trim dep))) <$> split_whitespace part1)
        | [] => []
        end in
      Some (stem, (path_join modules_dir mod_path, deps))
  end.
Definition parse_modules_dep (content : option str) (modules_dir : str) : DepMap :=
  match content with
  | None => ∅
  | Some content =>
      foldl (λ m line, match parse_dep_line modules_dir line with
                       | Some (stem, entry) => <[stem := entry]> m
                       | None => m
                       end) ∅ (lines content)
  end.

Definition MAX_DEP_RECURSION_DEPTH : nat := 64.

(** [resolve_deps_recursive_internal], with [depth_left] levels to go: the
    source's [depth] is [MAX_DEP_RECURSION_DEPTH + 1 - depth_left]. *)
Fixpoint resolve_deps_recursive_internal (depth_left : nat) (dep_map : DepMap) (mod_name : str)
    (st : list str * gset str) : list str * gset str :=
  match depth_left with
  | O => st
  | S depth_left' =>
      let '(resolved, visited) := st in
      let normalized := normalize mod_name in
      if bool_decide (normalized ∈ visited) then st else
      let visited := {[normalized]} ∪ visited in
      match dep_map !! normalized with
      | None => (resolved, visited)
      | Some (path, deps) =>
          let '(resolved, visited) :=
            foldl (λ st dep, resolve_deps_recursive_internal depth_left' dep_map dep st)
              (resolved, visited) deps in
          (resolved ++ [path], visited)
      end
  end.
Definition resolve_deps_recursive (dep_map : DepMap) (mod_name : str) : list str * gset str :=
  resolve_deps_recursive_internal (S MAX_DEP_RECURSION_DEPTH) dep_map mod_name ([], ∅).

(** ** The file system and the kernel *)

(** A directory tree; [None] for a directory that cannot be read. *)
Inductive Tree :=
| TFile (name : str)
| TDir (name : str) (entries : option (list Tree)).
Lemma Tree_ind' (P : Tree → Prop) :
  (∀ name, P (TFile name)) →
  (∀ name entries, (∀ ts t, entries = Some ts → t ∈ ts → P t) → P (TDir name entries)) → ∀ t, P t.
Proof.
  intros Hf Hd. fix IH 1. intros [name|name [ts|]]; [apply Hf | | apply Hd; intros ts t E; discriminate E].
  assert (Forall P ts) as Hts by (induction ts as [|t ts IHts]; constructor; [apply IH | exact IHts]).
  apply Hd. intros ts' t [= <-] Ht. clear IH. rewrite Forall_forall in Hts. by apply Hts.
Qed.

(** [path.file_name()]'s stem of an entry, compared by
    [find_module_recursive]. *)
Definition stem_of (file : str) : str := normalize (take_until PERIOD file).

(** [find_module_recursive]: the first file with the stem, depth first. *)
Fixpoint find_in_tree (dir : str) (base_name : str) (t : Tree) : option str :=
  match t with
  | TFile name =>
      if decide (stem_of name = stem_of base_name) then Some (path_join dir name) else None
  | TDir name None => None
  | TDir name (Some entries) =>
      (fix find (ts : list Tree) : option str :=
         match ts with
         | [] => None
         | t :: ts' =>
             match find_in_tree (path_join dir name) base_name t with
             | Some found => Some found
             | None => find ts'
             end
         end) entries
  end.
Fixpoint find_module_recursive (dir : str) (base_name : str) (entries : list Tree) : option str :=
  match entries with
  | [] => None
  | t :: entries' =>
      match find_in_tree dir base_name t with
      | Some found => Some found
      | None => find_module_recursive dir base_name entries'
      end
  end.

(** [process_device_entry] and [traverse_and_trigger]: the files to which an
    event is written.  Links are not followed. *)
Definition UEVENT : str := lit "uevent".
Fixpoint process_device_entry (dir : str) (t : Tree) : list str :=
  match t with
  | TDir name None => []
  | TDir name (Some entries) =>
      (fix traverse (ts : list Tree) : list str :=
         match ts with
         | [] => []
         | t :: ts' => process_device_entry (path_join dir name) t ++ traverse ts'
         end) entries
  | TFile name => if decide (name = UEVENT) then [path_join dir name] else []
  end.
Definition traverse_and_trigger (dir : str) (entries : option (list Tree)) : list str :=
  match entries with Some entries => flat_map (process_device_entry dir) entries | None => [] end.
Definition SYS_DEVICES : str := lit "/sys/devices".
(** [trigger_uevents]: the entries of [SYS_DEVICES], if it exists. *)
Definition trigger_uevents (devices : option (option (list Tree))) : list str :=
  match devices with Some entries => traverse_and_trigger SYS_DEVICES entries | None => [] end.

Inductive Errno := EEXIST | ENODEV | ENXIO | EOTHER.
Inductive LoadModuleResult := Loaded | NoDevice.

Record KmodEnv := mkKmodEnv {
  (** the kernel release, empty if unknown *)
  ke_release : str;
  (** [modules.dep]: whether it exists, and its contents *)
  ke_dep_exists : bool;
  ke_dep_content : option str;
  ke_alias_content : option str;
  (** the tree under [/lib/modules/<release>] *)
  ke_tree : list Tree;
  (** the [n]-th load of a module, with its path: whether the file could be
      opened, and the error of [finit_module] if there was one *)
  ke_open : nat → str → bool;
  ke_finit : nat → str → option Errno;
}.

(** [LOADED_MODULES], [DEP_CACHE] and [ALIAS_CACHE], and the number of modules
    the kernel has been asked to load. *)
Record Kmod := mkKmod {
  km_loaded : gset str;
  km_dep_cache : option DepMap;
  km_alias_cache : option (list (str * str));
  km_attempts : nat;
}.
Definition kmod_new : Kmod := mkKmod ∅ None None 0.

(** What the loader asks of the kernel: [finit_module] on a file, compressed or
    not, with the kernel's answer ([None] for success); the mount of the module
    image; the events of all devices once more. *)
Inductive KernelRequest :=
| FinitModule (path : str) (compressed : bool) (answer : option Errno)
| MountModules
| TriggerUevents.
Definition KmodAct := Act Kmod KernelRequest.

(** The answers with which the module is in the kernel, and the ones that say
    that its device is not there. *)
Definition accepted (answer : option Errno) : bool :=
  match answer with None | Some EEXIST => true | _ => false end.
Definition no_device (answer : option Errno) : bool :=
  match answer with Some ENODEV | Some ENXIO => true | _ => false end.

Definition set_loaded (l : gset str) (k : Kmod) : Kmod :=
  mkKmod l (km_dep_cache k) (km_alias_cache k) (km_attempts k).
Definition set_dep_cache (c : option DepMap) (k : Kmod) : Kmod :=
  mkKmod (km_loaded k) c (km_alias_cache k) (km_attempts k).
Definition set_alias_cache (c : option (list (str * str))) (k : Kmod) : Kmod :=
  mkKmod (km_loaded k) (km_dep_cache k) c (km_attempts k).
Definition count_attempt (k : Kmod) : Kmod :=
  mkKmod (km_loaded k) (km_dep_cache k) (km_alias_cache k) (S (km_attempts k)).

Section loader.
Variable env : KmodEnv.

Definition modules_dir : str := path_join (lit "/lib/modules") (ke_release env).

(** ** Loading *)

Definition load_module (path : str) : KmodAct (option LoadModuleResult) :=
  let* k := act_get in
  if negb (ke_open env (km_attempts k) path) then mret None else
  let extension := path_extension path in
  let compressed := bool_decide (extension ∈ [lit "xz"; lit "gz"; lit "zst"]) in
  let answer := ke_finit env (km_attempts k) path in
  act_modify count_attempt ;;
  act_emit (FinitModule path compressed answer) ;;
  mret match answer with
       | None | Some EEXIST => Some Loaded
       | Some ENODEV | Some ENXIO => Some NoDevice
       | Some EOTHER => None
       end.

Definition get_or_load_dep_map : KmodAct (option DepMap) :=
  if bool_decide (ke_release env = []) then mret None else
  let* k := act_get in
  match km_dep_cache k with
  | Some map => mret (Some map)
  | None =>
      if negb (ke_dep_exists env) then mret None else
      let map := parse_modules_dep (ke_dep_content env) modules_dir in
      act_modify (set_dep_cache (Some map)) ;; mret (Some map)
  end.

Definition find_module_file (name : str) : KmodAct (option str) :=
  if contains_char COLON name || contains_char SLASH name
     || contains_str [PERIOD; PERIOD] name
     || contains_char 0 name
  then mret None else
  let* dep_map := get_or_load_dep_map in
  match (match dep_map with Some m => m !! normalize name | None => None end) with
  | Some (path, _) => mret (Some path)
  | None =>
      if bool_decide (ke_release env = []) then mret None
      else mret (find_module_recursive modules_dir (name ++ lit ".ko") (ke_tree env))
  end.

Definition load_single_module (mod_name : str) : KmodAct (option LoadModuleResult) :=
  let* found := find_module_file mod_name in
  match found with
  | None => mret (Some Loaded)
  | Some path => load_module path
  end.

Fixpoint load_resolved_module_paths (resolved : list str) : KmodAct bool :=
  match resolved with
  | [] => mret true
  | path :: rest =>
      match module_stem path with
      | None => let* rest_loaded := load_resolved_module_paths rest in mret false
      | Some stem =>
          let* k := act_get in
          if bool_decide (stem ∈ km_loaded k) then load_resolved_module_paths rest else
          let* result := load_module path in
          match result with
          | Some Loaded =>
              act_modify (λ k, set_loaded ({[stem]} ∪ km_loaded k) k) ;;
              load_resolved_module_paths rest
          | Some NoDevice => load_resolved_module_paths rest
          | None => let* rest_loaded := load_resolved_module_paths rest in mret false
          end
      end
  end.

(** [resolve_alias] *)
Definition resolve_alias (alias_or_name : str) : KmodAct (list str) :=
  if bool_decide (ke_release env = []) then mret [alias_or_name] else
  let* k := act_get in
  let list := match km_alias_cache k with
              | Some list => list
              | None => load_alias_list (ke_alias_content env)
              end in
  act_modify (set_alias_cache (Some list)) ;;
  let matches := snd <$> filter (λ a, wildcard_match a.1 alias_or_name = true) list in
  mret (match matches with [] => [alias_or_name] | _ => matches end).

(** The loop of [load_module_with_dep_map] over the candidates. *)
Fixpoint load_candidates (dep_map : DepMap) (candidates : list str) (any_success : bool) :
    KmodAct bool :=
  match candidates with
  | [] => mret any_success
  | actual_name :: rest =>
      let* k := act_get in
      if bool_decide (normalize actual_name ∈ km_loaded k)
      then load_candidates dep_map rest true
      else
        let resolved := (resolve_deps_recursive dep_map actual_name).1 in
        match resolved with
        | [] =>
            if contains_char COLON actual_name then load_candidates dep_map rest any_success
            else
              let* result := load_single_module actual_name in
              load_candidates dep_map rest (any_success || bool_decide (is_Some result))
        | _ =>
            let* all_loaded := load_resolved_module_paths resolved in
            if all_loaded : bool then mret true else load_candidates dep_map rest any_success
        end
  end.
Definition load_module_with_dep_map (mod_name : str) (dep_map : DepMap) : KmodAct bool :=
  let* candidates := resolve_alias mod_name in
  load_candidates dep_map candidates false.

(** Without [modules.dep]: every candidate on its own. *)
Fixpoint load_each_candidate (candidates : list str) (any_success : bool) : KmodAct bool :=
  match candidates with
  | [] => mret any_success
  | actual_name :: rest =>
      let* result := load_single_module actual_name in
      load_each_candidate rest (any_success || bool_decide (is_Some result))
  end.
(** The result tells whether some candidate was loaded; the source logs an
    error otherwise. *)
Definition load_module_with_dependencies (mod_name : str) : KmodAct bool :=
  let* dep_map := get_or_load_dep_map in
  match dep_map with
  | Some dep_map => load_module_with_dep_map mod_name dep_map
  | None =>
      let* candidates := resolve_alias mod_name in
      load_each_candidate candidates false
  end.

Definition boot_modules : list str :=
  [lit "crc32_generic"; lit "crc32-pclmul"; lit "crc32c_generic"; lit "crc32c-intel";
   lit "libcrc32c"; lit "fat"; lit "vfat"; lit "erofs"; lit "nls_cp437"; lit "nls_ascii";
   lit "nls_utf8"; lit "nls_iso8859_1"; lit "nft_chain_nat"; lit "nft_ct"; lit "nft_masq"].
Definition load_required_modules : KmodAct unit :=
  let* dep_map := get_or_load_dep_map in
  match dep_map with
  | Some dep_map =>
      act_iter (λ mod_name, load_module_with_dep_map mod_name dep_map ;; mret tt) boot_modules
  | None => act_iter (λ mod_name, load_module_with_dependencies mod_name ;; mret tt) boot_modules
  end.

(** [handle_uevent], with the [MODALIAS] of a device that was added. *)
Definition handle_uevent (added : bool) (modalias : option str) : KmodAct unit :=
  match modalias with
  | Some modalias =>
      if added then load_module_with_dependencies modalias ;; mret tt else mret tt
  | None => mret tt
  end.

Definition invalidate_module_caches : KmodAct unit :=
  act_modify (λ k, set_alias_cache None (set_dep_cache None k)).

(** [activate_boot_modules]: whether the image is there, and whether it could
    be mounted. *)
Definition activate_boot_modules (image_exists mount_ok : bool) : KmodAct unit :=
  if bool_decide (ke_release env = []) then mret tt else
  if negb image_exists then mret tt else
  act_iter (λ mod_name, load_module_with_dependencies mod_name ;; mret tt)
    [lit "crc32_generic"; lit "crc32-pclmul"; lit "crc32c_generic"; lit "crc32c-intel";
     lit "libcrc32c"; lit "erofs"] ;;
  act_emit MountModules ;;
  if negb mount_ok then mret tt else
  invalidate_module_caches ;;
  act_emit TriggerUevents.

(** What the socket of [run_uevent_listener] delivers: a packet that was parsed
    or not, or an error. *)
Inductive UeventRecv :=
| UEvent (added : bool) (modalias : option str)
| BadPacket
| SocketOverflow
| SocketError.
(** The result tells whether the loop goes on. *)
Definition run_uevent_listener_step (r : UeventRecv) : KmodAct bool :=
  match r with
  | UEvent added modalias => handle_uevent added modalias ;; mret true
  | BadPacket => mret true
  | SocketOverflow => act_emit TriggerUevents ;; mret true
  | SocketError => mret false
  end.

(** The loop of [run_uevent_listener] on what the socket delivers; [true] while it
    still listens. *)
Fixpoint uevent_loop (received : list UeventRecv) : KmodAct bool :=
  match received with
  | [] => mret true
  | r :: received =>
      let* continue := run_uevent_listener_step r in
      if (continue : bool) then uevent_loop received else mret false
  end.
(** [run_uevent_listener], with whether the socket could be made and bound; an
    error ends the thread of [start_uevent_listener]. *)
Definition run_uevent_listener (socket_ok bind_ok : bool) (received : list UeventRecv) : KmodAct bool :=
  if negb socket_ok then mret false else
  if negb bind_ok then mret false else
  uevent_loop received.

(** [run_as_modprobe], the program as the kernel calls it. *)
Definition run_as_modprobe (module_name : str) : KmodAct unit :=
  load_module_with_dependencies module_name ;; mret tt.
End loader.

(** The listener goes on after packets that cannot be read and after overflows,
    and ends with the first error of the socket. *)
Lemma uevent_loop_app env rs1 rs2 k :
  uevent_loop env (rs1 ++ rs2) k =
    (let* continue := uevent_loop env rs1 in if (continue : bool) then uevent_loop env rs2 else mret false) k.
Proof.
  revert k. induction rs1 as [|r rs1 IH]; intros k.
  { cbn [app uevent_loop]. unfold mbind, act_bind, mret, act_ret. by destruct (uevent_loop env rs2 k) as [[c k'] o]. }
  cbn [app uevent_loop]. unfold mbind, act_bind. destruct (run_uevent_listener_step env r k) as [[[] k1] o1];
    [|cbn; by rewrite !app_nil_r].
  rewrite IH. unfold mbind, act_bind. destruct (uevent_loop env rs1 k1) as [[c k2] o2].
  destruct c; [destruct (uevent_loop env rs2 k2) as [[c3 k3] o3] |]; cbn; by rewrite app_assoc.
Qed.
Lemma uevent_loop_ends env rs k :
  (uevent_loop env rs k).1.1 = true ↔ SocketError ∉ rs.
Proof.
  revert k. induction rs as [|r rs IH]; intros k; [by split; [intros _; apply not_elem_of_nil |] |].
  rewrite not_elem_of_cons. cbn [uevent_loop]. unfold mbind, act_bind.
  assert ((run_uevent_listener_step env r k).1.1 = negb (match r with SocketError => true | _ => false end)) as Hr.
  { destruct r; try done. cbn [run_uevent_listener_step]. unfold mbind, act_bind.
    by destruct (handle_uevent _ _ _ k) as [[]]. }
  destruct (run_uevent_listener_step env r k) as [[c k1] o1]. cbn [fst] in Hr. subst c.
  specialize (IH k1). destruct r; cbn [negb]; destruct (uevent_loop env rs k1) as [[c k2] o2]; naive_solver.
Qed.

(** ** Every device is reported *)

(** A file somewhere in a tree that can be read. *)
Inductive file_in (name : str) : str → Tree → str → Prop :=
| file_here dir : file_in name dir (TFile name) (path_join dir name)
| file_below dir sub entries t path :
    t ∈ entries → file_in name (path_join dir sub) t path → file_in name dir (TDir sub (Some entries)) path.
Lemma process_device_entry_spec dir t path : path ∈ process_device_entry dir t ↔ file_in UEVENT dir t path.
Proof.
  split.
  - revert dir. induction t as [name|name entries IH] using Tree_ind'; intros dir; simpl.
    + case_decide as Hn; [|set_solver]. intros ->%list_elem_of_singleton. subst name. constructor.
    + destruct entries as [entries|]; [|set_solver]. intros Hp.
      assert (∃ t, t ∈ entries ∧ path ∈ process_device_entry (path_join dir name) t) as (t & Ht & Hpt).
      { clear IH. induction entries as [|t ts IHt]; [set_solver |]. apply elem_of_app in Hp as [Hp|Hp].
        - exists t. set_solver.
        - destruct (IHt Hp) as (t' & ? & ?). exists t'. set_solver. }
      econstructor; [exact Ht |]. by apply (IH entries).
  - induction 1 as [dir|dir sub entries t path Ht _ IH]; simpl; [set_solver |].
    induction entries as [|t' ts IHt]; [set_solver |]. apply elem_of_app.
    apply elem_of_cons in Ht as [->|Ht]; [by left | right; auto].
Qed.
(** An event is requested for exactly the devices of the tree. *)
Theorem trigger_uevents_spec devices path :
  path ∈ trigger_uevents devices ↔
  ∃ entries t, devices = Some (Some entries) ∧ t ∈ entries ∧ file_in UEVENT SYS_DEVICES t path.
Proof.
  destruct devices as [[entries|]|]; simpl.
  2, 3: split; [set_solver | naive_solver].
  rewrite list_elem_of_In, in_flat_map. setoid_rewrite <-list_elem_of_In. split.
  - intros (t & Ht & Hp%process_device_entry_spec). by exists entries, t.
  - intros (es & t & [= <-] & Ht & Hf). exists t. by rewrite process_device_entry_spec.
Qed.

(** ** The matcher is a glob matcher *)

Inductive glob : str → str → Prop :=
| glob_nil : glob [] []
| glob_question c p s : glob p s → glob (QUESTION :: p) (c :: s)
| glob_char c p s : c ≠ STAR → glob p s → glob (c :: p) (c :: s)
| glob_star p s : glob p s → glob (STAR :: p) s
| glob_star_more c p s : glob (STAR :: p) s → glob (STAR :: p) (c :: s).

Section wildcard.
Implicit Types (p s pattern input : str) (c : char).

Lemma glob_star_iff p s : glob (STAR :: p) s ↔ glob p s ∨ glob (STAR :: p) (tail s) ∧ s ≠ [].
Proof.
  split.
  - intros H. inversion H; subst; [done | by left | by right].
  - intros [H | [H Hs]]; [by apply glob_star |]. destruct s; [done |]. by apply glob_star_more.
Qed.

Lemma glob_star_tail p s : glob (STAR :: p) s ↔ glob p s ∨ glob (STAR :: p) (tail s).
Proof. rewrite glob_star_iff. destruct s; [rewrite (glob_star_iff p []) |]; naive_solver. Qed.

Lemma glob_nil_iff p : glob p [] ↔ skip_stars p = [].
Proof.
  induction p as [|c p IH]; simpl; [split; [done | constructor] |]. case_decide as Hc; subst.
  - rewrite <-IH, glob_star_iff. naive_solver.
  - split; [|done]. intros H. inversion H; subst; done.
Qed.

Lemma glob_cons_iff c' p c s :
  c' ≠ STAR → glob (c' :: p) (c :: s) ↔ (c' = QUESTION ∨ c' = c) ∧ glob p s.
Proof.
  intros Hc. split.
  - intros H. inversion H; subst; auto; done.
  - intros [[-> | ->] H]; [by apply glob_question | by apply glob_char].
Qed.

Lemma glob_suffix p s t : glob (STAR :: p) t → glob (STAR :: p) (s ++ t).
Proof. intros H. induction s as [|c s IH]; [done |]. by apply glob_star_more. Qed.

(** A star-free piece of the pattern matches as many characters as it has. *)
Lemma glob_app q p s :
  STAR ∉ q → glob (q ++ p) s → (length q ≤ length s)%nat ∧ glob p (drop (length q) s).
Proof.
  revert s. induction q as [|c q IH]; intros s Hq H; simpl in *; [split; [lia | done] |].
  apply not_elem_of_cons in Hq as [Hc Hq]. inversion H; subst; try done;
    destruct (IH _ Hq ltac:(eassumption)) as [Hlen Hg]; simpl; split; done || lia.
Qed.

(** With a star in front, the rest matches some suffix that is short enough. *)
Lemma glob_star_app q p s :
  STAR ∉ q → glob (STAR :: q ++ p) s →
  ∃ n, (n + length q ≤ length s)%nat ∧ glob p (drop (n + length q) s).
Proof.
  intros Hq. induction s as [|c s IH]; intros [H | [H Hs]]%glob_star_iff; try done.
  - exists 0%nat. by apply glob_app in H.
  - exists 0%nat. by apply glob_app in H.
  - destruct (IH H) as (n & H1 & H2). exists (S n). simpl. split; [lia | done].
Qed.

(** What the loop knows: the input is matched exactly if the rest of it is
    matched by the rest of the pattern, or if the last star can take one
    character more; and between that star and the current position there is no
    other star. *)
Definition backup pattern input (star_idx : option nat) (match_idx : nat) : Prop :=
  match star_idx with
  | Some star => glob (drop star pattern) (drop (S match_idx) input)
  | None => False
  end.
Definition positions pattern (p_idx s_idx : nat) (star_idx : option nat) (match_idx : nat) : Prop :=
  match star_idx with
  | Some star =>
      ∃ q, drop star pattern = STAR :: q ++ drop p_idx pattern ∧ STAR ∉ q ∧
        p_idx = S (star + length q) ∧ s_idx = (match_idx + length q)%nat
  | None => True
  end.
Definition loop_inv pattern input p_idx s_idx star_idx match_idx : Prop :=
  positions pattern p_idx s_idx star_idx match_idx ∧ (s_idx ≤ length input)%nat ∧
  (glob pattern input ↔
   glob (drop p_idx pattern) (drop s_idx input) ∨ backup pattern input star_idx match_idx).

(** The star further back is not needed where the current position is at a
    star or at the end of the input. *)
Lemma backup_implies pattern input p_idx s_idx star_idx match_idx :
  positions pattern p_idx s_idx star_idx match_idx → (s_idx ≤ length input)%nat →
  (∃ p, drop p_idx pattern = STAR :: p) ∨ s_idx = length input →
  backup pattern input star_idx match_idx → glob (drop p_idx pattern) (drop s_idx input).
Proof.
  destruct star_idx as [star|]; [|done].
  intros (q & Eq & Hq & -> & ->) Hle Hor H. simpl in H. rewrite Eq in H.
  apply glob_star_app in H as (n & Hn & H); [|done].
  rewrite drop_drop in H. rewrite length_drop in Hn. destruct Hor as [[p Ep] | Hend].
  - rewrite Ep in *. apply (glob_suffix _ (take (S n) (drop (match_idx + length q) input))) in H.
    rewrite <-(take_drop (S n) (drop (match_idx + length q) input)).
    rewrite drop_drop.
    by replace (match_idx + length q + S n)%nat with (S match_idx + (n + length q))%nat by lia.
  - rewrite (drop_ge input) in H |- * by lia. done.
Qed.

Lemma tail_drop {A} (l : list A) n : tail (drop n l) = drop (S n) l.
Proof.
  destruct (l !! n) as [x|] eqn:E; [by rewrite (drop_S _ _ _ E) |].
  apply lookup_ge_None in E. by rewrite !drop_ge by lia.
Qed.

(** The four branches of the loop keep the invariant. *)
Lemma inv_match pattern input p_idx s_idx star_idx match_idx c :
  STAR ∉ input → input !! s_idx = Some c →
  pattern !! p_idx = Some QUESTION ∨ pattern !! p_idx = Some c →
  loop_inv pattern input p_idx s_idx star_idx match_idx →
  loop_inv pattern input (S p_idx) (S s_idx) star_idx match_idx.
Proof.
  intros Hin Hs Hp (Hpos & Hle & Hg).
  assert (∃ c', pattern !! p_idx = Some c' ∧ c' ≠ STAR ∧ (c' = QUESTION ∨ c' = c)) as (c' & Ep & Hc & Hor).
  { destruct Hp as [E | E]; eexists; (split; [exact E |]); [by auto |]. split; [|auto].
    intros ->. apply Hin. by eapply list_elem_of_lookup_2. }
  split; [|split; [by apply lookup_lt_Some in Hs |]].
  - destruct star_idx as [star|]; [|done]. destruct Hpos as (q & Eq & Hq & -> & ->).
    exists (q ++ [c']). rewrite Eq, (drop_S _ _ _ Ep), <-app_assoc, length_app. simpl.
    split_and!; [done | | lia | lia]. apply not_elem_of_app. split; [done |].
    intros ?%list_elem_of_singleton. congruence.
  - rewrite Hg, (drop_S _ _ _ Ep), (drop_S _ _ _ Hs), glob_cons_iff by done.
    tauto.
Qed.

Lemma inv_star pattern input p_idx s_idx star_idx match_idx c :
  input !! s_idx = Some c → pattern !! p_idx = Some STAR →
  loop_inv pattern input p_idx s_idx star_idx match_idx →
  loop_inv pattern input (S p_idx) s_idx (Some p_idx) s_idx.
Proof.
  intros Hs Ep (Hpos & Hle & Hg). pose proof (drop_S _ _ _ Ep) as Ed.
  split; [|split; [done |]].
  - exists []. rewrite Ed. split_and!; [done | by intros ?%not_elem_of_nil | simpl; lia | simpl; lia].
  - rewrite Hg. simpl.
    assert (backup pattern input star_idx match_idx → glob (drop p_idx pattern) (drop s_idx input))
      by (apply backup_implies; [done | done | left; by eexists]).
    rewrite Ed in *. rewrite (glob_star_tail _ (drop s_idx input)), tail_drop in *. naive_solver.
Qed.

Lemma inv_fail pattern input (p_idx s_idx : nat) c :
  input !! s_idx = Some c → pattern !! p_idx ≠ Some QUESTION → pattern !! p_idx ≠ Some c →
  pattern !! p_idx ≠ Some STAR → ¬ glob (drop p_idx pattern) (drop s_idx input).
Proof.
  intros Hs H1 H2 H3 H. rewrite (drop_S _ _ _ Hs) in H.
  destruct (pattern !! p_idx) as [c'|] eqn:Ep.
  - rewrite (drop_S _ _ _ Ep), glob_cons_iff in H by congruence. naive_solver.
  - apply lookup_ge_None in Ep. rewrite drop_ge in H by done. inversion H.
Qed.

Lemma inv_retry pattern input p_idx s_idx star match_idx :
  (s_idx < length input)%nat → ¬ glob (drop p_idx pattern) (drop s_idx input) →
  loop_inv pattern input p_idx s_idx (Some star) match_idx →
  loop_inv pattern input (S star) (S match_idx) (Some star) (S match_idx).
Proof.
  intros Hs Hn ((q & Eq & Hq & -> & ->) & Hle & Hg).
  assert (pattern !! star = Some STAR) as Ep.
  { rewrite <-(Nat.add_0_r star), <-lookup_drop, Eq. done. }
  pose proof (drop_S _ _ _ Ep) as Ed. split; [|split; [lia |]].
  - exists []. rewrite Ed. split_and!; [done | by intros ?%not_elem_of_nil | simpl; lia | simpl; lia].
  - rewrite Hg. simpl. rewrite Ed, (glob_star_tail _ (drop (S match_idx) input)), tail_drop. tauto.
Qed.

Lemma wildcard_loop_correct fuel pattern input p_idx s_idx star_idx match_idx r :
  STAR ∉ input → loop_inv pattern input p_idx s_idx star_idx match_idx →
  wildcard_loop fuel pattern input p_idx s_idx star_idx match_idx = Some r →
  match r with
  | Some p => glob pattern input ↔ skip_stars (drop p pattern) = []
  | None => ¬ glob pattern input
  end.
Proof.
  intros Hin. revert p_idx s_idx star_idx match_idx.
  induction fuel as [|fuel IH]; intros p_idx s_idx star_idx match_idx Hinv; [done |]. simpl.
  destruct (input !! s_idx) as [c|] eqn:Hs.
  - case_bool_decide as H1; [|case_bool_decide as H2]; cbn [orb].
    + apply IH. eapply inv_match; eauto.
    + apply IH. eapply inv_match; eauto.
    + case_bool_decide as H3; [apply IH; by eapply inv_star |].
      pose proof (inv_fail pattern input p_idx s_idx c Hs H1 H2 H3) as Hn.
      pose proof (lookup_lt_Some _ _ _ Hs) as Hlt.
      destruct star_idx as [star|]; [apply IH; by eapply inv_retry |].
      intros [= <-]. destruct Hinv as (_ & _ & ->). naive_solver.
  - intros [= <-]. apply lookup_ge_None in Hs. destruct Hinv as (Hpos & Hle & Hg).
    rewrite <-glob_nil_iff, Hg, (drop_ge input s_idx) by done.
    pose proof (backup_implies _ _ _ _ _ _ Hpos Hle ltac:(right; lia)) as Hb.
    rewrite (drop_ge input s_idx) in Hb by done. tauto.
Qed.

(** Every iteration moves on: either the last star takes one character more,
    or the position in the pattern advances. *)
Definition loop_measure pattern input (p_idx : nat) (star_idx : option nat) (match_idx : nat) : nat :=
  ((length input - from_option (λ _, match_idx) 0 star_idx) * S (length pattern)
   + (length pattern - p_idx))%nat.

Lemma wildcard_loop_terminates fuel pattern input p_idx s_idx star_idx match_idx :
  (p_idx ≤ length pattern)%nat → (s_idx ≤ length input)%nat →
  match star_idx with
  | Some star => (star < p_idx ∧ match_idx ≤ s_idx)%nat
  | None => True
  end →
  (loop_measure pattern input p_idx star_idx match_idx < fuel)%nat →
  is_Some (wildcard_loop fuel pattern input p_idx s_idx star_idx match_idx).
Proof.
  revert p_idx s_idx star_idx match_idx.
  induction fuel as [|fuel IH]; intros p_idx s_idx star_idx match_idx Hp Hs Hstar Hm; [lia |]. simpl.
  destruct (input !! s_idx) as [c|] eqn:Es; [|by eexists].
  apply lookup_lt_Some in Es. unfold loop_measure in *.
  assert ((∃ c', pattern !! p_idx = Some c') → p_idx < length pattern)%nat as Hlt
    by (intros [? ?]; by eapply lookup_lt_Some).
  destruct (_ || _) eqn:E1.
  - assert (p_idx < length pattern)%nat by (apply Hlt; repeat case_bool_decide; eauto; done).
    apply IH; [lia | lia | destruct star_idx; simpl in *; lia | lia].
  - destruct (bool_decide_reflect (pattern !! p_idx = Some STAR)) as [E2 | E2].
    + assert (p_idx < length pattern)%nat by eauto.
      apply IH; [lia | lia | simpl; lia |]. simpl.
      destruct star_idx as [star|]; simpl in *; nia.
    + destruct star_idx as [star|]; [|by eexists]. simpl in *.
      apply IH; [lia | lia | simpl; lia |]. simpl. nia.
Qed.

(** C37: the matcher of device aliases is a glob matcher, and a fast one.  For
    every pattern and input it ends after at most (n + 1)(m + 1) iterations, n
    and m being the lengths; and for an input without stars, it accepts exactly
    if the pattern describes the input, with [?] standing for one character
    and [*] for any sequence of characters. *)
Theorem wildcard_match_spec pattern input :
  is_Some (wildcard_loop ((length input + 1) * (length pattern + 1)) pattern input 0 0 None 0) ∧
  (STAR ∉ input → wildcard_match pattern input = true ↔ glob pattern input).
Proof.
  assert (∀ fuel, length input * S (length pattern) + length pattern < fuel →
    is_Some (wildcard_loop fuel pattern input 0 0 None 0))%nat as Hterm.
  { intros fuel Hf. apply wildcard_loop_terminates; [lia | lia | done |].
    unfold loop_measure. simpl. lia. }
  split; [apply Hterm; lia |]. intros Hin. unfold wildcard_match.
  destruct (Hterm (wildcard_fuel pattern input) ltac:(unfold wildcard_fuel; lia)) as [r E].
  assert (loop_inv pattern input 0 0 None 0) as Hinv by (split; [done |]; split; [lia |]; simpl; tauto).
  pose proof (wildcard_loop_correct _ _ _ _ _ _ _ _ Hin Hinv E) as Hr. rewrite E.
  destruct r as [p|]; [rewrite Hr, bool_decide_eq_true; done |]. split; [done |]. by intros ?%Hr.
Qed.
End wildcard.

(** ** Dependencies come first *)

Section dependencies.
Context (dep_map : DepMap).
Implicit Types (m d x name : str) (order resolved new : list str) (visited : gset str).

(** [d] is a dependency of [m]. *)
Definition depends_on m d : Prop :=
  ∃ path deps dep, dep_map !! m = Some (path, deps) ∧ dep ∈ deps ∧ d = normalize dep.
(** A list of modules in which each comes after its dependencies. *)
Definition dependencies_first order : Prop :=
  ∀ i m d, order !! i = Some m → depends_on m d → is_Some (dep_map !! d) →
  ∃ j, (j < i)%nat ∧ order !! j = Some d.
Definition path_of m p : Prop := ∃ deps, dep_map !! m = Some (p, deps).

(** Every file of the list is that of a module that is needed, whatever the
    dependencies look like. *)
Lemma resolve_needed depth_left name order visited :
  ∀ p, p ∈ (resolve_deps_recursive_internal depth_left dep_map name (order, visited)).1 →
    p ∈ order ∨ ∃ m, path_of m p ∧ rtc depends_on (normalize name) m.
Proof.
  revert name order visited. induction depth_left as [|depth_left IH]; intros name order visited p; simpl;
    [by left |].
  set (m := normalize name). destruct (bool_decide _); [by left |].
  destruct (dep_map !! m) as [[path deps]|] eqn:Hm; [|by left].
  assert (∀ ds st, (∀ dep, dep ∈ ds → dep ∈ deps) →
    p ∈ (foldl (λ st dep, resolve_deps_recursive_internal depth_left dep_map dep st) st ds).1 →
    p ∈ st.1 ∨ ∃ m', path_of m' p ∧ rtc depends_on m m') as Hfold.
  { induction ds as [|dep ds IHds]; intros st Hds; [by left |]. simpl. intros Hp.
    apply IHds in Hp as [Hp | Hp]; [|by right | intros; by apply Hds, list_elem_of_further].
    destruct st as [order1 visited1]. apply IH in Hp as [Hp | (m' & Hp & Hr)]; [by left |].
    right. exists m'. split; [done |]. eapply rtc_l; [|done].
    exists path, deps, dep. split_and!; [done | apply Hds, list_elem_of_here | done]. }
  specialize (Hfold deps (order, {[m]} ∪ visited) (λ _ H, H)).
  destruct (foldl _ _ deps) as [resolved' visited']. simpl in *.
  intros [Hp | ->%list_elem_of_singleton]%elem_of_app; [by apply Hfold |].
  right. exists m. split; [by exists deps | apply rtc_refl].
Qed.

Record dfs_ok order resolved visited : Prop := {
  dfs_paths : Forall2 path_of order resolved;
  dfs_nodup : NoDup order;
  dfs_visited x : x ∈ order → x ∈ visited;
  dfs_first : dependencies_first order;
}.

(** There is no cycle: every module has a height. *)
Context (height : str → nat).
Hypothesis height_depends : ∀ m d, depends_on m d → (height d < height m)%nat.

(** Every visited module below some height is done. *)
Definition done_below (h : nat) order visited : Prop :=
  ∀ x, x ∈ visited → is_Some (dep_map !! x) → (height x < h)%nat → x ∈ order.

(** What a visit of the names [names] adds. *)
Record dfs_adds (names : list str) order visited (new : list str) (visited' : gset str) : Prop := {
  adds_new x : x ∈ new → x ∉ visited ∧ ∃ name, name ∈ names ∧ rtc depends_on (normalize name) x;
  adds_visited x : x ∈ visited → x ∈ visited';
  adds_only x : x ∈ visited' → is_Some (dep_map !! x) → x ∈ visited ∨ x ∈ new;
  adds_names name : name ∈ names → normalize name ∈ visited';
}.

Lemma done_below_adds h names order visited new visited' :
  done_below h order visited → dfs_adds names order visited new visited' →
  done_below h (order ++ new) visited'.
Proof.
  intros Hd [_ _ Hon _] x Hx Hdom Hh. apply elem_of_app.
  destruct (Hon x Hx Hdom) as [H | H]; [left; by apply Hd | by right].
Qed.

Lemma dfs_adds_trans name names order visited new1 visited1 new2 visited2 :
  dfs_adds [name] order visited new1 visited1 →
  dfs_adds names (order ++ new1) visited1 new2 visited2 →
  dfs_adds (name :: names) order visited (new1 ++ new2) visited2.
Proof.
  intros [H1 H2 H3 H4] [G1 G2 G3 G4]. split.
  - intros x [Hx | Hx]%elem_of_app.
    + destruct (H1 x Hx) as (? & n & ->%list_elem_of_singleton & ?).
      split; [done |]. exists name. split; [apply list_elem_of_here | done].
    + destruct (G1 x Hx) as (Hn & n & ? & ?). split; [intros Hv; by apply Hn, H2 |].
      exists n. split; [by apply list_elem_of_further | done].
  - auto.
  - intros x Hx Hdom. rewrite elem_of_app.
    destruct (G3 x Hx Hdom) as [H | H]; [|by right; right].
    destruct (H3 x H Hdom); [by left | by right; left].
  - intros n [-> | Hn]%elem_of_cons; [|by apply G4].
    apply G2, H4, list_elem_of_here.
Qed.

Lemma dependencies_first_snoc order m :
  dependencies_first order →
  (∀ d, depends_on m d → is_Some (dep_map !! d) → d ∈ order) →
  dependencies_first (order ++ [m]).
Proof.
  intros Ho Hm i x d Hi Hd Hdom. apply lookup_app_Some in Hi as [Hi | [Hlen Hi]].
  - destruct (Ho i x d Hi Hd Hdom) as (j & Hj & E). exists j. split; [done |].
    by apply lookup_app_l_Some.
  - apply list_lookup_singleton_Some in Hi as [Hi ->].
    destruct (proj1 (list_elem_of_lookup _ _) (Hm d Hd Hdom)) as [j Ej].
    exists j. split; [apply lookup_lt_Some in Ej; lia | by apply lookup_app_l_Some].
Qed.

Definition resolves (depth_left : nat) name order resolved visited : Prop :=
  let '(resolved', visited') :=
    resolve_deps_recursive_internal depth_left dep_map name (resolved, visited) in
  ∃ new, dfs_ok (order ++ new) resolved' visited' ∧
    dfs_adds [name] order visited new visited'.

Lemma resolve_list depth_left h names order resolved visited :
  (∀ name order resolved visited, dfs_ok order resolved visited →
     done_below (S (height (normalize name))) order visited →
     (height (normalize name) < depth_left)%nat →
     resolves depth_left name order resolved visited) →
  (∀ name, name ∈ names → (height (normalize name) < h)%nat) → (h ≤ depth_left)%nat →
  dfs_ok order resolved visited → done_below h order visited →
  let '(resolved', visited') :=
    foldl (λ st dep, resolve_deps_recursive_internal depth_left dep_map dep st)
      (resolved, visited) names in
  ∃ new, dfs_ok (order ++ new) resolved' visited' ∧ dfs_adds names order visited new visited'.
Proof.
  intros IH Hnames Hh. revert order resolved visited.
  induction names as [|name names IHn]; intros order resolved visited Hok Hdone; simpl.
  { exists []. rewrite app_nil_r. split; [done |].
    split; [by intros x ?%not_elem_of_nil | done | by left | by intros n ?%not_elem_of_nil]. }
  pose proof (Hnames name (list_elem_of_here _ _)) as Hn.
  assert (done_below (S (height (normalize name))) order visited) as Hd
    by (intros x Hx Hdom Hlt; apply Hdone; [done | done | lia]).
  pose proof (IH name order resolved visited Hok Hd ltac:(lia)) as H1. unfold resolves in H1.
  destruct (resolve_deps_recursive_internal depth_left dep_map name (resolved, visited))
    as [resolved1 visited1]. destruct H1 as (new1 & Hok1 & Ha1).
  specialize (IHn (λ n Hn, Hnames n (list_elem_of_further _ _ _ Hn)) (order ++ new1) resolved1 visited1 Hok1
    (done_below_adds _ _ _ _ _ _ Hdone Ha1)).
  destruct (foldl _ (resolved1, visited1) names) as [resolved2 visited2].
  destruct IHn as (new2 & Hok2 & Ha2). exists (new1 ++ new2). rewrite app_assoc.
  split; [done | by eapply dfs_adds_trans].
Qed.

Lemma adds_nothing name order visited :
  normalize name ∈ visited → dfs_adds [name] order visited [] visited.
Proof.
  intros Hv. split.
  - by intros x ?%not_elem_of_nil.
  - done.
  - by left.
  - by intros n ->%list_elem_of_singleton.
Qed.

(** What a visit of the dependencies adds is, with the module itself, what a
    visit of the module adds. *)
Lemma adds_module name path deps order visited new visited' :
  dep_map !! normalize name = Some (path, deps) → normalize name ∉ visited →
  dfs_adds deps order ({[normalize name]} ∪ visited) new visited' →
  dfs_adds [name] order visited (new ++ [normalize name]) visited'.
Proof.
  intros Hm Hv [H1 H2 H3 H4]. split.
  - intros x [Hx | ->%list_elem_of_singleton]%elem_of_app.
    + destruct (H1 x Hx) as (Hn & dep & Hdep & Hrtc). split; [set_solver |].
      exists name. split; [apply list_elem_of_here |].
      apply rtc_l with (normalize dep); [by exists path, deps, dep | done].
    + split; [done |]. exists name. split; [apply list_elem_of_here | apply rtc_refl].
  - intros x Hx. apply H2. set_solver.
  - intros x Hx Hdom. rewrite elem_of_app, list_elem_of_singleton.
    destruct (H3 x Hx Hdom) as [[->%elem_of_singleton | H]%elem_of_union | H]; auto.
  - intros n ->%list_elem_of_singleton. apply H2. set_solver.
Qed.

(** [resolved.push(path)]: a module may follow its dependencies. *)
Lemma dfs_ok_push order resolved visited m path deps :
  dfs_ok order resolved visited → dep_map !! m = Some (path, deps) → m ∉ order → m ∈ visited →
  (∀ d, depends_on m d → is_Some (dep_map !! d) → d ∈ order) →
  dfs_ok (order ++ [m]) (resolved ++ [path]) visited.
Proof.
  intros [Hp Hnd Hsub Hfirst] Hm Hno Hv Hdeps. split.
  - apply Forall2_app; [done |]. constructor; [by exists deps | constructor].
  - apply list.NoDup_app. split; [done |]. split; [|apply NoDup_singleton].
    by intros x Hx ->%list_elem_of_singleton.
  - intros x [Hx | ->%list_elem_of_singleton]%elem_of_app; [by apply Hsub | done].
  - by apply dependencies_first_snoc.
Qed.

Lemma resolve_internal depth_left name order resolved visited :
  dfs_ok order resolved visited →
  done_below (S (height (normalize name))) order visited →
  (height (normalize name) < depth_left)%nat →
  resolves depth_left name order resolved visited.
Proof.
  revert name order resolved visited.
  induction depth_left as [|depth_left IH]; intros name order resolved visited Hok Hdone Hlt;
    [lia |].
  unfold resolves. simpl. set (m := normalize name) in *.
  destruct (bool_decide_reflect (m ∈ visited)) as [Hv | Hv].
  { exists []. rewrite app_nil_r. split; [done | by apply adds_nothing]. }
  assert (dfs_ok order resolved ({[m]} ∪ visited)) as Hok1.
  { destruct Hok as [? ? Hsub ?]. split; [done | done | | done].
    intros x Hx. apply elem_of_union_r, Hsub, Hx. }
  destruct (dep_map !! m) as [[path deps]|] eqn:Hm.
  2: { exists []. rewrite app_nil_r. split; [done |]. split.
       - by intros x ?%not_elem_of_nil.
       - intros x Hx. by apply elem_of_union_r.
       - intros x [->%elem_of_singleton | Hx]%elem_of_union [y Hy]; [congruence | by left].
       - intros n ->%list_elem_of_singleton. apply elem_of_union_l, elem_of_singleton. done. }
  assert (∀ dep, dep ∈ deps → depends_on m (normalize dep)) as Hdeps
    by (intros dep Hdep; by exists path, deps, dep).
  assert (done_below (height m) order ({[m]} ∪ visited)) as Hdone1.
  { intros x [->%elem_of_singleton | Hx]%elem_of_union Hdom Hh; [lia |].
    apply Hdone; [done | done | lia]. }
  pose proof (resolve_list depth_left (height m) deps order resolved ({[m]} ∪ visited) IH
    (λ dep Hdep, height_depends m _ (Hdeps dep Hdep)) ltac:(lia) Hok1 Hdone1) as H.
  destruct (foldl _ (resolved, {[m]} ∪ visited) deps) as [resolved' visited'].
  destruct H as (new & Hok' & Ha). exists (new ++ [m]).
  split; [|by eapply adds_module]. rewrite app_assoc.
  pose proof (done_below_adds _ _ _ _ _ _ Hdone1 Ha) as Hdone'.
  destruct Ha as [Hnew Hvis _ Hnames].
  assert (m ∈ visited') as Hmv by (apply Hvis, elem_of_union_l, elem_of_singleton; done).
  apply (dfs_ok_push _ _ _ m path deps Hok'); [done | | done |].
  - intros [Hx | Hx]%elem_of_app; [by apply Hv, (dfs_visited _ _ _ Hok) |].
    destruct (Hnew m Hx) as [Hn _]. apply Hn, elem_of_union_l, elem_of_singleton. done.
  - intros d Hd Hdom. apply Hdone'; [|done | by apply height_depends].
    destruct Hd as (path' & deps' & dep & Hm' & Hdep & ->). simplify_eq. by apply Hnames.
Qed.

Lemma dependencies_first_closed order m x :
  dependencies_first order → rtc depends_on m x →
  (is_Some (dep_map !! m) → m ∈ order) → is_Some (dep_map !! x) → x ∈ order.
Proof.
  intros Hfirst. induction 1 as [|m y x Hmy Hyx IH]; [done |].
  intros Hm. apply IH. intros Hy. destruct (Hmy) as (path & deps & dep & E & _).
  destruct (proj1 (list_elem_of_lookup _ _) (Hm (mk_is_Some _ _ E))) as [i Hi].
  destruct (Hfirst i m y Hi Hmy Hy) as (j & _ & Hj). by eapply list_elem_of_lookup_2.
Qed.

(** The list for a module has the file of every module of [modules.dep] that
    the module needs, directly or not, each once and no other, and each after
    the files of all the modules it depends on. *)
Lemma resolve_deps_recursive_spec name :
  (height (normalize name) ≤ MAX_DEP_RECURSION_DEPTH)%nat →
  ∃ order, Forall2 path_of order (resolve_deps_recursive dep_map name).1 ∧
    NoDup order ∧ dependencies_first order ∧
    ∀ x, x ∈ order ↔ is_Some (dep_map !! x) ∧ rtc depends_on (normalize name) x.
Proof.
  intros Hh.
  assert (dfs_ok [] [] ∅) as Hok.
  { split; [constructor | constructor | by intros x ?%not_elem_of_nil | done]. }
  assert (done_below (S (height (normalize name))) [] ∅) as Hd by (intros x Hx; set_solver).
  pose proof (resolve_internal (S MAX_DEP_RECURSION_DEPTH) name [] [] ∅ Hok Hd ltac:(lia)) as H.
  unfold resolves in H. unfold resolve_deps_recursive.
  destruct (resolve_deps_recursive_internal _ dep_map name ([], ∅)) as [resolved visited].
  destruct H as (order & [Hp Hnd Hsub Hfirst] & [Hnew _ Hon Hn]). exists order.
  split_and!; [done | done | done |]. intros x. split.
  - intros Hx. split.
    + destruct (proj1 (list_elem_of_lookup _ _) Hx) as [i Hi].
      destruct (Forall2_lookup_l _ _ _ i x Hp Hi) as (p & _ & deps & E). by eexists.
    + by destruct (Hnew x Hx) as (_ & n & ->%list_elem_of_singleton & ?).
  - intros [Hdom Hrtc]. eapply dependencies_first_closed; [exact Hfirst | exact Hrtc | | done].
    intros Hm. destruct (Hon (normalize name)) as [?%elem_of_empty | ?]; [|done | done | done].
    apply Hn, list_elem_of_here.
Qed.
End dependencies.

(** ** Loading in order *)

Lemma path_components_slash a b :
  path_components (a ++ [SLASH] ++ b) = path_components a ++ path_components b.
Proof. unfold path_components. by rewrite split_app_any, filter_app. Qed.

(** The file name of [dir.join(path)] is the one of [path]. *)
Lemma file_name_join dir p f : file_name p = Some f → file_name (path_join dir p) = Some f.
Proof.
  intros Hf.
  assert (∀ d, file_name (d ++ [SLASH] ++ p) = Some f) as Hslash.
  { intros d. revert Hf. unfold file_name. rewrite path_components_slash, last_app.
    by destruct (last (path_components p)). }
  unfold path_join. case_decide as Habs; [done |]. case_decide as Hdir; [|apply Hslash].
  destruct Hdir as [-> | Hlast]; [done |].
  destruct (last_Some dir SLASH) as [H _]. destruct (H Hlast) as [d ->].
  rewrite <-app_assoc. apply Hslash.
Qed.

(** The modules of [modules.dep] are called by their files. *)
Lemma parse_modules_dep_stem content dir m p deps :
  parse_modules_dep content dir !! m = Some (p, deps) → module_stem p = Some m.
Proof.
  unfold parse_modules_dep. destruct content as [content|]; [|done].
  set (f := λ (m : DepMap) line, _).
  assert (∀ ls (M : DepMap), (∀ m p deps, M !! m = Some (p, deps) → module_stem p = Some m) →
    ∀ m p deps, foldl f M ls !! m = Some (p, deps) → module_stem p = Some m) as Hfold.
  { induction ls as [|line ls IH]; [done |]. intros M HM. simpl. apply IH. unfold f.
    unfold parse_dep_line. destruct (split COLON line) as [|part0 parts]; [done |].
    destruct (module_stem (trim part0)) as [stem|] eqn:Hstem; simpl; [|done].
    intros m' p' deps' [[<- [= <- _]] | [_ Hm]]%lookup_insert_Some; [|by eapply HM].
    revert Hstem. unfold module_stem. intros (g & Hg & ->)%fmap_Some.
    by rewrite (file_name_join dir _ _ Hg). }
  apply Hfold. intros ? ? ? H. by rewrite lookup_empty in H.
Qed.

Section loading.
Context (env : KmodEnv).
Implicit Types (k : Kmod) (paths : list str) (out : list KernelRequest) (s : str).
Abbreviation load := (load_resolved_module_paths env).

(** A module was asked for, and the kernel's answer was as stated. *)
Definition requested out (answer_ok : option Errno → bool) s : Prop :=
  ∃ p c a, FinitModule p c a ∈ out ∧ module_stem p = Some s ∧ answer_ok a = true.

Lemma requested_kernel_app out1 out2 ok s :
  requested (out1 ++ out2) ok s ↔ requested out1 ok s ∨ requested out2 ok s.
Proof. unfold requested. setoid_rewrite elem_of_app. naive_solver. Qed.

Ltac load_cases := repeat case_match; simplify_eq/=; rewrite ?app_nil_r, ?app_assoc; done.
Lemma load_app paths1 paths2 k :
  load (paths1 ++ paths2) k =
  (let* b1 := load paths1 in let* b2 := load paths2 in mret (b1 && b2)) k.
Proof.
  revert k. induction paths1 as [|p paths1 IH]; intros k; cbn [app load_resolved_module_paths].
  { unfold mret, act_ret, mbind, act_bind. destruct (load paths2 k) as [[? ?] ?].
    by rewrite app_nil_r. }
  unfold mret, act_ret, mbind, act_bind, act_get, act_modify in *.
  destruct (module_stem p) as [stem|]; [|rewrite IH; load_cases].
  destruct (bool_decide (stem ∈ km_loaded k)); [rewrite IH; load_cases |].
  destruct (load_module env p k) as [[[[|]|] k1] o1]; rewrite IH; load_cases.
Qed.

(** The file could not be opened, at some time. *)
Definition unreadable (p : str) : Prop := ∃ n, ke_open env n p = false.

Record load_facts paths k (ok : bool) k' out : Prop := {
  load_paths p c a : FinitModule p c a ∈ out → p ∈ paths;
  load_loaded s : s ∈ km_loaded k' ↔ s ∈ km_loaded k ∨ requested out accepted s;
  load_ok p : ok = true → p ∈ paths → ∃ s, module_stem p = Some s ∧
    (s ∈ km_loaded k ∨ requested out accepted s ∨ requested out no_device s);
  load_tried p s : p ∈ paths → module_stem p = Some s →
    s ∈ km_loaded k ∨ requested out (λ _, true) s ∨ unreadable p;
}.

Lemma requested_nil ok s : ¬ requested [] ok s.
Proof. intros (p & c & a & H & _). by apply not_elem_of_nil in H. Qed.
Lemma requested_one p c a ok s :
  requested [FinitModule p c a] ok s ↔ module_stem p = Some s ∧ ok a = true.
Proof.
  unfold requested. setoid_rewrite list_elem_of_singleton. naive_solver.
Qed.

Lemma load_one_facts p k :
  let '(ok, k', out) := load [p] k in load_facts [p] k ok k' out.
Proof.
  cbn [load_resolved_module_paths]. unfold load_module.
  unfold mret, act_ret, mbind, act_bind, act_get, act_modify, act_emit.
  assert (∀ s, s ∈ km_loaded k ↔ s ∈ km_loaded k ∨ requested [] accepted s) as Hnone.
  { intros s. pose proof (requested_nil accepted s). tauto. }
  destruct (module_stem p) as [stem|] eqn:Hstem.
  2: { split; [by intros ? ? ? ?%not_elem_of_nil | done | done |].
       intros q s ->%list_elem_of_singleton. congruence. }
  destruct (bool_decide_reflect (stem ∈ km_loaded k)) as [Hin | Hin].
  { split; [by intros ? ? ? ?%not_elem_of_nil | done | |].
    - intros q _ ->%list_elem_of_singleton. exists stem. auto.
    - intros q s ->%list_elem_of_singleton Hs. simplify_eq. by left. }
  destruct (ke_open env (km_attempts k) p) eqn:Hopen; cbn [negb app].
  2: { split; [by intros ? ? ? ?%not_elem_of_nil | done | done |].
       intros q s ->%list_elem_of_singleton _. right. right. by eexists. }
  destruct (ke_finit env (km_attempts k) p) as [[]|] eqn:Hans; cbn [app].
  all: split;
    [ by intros q c a [= -> _ _]%list_elem_of_singleton; apply list_elem_of_here
    | intros s; rewrite requested_one; cbn [km_loaded set_loaded count_attempt accepted];
      set_solver
    | first [done | intros q _ ->%list_elem_of_singleton; exists stem;
        rewrite !requested_one; tauto ]
    | intros q s ->%list_elem_of_singleton Hs; right; left; by apply requested_one ].
Qed.

Lemma load_facts_run paths k : let '(ok, k', out) := load paths k in load_facts paths k ok k' out.
Proof.
  revert k. induction paths as [|p paths IH]; intros k.
  { cbn. split; [by intros ? ? ? ?%not_elem_of_nil | | by intros ? _ ?%not_elem_of_nil
      | by intros ? ? ?%not_elem_of_nil].
    intros s. pose proof (requested_nil accepted s). tauto. }
  change (p :: paths) with ([p] ++ paths). rewrite load_app.
  unfold mret, act_ret, mbind, act_bind.
  pose proof (load_one_facts p k) as H1. destruct (load [p] k) as [[b1 k1] out1].
  specialize (IH k1). destruct (load paths k1) as [[b2 k2] out2].
  destruct H1 as [P1 L1 O1 T1], IH as [P2 L2 O2 T2]. rewrite app_nil_r. split.
  - intros q c a [Hq | Hq]%elem_of_app; apply elem_of_app; eauto.
  - intros s. rewrite L2, L1, requested_kernel_app. tauto.
  - intros q [-> ->]%andb_true_iff [Hq | Hq]%elem_of_app.
    + destruct (O1 q eq_refl Hq) as (s & ? & ?). exists s. rewrite !requested_kernel_app. tauto.
    + destruct (O2 q eq_refl Hq) as (s & ? & H). exists s. rewrite !requested_kernel_app.
      rewrite L1 in H. tauto.
  - intros q s [Hq | Hq]%elem_of_app Hs; rewrite requested_kernel_app.
    + destruct (T1 q s Hq Hs) as [? | [? | ?]]; tauto.
    + destruct (T2 q s Hq Hs) as [[? | (p' & c & a & ? & ? & _)]%L1 | [? | ?]]; try tauto.
      right. left. left. by exists p', c, a.
Qed.

(** A run over [paths1 ++ paths2] asks for modules of [paths1] first. *)
Lemma load_prefix paths1 paths2 k :
  let '(ok, k', out) := load (paths1 ++ paths2) k in
  ∃ ok1 k1 out1 out2, load_facts paths1 k ok1 k1 out1 ∧ out = out1 ++ out2 ∧
    (ok = true → ok1 = true).
Proof.
  rewrite load_app. unfold mret, act_ret, mbind, act_bind.
  pose proof (load_facts_run paths1 k) as H1. destruct (load paths1 k) as [[b1 k1] out1].
  destruct (load paths2 k1) as [[b2 k2] out2]. rewrite app_nil_r.
  exists b1, k1, out1, out2. split; [done |]. split; [done |]. by intros [? _]%andb_true_iff.
Qed.

(** If the request for [p] is not among the first ones, they precede it. *)
Lemma before_split {A} (x : A) before after l1 l2 :
  before ++ x :: after = l1 ++ l2 → x ∉ l1 → ∃ l, before = l1 ++ l.
Proof.
  intros [(l & -> & _) | (l & -> & E)]%app_eq_inv Hx; [by exists l |].
  destruct l as [|y l]; [exists []; by rewrite !app_nil_r |].
  injection E as -> _. exfalso. apply Hx, elem_of_app. right. apply list_elem_of_here.
Qed.

(** Two files of a list of modules with the same stem are at the same place. *)
Lemma order_stem dep_map order paths i j m p q :
  (∀ m p deps, dep_map !! m = Some (p, deps) → module_stem p = Some m) →
  Forall2 (path_of dep_map) order paths → NoDup order →
  paths !! i = Some p → paths !! j = Some q → module_stem p = Some m → module_stem q = Some m →
  i = j ∧ order !! i = Some m.
Proof.
  intros Hstem Hp Hnd Hi Hj Hpm Hqm.
  destruct (Forall2_lookup_r _ _ _ _ _ Hp Hi) as (m1 & E1 & deps1 & D1).
  destruct (Forall2_lookup_r _ _ _ _ _ Hp Hj) as (m2 & E2 & deps2 & D2).
  apply Hstem in D1, D2. simplify_eq. split; [by eapply NoDup_lookup | done].
Qed.

(** Before a module is asked for, each dependency was, in every sense in which
    a run over a list deals with a module of the list. *)
Lemma request_after_dependency dep_map order paths k ok k' before p c a after m d :
  (∀ m p deps, dep_map !! m = Some (p, deps) → module_stem p = Some m) →
  Forall2 (path_of dep_map) order paths → NoDup order → dependencies_first dep_map order →
  load paths k = (ok, k', before ++ FinitModule p c a :: after) →
  module_stem p = Some m → depends_on dep_map m d → is_Some (dep_map !! d) →
  (d ∈ km_loaded k ∨ requested before (λ _, true) d ∨ ∃ pd, path_of dep_map d pd ∧ unreadable pd) ∧
  (ok = true → d ∈ km_loaded k ∨ requested before accepted d ∨ requested before no_device d).
Proof.
  intros Hstem Hp Hnd Hfirst Hrun Hm Hd Hdom.
  pose proof (load_facts_run paths k) as F. rewrite Hrun in F. destruct F as [P _ _ _].
  destruct (proj1 (list_elem_of_lookup _ _) (P p c a ltac:(set_solver))) as [i Hi]. clear P.
  destruct (order_stem _ _ _ _ _ _ _ _ Hstem Hp Hnd Hi Hi Hm Hm) as [_ Em].
  destruct (Hfirst i m d Em Hd Hdom) as (j & Hj & Ed).
  destruct (Forall2_lookup_l _ _ _ _ _ Hp Ed) as (pd & Epd & deps & D). pose proof (Hstem _ _ _ D) as Hpd.
  pose proof (load_prefix (take i paths) (drop i paths) k) as F.
  rewrite take_drop, Hrun in F. destruct F as (ok1 & k1 & out1 & out2 & [P1 _ O1 T1] & E & Hok).
  destruct (before_split _ _ _ _ _ E) as [l ->].
  { intros Hin%P1. apply list_elem_of_lookup in Hin as [i' Hi'].
    apply lookup_take_Some in Hi' as [Hi' Hlt].
    destruct (order_stem _ _ _ _ _ _ _ _ Hstem Hp Hnd Hi' Hi Hm Hm). lia. }
  assert (pd ∈ take i paths) as Hin
    by (apply list_elem_of_lookup; exists j; by apply lookup_take_Some).
  rewrite !requested_kernel_app. split.
  - destruct (T1 pd d Hin Hpd) as [? | [? | ?]]; [tauto | tauto |].
    right. right. exists pd. split; [by exists deps | done].
  - intros Ht. destruct (O1 pd (Hok Ht) Hin) as (s & Es & Hs). simplify_eq. tauto.
Qed.

Section in_order.
Context (content : option str) (dir name : str).
Abbreviation dep_map := (parse_modules_dep content dir).
Abbreviation needed := (λ m, is_Some (dep_map !! m) ∧ rtc (depends_on dep_map) (normalize name) m).

(** [modules.dep] has no cycle, and no chain of dependencies of the module is
    longer than the 64 levels of [MAX_DEP_RECURSION_DEPTH]. *)
Definition tree_like : Prop :=
  ∃ height : str → nat, (∀ m d, depends_on dep_map m d → (height d < height m)%nat) ∧
    (height (normalize name) ≤ MAX_DEP_RECURSION_DEPTH)%nat.

(** C22: loading a module with its dependencies.  The list that
    [resolve_deps_recursive] makes from [modules.dep] for a module, loaded by
    [load_resolved_module_paths], makes the loader ask the kernel only for
    modules that the module needs, directly or not, and remember as loaded
    exactly what was loaded before and what the kernel accepted.  That holds
    for any [modules.dep].  If it has no cycle and no chain of dependencies
    from the module is longer than 64, then every request is made after each
    dependency of the module asked for was loaded, was asked for (the kernel may
    have refused it), or its file could not be opened.  If moreover the loader
    reports success, every needed module is loaded or its device is not there,
    and every request was made when each dependency of the module asked for had
    been loaded before, accepted by the kernel, or found to be without a
    device. *)
Theorem load_in_order k :
  let '(ok, k', out) := load (resolve_deps_recursive dep_map name).1 k in
  (∀ p c a, FinitModule p c a ∈ out → ∃ m, module_stem p = Some m ∧ needed m) ∧
  (∀ m, m ∈ km_loaded k' ↔ m ∈ km_loaded k ∨ requested out accepted m) ∧
  (tree_like →
    (∀ before p c a after m d, out = before ++ FinitModule p c a :: after →
       module_stem p = Some m → depends_on dep_map m d → is_Some (dep_map !! d) →
       (d ∈ km_loaded k ∨ requested before (λ _, true) d ∨ ∃ pd, path_of dep_map d pd ∧ unreadable pd) ∧
       (ok = true → d ∈ km_loaded k ∨ requested before accepted d ∨ requested before no_device d)) ∧
    (ok = true → ∀ m, needed m → m ∈ km_loaded k' ∨ requested out no_device m)).
Proof.
  pose proof (resolve_needed dep_map (S MAX_DEP_RECURSION_DEPTH) name [] ∅) as Hsound.
  fold (resolve_deps_recursive dep_map name) in Hsound.
  set (paths := (resolve_deps_recursive dep_map name).1) in *.
  pose proof (load_facts_run paths k) as F. destruct (load paths k) as [[ok k'] out] eqn:Hrun.
  destruct F as [P L O _]. pose proof (parse_modules_dep_stem content dir) as Hstem. split; [|split].
  - intros p c a Hin%P%Hsound. destruct Hin as [Hin%not_elem_of_nil | (m & [deps D] & Hr)]; [done |].
    exists m. split; [by eapply Hstem | by split].
  - exact L.
  - intros (height & no_cycle & short_chains).
    destruct (resolve_deps_recursive_spec dep_map height no_cycle name short_chains)
      as (order & Hp & Hnd & Hfirst & Hneed). fold paths in Hp. split.
    + intros before p c a after m d -> Hm Hd Hdom. by eapply request_after_dependency.
    + intros -> m Hm%Hneed. apply list_elem_of_lookup in Hm as [i Hi].
      destruct (Forall2_lookup_l _ _ _ _ _ Hp Hi) as (p & Ep & deps & D).
      destruct (O p eq_refl) as (s & Es & Hs); [by eapply list_elem_of_lookup_2 |].
      apply Hstem in D. simplify_eq. rewrite L. tauto.
Qed.
End in_order.
End loading.

Module KmodExample.

(** A [modules.dep] in which [vfat] needs [fat]. *)
Definition content : str :=
  lit "kernel/fs/vfat.ko.xz: kernel/fs/fat.ko.xz" ++ [10] ++ lit "kernel/fs/fat.ko.xz:" ++ [10].
Definition dir : str := lit "/lib/modules/6.1".
Definition env : KmodEnv :=
  mkKmodEnv (lit "6.1") true (Some content) None [] (λ _ _, true) (λ _ _, None).
Definition height (m : str) : nat := if decide (m = lit "vfat") then 1 else 0.

Lemma dep_map_eq :
  parse_modules_dep (Some content) dir =
  {[lit "fat" := (lit "/lib/modules/6.1/kernel/fs/fat.ko.xz", []);
    lit "vfat" := (lit "/lib/modules/6.1/kernel/fs/vfat.ko.xz", [lit "fat"])]}.
Proof. vm_compute. reflexivity. Qed.

Lemma height_ok m d :
  depends_on (parse_modules_dep (Some content) dir) m d → (height d < height m)%nat.
Proof.
  rewrite dep_map_eq. intros (path & deps & dep & Hm & Hdep & ->).
  apply lookup_insert_Some in Hm as [[<- [= _ <-]] | [_ [<- [= _ <-]]%lookup_singleton_Some]].
  - by apply not_elem_of_nil in Hdep.
  - apply list_elem_of_singleton in Hdep as ->. apply Nat.ltb_lt. reflexivity.
Qed.

Lemma load_in_order_witness :
  let '(ok, k', out) := load_resolved_module_paths env
    (resolve_deps_recursive (parse_modules_dep (Some content) dir) (lit "vfat")).1 kmod_new in
  ok = true ∧
  out = [FinitModule (lit "/lib/modules/6.1/kernel/fs/fat.ko.xz") true None;
         FinitModule (lit "/lib/modules/6.1/kernel/fs/vfat.ko.xz") true None] ∧
  (lit "fat" ∈ km_loaded k' ∨ requested out no_device (lit "fat")).
Proof.
  pose proof (load_in_order env (Some content) dir (lit "vfat") kmod_new) as H.
  destruct (load_resolved_module_paths _ _ _) as [[ok k'] out] eqn:E.
  destruct H as (_ & _ & H).
  assert (ok = true ∧ out = [FinitModule (lit "/lib/modules/6.1/kernel/fs/fat.ko.xz") true None;
         FinitModule (lit "/lib/modules/6.1/kernel/fs/vfat.ko.xz") true None]) as [-> ->].
  { vm_compute in E. injection E as <- _ <-. split; reflexivity. }
  split_and!; [done | done |]. apply H; [|done |].
  - exists height. split; [exact height_ok | vm_compute; lia].
  - split; [vm_compute; by eexists |]. apply rtc_once.
    eexists _, _, (lit "fat"). split_and!; [vm_compute; reflexivity | apply list_elem_of_here | reflexivity].
Defined.

(** Finding: the matcher takes a star of the pattern for the character when the
    input has a star at that place too, so a pattern that is a lone star does
    not match every input. *)
Theorem star_not_general : wildcard_match (lit "*") (lit "*a") = false.
Proof. reflexivity. Qed.
End KmodExample.
