(* ===== verification/RateLimiter.v ===== *)
(** * The rate limiter of the DNS forwarder

    The token buckets of [src/src/services/dns_forwarder/rate_limiter.rs].
    The code computes in [f64]; an [f64] is modelled by the rational it
    stands for, and each operation rounds its exact result.  The rounding
    function is a parameter, with the properties of IEEE 754 binary64 that the
    theorems need. *)

From Stdlib Require Import ZArith QArith Lqa Lia Qminmax.
From stdpp Require Import base gmap list.
From S2P Require Import Prelude NetAddr.

#[local] Open Scope Q_scope.

(** ** [f64] arithmetic *)

Class Binary64 := { rnd : Q → Q }.

(** Rounding is monotonic, exact on the integers up to 2^53, and within half
    a unit in the last place: 2^-43 for the magnitudes below 2048. *)
Class Binary64Laws {B64 : Binary64} : Prop := {
  rnd_mono (x y : Q) : x <= y → rnd x <= rnd y;
  rnd_int (n : Z) : (Z.abs n ≤ 2 ^ 53)%Z → rnd (inject_Z n) == inject_Z n;
  rnd_close (x : Q) : 0 <= x → x <= 2048 → rnd x <= x + (1 # 8796093022208);
  rnd_close_below (x : Q) : 0 <= x → x <= 2048 → x - (1 # 8796093022208) <= rnd x;
}.

(** The exact rationals are one such arithmetic. *)
#[global] Program Instance exact_binary64 : Binary64 := {| rnd x := x |}.
#[global] Instance exact_binary64_laws : Binary64Laws (B64 := exact_binary64).
Proof. split; simpl; intros; lra. Qed.

Section f64.
Context {B64 : Binary64}.
Definition f64_add (a b : Q) : Q := rnd (a + b).
Definition f64_sub (a b : Q) : Q := rnd (a - b).
Definition f64_mul (a b : Q) : Q := rnd (a * b).
Definition f64_div (a b : Q) : Q := rnd (a / b).
Definition f64_min (a b : Q) : Q := if Qle_bool a b then a else b.
Definition f64_max (a b : Q) : Q := if Qle_bool a b then b else a.

(** [Duration::as_secs_f64] *)
Definition as_secs_f64 (d : Duration) : Q :=
  f64_add (rnd (inject_Z (d / NANOS)%Z))
    (f64_div (rnd (inject_Z (d mod NANOS)%Z)) (inject_Z NANOS)).
End f64.

(** ** The limiter *)

Definition DEFAULT_DNS_RATE_LIMIT_PER_SEC : Q := 100.
Definition DEFAULT_DNS_BURST_QUOTA : Q := 150.
Definition IDLE_CLIENT_TIMEOUT : Duration := from_secs 10.

Record ClientBucket := mkClientBucket {
  tokens : Q;
  last_update : Instant;
}.
Record DnsRateLimiter := mkDnsRateLimiter {
  rl_clients : gmap Ipv4Addr ClientBucket;
  rl_rate_per_sec : Q;
  rl_max_burst : Q;
}.

Module DnsRateLimiter.
Section limiter.
Context {B64 : Binary64}.

Definition new (rate_per_sec max_burst : Q) : DnsRateLimiter :=
  mkDnsRateLimiter ∅ (f64_max rate_per_sec 1) (f64_max max_burst 1).

Definition check (now : Instant) (client_ip : Ipv4Addr) (rl : DnsRateLimiter) :
    bool * DnsRateLimiter :=
  let bucket := default (mkClientBucket (rl_max_burst rl) now) (rl_clients rl !! client_ip) in
  let elapsed := as_secs_f64 (duration_since now (last_update bucket)) in
  let t := f64_min (f64_add (tokens bucket) (f64_mul elapsed (rl_rate_per_sec rl)))
             (rl_max_burst rl) in
  let accepted := Qle_bool 1 t in
  let t' := if accepted then f64_sub t 1 else t in
  (accepted,
   mkDnsRateLimiter (<[client_ip := mkClientBucket t' now]> (rl_clients rl))
     (rl_rate_per_sec rl) (rl_max_burst rl)).

Definition retain_recent (now : Instant) (rl : DnsRateLimiter) : DnsRateLimiter :=
  mkDnsRateLimiter
    (retain (λ _ b, bool_decide (duration_since now (last_update b) ≤ IDLE_CLIENT_TIMEOUT)%Z)
       (rl_clients rl))
    (rl_rate_per_sec rl) (rl_max_burst rl).

Definition default : DnsRateLimiter :=
  new DEFAULT_DNS_RATE_LIMIT_PER_SEC DEFAULT_DNS_BURST_QUOTA.
End limiter.
End DnsRateLimiter.

(** ** The events of a run *)

Inductive LimiterEvent := LCheck (ip : Ipv4Addr) | LRetain.

Section run.
Context {B64 : Binary64}.

(** The state after a run, and the answers, in order. *)
Fixpoint limiter_run (events : list (Instant * LimiterEvent)) (rl : DnsRateLimiter) :
    DnsRateLimiter * list (Ipv4Addr * bool) :=
  match events with
  | [] => (rl, [])
  | (now, LCheck ip) :: events' =>
      let '(ok, rl') := DnsRateLimiter.check now ip rl in
      let '(rl'', answers) := limiter_run events' rl' in
      (rl'', (ip, ok) :: answers)
  | (now, LRetain) :: events' => limiter_run events' (DnsRateLimiter.retain_recent now rl)
  end.
End run.

(** The queries of a client that were let through. *)
Definition granted (ip : Ipv4Addr) (answers : list (Ipv4Addr * bool)) : Z :=
  Z.of_nat (length (filter (λ a, a = (ip, true)) answers)).

(** The clock does not go backwards. *)
Fixpoint clock_from (now : Instant) (events : list (Instant * LimiterEvent)) : Prop :=
  match events with
  | [] => True
  | (t, _) :: events' => (now ≤ t)%Z ∧ clock_from t events'
  end.

(** ** The default limiter *)

Section spec.
Context {B64 : Binary64} {BL : Binary64Laws}.

Abbreviation RATE := DEFAULT_DNS_RATE_LIMIT_PER_SEC.
Abbreviation BURST := DEFAULT_DNS_BURST_QUOTA.
(** A time span in seconds. *)
Definition secs (d : Duration) : Q := inject_Z d / inject_Z NANOS.

(** What every bucket satisfies. *)
Definition limiter_ok (now : Instant) (rl : DnsRateLimiter) : Prop :=
  rl_rate_per_sec rl = RATE ∧ rl_max_burst rl = BURST ∧
  ∀ ip b, rl_clients rl !! ip = Some b →
    0 <= tokens b ∧ tokens b <= BURST ∧ (last_update b ≤ now)%Z.

Lemma rnd_nonneg x : 0 <= x → 0 <= rnd x.
Proof. intros H. rewrite <-(rnd_int 0) by done. by apply rnd_mono. Qed.
Lemma rnd_ge_int n x : (Z.abs n ≤ 2 ^ 53)%Z → inject_Z n <= x → inject_Z n <= rnd x.
Proof. intros Hn H. rewrite <-(rnd_int n) by done. by apply rnd_mono. Qed.
Lemma rnd_le_int n x : (Z.abs n ≤ 2 ^ 53)%Z → x <= inject_Z n → rnd x <= inject_Z n.
Proof. intros Hn H. rewrite <-(rnd_int n) by done. by apply rnd_mono. Qed.

Lemma f64_min_spec a b : f64_min a b <= a ∧ f64_min a b <= b ∧ (f64_min a b = a ∨ f64_min a b = b).
Proof.
  unfold f64_min. destruct (Qle_bool a b) eqn:E.
  - apply Qle_bool_iff in E. split_and!; [lra | done | by left].
  - split_and!; [|lra | by right]. apply Qnot_lt_le. intros H. apply Qlt_le_weak, Qle_bool_iff in H. congruence.
Qed.

(** The elapsed time in floating point: nonnegative, at least the whole
    seconds and, for the times that matter, hardly more than the exact one. *)
Lemma as_secs_f64_nonneg d : (0 ≤ d)%Z → 0 <= as_secs_f64 d.
Proof.
  intros Hd. unfold as_secs_f64, f64_add, f64_div. apply rnd_nonneg.
  assert (0 <= rnd (inject_Z (d / NANOS))) as H1
    by (apply rnd_nonneg; change 0 with (inject_Z 0); rewrite <-Zle_Qle; apply Z.div_pos; [done | unfold NANOS; lia]).
  assert (0 <= rnd (rnd (inject_Z (d mod NANOS)) / inject_Z NANOS)) as H2; [|lra].
  apply rnd_nonneg. apply Qle_shift_div_l; [reflexivity |]. rewrite Qmult_0_l. apply rnd_nonneg.
  change 0 with (inject_Z 0); rewrite <-Zle_Qle. apply Z.mod_pos_bound. unfold NANOS. lia.
Qed.

Lemma secs_split d : secs d == inject_Z (d / NANOS) + inject_Z (d mod NANOS) / inject_Z NANOS.
Proof.
  unfold secs. rewrite (Z.div_mod d NANOS) at 1 by done.
  rewrite inject_Z_plus, inject_Z_mult. field. discriminate.
Qed.

Lemma as_secs_f64_upper d : (0 ≤ d ≤ 11 * NANOS)%Z →
  as_secs_f64 d <= secs d + (2 # 8796093022208).
Proof.
  intros Hd. rewrite secs_split. unfold as_secs_f64, f64_add, f64_div.
  assert (0 ≤ d / NANOS ≤ 11)%Z as Hq
    by (unfold NANOS in *; Z.to_euclidean_division_equations; lia).
  assert (0 ≤ d mod NANOS < NANOS)%Z as Hr by (apply Z.mod_pos_bound; unfold NANOS; lia).
  pose proof (rnd_int (d / NANOS) ltac:(lia)) as Eq.
  pose proof (rnd_int (d mod NANOS) ltac:(unfold NANOS in *; lia)) as Er.
  set (q := inject_Z (d / NANOS)) in *. set (r := inject_Z (d mod NANOS)) in *.
  assert (0 <= q ∧ q <= 11) as Hq'
    by (unfold q; change 0 with (inject_Z 0); change 11 with (inject_Z 11); rewrite <-!Zle_Qle; lia).
  assert (0 <= r / inject_Z NANOS ∧ r / inject_Z NANOS <= 1) as Hr'.
  { split; [apply Qle_shift_div_l | apply Qle_shift_div_r]; try reflexivity;
      rewrite ?Qmult_0_l, ?Qmult_1_l; unfold r; change 0 with (inject_Z 0);
      rewrite <-Zle_Qle; lia. }
  assert (rnd r / inject_Z NANOS == r / inject_Z NANOS) as E1 by (by rewrite Er).
  revert E1 Hr'. generalize (rnd r / inject_Z NANOS) (r / inject_Z NANOS).
  intros y' y E1 [Hy0 Hy1]. destruct Hq' as [Hq0 Hq1].
  pose proof (rnd_close y' ltac:(lra) ltac:(lra)).
  pose proof (rnd_nonneg y' ltac:(lra)).
  assert (0 <= rnd q + rnd y' ∧ rnd q + rnd y' <= 2048) as [Hs0 Hs1] by lra.
  pose proof (rnd_close _ Hs0 Hs1). lra.
Qed.

Lemma as_secs_f64_lower d : (10 * NANOS ≤ d)%Z → 10 <= as_secs_f64 d.
Proof.
  intros Hd. unfold as_secs_f64, f64_add, f64_div. apply (rnd_ge_int 10); [done |].
  assert (0 <= rnd (rnd (inject_Z (d mod NANOS)) / inject_Z NANOS)).
  { apply rnd_nonneg, Qle_shift_div_l; [reflexivity |]. rewrite Qmult_0_l. apply rnd_nonneg.
    change 0 with (inject_Z 0); rewrite <-Zle_Qle. apply Z.mod_pos_bound. unfold NANOS. lia. }
  pose proof (rnd_ge_int 10 (inject_Z (d / NANOS)) ltac:(done)
    ltac:(rewrite <-Zle_Qle; unfold NANOS in *; Z.to_euclidean_division_equations; lia)).
  lra.
Qed.

(** The tokens of a bucket after it was refilled. *)
Definition refilled (k : Q) (d : Duration) : Q :=
  f64_min (f64_add k (f64_mul (as_secs_f64 d) RATE)) BURST.

Lemma refilled_bounds k d : 0 <= k → (0 ≤ d)%Z → 0 <= refilled k d ∧ refilled k d <= BURST.
Proof.
  intros Hk Hd. unfold refilled.
  destruct (f64_min_spec (f64_add k (f64_mul (as_secs_f64 d) RATE)) BURST) as (H1 & H2 & H3).
  split; [|done]. destruct H3 as [-> | ->]; [|discriminate].
  unfold f64_add, f64_mul. apply rnd_nonneg.
  pose proof (as_secs_f64_nonneg d Hd).
  assert (0 <= rnd (as_secs_f64 d * RATE)); [|lra]. apply rnd_nonneg. unfold RATE. lra.
Qed.

(** After more than the idle time-out every bucket is full again. *)
Lemma refilled_full k d : 0 <= k → (IDLE_CLIENT_TIMEOUT < d)%Z → refilled k d = BURST.
Proof.
  intros Hk Hd. unfold refilled.
  assert (1000 <= f64_add k (f64_mul (as_secs_f64 d) RATE)) as H.
  { unfold f64_add, f64_mul. apply (rnd_ge_int 1000); [done |].
    pose proof (as_secs_f64_lower d ltac:(unfold IDLE_CLIENT_TIMEOUT, from_secs in Hd; lia)).
    pose proof (rnd_ge_int 1000 (as_secs_f64 d * RATE) ltac:(done)
      ltac:(change (inject_Z 1000) with 1000; unfold RATE; lra)) as H1.
    change (inject_Z 1000) with 1000 in *. lra. }
  unfold f64_min. destruct (Qle_bool _ _) eqn:E; [|done].
  apply Qle_bool_iff in E. unfold BURST in E. lra.
Qed.

(** The rounding errors of one refill and one withdrawal. *)
Definition slack : Q := 1 # 34359738368.

Lemma refilled_upper k d : 0 <= k → k <= BURST → (0 ≤ d)%Z →
  refilled k d <= k + RATE * secs d + (205 # 8796093022208).
Proof.
  intros Hk HB Hd. unfold refilled.
  destruct (f64_min_spec (f64_add k (f64_mul (as_secs_f64 d) RATE)) BURST) as (H1 & H2 & _).
  destruct (decide (d ≤ 11 * NANOS)%Z) as [Hle | Hgt].
  - pose proof (as_secs_f64_upper d ltac:(lia)). pose proof (as_secs_f64_nonneg d Hd).
    assert (0 <= secs d ∧ secs d <= 11) as Hs.
    { unfold secs. split; [apply Qle_shift_div_l | apply Qle_shift_div_r]; try reflexivity;
        rewrite ?Qmult_0_l; change 0 with (inject_Z 0); change 11 with (inject_Z 11);
        rewrite <-?inject_Z_mult, <-Zle_Qle; lia. }
    unfold f64_add, f64_mul, BURST, RATE in *.
    assert (0 <= as_secs_f64 d * 100 ∧ as_secs_f64 d * 100 <= 2048) as [Hm0 Hm1] by lra.
    pose proof (rnd_close _ Hm0 Hm1). pose proof (rnd_nonneg _ Hm0).
    assert (0 <= k + rnd (as_secs_f64 d * 100) ∧ k + rnd (as_secs_f64 d * 100) <= 2048)
      as [Hs0 Hs1] by lra.
    pose proof (rnd_close _ Hs0 Hs1). lra.
  - assert (11 <= secs d) as Hs.
    { unfold secs. apply Qle_shift_div_l; [reflexivity |]. change 11 with (inject_Z 11).
      rewrite <-inject_Z_mult, <-Zle_Qle. lia. }
    unfold BURST, RATE in *. lra.
Qed.

(** What a client may still spend at a given time, in exact arithmetic. *)
Definition credit (rl : DnsRateLimiter) (ip : Ipv4Addr) (now : Instant) : Q :=
  match rl_clients rl !! ip with
  | Some b => Qmin BURST (tokens b + RATE * secs (now - last_update b))
  | None => BURST
  end.

Lemma secs_0 : secs 0 == 0.
Proof. reflexivity. Qed.
Lemma secs_add a b : secs (a + b) == secs a + secs b.
Proof. unfold secs. rewrite inject_Z_plus. field. discriminate. Qed.
Lemma secs_nonneg d : (0 ≤ d)%Z → 0 <= secs d.
Proof.
  intros Hd. unfold secs. apply Qle_shift_div_l; [reflexivity |]. rewrite Qmult_0_l.
  change 0 with (inject_Z 0). by rewrite <-Zle_Qle.
Qed.

(** [check], in terms of [refilled]. *)
Lemma check_eq now ip rl :
  rl_rate_per_sec rl = RATE → rl_max_burst rl = BURST →
  let b := default (mkClientBucket BURST now) (rl_clients rl !! ip) in
  let t := refilled (tokens b) (duration_since now (last_update b)) in
  DnsRateLimiter.check now ip rl =
  (Qle_bool 1 t,
   mkDnsRateLimiter
     (<[ip := mkClientBucket (if Qle_bool 1 t then f64_sub t 1 else t) now]> (rl_clients rl))
     RATE BURST).
Proof. intros HR HB. unfold DnsRateLimiter.check, refilled. by rewrite HR, HB. Qed.

(** A withdrawal leaves what was there less the query, up to rounding. *)
Lemma withdraw_bounds t : 0 <= t → t <= BURST →
  let t' := if Qle_bool 1 t then f64_sub t 1 else t in
  0 <= t' ∧ t' <= BURST ∧
  t' + (if Qle_bool 1 t then 1 else 0) <= t + (1 # 8796093022208).
Proof.
  intros H0 H1. cbv zeta. destruct (Qle_bool 1 t) eqn:E; [|lra].
  apply Qle_bool_iff in E. unfold f64_sub, BURST in *.
  assert (0 <= t - 1 ∧ t - 1 <= 2048) as [Ha Hb] by lra.
  pose proof (rnd_close _ Ha Hb). pose proof (rnd_nonneg _ Ha). lra.
Qed.

Lemma bucket_default now rl ip :
  limiter_ok now rl →
  let b := default (mkClientBucket BURST now) (rl_clients rl !! ip) in
  0 <= tokens b ∧ tokens b <= BURST ∧ (last_update b ≤ now)%Z ∧
  Qmin BURST (tokens b + RATE * secs (now - last_update b)) <= credit rl ip now.
Proof.
  intros (_ & _ & Hb). unfold credit. destruct (rl_clients rl !! ip) as [b|] eqn:E; simpl.
  - destruct (Hb ip b E) as (? & ? & ?). split_and!; [done.. | apply Qle_refl].
  - split_and!; [discriminate | apply Qle_refl | lia | apply Q.le_min_l].
Qed.

Lemma check_ok now ip rl :
  limiter_ok now rl → limiter_ok now (DnsRateLimiter.check now ip rl).2.
Proof.
  intros Hok. destruct (bucket_default now rl ip Hok) as (H0 & H1 & Hl & _).
  destruct Hok as (HR & HB & Hb). rewrite check_eq by done. cbv zeta. cbn [snd].
  set (b := default _ _) in *.
  destruct (refilled_bounds (tokens b) (duration_since now (last_update b)) H0) as [Hr0 Hr1];
    [unfold duration_since; lia |].
  destruct (withdraw_bounds _ Hr0 Hr1) as (Hw0 & Hw1 & _).
  split_and!; [done.. |]. intros ip' b'. cbn [rl_clients].
  destruct (decide (ip = ip')) as [-> | Hne].
  - rewrite lookup_insert_eq. intros [= <-]. by split_and!.
  - rewrite lookup_insert_ne by done. apply Hb.
Qed.

(** The credit pays for the queries that are let through. *)
Lemma check_credit now ip ip' rl :
  limiter_ok now rl →
  credit (DnsRateLimiter.check now ip' rl).2 ip now
    + (if (DnsRateLimiter.check now ip' rl).1 && bool_decide (ip' = ip) then 1 else 0)
  <= credit rl ip now + slack.
Proof.
  intros Hok. destruct (bucket_default now rl ip' Hok) as (H0 & H1 & Hl & Hc).
  destruct Hok as (HR & HB & Hb). rewrite check_eq by done. cbv zeta. cbn [fst snd].
  set (b := default _ _) in *. set (d := duration_since now (last_update b)).
  assert (d = (now - last_update b)%Z) as Ed by (unfold d, duration_since; lia).
  destruct (decide (ip' = ip)) as [-> | Hne].
  2: { rewrite bool_decide_false, andb_false_r by done. unfold credit at 1. cbn [rl_clients].
       rewrite lookup_insert_ne by done. change (match rl_clients rl !! ip with
         | Some b => _ | None => _ end) with (credit rl ip now). unfold slack. lra. }
  rewrite bool_decide_true, andb_true_r by done. unfold credit at 1. cbn [rl_clients].
  rewrite lookup_insert_eq. cbn [tokens last_update].
  destruct (refilled_bounds (tokens b) d H0) as [Hr0 Hr1]; [lia |].
  pose proof (refilled_upper (tokens b) d H0 H1 ltac:(lia)) as Hu. rewrite Ed in Hu at 2.
  destruct (withdraw_bounds _ Hr0 Hr1) as (Hw0 & Hw1 & Hw). cbv zeta in Hw, Hw0, Hw1.
  set (t := refilled (tokens b) d) in *.
  set (t' := if Qle_bool 1 t then f64_sub t 1 else t) in *.
  rewrite Z.sub_diag. pose proof secs_0 as Hs0.
  pose proof (Q.le_min_r BURST (t' + RATE * secs 0)) as Hm.
  assert (t <= Qmin BURST (tokens b + RATE * secs (now - last_update b))
    + (205 # 8796093022208)) as Ht
    by (apply Q.min_case_strong; intros; unfold BURST in *; lra).
  assert (RATE * secs 0 == 0) as Hz by (rewrite Hs0; apply Qmult_0_r).
  unfold slack. destruct (Qle_bool 1 t); lra.
Qed.

Lemma limiter_ok_later now now' rl : limiter_ok now rl → (now ≤ now')%Z → limiter_ok now' rl.
Proof.
  intros (HR & HB & Hb) Hle. split_and!; [done.. |]. intros ip b E.
  destruct (Hb ip b E) as (? & ? & ?). split_and!; [done.. | lia].
Qed.

Lemma retain_ok now rl : limiter_ok now rl → limiter_ok now (DnsRateLimiter.retain_recent now rl).
Proof.
  intros (HR & HB & Hb). split_and!; [done.. |]. intros ip b [E _]%retain_lookup. by apply (Hb ip).
Qed.

Lemma credit_nonneg now rl ip : limiter_ok now rl → 0 <= credit rl ip now.
Proof.
  intros (_ & _ & Hb). unfold credit. destruct (rl_clients rl !! ip) as [b|] eqn:E; [|discriminate].
  destruct (Hb ip b E) as (? & ? & ?). pose proof (secs_nonneg (now - last_update b) ltac:(lia)).
  apply Q.min_case_strong; intros; unfold RATE in *; lra.
Qed.

Lemma credit_later now now' rl ip :
  (now ≤ now')%Z → credit rl ip now' <= credit rl ip now + RATE * secs (now' - now).
Proof.
  intros Hle. pose proof (secs_nonneg (now' - now) ltac:(lia)) as Hs. unfold credit.
  destruct (rl_clients rl !! ip) as [b|]; [|unfold RATE; lra].
  assert (secs (now' - last_update b) == secs (now - last_update b) + secs (now' - now)) as E.
  { rewrite <-secs_add. by replace (now - last_update b + (now' - now))%Z
      with (now' - last_update b)%Z by lia. }
  pose proof (Q.le_min_l BURST (tokens b + RATE * secs (now' - last_update b))).
  pose proof (Q.le_min_r BURST (tokens b + RATE * secs (now' - last_update b))).
  assert (RATE * secs (now' - last_update b)
    == RATE * secs (now - last_update b) + RATE * secs (now' - now)) by (rewrite E; ring).
  apply (Q.min_case_strong BURST (tokens b + RATE * secs (now - last_update b)));
    intros; unfold RATE in *; lra.
Qed.

(** A bucket that is dropped was full again. *)
Lemma retain_credit now rl ip :
  limiter_ok now rl → credit (DnsRateLimiter.retain_recent now rl) ip now <= credit rl ip now.
Proof.
  intros (_ & _ & Hb). unfold credit. cbn [rl_clients DnsRateLimiter.retain_recent].
  destruct (retain _ _ !! ip) as [b|] eqn:E.
  { apply retain_lookup in E as [-> _]. apply Qle_refl. }
  destruct (rl_clients rl !! ip) as [b|] eqn:E'; [|apply Qle_refl].
  destruct (Hb ip b E') as (H0 & _ & Hl). apply Q.min_glb; [apply Qle_refl |].
  destruct (bool_decide_reflect (duration_since now (last_update b) ≤ IDLE_CLIENT_TIMEOUT)%Z)
    as [Hr | Hr].
  { assert (retain (λ _ b, bool_decide (duration_since now (last_update b) ≤ IDLE_CLIENT_TIMEOUT)%Z)
      (rl_clients rl) !! ip = Some b) as Hk
      by (apply retain_lookup; split; [done | by apply bool_decide_eq_true]). congruence. }
  assert (10 <= secs (now - last_update b)); [|unfold BURST, RATE; lra].
  unfold secs. apply Qle_shift_div_l; [reflexivity |]. change 10 with (inject_Z 10).
  rewrite <-inject_Z_mult, <-Zle_Qle.
  unfold duration_since, IDLE_CLIENT_TIMEOUT, from_secs in Hr. lia.
Qed.

Lemma granted_cons ip ip' ok answers :
  inject_Z (granted ip ((ip', ok) :: answers))
  == (if ok && bool_decide (ip' = ip) then 1 else 0) + inject_Z (granted ip answers).
Proof.
  unfold granted. rewrite filter_cons. case_decide as Hd.
  - injection Hd as -> ->. rewrite bool_decide_true by done. cbn [andb length].
    rewrite Nat2Z.inj_succ. unfold Z.succ. rewrite inject_Z_plus. change (inject_Z 1) with 1. ring.
  - destruct ok; [|simpl; ring]. rewrite bool_decide_false by congruence. simpl. ring.
Qed.

Lemma limiter_run_credit events rl ip t0 t1 :
  limiter_ok t0 rl → clock_from t0 events → (∀ e, e ∈ events → (e.1 ≤ t1)%Z) → (t0 ≤ t1)%Z →
  inject_Z (granted ip (limiter_run events rl).2)
  <= credit rl ip t0 + RATE * secs (t1 - t0) + inject_Z (Z.of_nat (length events)) * slack.
Proof.
  revert rl t0. induction events as [|[t e] events IH]; intros rl t0 Hok Hck Hev Hle.
  { pose proof (credit_nonneg t0 rl ip Hok). pose proof (secs_nonneg (t1 - t0) ltac:(lia)).
    change (inject_Z (granted ip (limiter_run [] rl).2)) with 0.
    change (inject_Z (Z.of_nat (length []))) with 0. unfold RATE, slack. lra. }
  destruct Hck as [Ht Hck]. pose proof (Hev (t, e) ltac:(apply list_elem_of_here)) as Ht1. simpl in Ht1.
  apply (limiter_ok_later t0 t) in Hok; [|done].
  pose proof (credit_later t0 t rl ip Ht) as Hc.
  assert (secs (t1 - t0) == secs (t - t0) + secs (t1 - t)) as Es
    by (rewrite <-secs_add; by replace (t - t0 + (t1 - t))%Z with (t1 - t0)%Z by lia).
  assert (RATE * secs (t1 - t0) == RATE * secs (t - t0) + RATE * secs (t1 - t)) as Er
    by (rewrite Es; ring).
  assert (∀ e', e' ∈ events → (e'.1 ≤ t1)%Z) as Hev' by (intros; apply Hev; by apply list_elem_of_further).
  assert (inject_Z (Z.of_nat (length ((t, e) :: events))) * slack
    == inject_Z (Z.of_nat (length events)) * slack + slack) as El.
  { cbn [length]. rewrite Nat2Z.inj_succ. unfold Z.succ. rewrite inject_Z_plus.
    change (inject_Z 1) with 1. ring. }
  destruct e as [ip' |]; cbn [limiter_run].
  - pose proof (check_credit t ip ip' rl Hok) as Hcc. apply (check_ok t ip' rl) in Hok.
    destruct (DnsRateLimiter.check t ip' rl) as [ok rl']. cbn [fst snd] in *.
    specialize (IH rl' t Hok Hck Hev' Ht1). destruct (limiter_run events rl') as [rl'' answers].
    cbn [fst snd] in *. rewrite granted_cons. lra.
  - pose proof (retain_credit t rl ip Hok) as Hrc. apply retain_ok in Hok.
    specialize (IH _ t Hok Hck Hev' Ht1).
    assert (0 <= slack) by discriminate. lra.
Qed.

(** C33: the limiter bounds what a client can send upstream.  From any state
    of the default limiter, and whatever the other clients and the periodic
    clean-up do in between, the number of queries of one client that are let
    through between two times is at most the burst of 150 plus 100 for each
    second, up to the rounding of the [f64] arithmetic, which is below 2^-35
    of a query per event. *)
Theorem rate_bound events rl ip t0 t1 :
  limiter_ok t0 rl → clock_from t0 events → (∀ e, e ∈ events → (e.1 ≤ t1)%Z) → (t0 ≤ t1)%Z →
  inject_Z (granted ip (limiter_run events rl).2)
  <= 150 + 100 * secs (t1 - t0) + inject_Z (Z.of_nat (length events)) * slack.
Proof.
  intros Hok Hck Hev Hle. pose proof (limiter_run_credit events rl ip t0 t1 Hok Hck Hev Hle) as H.
  assert (credit rl ip t0 <= BURST) as Hb.
  { unfold credit. destruct (rl_clients rl !! ip); [apply Q.le_min_l | apply Qle_refl]. }
  unfold BURST, RATE in *. lra.
Qed.

(** ** Dropping idle buckets cannot be observed *)

#[local] Instance rnd_proper : Proper (Qeq ==> Qeq) rnd.
Proof.
  intros x y E. apply Qle_antisym; apply rnd_mono; rewrite E; apply Qle_refl.
Qed.
#[local] Instance f64_min_proper : Proper (Qeq ==> Qeq ==> Qeq) f64_min.
Proof.
  intros x x' E y y' E'. unfold f64_min. rewrite (Qleb_comp _ _ E _ _ E').
  by destruct (Qle_bool x' y').
Qed.

Lemma refilled_proper k k' d : k == k' → refilled k d == refilled k' d.
Proof. intros E. unfold refilled, f64_add. by rewrite E. Qed.

(** A fresh bucket is full. *)
Lemma refilled_fresh : refilled BURST 0 == BURST.
Proof.
  destruct (refilled_bounds BURST 0 ltac:(discriminate) ltac:(done)) as [_ H].
  apply Qle_antisym; [done |]. unfold refilled.
  destruct (f64_min_spec (f64_add BURST (f64_mul (as_secs_f64 0) RATE)) BURST) as (_ & _ & [E | E]);
    rewrite E; [|apply Qle_refl].
  unfold f64_add. apply (rnd_ge_int 150); [done |]. change (inject_Z 150) with BURST.
  assert (0 <= f64_mul (as_secs_f64 0) RATE); [|lra].
  apply rnd_nonneg. pose proof (as_secs_f64_nonneg 0 ltac:(done)). unfold RATE. lra.
Qed.

(** A limiter that drops idle buckets, and one that does not. *)
Definition same_bucket (now : Instant) (b b' : option ClientBucket) : Prop :=
  match b, b' with
  | Some b, Some b' => tokens b == tokens b' ∧ last_update b = last_update b'
  | None, None => True
  | None, Some b' => (IDLE_CLIENT_TIMEOUT < now - last_update b')%Z
  | Some _, None => False
  end.
Definition same_limiter (now : Instant) (rl rl' : DnsRateLimiter) : Prop :=
  limiter_ok now rl ∧ limiter_ok now rl' ∧
  ∀ ip, same_bucket now (rl_clients rl !! ip) (rl_clients rl' !! ip).

Lemma same_limiter_later now now' rl rl' :
  same_limiter now rl rl' → (now ≤ now')%Z → same_limiter now' rl rl'.
Proof.
  intros (H1 & H2 & H3) Hle. split_and!; [by eapply limiter_ok_later.. |].
  intros ip. specialize (H3 ip). unfold same_bucket in *.
  destruct (rl_clients rl !! ip), (rl_clients rl' !! ip); try done. lia.
Qed.

Lemma check_same now ip rl rl' :
  same_limiter now rl rl' →
  (DnsRateLimiter.check now ip rl).1 = (DnsRateLimiter.check now ip rl').1 ∧
  same_limiter now (DnsRateLimiter.check now ip rl).2 (DnsRateLimiter.check now ip rl').2.
Proof.
  intros (H1 & H2 & H3).
  pose proof (check_ok now ip rl H1) as Hk1. pose proof (check_ok now ip rl' H2) as Hk2.
  pose proof H1 as (HR & HB & Hb). pose proof H2 as (HR' & HB' & Hb').
  unfold same_limiter. rewrite !check_eq in * by done. cbv zeta in *. cbn [fst snd] in *.
  set (b := default _ (rl_clients rl !! ip)) in *.
  set (b' := default _ (rl_clients rl' !! ip)) in *.
  set (t := refilled (tokens b) _) in *. set (t' := refilled (tokens b') _) in *.
  assert (t == t') as Et.
  { unfold t, t', b, b'. specialize (H3 ip). specialize (Hb' ip). unfold same_bucket in H3.
    destruct (rl_clients rl !! ip) as [c|], (rl_clients rl' !! ip) as [c'|]; simpl; try done.
    - destruct H3 as [E ->]. by apply refilled_proper.
    - destruct (Hb' c' eq_refl) as (H0 & _ & _).
      rewrite (refilled_full (tokens c')) by (done || (unfold duration_since; lia)).
      replace (duration_since now now) with 0%Z by (unfold duration_since; lia).
      apply refilled_fresh. }
  assert (Qle_bool 1 t = Qle_bool 1 t') as Eb by (by apply Qleb_comp).
  split; [done |]. split_and!; [done.. |]. intros ip'. cbn [rl_clients].
  destruct (decide (ip = ip')) as [-> | Hne].
  - rewrite !lookup_insert_eq. cbn [same_bucket tokens last_update]. split; [|done].
    rewrite Eb. destruct (Qle_bool 1 t'); [|done]. unfold f64_sub. by rewrite Et.
  - rewrite !lookup_insert_ne by done. apply H3.
Qed.

Lemma retain_same now rl rl' :
  same_limiter now rl rl' → same_limiter now (DnsRateLimiter.retain_recent now rl) rl'.
Proof.
  intros (H1 & H2 & H3). split_and!; [by apply retain_ok | done |]. intros ip.
  specialize (H3 ip). cbn [rl_clients DnsRateLimiter.retain_recent].
  destruct (retain _ _ !! ip) as [b|] eqn:E.
  { by apply retain_lookup in E as [E _]; rewrite E in H3. }
  destruct (rl_clients rl !! ip) as [b|] eqn:E'; [|done]. simpl in H3.
  destruct (rl_clients rl' !! ip) as [b'|] eqn:Eb'; [|done]. destruct H3 as [_ Hl]. simpl.
  destruct H2 as (_ & _ & Hb'). destruct (Hb' ip b' Eb') as (_ & _ & Hle).
  destruct (bool_decide_reflect (duration_since now (last_update b) ≤ IDLE_CLIENT_TIMEOUT)%Z)
    as [Hr | Hr]; [|unfold duration_since in Hr; lia].
  assert (retain (λ _ b, bool_decide (duration_since now (last_update b) ≤ IDLE_CLIENT_TIMEOUT)%Z)
    (rl_clients rl) !! ip = Some b) as Hk
    by (apply retain_lookup; split; [done | by apply bool_decide_eq_true]). congruence.
Qed.

Definition is_check (e : Instant * LimiterEvent) : bool :=
  match e.2 with LCheck _ => true | LRetain => false end.

Lemma limiter_run_same events now rl rl' :
  same_limiter now rl rl' → clock_from now events →
  (limiter_run events rl).2 = (limiter_run (filter (λ e, is_check e = true) events) rl').2.
Proof.
  revert now rl rl'. induction events as [|[t e] events IH]; intros now rl rl' Hs; [done |].
  intros [Ht Hck]. apply (same_limiter_later _ t) in Hs; [|done].
  rewrite filter_cons. destruct e as [ip |]; cbn [is_check snd].
  - rewrite decide_True by done. cbn [limiter_run].
    destruct (check_same t ip rl rl' Hs) as [Hr Hs'].
    destruct (DnsRateLimiter.check t ip rl) as [r s1], (DnsRateLimiter.check t ip rl') as [r' s1'].
    cbn [fst snd] in *. subst r'. specialize (IH t s1 s1' Hs' Hck).
    destruct (limiter_run events s1), (limiter_run (filter _ events) s1'). simpl in *. by f_equal.
  - rewrite decide_False by done. cbn [limiter_run].
    apply (IH t); [by apply retain_same | done].
Qed.

(** The clean-up of idle clients cannot be observed: in any run, the
    limiter that drops the buckets that were not used for ten seconds gives
    exactly the answers of one that never drops a bucket, because by then the
    bucket would be full again. *)
Theorem retain_is_transparent events now rl :
  limiter_ok now rl → clock_from now events →
  (limiter_run events rl).2 = (limiter_run (filter (λ e, is_check e = true) events) rl).2.
Proof.
  intros Hok Hck. apply (limiter_run_same events now); [|done]. split_and!; [done.. |].
  intros ip. destruct (rl_clients rl !! ip); simpl; done.
Qed.

Lemma default_ok now : limiter_ok now DnsRateLimiter.default.
Proof. split_and!; [reflexivity.. |]. intros ip b. simpl. by rewrite lookup_empty. Qed.
End spec.

(** ** A client that floods *)

Module LimiterExample.
#[local] Existing Instance exact_binary64.

Definition client : Ipv4Addr := ipv4 192 168 1 20.
(** 200 queries at once, one clean-up after 20 seconds, and 200 more. *)
Definition flood : list (Instant * LimiterEvent) :=
  replicate 200 (0%Z, LCheck client) ++ [(from_secs 20, LRetain)]
  ++ replicate 200 (from_secs 20, LCheck client).
Lemma flood_clock : clock_from 0 flood.
Proof. vm_compute. repeat split; congruence. Qed.

Lemma rate_bound_witness :
  granted client (limiter_run flood DnsRateLimiter.default).2 = 300%Z ∧
  inject_Z (granted client (limiter_run flood DnsRateLimiter.default).2)
  <= 150 + 100 * secs (from_secs 20 - 0) + inject_Z (Z.of_nat (length flood)) * slack.
Proof.
  split; [vm_compute; reflexivity |].
  refine (rate_bound flood DnsRateLimiter.default client 0 (from_secs 20) _ _ _ _).
  - apply default_ok.
  - exact flood_clock.
  - intros e [[-> _]%elem_of_replicate | [->%list_elem_of_singleton | [-> _]%elem_of_replicate]%elem_of_app]%elem_of_app;
      vm_compute; congruence.
  - vm_compute. congruence.
Defined.

Lemma retain_is_transparent_witness :
  (limiter_run flood DnsRateLimiter.default).2
  = (limiter_run (filter (λ e, is_check e = true) flood) DnsRateLimiter.default).2.
Proof.
  refine (retain_is_transparent flood 0 DnsRateLimiter.default _ _).
  - apply default_ok.
  - exact flood_clock.
Defined.
End LimiterExample.
