(* ===== verification/Dns.v ===== *)
(** * DNS messages

    The part of the [hickory-proto] crate that the DNS forwarder uses: the
    fields of a message that it reads and sets, as data, and the operations of
    the crate as an interface.  The wire format itself ([Message::from_bytes],
    [Message::emit]) and the text forms of names are the crate's. *)

From Stdlib Require Import ZArith Lia.
From stdpp Require Import base list.
From S2P Require Import Prelude NetAddr.

#[local] Open Scope Z_scope.

Inductive OpCode := OpQuery | OpOther (code : Z).
Inductive DnsMessageType := MtQuery | MtResponse.
Inductive ResponseCode :=
| RcNoError | RcServFail | RcNXDomain | RcRefused | RcOther (code : Z).
Inductive RecordType := RtA | RtPTR | RtOther (code : Z).

#[global] Instance OpCode_eq_dec : EqDecision OpCode.
Proof. solve_decision. Defined.
#[global] Instance DnsMessageType_eq_dec : EqDecision DnsMessageType.
Proof. solve_decision. Defined.
#[global] Instance ResponseCode_eq_dec : EqDecision ResponseCode.
Proof. solve_decision. Defined.
#[global] Instance RecordType_eq_dec : EqDecision RecordType.
Proof. solve_decision. Defined.

Section messages.
Context (Name : Type).

Inductive RData := RdA (ip : Ipv4Addr) | RdPTR (target : Name) | RdSOA (minimum : Z) | RdOther.

Record DnsRecord := mkDnsRecord {
  rr_name : Name;
  rr_ttl : Z;
  rr_data : RData;
}.
Record DnsQuery := mkDnsQuery {
  q_name : Name;
  q_type : RecordType;
  q_class : Z;
}.
Record DnsMessage := mkDnsMessage {
  dm_id : Z;
  dm_message_type : DnsMessageType;
  dm_op_code : OpCode;
  dm_authoritative : bool;
  dm_truncation : bool;
  dm_recursion_desired : bool;
  dm_recursion_available : bool;
  dm_response_code : ResponseCode;
  dm_queries : list DnsQuery;
  dm_answers : list DnsRecord;
  dm_authorities : list DnsRecord;
  (** the payload size of the EDNS record, if there is one *)
  dm_edns : option Z;
}.
End messages.
Arguments RdA {Name} ip.
Arguments RdPTR {Name} target.
Arguments RdSOA {Name} minimum.
Arguments RdOther {Name}.
Arguments mkDnsRecord {Name} rr_name rr_ttl rr_data.
Arguments rr_name {Name} d.
Arguments rr_ttl {Name} d.
Arguments rr_data {Name} d.
Arguments mkDnsQuery {Name} q_name q_type q_class.
Arguments q_name {Name} d.
Arguments q_type {Name} d.
Arguments q_class {Name} d.
Arguments mkDnsMessage {Name}.
Arguments dm_id {Name} d.
Arguments dm_message_type {Name} d.
Arguments dm_op_code {Name} d.
Arguments dm_authoritative {Name} d.
Arguments dm_truncation {Name} d.
Arguments dm_recursion_desired {Name} d.
Arguments dm_recursion_available {Name} d.
Arguments dm_response_code {Name} d.
Arguments dm_queries {Name} d.
Arguments dm_answers {Name} d.
Arguments dm_authorities {Name} d.
Arguments dm_edns {Name} d.

(** What [parse_arpa_name] returns. *)
Inductive ArpaNet := ArpaV4 (addr : Ipv4Addr) (prefix_len : Z) | ArpaV6.

(** The operations of the crate. *)
Class Hickory (Name : Type) := {
  (** [Message::from_bytes] *)
  from_bytes : list Z → option (DnsMessage Name);
  (** [Message::emit] into an empty buffer: whether it succeeded, and the
      buffer. *)
  emit : DnsMessage Name → bool * list Z;
  (** [Message::truncate] *)
  truncate_msg : DnsMessage Name → DnsMessage Name;
  (** [Name::to_ascii], [Name::to_utf8], [Name::from_ascii] and
      [Name::parse_arpa_name] *)
  name_to_ascii : Name → str;
  name_to_utf8 : Name → str;
  name_from_ascii : str → option Name;
  parse_arpa_name : Name → option ArpaNet;
  (** [Debug] of a record type and of a class *)
  record_type_debug : RecordType → str;
  dns_class_debug : Z → str;
}.

(** What the forwarder relies on: a message that is parsed, truncated and
    written again keeps its id, in its first two bytes. *)
Class HickoryLaws (Name : Type) `{!Hickory Name} : Prop := {
  truncate_keeps_id bytes msg out :
    from_bytes bytes = Some msg → emit (truncate_msg msg) = (true, out) →
    take 2 out = take 2 bytes;
}.
