(* ===== verification/DnsForwarder.v ===== *)
(** * The DNS forwarder

    The worker of [src/src/services/dns_forwarder/worker.rs]: its cache, the
    queries in flight, the table of local hosts, and its event loop.  Each arm
    of the loop's [select!] is an event ([FwEvent]) and [fw_event] is its
    handler; code that indexes or calls [expect] is in the [Outcome] monad, so
    that the absence of panics is a theorem. *)

From Stdlib Require Import ZArith Lia.
From stdpp Require Import base gmap list strings.
From S2P Require Import Prelude NetAddr Hostname Packet RateLimiter Dns.

#[local] Open Scope Z_scope.

Definition DNS_HEADER_SIZE : Z := 12.
Definition RFC1035_MAX_UDP_PAYLOAD : Z := 512.
Definition MAX_EDNS_PAYLOAD_SIZE : Z := 4096.
Definition DEFAULT_TTL_SECS : Z := 30.
Definition MAX_TTL_SECS : Z := 3600.
Definition DEFAULT_NEGATIVE_TTL_SECS : Z := 60.
Definition MIN_NEGATIVE_TTL_SECS : Z := 5.
Definition MAX_NEGATIVE_TTL_SECS : Z := 300.
Definition UPSTREAM_TIMEOUT : Duration := from_secs 3.
Definition FALLBACK_DNS_SERVER : Ipv4Addr := ipv4 8 8 8 8.
Definition MAX_PENDING_QUERIES : Z := 4096.
Definition MAX_CACHE_ENTRIES : Z := 4096.
Definition TCP_MAX_MESSAGE_SIZE : Z := 65535.
Definition MAX_JOINED_CLIENTS_PER_QUERY : Z := 64.
Definition DNS_PORT : Z := 53.

(** ** Data *)

(** [std::net::IpAddr] and [SocketAddr]; an IPv6 address is a number. *)
Inductive IpAddr := V4 (ip : Ipv4Addr) | V6 (ip : Z).
#[global] Instance IpAddr_eq_dec : EqDecision IpAddr.
Proof. solve_decision. Defined.
Record SocketAddr := mkSocketAddr { sa_ip : IpAddr; sa_port : Z }.
#[global] Instance SocketAddr_eq_dec : EqDecision SocketAddr.
Proof. solve_decision. Defined.

Record CacheEntry := mkCacheEntry {
  ce_response : list Z;
  ce_expiry : Instant;
}.
(** The channel to the connection of a TCP client is a number. *)
Inductive ClientOrigin :=
| OUdp (src : SocketAddr)
| OTcp (peer_addr : SocketAddr) (reply_tx : Z).
Record PendingClient := mkPendingClient {
  pc_origin : ClientOrigin;
  pc_client_xid : Z;
  pc_client_max_payload : Z;
}.
Record PendingQuery := mkPendingQuery {
  pq_clients : list PendingClient;
  pq_cache_key : str;
  pq_query_payload : list Z;
  pq_upstream_servers : list Ipv4Addr;
  pq_current_server_idx : nat;
  pq_deadline : Instant;
}.
Record DnsStatsInfo := mkDnsStatsInfo {
  queries_total : Z;
  cache_hits_total : Z;
  cached_entries_count : Z;
  rate_limited_drops_total : Z;
}.
Inductive DnsParentToWorkerMsg :=
| SetUpstreamResolvers (servers : list Ipv4Addr)
| DnsRegisterLocalHost (name : str) (ip : Ipv4Addr)
| DnsDeregisterLocalHost (name : str).
Inductive UpstreamTcpEvent :=
| TcpResolved (cache_key : str) (reply : list Z) (clients : list PendingClient)
| TcpFailed (fallback_reply : list Z) (clients : list PendingClient).
(** A task spawned by [spawn_upstream_tcp_fallback]. *)
Record TcpFallback := mkTcpFallback {
  tf_target : Ipv4Addr;
  tf_query_payload : list Z;
  tf_upstream_xid : Z;
  tf_cache_key : str;
  tf_clients : list PendingClient;
  tf_fallback_reply : list Z;
}.

(** What the forwarder sends. *)
Inductive FwOut :=
| ToUdpClient (dest : SocketAddr) (bytes : list Z)
| ToTcpClient (reply_tx : Z) (bytes : list Z)
| ToUpstream (server : Ipv4Addr) (bytes : list Z)
| ToParentHeartbeat (stats : DnsStatsInfo).

Definition peer_addr (o : ClientOrigin) : SocketAddr :=
  match o with OUdp addr => addr | OTcp peer _ => peer end.

(** The rate limiter as the forwarder sees it. *)
Class Limiter := {
  limiter : Type;
  limiter_default : limiter;
  limiter_check : Instant → Ipv4Addr → limiter → bool * limiter;
  limiter_retain_recent : Instant → limiter → limiter;
}.
#[global] Instance dns_rate_limiter {B64 : Binary64} : Limiter := {|
  limiter := DnsRateLimiter;
  limiter_default := DnsRateLimiter.default;
  limiter_check := DnsRateLimiter.check;
  limiter_retain_recent := DnsRateLimiter.retain_recent;
|}.

(** ** TCP framing *)

(** [read_tcp_dns_query]: the next message of a byte stream, and the rest. *)
Definition read_tcp_dns_query (stream : list Z) : option (list Z * list Z) :=
  match stream with
  | b0 :: b1 :: rest =>
      let query_len := u16_from_be_bytes b0 b1 in
      if negb (bool_decide (DNS_HEADER_SIZE ≤ query_len ≤ TCP_MAX_MESSAGE_SIZE)) then None else
      let n := Z.to_nat query_len in
      if bool_decide (length rest < n)%nat then None else Some (take n rest, drop n rest)
  | _ => None
  end.

(** [write_tcp_dns_reply]: the bytes that are written. *)
Definition write_tcp_dns_reply (reply : list Z) : option (list Z) :=
  if bool_decide (TCP_MAX_MESSAGE_SIZE < blen reply) then None else
  let '(hi, lo) := u16_to_be_bytes (as_u16 (blen reply)) in Some (hi :: lo :: reply).

(** [handle_tcp_client_connection], on the bytes a client sends.  For every query
    the event loop takes it or not, answers it or drops it, and the answer can
    be written or not; the task waits for each in turn.  The result is the
    queries that were handed over and the bytes that were written. *)
Record TcpTurn := mkTcpTurn { tt_taken : bool; tt_reply : option (list Z); tt_written : bool }.
Fixpoint handle_tcp_client_connection (stream : list Z) (turns : list TcpTurn) : list (list Z) * list Z :=
  match turns with
  | [] => ([], [])
  | t :: turns =>
      match read_tcp_dns_query stream with
      | None => ([], [])
      | Some (query, stream) =>
          if negb (tt_taken t) then ([], []) else
          match tt_reply t with
          | None => ([query], [])
          | Some reply =>
              match write_tcp_dns_reply reply with
              | Some bytes =>
                  if tt_written t then
                    let '(queries, out) := handle_tcp_client_connection stream turns in
                    (query :: queries, bytes ++ out)
                  else ([query], [])
              | None => ([query], [])
              end
          end
      end
  end.

(** ** Transaction ids *)

(** [bytes[0..2].copy_from_slice(&xid.to_be_bytes())], written as two
    assignments. *)
Definition set_xid (bytes : list Z) (xid : Z) : Outcome (list Z) :=
  let '(hi, lo) := u16_to_be_bytes xid in
  let! b := index_set bytes 0 hi in
  index_set b 1 lo.
Definition get_xid (bytes : list Z) : Outcome Z :=
  let! b0 := index bytes 0 in
  let! b1 := index bytes 1 in
  Returned (u16_from_be_bytes b0 b1).

(** The loop of [allocate_unique_xid], on the random numbers it draws. *)
Fixpoint draw_xid (pending : gmap Z PendingQuery) (draws : list Z) : option Z :=
  match draws with
  | [] => None
  | x :: draws' =>
      if bool_decide (x = 0) || bool_decide (is_Some (pending !! x))
      then draw_xid pending draws' else Some x
  end.
(** [None] when there is no room; or when the loop is still drawing, and
    nothing has happened yet. *)
Definition allocate_unique_xid (pending : gmap Z PendingQuery) (draws : list Z) : option Z :=
  if bool_decide (MAX_PENDING_QUERIES ≤ Z.of_nat (size pending)) then None
  else draw_xid pending draws.

Definition get_upstream_resolvers (configured : list Ipv4Addr) : list Ipv4Addr :=
  let valid := filter (λ ip, is_valid_upstream_resolver ip = true) configured in
  match valid with
  | [] => [FALLBACK_DNS_SERVER]
  | _ => valid
  end.

(** ** Local names *)

Definition extract_local_forward_name (name : str) : option (str * bool) :=
  let lower := to_ascii_lowercase (trim_end_matches 46 name) in
  if bool_decide (lower = LOCAL_DOMAIN) || bool_decide (lower = []) then None else
  match strip_suffix (46 :: LOCAL_DOMAIN) lower with
  | Some prefix => if negb (contains_char 46 prefix) then Some (prefix, true) else None
  | None => if negb (contains_char 46 lower) then Some (lower, false) else None
  end.

Definition is_mdns_local_domain (name : str) : bool :=
  let lower := to_ascii_lowercase (trim_end_matches 46 name) in
  bool_decide (lower = MDNS_DOMAIN)
  || bool_decide (is_Some (strip_suffix (46 :: MDNS_DOMAIN) lower)).

Section forwarder.
Context {Name : Type} {HK : Hickory Name} {HO : HashOrder} {LM : Limiter}.
Abbreviation Msg := (DnsMessage Name) (only parsing).

(** ** Replies of the forwarder's own *)

Definition build_authoritative_response (query_msg : Msg) (rcode : ResponseCode)
    (answer : option (DnsRecord Name)) : list Z :=
  (emit (mkDnsMessage (dm_id query_msg) MtResponse OpQuery true false
           (dm_recursion_desired query_msg) true rcode (dm_queries query_msg)
           match answer with Some rec => [rec] | None => [] end [] None)).2.
Definition build_authoritative_nodata_response (query_msg : Msg) : list Z :=
  build_authoritative_response query_msg RcNoError None.
Definition build_authoritative_a_response (query_msg : Msg) (qname : Name) (ip : Ipv4Addr) :
    list Z :=
  build_authoritative_response query_msg RcNoError
    (Some (mkDnsRecord qname DEFAULT_TTL_SECS (RdA ip))).
Definition build_authoritative_ptr_response (query_msg : Msg) (qname target_name : Name) :
    list Z :=
  build_authoritative_response query_msg RcNoError
    (Some (mkDnsRecord qname DEFAULT_TTL_SECS (RdPTR target_name))).
Definition build_authoritative_nxdomain_response (query_msg : Msg) : list Z :=
  build_authoritative_response query_msg RcNXDomain None.

(** [try_resolve_local_query], on the parsed query, ... *)
Definition resolve_local (query_msg : Msg) (local_hosts : gmap str Ipv4Addr)
    (local_ips : gmap Ipv4Addr str) : option (list Z) :=
  if bool_decide (dm_op_code query_msg ≠ OpQuery) then None else
  match dm_queries query_msg with
  | [] => None
  | question :: _ =>
      let qname := q_name question in
      let qname_str := name_to_utf8 qname in
      let qtype := q_type question in
      let rest :=
        if bool_decide (qtype = RtPTR) then
          match parse_arpa_name qname with
          | Some (ArpaV4 addr prefix_len) =>
              if bool_decide (prefix_len = 32) then
                hostname ← local_ips !! addr;
                target_name ← name_from_ascii (hostname ++ lit "." ++ LOCAL_DOMAIN ++ lit ".");
                Some (build_authoritative_ptr_response query_msg qname target_name)
              else None
          | _ => None
          end
        else if is_mdns_local_domain qname_str
        then Some (build_authoritative_nxdomain_response query_msg)
        else None in
      match extract_local_forward_name qname_str with
      | Some (label, is_lan_qualified) =>
          match local_hosts !! label with
          | Some ip =>
              if bool_decide (qtype = RtA)
              then Some (build_authoritative_a_response query_msg qname ip)
              else Some (build_authoritative_nodata_response query_msg)
          | None =>
              if is_lan_qualified : bool
              then Some (build_authoritative_nxdomain_response query_msg)
              else rest
          end
      | None => rest
      end
  end.
(** ... and on its bytes. *)
Definition try_resolve_local_query (query_bytes : list Z) (local_hosts : gmap str Ipv4Addr)
    (local_ips : gmap Ipv4Addr str) : option (list Z) :=
  query_msg ← from_bytes query_bytes;
  resolve_local query_msg local_hosts local_ips.

(** ** Sizes *)

Definition extract_client_max_payload (query_bytes : list Z) : Z :=
  match from_bytes query_bytes with
  | Some msg =>
      match dm_edns msg with
      | Some max_payload => clamp RFC1035_MAX_UDP_PAYLOAD MAX_EDNS_PAYLOAD_SIZE max_payload
      | None => RFC1035_MAX_UDP_PAYLOAD
      end
  | None => RFC1035_MAX_UDP_PAYLOAD
  end.

(** The header alone, with the TC flag. *)
Definition truncated_header (response : list Z) : list Z :=
  if bool_decide (DNS_HEADER_SIZE ≤ blen response)
  then take (Z.to_nat DNS_HEADER_SIZE) (alter (λ b, Z.lor b 2) 2%nat response)
  else response.

Definition prepare_client_response (response : list Z) (max_payload : Z) : list Z :=
  if bool_decide (blen response ≤ max_payload) then response else
  match from_bytes response with
  | Some msg =>
      let '(ok, buf) := emit (truncate_msg msg) in
      if ok && bool_decide (blen buf ≤ max_payload) then buf else truncated_header response
  | None => truncated_header response
  end.

Definition send_reply (origin : ClientOrigin) (response : list Z) (max_payload : option Z) :
    FwOut :=
  match origin with
  | OUdp src =>
      ToUdpClient src match max_payload with
                      | Some cap => prepare_client_response response cap
                      | None => response
                      end
  | OTcp _ reply_tx => ToTcpClient reply_tx response
  end.

Fixpoint fanout_client_replies (clients : list PendingClient) (reply : list Z) :
    Outcome (list FwOut) :=
  match clients with
  | [] => Returned []
  | client :: clients' =>
      let! client_response := set_xid reply (pc_client_xid client) in
      let! rest := fanout_client_replies clients' reply in
      Returned (send_reply (pc_origin client) client_response
                  (Some (pc_client_max_payload client)) :: rest)
  end.

(** ** The cache *)

(** The key is kept as a string. *)
Definition get_cache_key (query_bytes : list Z) : option str :=
  packet ← from_bytes query_bytes;
  match dm_queries packet with
  | [] => None
  | q :: _ =>
      if bool_decide (dm_op_code packet ≠ OpQuery) then None
      else Some (to_ascii_lowercase (name_to_ascii (q_name q)) ++ lit ":"
                 ++ record_type_debug (q_type q) ++ lit ":" ++ dns_class_debug (q_class q))
  end.

Definition evict_expired_cache (now : Instant) (cache : gmap str CacheEntry) :
    gmap str CacheEntry :=
  retain (λ _ e, bool_decide (now < ce_expiry e)) cache.

Definition lookup_cache (now : Instant) (cache_key : str) (cache : gmap str CacheEntry) :
    option (list Z) * gmap str CacheEntry :=
  match cache !! cache_key with
  | Some entry =>
      if bool_decide (now < ce_expiry entry) then (Some (ce_response entry), cache)
      else (None, delete cache_key cache)
  | None => (None, cache)
  end.

(** [calculate_negative_ttl]: the first SOA record among the authorities. *)
Fixpoint negative_ttl_of (authorities : list (DnsRecord Name)) : Duration :=
  match authorities with
  | [] => from_secs DEFAULT_NEGATIVE_TTL_SECS
  | record :: rest =>
      match rr_data record with
      | RdSOA minimum =>
          from_secs (clamp MIN_NEGATIVE_TTL_SECS MAX_NEGATIVE_TTL_SECS
                       (Z.min (rr_ttl record) minimum))
      | _ => negative_ttl_of rest
      end
  end.
Definition calculate_negative_ttl (packet : Msg) : Duration :=
  negative_ttl_of (dm_authorities packet).

Definition calculate_cache_ttl (packet : Msg) : option Duration :=
  if dm_truncation packet || bool_decide (dm_message_type packet ≠ MtResponse) then None else
  match dm_response_code packet with
  | RcNoError =>
      match rr_ttl <$> dm_answers packet with
      | [] => Some (calculate_negative_ttl packet)
      | t :: ts =>
          let raw_ttl := foldl Z.min t ts in
          if bool_decide (raw_ttl = 0) then None
          else Some (from_secs (Z.min MAX_TTL_SECS raw_ttl))
      end
  | RcNXDomain => Some (calculate_negative_ttl packet)
  | _ => None
  end.

(** [iter().min_by_key(...)]: the first of the least entries. *)
Definition earlier (acc : option (str * CacheEntry)) (x : str * CacheEntry) :
    option (str * CacheEntry) :=
  match acc with
  | None => Some x
  | Some y => if bool_decide (ce_expiry x.2 < ce_expiry y.2) then Some x else Some y
  end.
Definition min_by_expiry (l : list (str * CacheEntry)) : option (str * CacheEntry) :=
  foldl earlier None l.

Definition cache_len (cache : gmap str CacheEntry) : Z := Z.of_nat (size cache).

(** The room that is made for a new key. *)
Definition make_room (now : Instant) (cache_key : str) (cache : gmap str CacheEntry) :
    gmap str CacheEntry :=
  if bool_decide (MAX_CACHE_ENTRIES ≤ cache_len cache)
     && negb (bool_decide (is_Some (cache !! cache_key)))
  then
    let cache' := evict_expired_cache now cache in
    if bool_decide (MAX_CACHE_ENTRIES ≤ cache_len cache') then
      match min_by_expiry (hash_iter cache') with
      | Some (oldest_key, _) => delete oldest_key cache'
      | None => cache'
      end
    else cache'
  else cache.

Definition insert_cache (now : Instant) (cache_key : str) (response : list Z)
    (cache : gmap str CacheEntry) : gmap str CacheEntry :=
  if bool_decide (blen response < DNS_HEADER_SIZE) then cache else
  match from_bytes response ≫= calculate_cache_ttl with
  | None => cache
  | Some ttl_duration =>
      <[cache_key := mkCacheEntry response (now + ttl_duration)]> (make_room now cache_key cache)
  end.

(** ** The worker's state *)

Record Forwarder := mkForwarder {
  fw_cache : gmap str CacheEntry;
  fw_pending : gmap Z PendingQuery;
  fw_upstream_servers : list Ipv4Addr;
  fw_local_hosts : gmap str Ipv4Addr;
  fw_local_ips : gmap Ipv4Addr str;
  fw_limiter : limiter;
  fw_stats : DnsStatsInfo;
  (** the tasks spawned for truncated replies *)
  fw_fallbacks : list TcpFallback;
}.
Definition Forwarder_new : Forwarder :=
  mkForwarder ∅ ∅ [] ∅ ∅ limiter_default (mkDnsStatsInfo 0 0 0 0) [].

Definition set_cache (c : gmap str CacheEntry) (s : Forwarder) : Forwarder :=
  mkForwarder c (fw_pending s) (fw_upstream_servers s) (fw_local_hosts s) (fw_local_ips s)
    (fw_limiter s) (fw_stats s) (fw_fallbacks s).
Definition set_pending (p : gmap Z PendingQuery) (s : Forwarder) : Forwarder :=
  mkForwarder (fw_cache s) p (fw_upstream_servers s) (fw_local_hosts s) (fw_local_ips s)
    (fw_limiter s) (fw_stats s) (fw_fallbacks s).
Definition set_limiter (l : limiter) (s : Forwarder) : Forwarder :=
  mkForwarder (fw_cache s) (fw_pending s) (fw_upstream_servers s) (fw_local_hosts s)
    (fw_local_ips s) l (fw_stats s) (fw_fallbacks s).
Definition set_stats (st : DnsStatsInfo) (s : Forwarder) : Forwarder :=
  mkForwarder (fw_cache s) (fw_pending s) (fw_upstream_servers s) (fw_local_hosts s)
    (fw_local_ips s) (fw_limiter s) st (fw_fallbacks s).
Definition set_fallbacks (l : list TcpFallback) (s : Forwarder) : Forwarder :=
  mkForwarder (fw_cache s) (fw_pending s) (fw_upstream_servers s) (fw_local_hosts s)
    (fw_local_ips s) (fw_limiter s) (fw_stats s) l.

Definition count_query (st : DnsStatsInfo) : DnsStatsInfo :=
  mkDnsStatsInfo (u64_saturating_add (queries_total st) 1) (cache_hits_total st)
    (cached_entries_count st) (rate_limited_drops_total st).
Definition count_hit (st : DnsStatsInfo) : DnsStatsInfo :=
  mkDnsStatsInfo (queries_total st) (u64_saturating_add (cache_hits_total st) 1)
    (cached_entries_count st) (rate_limited_drops_total st).
Definition count_drop (st : DnsStatsInfo) : DnsStatsInfo :=
  mkDnsStatsInfo (queries_total st) (cache_hits_total st)
    (cached_entries_count st) (u64_saturating_add (rate_limited_drops_total st) 1).
Definition set_cached_count (n : Z) (st : DnsStatsInfo) : DnsStatsInfo :=
  mkDnsStatsInfo (queries_total st) (cache_hits_total st) n (rate_limited_drops_total st).

(** ** Queries of clients *)

Definition new_client (query : list Z) (origin : ClientOrigin) : Outcome PendingClient :=
  let! client_xid := get_xid query in
  Returned (mkPendingClient origin client_xid (extract_client_max_payload query)).

(** [try_join_in_flight_query]: the pending queries with the client added to
    the one it joins; [None] when it joins none. *)
Definition try_join_in_flight_query (pending : gmap Z PendingQuery) (cache_key : str)
    (query : list Z) (origin : ClientOrigin) : Outcome (option (gmap Z PendingQuery)) :=
  match iter_find (λ kv, bool_decide (pq_cache_key kv.2 = cache_key)) (hash_iter pending) with
  | None => Returned None
  | Some (xid, existing) =>
      if bool_decide (MAX_JOINED_CLIENTS_PER_QUERY ≤ Z.of_nat (length (pq_clients existing)))
      then Returned None
      else
        let! client := new_client query origin in
        Returned (Some (<[xid := mkPendingQuery (pq_clients existing ++ [client])
                                   (pq_cache_key existing) (pq_query_payload existing)
                                   (pq_upstream_servers existing)
                                   (pq_current_server_idx existing) (pq_deadline existing)]>
                          pending))
  end.

(** The random numbers drawn, and whether the datagram could be sent. *)
Record FwEnv := mkFwEnv {
  fe_draws : list Z;
  fe_send_ok : bool;
}.

Definition forward_new_client_query (now : Instant) (env : FwEnv) (query : list Z)
    (client_origin : ClientOrigin) (cache_key : str) (pending : gmap Z PendingQuery)
    (configured_servers : list Ipv4Addr) : Outcome (gmap Z PendingQuery * list FwOut) :=
  if bool_decide (MAX_PENDING_QUERIES ≤ Z.of_nat (size pending)) then Returned (pending, []) else
  match allocate_unique_xid pending (fe_draws env) with
  | None => Returned (pending, [])
  | Some upstream_xid =>
      let! client := new_client query client_origin in
      let upstream_servers := get_upstream_resolvers configured_servers in
      let! target_server := index upstream_servers 0 in
      let! forwarded := set_xid query upstream_xid in
      if fe_send_ok env then
        Returned (<[upstream_xid := mkPendingQuery [client] cache_key query upstream_servers 0
                                      (now + UPSTREAM_TIMEOUT)]> pending,
                  [ToUpstream target_server forwarded])
      else Returned (pending, [])
  end.

(** [handle_incoming_query], after the cache missed. *)
Definition handle_cache_miss (now : Instant) (env : FwEnv) (query : list Z)
    (origin : ClientOrigin) (cache_key : str) (s : Forwarder) :
    Outcome (Forwarder * list FwOut) :=
  match sa_ip (peer_addr origin) with
  | V6 _ => Returned (s, [])
  | V4 client_ip =>
      let '(allowed, l) := limiter_check now client_ip (fw_limiter s) in
      let s := set_limiter l s in
      if negb allowed then Returned (set_stats (count_drop (fw_stats s)) s, []) else
      let! joined := try_join_in_flight_query (fw_pending s) cache_key query origin in
      match joined with
      | Some pending => Returned (set_pending pending s, [])
      | None =>
          let! r := forward_new_client_query now env query origin cache_key (fw_pending s)
                      (fw_upstream_servers s) in
          Returned (set_pending r.1 s, r.2)
      end
  end.

Definition handle_incoming_query (now : Instant) (env : FwEnv) (query : list Z)
    (origin : ClientOrigin) (s : Forwarder) : Outcome (Forwarder * list FwOut) :=
  if bool_decide (blen query < DNS_HEADER_SIZE) then Returned (s, []) else
  let s := set_stats (count_query (fw_stats s)) s in
  match try_resolve_local_query query (fw_local_hosts s) (fw_local_ips s) with
  | Some local_resp => Returned (s, [send_reply origin local_resp None])
  | None =>
      match get_cache_key query with
      | None => Returned (s, [])
      | Some cache_key =>
          let '(hit, cache) := lookup_cache now cache_key (fw_cache s) in
          let s := set_cache cache s in
          match hit with
          | Some response =>
              let s := set_stats (count_hit (fw_stats s)) s in
              let! q0 := index query 0 in
              let! r := index_set response 0 q0 in
              let! q1 := index query 1 in
              let! r := index_set r 1 q1 in
              Returned (s, [send_reply origin r (Some (extract_client_max_payload query))])
          | None => handle_cache_miss now env query origin cache_key s
          end
      end
  end.

(** ** Replies of upstream servers *)

(** [try_failover_upstream_query]; [None] when there is no other server. *)
Definition try_failover_upstream_query (now : Instant) (query : PendingQuery)
    (upstream_xid : Z) : Outcome (option (PendingQuery * FwOut)) :=
  let next := S (pq_current_server_idx query) in
  if bool_decide (length (pq_upstream_servers query) ≤ next)%nat then Returned None else
  let! target_server := index (pq_upstream_servers query) next in
  let! forwarded :=
    if bool_decide (2 ≤ length (pq_query_payload query))%nat
    then set_xid (pq_query_payload query) upstream_xid
    else Returned (pq_query_payload query) in
  Returned (Some (mkPendingQuery (pq_clients query) (pq_cache_key query)
                    (pq_query_payload query) (pq_upstream_servers query) next
                    (now + UPSTREAM_TIMEOUT),
                  ToUpstream target_server forwarded)).

Definition spawn_upstream_tcp_fallback (query_meta : PendingQuery) (upstream_xid : Z)
    (fallback_reply : list Z) : Outcome TcpFallback :=
  let! target := index (pq_upstream_servers query_meta) (pq_current_server_idx query_meta) in
  Returned (mkTcpFallback target (pq_query_payload query_meta) upstream_xid
              (pq_cache_key query_meta) (pq_clients query_meta) fallback_reply).

(** The end of [handle_upstream_reply]: the reply is for the clients. *)
Definition deliver_reply (now : Instant) (upstream_xid : Z) (query_meta : PendingQuery)
    (reply : list Z) (s : Forwarder) : Outcome (Forwarder * list FwOut) :=
  let! out := fanout_client_replies (pq_clients query_meta) reply in
  Returned (set_cache (insert_cache now (pq_cache_key query_meta) reply (fw_cache s))
              (set_pending (delete upstream_xid (fw_pending s)) s), out).

Definition handle_upstream_reply (now : Instant) (reply : list Z) (from_addr : SocketAddr)
    (s : Forwarder) : Outcome (Forwarder * list FwOut) :=
  if bool_decide (blen reply < DNS_HEADER_SIZE) then Returned (s, []) else
  let! upstream_xid := get_xid reply in
  match fw_pending s !! upstream_xid with
  | None => Returned (s, [])
  | Some query_meta =>
      let! expected_ip := index (pq_upstream_servers query_meta)
                            (pq_current_server_idx query_meta) in
      if bool_decide (from_addr ≠ mkSocketAddr (V4 expected_ip) DNS_PORT)
      then Returned (s, []) else
      let! flags := index reply 2 in
      if bool_decide (Z.land flags 2 ≠ 0) then
        let! task := spawn_upstream_tcp_fallback query_meta upstream_xid reply in
        Returned (set_fallbacks (fw_fallbacks s ++ [task])
                    (set_pending (delete upstream_xid (fw_pending s)) s), [])
      else
        match from_bytes reply with
        | None => Returned (s, [])
        | Some msg =>
            if bool_decide (dm_response_code msg = RcServFail)
               || bool_decide (dm_response_code msg = RcRefused)
            then
              let! failover := try_failover_upstream_query now query_meta upstream_xid in
              match failover with
              | Some (query', out) =>
                  Returned (set_pending (<[upstream_xid := query']> (fw_pending s)) s, [out])
              | None => deliver_reply now upstream_xid query_meta reply s
              end
            else deliver_reply now upstream_xid query_meta reply s
        end
  end.

(** ** The TCP fallback *)

(** [fetch_upstream_tcp], on the bytes the server sends, if a connection
    could be made. *)
Definition fetch_upstream_tcp (task : TcpFallback) (stream : option (list Z)) :
    Outcome (option (list Z)) :=
  match stream with
  | None => Returned None
  | Some bytes =>
      let! forwarded :=
        if bool_decide (2 ≤ length (tf_query_payload task))%nat
        then set_xid (tf_query_payload task) (tf_upstream_xid task)
        else Returned (tf_query_payload task) in
      match write_tcp_dns_reply forwarded with
      | None => Returned None
      | Some _ => Returned (fst <$> read_tcp_dns_query bytes)
      end
  end.

(** The event a task ends with. *)
Definition fallback_event (task : TcpFallback) (fetched : option (list Z)) : UpstreamTcpEvent :=
  match fetched with
  | Some reply => TcpResolved (tf_cache_key task) reply (tf_clients task)
  | None => TcpFailed (tf_fallback_reply task) (tf_clients task)
  end.

Definition handle_upstream_tcp_event (now : Instant) (event : UpstreamTcpEvent)
    (s : Forwarder) : Outcome (Forwarder * list FwOut) :=
  match event with
  | TcpResolved cache_key reply clients =>
      let s := set_cache (insert_cache now cache_key reply (fw_cache s)) s in
      let! out := fanout_client_replies clients reply in
      Returned (s, out)
  | TcpFailed fallback_reply clients =>
      let! out := fanout_client_replies clients fallback_reply in
      Returned (s, out)
  end.

(** ** Time-outs *)

Definition timed_out (now : Instant) (query : PendingQuery) : bool :=
  bool_decide (pq_deadline query ≤ now).
Definition has_next_server (query : PendingQuery) : bool :=
  bool_decide (S (pq_current_server_idx query) < length (pq_upstream_servers query))%nat.

(** The second loop of [check_pending_timeouts]. *)
Fixpoint retry_queries (now : Instant) (retry_list : list Z) (pending : gmap Z PendingQuery) :
    Outcome (gmap Z PendingQuery * list FwOut) :=
  match retry_list with
  | [] => Returned (pending, [])
  | xid :: retry_list' =>
      match pending !! xid with
      | None => retry_queries now retry_list' pending
      | Some query =>
          let! failover := try_failover_upstream_query now query xid in
          match failover with
          | None => retry_queries now retry_list' pending
          | Some (query', out) =>
              let! r := retry_queries now retry_list' (<[xid := query']> pending) in
              Returned (r.1, out :: r.2)
          end
      end
  end.

Definition check_pending_timeouts (now : Instant) (pending : gmap Z PendingQuery) :
    Outcome (gmap Z PendingQuery * list FwOut) :=
  let retry_list :=
    (filter (λ kv, timed_out now kv.2 && has_next_server kv.2 = true) (hash_iter pending)).*1 in
  retry_queries now retry_list
    (retain (λ _ q, negb (timed_out now q) || has_next_server q) pending).

(** ** The event loop *)

Definition handle_parent_msg (msg : DnsParentToWorkerMsg) (s : Forwarder) : Forwarder :=
  match msg with
  | SetUpstreamResolvers servers =>
      mkForwarder (fw_cache s) (fw_pending s) servers (fw_local_hosts s) (fw_local_ips s)
        (fw_limiter s) (fw_stats s) (fw_fallbacks s)
  | DnsRegisterLocalHost name ip =>
      let ips := match fw_local_hosts s !! name with
                 | Some old_ip => delete old_ip (fw_local_ips s)
                 | None => fw_local_ips s
                 end in
      mkForwarder (fw_cache s) (fw_pending s) (fw_upstream_servers s)
        (<[name := ip]> (fw_local_hosts s)) (<[ip := name]> ips)
        (fw_limiter s) (fw_stats s) (fw_fallbacks s)
  | DnsDeregisterLocalHost name =>
      let ips := match fw_local_hosts s !! name with
                 | Some ip => delete ip (fw_local_ips s)
                 | None => fw_local_ips s
                 end in
      mkForwarder (fw_cache s) (fw_pending s) (fw_upstream_servers s)
        (delete name (fw_local_hosts s)) ips
        (fw_limiter s) (fw_stats s) (fw_fallbacks s)
  end.

Definition handle_cleanup (now : Instant) (s : Forwarder) : Outcome (Forwarder * list FwOut) :=
  let s := set_stats (set_cached_count (cache_len (fw_cache s)) (fw_stats s)) s in
  let s' := set_limiter (limiter_retain_recent now (fw_limiter s))
              (set_cache (evict_expired_cache now (fw_cache s)) s) in
  let! r := check_pending_timeouts now (fw_pending s') in
  Returned (set_pending r.1 s', ToParentHeartbeat (fw_stats s) :: r.2).

Inductive FwEvent :=
| FwCleanup
| FwParent (msg : DnsParentToWorkerMsg)
| FwClientUdp (src : SocketAddr) (query : list Z)
| FwClientTcp (peer : SocketAddr) (reply_tx : Z) (query : list Z)
| FwUpstream (from_addr : SocketAddr) (reply : list Z)
(** The [i]-th fallback task is done; the bytes its server sent *)
| FwFallback (i : nat) (stream : option (list Z)).

Definition fw_event (now : Instant) (env : FwEnv) (e : FwEvent) (s : Forwarder) :
    Outcome (Forwarder * list FwOut) :=
  match e with
  | FwCleanup => handle_cleanup now s
  | FwParent msg => Returned (handle_parent_msg msg s, [])
  | FwClientUdp src query => handle_incoming_query now env query (OUdp src) s
  | FwClientTcp peer reply_tx query => handle_incoming_query now env query (OTcp peer reply_tx) s
  | FwUpstream from_addr reply => handle_upstream_reply now reply from_addr s
  | FwFallback i stream =>
      match fw_fallbacks s !! i with
      | None => Returned (s, [])
      | Some task =>
          let! fetched := fetch_upstream_tcp task stream in
          handle_upstream_tcp_event now (fallback_event task fetched)
            (set_fallbacks (delete i (fw_fallbacks s)) s)
      end
  end.

Fixpoint run_forwarder_loop (events : list (Instant * FwEnv * FwEvent)) (s : Forwarder) :
    Outcome (Forwarder * list FwOut) :=
  match events with
  | [] => Returned (s, [])
  | (now, env, e) :: events' =>
      let! r1 := fw_event now env e s in
      let! r2 := run_forwarder_loop events' r1.1 in
      Returned (r2.1, r1.2 ++ r2.2)
  end.
End forwarder.

(** ** TCP framing *)

Lemma as_u16_be n : 0 ≤ n < 65536 →
  u16_from_be_bytes (u16_to_be_bytes (as_u16 n)).1 (u16_to_be_bytes (as_u16 n)).2 = n.
Proof. intros Hn. rewrite u16_be_bytes_id. by apply as_u16_small. Qed.

(** What is written to a TCP connection is what is read from it: a
    message of 12 to 65535 bytes, followed by anything, is read back whole and
    leaves exactly what followed it; a longer message is not written, and a
    shorter one, a frame cut short or an empty stream is not read. *)
Theorem tcp_framing_roundtrip (msg rest : list Z) :
  match write_tcp_dns_reply msg with
  | Some bytes =>
      blen msg ≤ TCP_MAX_MESSAGE_SIZE ∧
      read_tcp_dns_query (bytes ++ rest)
        = (if decide (DNS_HEADER_SIZE ≤ blen msg) then Some (msg, rest) else None) ∧
      ∀ n, (n < length bytes)%nat → read_tcp_dns_query (take n bytes) = None
  | None => TCP_MAX_MESSAGE_SIZE < blen msg
  end.
Proof.
  unfold write_tcp_dns_reply. case_bool_decide as Hbig; [done |].
  pose proof (blen_nonneg msg) as H0. unfold TCP_MAX_MESSAGE_SIZE in Hbig.
  pose proof (as_u16_be (blen msg) ltac:(lia)) as Hx.
  destruct (u16_to_be_bytes (as_u16 (blen msg))) as [hi lo]. simpl in Hx.
  split_and!; [unfold TCP_MAX_MESSAGE_SIZE; lia | |].
  - cbn [app read_tcp_dns_query]. rewrite Hx.
    case_decide as Hd; [rewrite bool_decide_true | rewrite bool_decide_false];
      unfold TCP_MAX_MESSAGE_SIZE; try lia; [|done]. cbn [negb].
    replace (Z.to_nat (blen msg)) with (length msg) by (unfold blen; lia).
    rewrite bool_decide_false by (rewrite length_app; lia).
    by rewrite take_app_length, drop_app_length.
  - intros n Hn. destruct n as [|[|n]]; [done.. |]. cbn [take read_tcp_dns_query]. rewrite Hx.
    destruct (negb _); [done |]. rewrite bool_decide_true; [done |].
    simpl in Hn. rewrite length_take. unfold blen. lia.
Qed.

(** The answers to the queries of a connection go back in the order of the
    queries, each in its own frame. *)
Theorem tcp_connection_in_order (exchanges : list (list Z * list Z)) stream out :
  Forall (λ x, DNS_HEADER_SIZE ≤ blen x.1) exchanges →
  mapM (λ x, write_tcp_dns_reply x.1) exchanges = Some stream →
  mapM (λ x, write_tcp_dns_reply x.2) exchanges = Some out →
  handle_tcp_client_connection (concat stream) ((λ x, mkTcpTurn true (Some x.2) true) <$> exchanges) =
    (exchanges.*1, concat out).
Proof.
  intros Hlen. revert stream out. induction Hlen as [|[query reply] exchanges Hq _ IH]; intros stream out.
  { intros [= <-] [= <-]. done. }
  intros Hs Ho. cbn [mapM] in Hs, Ho. simpl in *.
  apply bind_Some in Hs as (f & Hf & Hs). apply bind_Some in Hs as (fs & Hfs & [= <-]).
  apply bind_Some in Ho as (g & Hg & Ho). apply bind_Some in Ho as (gs & Hgs & [= <-]).
  pose proof (tcp_framing_roundtrip query (concat fs)) as Hr. rewrite Hf in Hr. destruct Hr as (_ & Hr & _).
  rewrite decide_True in Hr by done. cbn [concat]. rewrite Hr, Hg.
  specialize (IH fs gs Hfs Hgs). cbn [negb]. change (list_fmap _ _ ?f exchanges) with (f <$> exchanges). by rewrite IH.
Qed.

(** ** Transaction ids *)

Lemma get_xid_Returned bytes :
  (2 ≤ length bytes)%nat →
  ∃ b0 b1 rest, bytes = b0 :: b1 :: rest ∧ get_xid bytes = Returned (u16_from_be_bytes b0 b1).
Proof. intros H. destruct bytes as [|b0 [|b1 rest]]; simpl in H; try lia. by exists b0, b1, rest. Qed.

(** The bytes with another transaction id. *)
Definition with_xid (bytes : list Z) (xid : Z) : list Z :=
  (u16_to_be_bytes xid).1 :: (u16_to_be_bytes xid).2 :: drop 2 bytes.

Lemma set_xid_Returned bytes xid :
  (2 ≤ length bytes)%nat → set_xid bytes xid = Returned (with_xid bytes xid).
Proof.
  intros H. destruct bytes as [|b0 [|b1 rest]]; simpl in H; try lia.
  unfold set_xid, with_xid. destruct (u16_to_be_bytes xid) as [hi lo].
  rewrite index_set_Returned by (simpl; lia). cbn [mbind outcome_bind].
  by rewrite index_set_Returned by (simpl; lia).
Qed.

Lemma with_xid_length bytes xid : (2 ≤ length bytes)%nat → length (with_xid bytes xid) = length bytes.
Proof. intros H. unfold with_xid. simpl. rewrite length_drop. lia. Qed.

Lemma blen_ge bytes n : Z.of_nat n ≤ blen bytes → (n ≤ length bytes)%nat.
Proof. unfold blen. lia. Qed.

Lemma draw_xid_Some pending draws xid :
  draw_xid pending draws = Some xid → xid ∈ draws ∧ xid ≠ 0 ∧ pending !! xid = None.
Proof.
  induction draws as [|x draws IH]; [done |]. cbn [draw_xid].
  destruct (_ || _) eqn:E.
  - intros H. destruct (IH H) as (? & ? & ?). split_and!; [by apply list_elem_of_further | done..].
  - intros [= ->]. apply orb_false_iff in E as [E1%bool_decide_eq_false E2%bool_decide_eq_false].
    split_and!; [apply list_elem_of_here | done |]. by apply eq_None_not_Some.
Qed.

(** The search for a transaction id ends.  While fewer than 4096 queries
    are in flight there is always a free id, so the loop ends as soon as the
    random numbers have covered it, whatever came before; and the id it
    returns is nonzero, was drawn, and belongs to no query in flight. *)
Theorem allocate_unique_xid_spec pending draws :
  Z.of_nat (size pending) < MAX_PENDING_QUERIES →
  (∃ x, 0 < x < 65536 ∧ pending !! x = None ∧
     (x ∈ draws → is_Some (allocate_unique_xid pending draws))) ∧
  ∀ xid, allocate_unique_xid pending draws = Some xid →
    xid ∈ draws ∧ xid ≠ 0 ∧ pending !! xid = None.
Proof.
  intros Hsz. unfold allocate_unique_xid. rewrite bool_decide_false by lia.
  split; [|intros xid; apply draw_xid_Some].
  assert (∃ x, 0 < x < 65536 ∧ pending !! x = None) as (x & Hx & Hp).
  { destruct (decide (Forall (λ x, is_Some (pending !! x)) (seqZ 1 5000))) as [Hall | Hex].
    - exfalso. assert (list_to_set (seqZ 1 5000) ⊆ dom pending) as Hsub.
      { intros y Hy%elem_of_list_to_set. apply elem_of_dom.
        by apply (proj1 (list.Forall_forall _ _) Hall). }
      apply subseteq_size in Hsub. rewrite size_list_to_set in Hsub by apply NoDup_seqZ.
      rewrite length_seqZ, size_dom in Hsub. unfold MAX_PENDING_QUERIES in Hsz. lia.
    - apply not_Forall_Exists in Hex; [|apply _]. apply Exists_exists in Hex as (x & Hx & Hn).
      apply elem_of_seqZ in Hx. exists x. split; [lia |]. by apply eq_None_not_Some. }
  exists x. split; [done |]. split; [done |]. induction draws as [|y draws IH]; intros Hin.
  { by apply not_elem_of_nil in Hin. }
  cbn [draw_xid]. destruct (_ || _) eqn:E; [|by eexists].
  apply elem_of_cons in Hin as [-> | Hin]; [|by apply IH].
  apply orb_true_iff in E as [E%bool_decide_eq_true | E%bool_decide_eq_true]; [lia |].
  rewrite Hp in E. by destruct E.
Qed.

(** ** The invariant *)

Section forwarder_spec.
Context {Name : Type} {HK : Hickory Name} {HO : HashOrder} {LM : Limiter}.
Implicit Types (s : Forwarder) (q : PendingQuery) (c : PendingClient).
Implicit Types (now : Instant) (key : str) (cache : gmap str CacheEntry).

(** A message with a whole header. *)
Definition whole (bytes : list Z) : Prop := DNS_HEADER_SIZE ≤ blen bytes.

Definition client_ok c : Prop :=
  RFC1035_MAX_UDP_PAYLOAD ≤ pc_client_max_payload c ≤ MAX_EDNS_PAYLOAD_SIZE.

Record query_ok q : Prop := {
  qo_clients : 1 ≤ Z.of_nat (length (pq_clients q)) ≤ MAX_JOINED_CLIENTS_PER_QUERY;
  qo_clients_ok : Forall client_ok (pq_clients q);
  qo_payload : whole (pq_query_payload q);
  qo_servers : Forall (λ ip, is_valid_upstream_resolver ip = true) (pq_upstream_servers q);
  qo_idx : (pq_current_server_idx q < length (pq_upstream_servers q))%nat;
}.

Definition entry_ok (now : Instant) (e : CacheEntry) : Prop :=
  whole (ce_response e) ∧ ce_expiry e ≤ now + from_secs MAX_TTL_SECS.

Definition fallback_ok (t : TcpFallback) : Prop :=
  whole (tf_query_payload t) ∧ whole (tf_fallback_reply t) ∧ Forall client_ok (tf_clients t).

Record fw_inv (now : Instant) s : Prop := {
  fi_cache : map_Forall (λ _, entry_ok now) (fw_cache s);
  fi_cache_size : cache_len (fw_cache s) ≤ MAX_CACHE_ENTRIES;
  fi_pending : map_Forall (λ _, query_ok) (fw_pending s);
  fi_pending_size : Z.of_nat (size (fw_pending s)) ≤ MAX_PENDING_QUERIES;
  fi_xids : fw_pending s !! 0 = None;
  fi_local : ∀ ip name, fw_local_ips s !! ip = Some name → fw_local_hosts s !! name = Some ip;
  fi_fallbacks : Forall fallback_ok (fw_fallbacks s);
}.

(** What may be sent: whole queries to acceptable resolvers. *)
Definition out_ok (o : FwOut) : Prop :=
  match o with
  | ToUpstream server bytes => is_valid_upstream_resolver server = true ∧ whole bytes
  | _ => True
  end.

(** The code returns, in a good state, having sent good messages. *)
Definition returns_ok (now : Instant) (r : Outcome (Forwarder * list FwOut)) : Prop :=
  match r with
  | Returned (s, out) => fw_inv now s ∧ Forall out_ok out
  | Panicked => False
  end.

Lemma whole_2 bytes : whole bytes → (2 ≤ length bytes)%nat.
Proof. unfold whole, DNS_HEADER_SIZE, blen. lia. Qed.
Lemma whole_with_xid bytes xid : whole bytes → whole (with_xid bytes xid).
Proof. intros H. unfold whole, blen in *. rewrite with_xid_length; [done | by apply whole_2]. Qed.

Lemma fw_inv_later now now' s : fw_inv now s → now ≤ now' → fw_inv now' s.
Proof.
  intros [Hc Hcs Hp Hps Hx Hl Hf] Hle. split; try done.
  intros k e Hk. destruct (Hc k e Hk) as [H1 H2]. split; [done | lia].
Qed.

(** *** Small pieces *)

Lemma extract_client_max_payload_bounds bytes :
  RFC1035_MAX_UDP_PAYLOAD ≤ extract_client_max_payload bytes ≤ MAX_EDNS_PAYLOAD_SIZE.
Proof.
  unfold extract_client_max_payload, RFC1035_MAX_UDP_PAYLOAD, MAX_EDNS_PAYLOAD_SIZE.
  destruct (from_bytes bytes) as [m|]; [|lia]. destruct (dm_edns m); [|lia].
  apply clamp_bounds. lia.
Qed.

Lemma new_client_ok query origin :
  whole query → ∃ c, new_client query origin = Returned c ∧ client_ok c ∧ pc_origin c = origin.
Proof.
  intros Hw. unfold new_client.
  destruct (get_xid_Returned query (whole_2 _ Hw)) as (b0 & b1 & rest & _ & ->).
  eexists. split; [done |]. split; [apply extract_client_max_payload_bounds | done].
Qed.

Lemma get_upstream_resolvers_ok configured :
  Forall (λ ip, is_valid_upstream_resolver ip = true) (get_upstream_resolvers configured) ∧
  (0 < length (get_upstream_resolvers configured))%nat.
Proof.
  unfold get_upstream_resolvers.
  assert (Forall (λ ip, is_valid_upstream_resolver ip = true)
    (filter (λ ip, is_valid_upstream_resolver ip = true) configured)) as Hf.
  { apply list.Forall_forall. intros ip [H _]%list_elem_of_filter. done. }
  destruct (filter _ configured) as [|x l]; [|split; [done | simpl; lia]].
  split; [|simpl; lia]. by repeat constructor.
Qed.

Lemma fanout_ok clients reply :
  whole reply → ∃ out, fanout_client_replies clients reply = Returned out ∧ Forall out_ok out.
Proof.
  intros Hw. induction clients as [|c clients (out & E & Ho)]; [by exists [] |].
  cbn [fanout_client_replies]. rewrite set_xid_Returned by (by apply whole_2). simpl. rewrite E.
  simpl. eexists. split; [done |]. constructor; [|done]. by destruct (pc_origin c).
Qed.

(** *** The cache *)

Lemma cache_ttl_bounds (packet : DnsMessage Name) d :
  calculate_cache_ttl packet = Some d → d ≤ from_secs MAX_TTL_SECS.
Proof.
  assert (calculate_negative_ttl packet ≤ from_secs MAX_TTL_SECS) as Hneg.
  { unfold calculate_negative_ttl, from_secs, NANOS, MAX_TTL_SECS.
    induction (dm_authorities packet) as [|r l IH]; [vm_compute; congruence |]. simpl.
    destruct (rr_data r) as [| |m|]; try done.
    unfold from_secs, NANOS, clamp, MIN_NEGATIVE_TTL_SECS, MAX_NEGATIVE_TTL_SECS. lia. }
  unfold calculate_cache_ttl. destruct (_ || _); [done |].
  destruct (dm_response_code packet); try done; [|by intros [= <-]].
  destruct (rr_ttl <$> dm_answers packet) as [|t ts]; [by intros [= <-] |].
  case_bool_decide; [done |]. intros [= <-]. unfold from_secs, NANOS. lia.
Qed.

Lemma evict_cache_subseteq now cache : evict_expired_cache now cache ⊆ cache.
Proof. apply map_filter_subseteq. Qed.

Lemma make_room_subseteq now key cache : make_room now key cache ⊆ cache.
Proof.
  unfold make_room. destruct (_ && _); [|done].
  case_bool_decide; [|apply evict_cache_subseteq].
  destruct (min_by_expiry _) as [[k e]|]; [|apply evict_cache_subseteq].
  etrans; [apply delete_subseteq | apply evict_cache_subseteq].
Qed.

(** [min_by_expiry] finds a least entry. *)
Lemma foldl_earlier l acc :
  foldl earlier (Some acc) l ∈ (Some <$> acc :: l) ∧
  ∀ r, foldl earlier (Some acc) l = Some r →
    ∀ x, x ∈ acc :: l → ce_expiry r.2 ≤ ce_expiry x.2.
Proof.
  revert acc. induction l as [|x l IH]; intros acc.
  { split; [apply list_elem_of_here |]. intros r [= <-] x ->%list_elem_of_singleton. lia. }
  cbn [foldl earlier]. case_bool_decide as Hlt.
  - destruct (IH x) as [H1 H2]. split.
    { rewrite !fmap_cons in *. by apply list_elem_of_further. }
    intros r Hr y [-> | Hy]%elem_of_cons; [|by apply H2].
    pose proof (H2 r Hr x (list_elem_of_here _ _)). lia.
  - destruct (IH acc) as [H1 H2]. split.
    { rewrite !fmap_cons in *. apply elem_of_cons in H1 as [-> | H1]; [apply list_elem_of_here |].
      by apply list_elem_of_further, list_elem_of_further. }
    intros r Hr y [-> | [-> | Hy]%elem_of_cons]%elem_of_cons.
    + apply H2; [done | apply list_elem_of_here].
    + pose proof (H2 r Hr acc (list_elem_of_here _ _)). lia.
    + apply H2; [done | by apply list_elem_of_further].
Qed.

Lemma min_by_expiry_spec l :
  match min_by_expiry l with
  | None => l = []
  | Some r => r ∈ l ∧ ∀ x, x ∈ l → ce_expiry r.2 ≤ ce_expiry x.2
  end.
Proof.
  destruct l as [|x l]; [done |]. unfold min_by_expiry. cbn [foldl earlier].
  destruct (foldl_earlier l x) as [H1 H2].
  destruct (foldl earlier (Some x) l) as [r|] eqn:E.
  - split; [|by apply H2]. apply list_elem_of_fmap in H1 as (y & [= <-] & Hy). done.
  - apply list_elem_of_fmap in H1 as (y & ? & _). done.
Qed.

Lemma make_room_size now key cache :
  cache_len cache ≤ MAX_CACHE_ENTRIES → cache !! key = None →
  cache_len (make_room now key cache) < MAX_CACHE_ENTRIES.
Proof.
  intros Hle Hk. unfold make_room. rewrite Hk.
  destruct (bool_decide_reflect (MAX_CACHE_ENTRIES ≤ cache_len cache)) as [Hf | Hf].
  2: { simpl. lia. }
  rewrite bool_decide_false by (by intros []). cbn [negb andb].
  case_bool_decide as He; [|unfold cache_len in *; lia].
  pose proof (min_by_expiry_spec (hash_iter (evict_expired_cache now cache))) as Hm.
  pose proof (map_subseteq_size _ _ (evict_cache_subseteq now cache)) as Hsz.
  destruct (min_by_expiry _) as [[k e]|].
  - destruct Hm as [Hin%elem_of_hash_iter _]. unfold cache_len in *.
    rewrite map_size_delete_Some by done. unfold MAX_CACHE_ENTRIES in *. lia.
  - apply (f_equal length) in Hm. rewrite hash_iter_perm, length_map_to_list in Hm.
    unfold cache_len, MAX_CACHE_ENTRIES in *. simpl in Hm. lia.
Qed.

Lemma insert_cache_ok now key response cache :
  map_Forall (λ _, entry_ok now) cache → cache_len cache ≤ MAX_CACHE_ENTRIES →
  map_Forall (λ _, entry_ok now) (insert_cache now key response cache) ∧
  cache_len (insert_cache now key response cache) ≤ MAX_CACHE_ENTRIES.
Proof.
  intros Hc Hs. unfold insert_cache. case_bool_decide as Hw; [done |].
  destruct (from_bytes response ≫= calculate_cache_ttl) as [d|] eqn:Ed; [|done].
  apply bind_Some in Ed as (msg & _ & Ed). apply cache_ttl_bounds in Ed. split.
  - apply map_Forall_insert_2;
      [split; unfold whole; cbn [ce_response ce_expiry]; lia |].
    intros k e Hk. apply (Hc k). by eapply lookup_weaken, make_room_subseteq.
  - unfold cache_len. destruct (cache !! key) as [e|] eqn:Ek.
    + assert (make_room now key cache = cache) as ->.
      { unfold make_room. rewrite Ek, (bool_decide_true (is_Some (Some e))) by (by eexists).
        by rewrite andb_false_r. }
      by rewrite map_size_insert_Some by (by eexists).
    + pose proof (make_room_size now key cache Hs Ek) as Hr. unfold cache_len in Hr.
      rewrite map_size_insert_None; [lia |].
      destruct (make_room now key cache !! key) as [e|] eqn:E; [|done].
      apply (lookup_weaken _ cache) in E; [congruence | apply make_room_subseteq].
Qed.

(** *** The handlers *)

(** The parts of the state that a handler leaves alone. *)
Ltac keep_inv H := destruct H as [? ? ? ? ? ? ?]; split; try done.

Lemma inv_set_stats now s st : fw_inv now s → fw_inv now (set_stats st s).
Proof. intros H. keep_inv H. Qed.
Lemma inv_set_limiter now s l : fw_inv now s → fw_inv now (set_limiter l s).
Proof. intros H. keep_inv H. Qed.
Lemma inv_set_cache now s cache :
  fw_inv now s → map_Forall (λ _, entry_ok now) cache → cache_len cache ≤ MAX_CACHE_ENTRIES →
  fw_inv now (set_cache cache s).
Proof. intros H Hc Hs. keep_inv H. Qed.
Lemma inv_set_pending now s pending :
  fw_inv now s → map_Forall (λ _, query_ok) pending →
  Z.of_nat (size pending) ≤ MAX_PENDING_QUERIES → pending !! 0 = None →
  fw_inv now (set_pending pending s).
Proof. intros H Hp Hs H0. keep_inv H. Qed.
Lemma inv_set_fallbacks now s l :
  fw_inv now s → Forall fallback_ok l → fw_inv now (set_fallbacks l s).
Proof. intros H Hl. keep_inv H. Qed.
Lemma inv_delete_pending now s xid :
  fw_inv now s → fw_inv now (set_pending (delete xid (fw_pending s)) s).
Proof.
  intros H. pose proof H as [? ? Hp Hs Hx ? ?]. apply inv_set_pending; [done | | |].
  - by apply map_Forall_delete.
  - pose proof (map_subseteq_size _ _ (delete_subseteq (fw_pending s) xid)). lia.
  - destruct (decide (xid = 0)) as [-> | Hne];
      [apply lookup_delete_eq | by rewrite lookup_delete_ne].
Qed.
Lemma inv_subset_cache now s cache :
  fw_inv now s → cache ⊆ fw_cache s → fw_inv now (set_cache cache s).
Proof.
  intros H Hsub. pose proof H as [Hc Hs ? ? ? ? ?]. apply inv_set_cache; [done | |].
  - intros k e Hk. apply (Hc k). by eapply lookup_weaken.
  - pose proof (map_subseteq_size _ _ Hsub). unfold cache_len in *. lia.
Qed.
Create HintDb fw.
#[local] Hint Resolve inv_set_stats inv_set_limiter inv_delete_pending : fw.

Lemma lookup_cache_subseteq now key cache :
  (lookup_cache now key cache).2 ⊆ cache ∧
  ∀ r, (lookup_cache now key cache).1 = Some r →
    ∃ e, cache !! key = Some e ∧ ce_response e = r ∧ now < ce_expiry e.
Proof.
  unfold lookup_cache. destruct (cache !! key) as [e|] eqn:E; [|by split].
  case_bool_decide; simpl; [|split; [apply delete_subseteq | done]].
  split; [done |]. intros r [= <-]. by exists e.
Qed.

Lemma join_ok now s key query origin :
  fw_inv now s → whole query →
  ∃ r, try_join_in_flight_query (fw_pending s) key query origin = Returned r ∧
    ∀ pending, r = Some pending → fw_inv now (set_pending pending s).
Proof.
  intros H Hw. unfold try_join_in_flight_query.
  destruct (iter_find _ _) as [[xid q]|] eqn:Hf; [|by exists None].
  apply iter_find_Some in Hf as (i & Hi%list_elem_of_lookup_2%elem_of_hash_iter & _).
  case_bool_decide as Hfull; [by exists None |].
  destruct (new_client_ok query origin Hw) as (c & -> & Hc & _). simpl.
  eexists. split; [done |]. intros pending [= <-].
  pose proof H as [? ? Hp Hs Hx ? ?]. destruct (Hp _ _ Hi) as [Q1 Q2 Q3 Q4 Q5].
  apply inv_set_pending; [done | | |].
  - apply map_Forall_insert_2; [|done]. split; cbn -[Z.of_nat]; try done.
    + rewrite length_app. simpl. lia.
    + apply Forall_app_2; [done | by apply Forall_singleton].
  - by rewrite map_size_insert_Some by (by eexists).
  - rewrite lookup_insert_ne; [done |]. intros ->. congruence.
Qed.

Lemma forward_new_ok now env query origin key s :
  fw_inv now s → whole query →
  ∃ pending out,
    forward_new_client_query now env query origin key (fw_pending s) (fw_upstream_servers s)
      = Returned (pending, out) ∧
    fw_inv now (set_pending pending s) ∧ Forall out_ok out.
Proof.
  intros H Hw. pose proof H as [? ? Hp Hs Hx ? ?].
  assert (fw_inv now (set_pending (fw_pending s) s)) as Hid by (by apply inv_set_pending).
  unfold forward_new_client_query. case_bool_decide as Hfull; [by eexists _, _ |].
  unfold allocate_unique_xid. rewrite bool_decide_false by done.
  destruct (draw_xid _ _) as [xid|] eqn:Hd; [|by eexists _, _].
  apply draw_xid_Some in Hd as (_ & Hne & Hfresh).
  destruct (new_client_ok query origin Hw) as (c & -> & Hc & _). simpl.
  destruct (get_upstream_resolvers_ok (fw_upstream_servers s)) as [Hv Hlen].
  destruct (index_in_range _ _ Hlen) as (ip & Hip & ->). simpl.
  rewrite set_xid_Returned by (by apply whole_2). simpl.
  destruct (fe_send_ok env); [|by eexists _, _]. eexists _, _. split; [done |]. split.
  - apply inv_set_pending; [done | | |].
    + apply map_Forall_insert_2; [|done]. split; cbn -[Z.of_nat]; try done.
      by apply Forall_singleton.
    + rewrite map_size_insert_None by done. lia.
    + by rewrite lookup_insert_ne.
  - apply Forall_singleton. split; [|by apply whole_with_xid].
    by apply (Forall_lookup_1 _ _ _ _ Hv Hip).
Qed.

Lemma cache_miss_ok now env query origin key s :
  fw_inv now s → whole query → returns_ok now (handle_cache_miss now env query origin key s).
Proof.
  intros H Hw. unfold handle_cache_miss. destruct (sa_ip (peer_addr origin)) as [ip|]; [|by split].
  destruct (limiter_check now ip (fw_limiter s)) as [allowed l].
  assert (fw_inv now (set_limiter l s)) as Hl by auto with fw.
  destruct allowed; cbn [negb]; [|by split; [auto with fw |]].
  destruct (join_ok now (set_limiter l s) key query origin Hl Hw) as (r & E & Hj).
  rewrite E. cbn [mbind outcome_bind].
  destruct r as [pending|]; [split; [by apply Hj | done] |].
  destruct (forward_new_ok now env query origin key _ Hl Hw) as (pending & out & E' & H1 & H2).
  rewrite E'. by split.
Qed.

Lemma incoming_ok now env query origin s :
  fw_inv now s → returns_ok now (handle_incoming_query now env query origin s).
Proof.
  intros H. unfold handle_incoming_query. case_bool_decide as Hw; [by split |].
  assert (whole query) as Hq by (unfold whole; lia).
  destruct (try_resolve_local_query _ _ _) as [r|].
  { split; [auto with fw |]. apply Forall_singleton. by destruct origin. }
  destruct (get_cache_key query) as [key|]; [|split; [auto with fw | done]].
  pose proof (lookup_cache_subseteq now key (fw_cache (set_stats (count_query (fw_stats s)) s)))
    as [Hsub Hhit].
  destruct (lookup_cache _ _ _) as [hit cache]. cbn [fst snd] in *.
  apply (inv_subset_cache now (set_stats (count_query (fw_stats s)) s)) in Hsub; [|auto with fw].
  destruct hit as [r|]; [|by apply cache_miss_ok].
  destruct (Hhit r eq_refl) as (e & He & <- & _).
  destruct (fi_cache _ _ H key e He) as [Hr _]. apply whole_2 in Hr, Hq.
  destruct query as [|q0 [|q1 query]]; simpl in Hq; try lia.
  cbn [mbind outcome_bind index lookup list_lookup].
  rewrite index_set_Returned by lia. cbn [mbind outcome_bind].
  rewrite index_set_Returned by (rewrite length_insert; lia). cbn [mbind outcome_bind].
  split; [auto with fw |]. apply Forall_singleton. by destruct origin.
Qed.

(** A query that moves on to its next server. *)
Definition failed_over now q : PendingQuery :=
  mkPendingQuery (pq_clients q) (pq_cache_key q) (pq_query_payload q) (pq_upstream_servers q)
    (S (pq_current_server_idx q)) (now + UPSTREAM_TIMEOUT).

Lemma failover_spec now q xid :
  query_ok q →
  (has_next_server q = false ∧ try_failover_upstream_query now q xid = Returned None) ∨
  ∃ ip, has_next_server q = true ∧
    pq_upstream_servers q !! S (pq_current_server_idx q) = Some ip ∧
    is_valid_upstream_resolver ip = true ∧ query_ok (failed_over now q) ∧
    try_failover_upstream_query now q xid =
      Returned (Some (failed_over now q, ToUpstream ip (with_xid (pq_query_payload q) xid))).
Proof.
  intros [Q1 Q2 Q3 Q4 Q5]. unfold try_failover_upstream_query, has_next_server.
  destruct (bool_decide_reflect
    (length (pq_upstream_servers q) ≤ S (pq_current_server_idx q))%nat) as [Hn | Hn].
  { left. split; [apply bool_decide_eq_false; lia | done]. }
  right. destruct (index_in_range (pq_upstream_servers q) (S (pq_current_server_idx q)))
    as (ip & Hip & ->); [lia |]. simpl.
  rewrite (bool_decide_true (2 ≤ length (pq_query_payload q))%nat) by (by apply whole_2).
  rewrite set_xid_Returned by (by apply whole_2).
  exists ip. split_and!; [apply bool_decide_eq_true; lia | done | | | done].
  - by apply (Forall_lookup_1 _ _ _ _ Q4 Hip).
  - split; cbn -[Z.of_nat]; try done. lia.
Qed.

Lemma inv_update_query now s xid q q' :
  fw_inv now s → fw_pending s !! xid = Some q → query_ok q' →
  fw_inv now (set_pending (<[xid := q']> (fw_pending s)) s).
Proof.
  intros H Hq Hq'. pose proof H as [? ? Hp Hs Hx ? ?]. apply inv_set_pending; [done | | |].
  - by apply map_Forall_insert_2.
  - by rewrite map_size_insert_Some by (by eexists).
  - rewrite lookup_insert_ne; [done |]. intros ->. congruence.
Qed.

Lemma deliver_ok now xid q reply s :
  fw_inv now s → whole reply → returns_ok now (deliver_reply now xid q reply s).
Proof.
  intros H Hw. unfold deliver_reply.
  destruct (fanout_ok (pq_clients q) reply Hw) as (out & -> & Ho). split; [|done].
  destruct (insert_cache_ok now (pq_cache_key q) reply (fw_cache s)) as [Hc Hs];
    [apply H.. |]. apply inv_set_cache; [auto with fw | done..].
Qed.

Lemma upstream_ok now reply from_addr s :
  fw_inv now s → returns_ok now (handle_upstream_reply now reply from_addr s).
Proof.
  intros H. unfold handle_upstream_reply. case_bool_decide as Hw; [by split |].
  assert (whole reply) as Hr by (unfold whole; lia).
  destruct (get_xid_Returned reply (whole_2 _ Hr)) as (b0 & b1 & rest & Eb & ->).
  cbn [mbind outcome_bind]. set (xid := u16_from_be_bytes b0 b1).
  destruct (fw_pending s !! xid) as [q|] eqn:Hq; [|by split].
  pose proof (fi_pending _ _ H _ _ Hq) as Hok.
  destruct (index_in_range _ _ (qo_idx _ Hok)) as (ip & Hip & Ei). rewrite Ei. simpl.
  case_bool_decide; [by split |].
  assert (∃ flags, index reply 2 = Returned flags) as [flags ->].
  { destruct (index_in_range reply 2) as (f & _ & ->); [|by eexists].
    unfold whole, DNS_HEADER_SIZE, blen in Hr. lia. }
  simpl. case_bool_decide as Htc.
  { unfold spawn_upstream_tcp_fallback. rewrite Ei. simpl. split; [|done].
    apply inv_set_fallbacks; [auto with fw |]. apply Forall_app_2; [apply H |].
    apply Forall_singleton. destruct Hok. by split_and!. }
  destruct (from_bytes reply) as [msg|]; [|by split].
  destruct (_ || _); [|by apply deliver_ok].
  destruct (failover_spec now q xid Hok) as [[_ ->] | (ip' & _ & _ & Hv & Hq' & ->)]; simpl.
  - by apply deliver_ok.
  - split; [by eapply inv_update_query |]. apply Forall_singleton. split; [done |].
    apply whole_with_xid, Hok.
Qed.

Lemma read_tcp_whole stream msg rest : read_tcp_dns_query stream = Some (msg, rest) → whole msg.
Proof.
  unfold read_tcp_dns_query. destruct stream as [|b0 [|b1 l]]; try done.
  case_bool_decide as Hr; cbn [negb]; [|done]. case_bool_decide as Hl; [done |]. intros [= <- <-].
  unfold whole, blen. rewrite length_take. lia.
Qed.

Lemma fetch_ok t stream :
  fallback_ok t → ∃ r, fetch_upstream_tcp t stream = Returned r ∧ ∀ b, r = Some b → whole b.
Proof.
  intros (Hp & _ & _). unfold fetch_upstream_tcp. destruct stream as [bytes|]; [|by exists None].
  rewrite bool_decide_true by (by apply whole_2). rewrite set_xid_Returned by (by apply whole_2).
  simpl. destruct (write_tcp_dns_reply _); [|by exists None]. eexists. split; [done |].
  intros b. destruct (read_tcp_dns_query bytes) as [[m rest]|] eqn:E; [|done].
  intros [= <-]. by eapply read_tcp_whole.
Qed.

Lemma fallback_event_ok now t fetched s :
  fw_inv now s → fallback_ok t → (∀ b, fetched = Some b → whole b) →
  returns_ok now (handle_upstream_tcp_event now (fallback_event t fetched) s).
Proof.
  intros H (_ & Hf & _) Hb. destruct fetched as [b|]; simpl.
  - destruct (fanout_ok (tf_clients t) b (Hb b eq_refl)) as (out & -> & Ho). split; [|done].
    destruct (insert_cache_ok now (tf_cache_key t) b (fw_cache s)) as [Hc Hs]; [apply H.. |].
    by apply inv_set_cache.
  - destruct (fanout_ok (tf_clients t) (tf_fallback_reply t) Hf) as (out & -> & Ho). by split.
Qed.

Lemma retry_ok now l pending :
  map_Forall (λ _, query_ok) pending →
  ∃ pending' out, retry_queries now l pending = Returned (pending', out) ∧
    map_Forall (λ _, query_ok) pending' ∧ dom pending' = dom pending ∧ Forall out_ok out.
Proof.
  revert pending. induction l as [|xid l IH]; intros pending Hp; [by eexists _, _ |].
  cbn [retry_queries]. destruct (pending !! xid) as [q|] eqn:Hq; [|by apply IH].
  pose proof (Hp _ _ Hq) as Hok.
  destruct (failover_spec now q xid Hok) as [[_ ->] | (ip & _ & _ & Hv & Hq' & ->)]; simpl.
  { by apply IH. }
  destruct (IH (<[xid := failed_over now q]> pending)) as (p' & out & -> & H1 & H2 & H3).
  { by apply map_Forall_insert_2. }
  eexists _, _. split; [done |]. cbn [fst snd]. split_and!; [done | |].
  - rewrite H2, dom_insert_L. apply elem_of_dom_2 in Hq. set_solver.
  - constructor; [|done]. split; [done |]. apply whole_with_xid, Hok.
Qed.

Lemma cleanup_ok now s : fw_inv now s → returns_ok now (handle_cleanup now s).
Proof.
  intros H. unfold handle_cleanup, check_pending_timeouts.
  set (s' := set_limiter _ _). assert (fw_inv now s') as Hs'.
  { apply inv_set_limiter, inv_subset_cache; [auto with fw | apply evict_cache_subseteq]. }
  destruct (retry_ok now
    (filter (λ kv, timed_out now kv.2 && has_next_server kv.2 = true) (hash_iter (fw_pending s'))).*1
    (retain (λ _ q, negb (timed_out now q) || has_next_server q) (fw_pending s')))
    as (p & out & -> & H1 & H2 & H3).
  { intros k q [Hk _]%retain_lookup. by apply (fi_pending _ _ H k). }
  cbn [mbind outcome_bind fst snd]. split; [|by constructor].
  assert (dom p ⊆ dom (fw_pending s')) as Hsub by (rewrite H2; apply dom_filter_subseteq).
  pose proof Hs' as [? ? ? Hsz Hx ? ?]. apply inv_set_pending; [done | done | |].
  - apply subseteq_size in Hsub. rewrite !size_dom in Hsub. lia.
  - apply not_elem_of_dom. intros Hin%Hsub. apply elem_of_dom in Hin as [? ?]. congruence.
Qed.

Lemma parent_msg_ok now msg s : fw_inv now s → fw_inv now (handle_parent_msg msg s).
Proof.
  intros [? ? ? ? ? Hl ?]. destruct msg as [servers | name ip | name]; [done | |]; split; try done; simpl.
  - intros ip' name'. destruct (decide (ip = ip')) as [-> | Hne].
    + rewrite lookup_insert_eq. intros [= ->]. apply lookup_insert_eq.
    + rewrite lookup_insert_ne by done.
      destruct (fw_local_hosts s !! name) as [old|] eqn:Eo.
      * destruct (decide (old = ip')) as [-> | Ho]; [by rewrite lookup_delete_eq |].
        rewrite lookup_delete_ne by done. intros Hi%Hl.
        rewrite lookup_insert_ne; [done |]. intros ->. congruence.
      * intros Hi%Hl. rewrite lookup_insert_ne; [done |]. intros ->. congruence.
  - intros ip' name'. destruct (fw_local_hosts s !! name) as [old|] eqn:Eo.
    + destruct (decide (old = ip')) as [-> | Ho]; [by rewrite lookup_delete_eq |].
      rewrite lookup_delete_ne by done. intros Hi%Hl.
      rewrite lookup_delete_ne; [done |]. intros ->. congruence.
    + intros Hi%Hl. rewrite lookup_delete_ne; [done |]. intros ->. congruence.
Qed.

Lemma fw_event_ok now env e s : fw_inv now s → returns_ok now (fw_event now env e s).
Proof.
  intros H. destruct e as [| msg | src query | peer tx query | from_addr reply | i stream];
    cbn [fw_event].
  - by apply cleanup_ok.
  - split; [by apply parent_msg_ok | done].
  - by apply incoming_ok.
  - by apply incoming_ok.
  - by apply upstream_ok.
  - destruct (fw_fallbacks s !! i) as [t|] eqn:Ht; [|by split].
    pose proof (Forall_lookup_1 _ _ _ _ (fi_fallbacks _ _ H) Ht) as Hok.
    destruct (fetch_ok t stream Hok) as (r & -> & Hr). simpl.
    apply fallback_event_ok; [|done..]. apply inv_set_fallbacks; [done |].
    apply Forall_delete, H.
Qed.

(** Events at times that do not decrease. *)
Fixpoint fw_clock (now : Instant) (events : list (Instant * FwEnv * FwEvent)) : Prop :=
  match events with
  | [] => True
  | (t, _, _) :: events' => now ≤ t ∧ fw_clock t events'
  end.
Definition fw_end (now : Instant) (events : list (Instant * FwEnv * FwEvent)) : Instant :=
  from_option (λ e, e.1.1) now (last events).

Lemma fw_run_ok events now s :
  fw_inv now s → fw_clock now events →
  returns_ok (fw_end now events) (run_forwarder_loop events s).
Proof.
  revert now s. induction events as [|[[t env] e] events IH]; intros now s H; [by split |].
  intros [Hle Hck]. cbn [run_forwarder_loop].
  pose proof (fw_event_ok t env e s (fw_inv_later _ _ _ H Hle)) as Hr.
  destruct (fw_event t env e s) as [[s1 o1]|]; [|done]. destruct Hr as [H1 Ho1].
  cbn [mbind outcome_bind fst snd]. specialize (IH t s1 H1 Hck).
  assert (fw_end now ((t, env, e) :: events) = fw_end t events) as ->
    by (unfold fw_end; rewrite last_cons; by destruct (last events)).
  destruct (run_forwarder_loop events s1) as [[s2 o2]|]; [|done]. destruct IH as [H2 Ho2].
  split; [done | by apply Forall_app_2].
Qed.

Lemma new_inv now : fw_inv now Forwarder_new.
Proof. split; done. Qed.

(** C1: the forwarder never panics, and keeps its bounds.  From the start,
    over any sequence of queries, replies, time-outs, TCP fallbacks and
    messages of the parent, with arbitrary bytes from the network, no index is
    out of range and no [expect] fails.  The cache and the table of queries in
    flight never exceed 4096 entries; a query in flight has 1 to 64 clients
    and a current server; cached replies are whole and at most an hour from
    their expiry; every address in the reverse table belongs to the name it is
    listed for; and queries are only ever sent to resolvers that are not
    unspecified, broadcast, loopback, multicast, link-local or reserved. *)
Theorem forwarder_safe now events :
  fw_clock now events →
  ∃ s out, run_forwarder_loop events Forwarder_new = Returned (s, out) ∧
    fw_inv (fw_end now events) s ∧ Forall out_ok out.
Proof.
  intros Hck. pose proof (fw_run_ok events now _ (new_inv now) Hck) as Hr.
  destruct (run_forwarder_loop events Forwarder_new) as [[s out]|]; [|done].
  exists s, out. by destruct Hr.
Qed.

(** ** What a reply does *)

Section replies.
Context {HL : HickoryLaws Name}.

(** What a client is sent for a reply: its own transaction id, to its own
    address, and over UDP no more than it can take. *)
Definition delivered (reply : list Z) c (o : FwOut) : Prop :=
  ∃ bytes, take 2 bytes = [(u16_to_be_bytes (pc_client_xid c)).1;
                           (u16_to_be_bytes (pc_client_xid c)).2] ∧
  match pc_origin c with
  | OUdp src => o = ToUdpClient src bytes ∧ blen bytes ≤ pc_client_max_payload c
  | OTcp _ reply_tx => o = ToTcpClient reply_tx bytes ∧ drop 2 bytes = drop 2 reply
  end.

Lemma truncated_header_spec response cap :
  whole response → DNS_HEADER_SIZE ≤ cap →
  take 2 (truncated_header response) = take 2 response ∧ blen (truncated_header response) ≤ cap.
Proof.
  intros Hw Hc. unfold truncated_header. rewrite bool_decide_true by done.
  unfold whole, DNS_HEADER_SIZE, blen in *. split.
  - destruct response as [|b0 [|b1 l]]; simpl in Hw; try lia. done.
  - rewrite length_take, length_alter. lia.
Qed.

Lemma prepare_client_response_spec response cap :
  whole response → RFC1035_MAX_UDP_PAYLOAD ≤ cap →
  take 2 (prepare_client_response response cap) = take 2 response ∧
  blen (prepare_client_response response cap) ≤ cap.
Proof.
  intros Hw Hc. unfold prepare_client_response. case_bool_decide as Hle; [done |].
  destruct (truncated_header_spec response cap Hw) as [H1 H2];
    [unfold DNS_HEADER_SIZE, RFC1035_MAX_UDP_PAYLOAD in *; lia |].
  destruct (from_bytes response) as [msg|] eqn:Em; [|done].
  destruct (emit (truncate_msg msg)) as [ok buf] eqn:Ee.
  destruct ok; [|done]. cbn [andb]. case_bool_decide as Hb; [|done].
  split; [by eapply truncate_keeps_id | done].
Qed.

Lemma fanout_delivered clients reply :
  whole reply → Forall client_ok clients →
  ∃ out, fanout_client_replies clients reply = Returned out ∧
    Forall2 (delivered reply) clients out.
Proof.
  intros Hw Hc. induction Hc as [|c clients Hc _ (out & E & Ho)]; [by exists [] |].
  cbn [fanout_client_replies]. rewrite set_xid_Returned by (by apply whole_2). simpl. rewrite E.
  simpl. eexists. split; [done |]. constructor; [|done].
  unfold delivered, send_reply. destruct (pc_origin c) as [src | peer tx].
  - destruct (prepare_client_response_spec (with_xid reply (pc_client_xid c))
      (pc_client_max_payload c)) as [H1 H2]; [by apply whole_with_xid | apply Hc |].
    eexists. split; [exact H1 | done].
  - exists (with_xid reply (pc_client_xid c)). by split_and!.
Qed.

(** A reply comes from the server that a query in flight was last sent to. *)
Definition genuine (reply : list Z) (from_addr : SocketAddr) s (xid : Z) q : Prop :=
  get_xid reply = Returned xid ∧ fw_pending s !! xid = Some q ∧
  ∃ ip, pq_upstream_servers q !! pq_current_server_idx q = Some ip ∧
    from_addr = mkSocketAddr (V4 ip) DNS_PORT.

(** The three things a genuine reply can lead to. *)
Definition answered now (reply : list Z) s (xid : Z) q s' (out : list FwOut) : Prop :=
  Forall2 (delivered reply) (pq_clients q) out ∧
  s' = set_cache (insert_cache now (pq_cache_key q) reply (fw_cache s))
         (set_pending (delete xid (fw_pending s)) s).
Definition retried now s (xid : Z) q s' (out : list FwOut) : Prop :=
  s' = set_pending (<[xid := failed_over now q]> (fw_pending s)) s ∧
  ∃ ip, pq_upstream_servers q !! S (pq_current_server_idx q) = Some ip ∧
    out = [ToUpstream ip (with_xid (pq_query_payload q) xid)].
Definition over_tcp (reply : list Z) s (xid : Z) q s' (out : list FwOut) : Prop :=
  out = [] ∧ ∃ t, tf_clients t = pq_clients q ∧ tf_fallback_reply t = reply ∧
    s' = set_fallbacks (fw_fallbacks s ++ [t]) (set_pending (delete xid (fw_pending s)) s).

Lemma deliver_answered now xid q reply s :
  query_ok q → whole reply →
  ∃ s' out, deliver_reply now xid q reply s = Returned (s', out) ∧
    answered now reply s xid q s' out.
Proof.
  intros Hq Hw. unfold deliver_reply.
  destruct (fanout_delivered (pq_clients q) reply Hw (qo_clients_ok _ Hq)) as (out & -> & Ho).
  simpl. eexists _, _. split; [done |]. by split.
Qed.

(** The cases of [handle_upstream_reply]. *)
Lemma upstream_reply_cases now reply from_addr s s' out :
  fw_inv now s → handle_upstream_reply now reply from_addr s = Returned (s', out) →
  (s' = s ∧ out = []) ∨
  ∃ xid q, genuine reply from_addr s xid q ∧
    (answered now reply s xid q s' out ∨ retried now s xid q s' out ∨
     over_tcp reply s xid q s' out).
Proof.
  intros H. unfold handle_upstream_reply. case_bool_decide as Hw; [intros [= <- <-]; by left |].
  assert (whole reply) as Hr by (unfold whole; lia).
  destruct (get_xid_Returned reply (whole_2 _ Hr)) as (b0 & b1 & rest & Eb & Ex).
  rewrite Ex. cbn [mbind outcome_bind]. set (xid := u16_from_be_bytes b0 b1) in *.
  destruct (fw_pending s !! xid) as [q|] eqn:Hq; [|intros [= <- <-]; by left].
  pose proof (fi_pending _ _ H _ _ Hq) as Hok.
  destruct (index_in_range _ _ (qo_idx _ Hok)) as (ip & Hip & Ei). rewrite Ei. simpl.
  case_bool_decide as Hf; [intros [= <- <-]; by left |].
  assert (genuine reply from_addr s xid q) as Hg by (split_and!; eauto).
  destruct (index reply 2) as [flags|]; [|done]. simpl. case_bool_decide as Htc.
  { unfold spawn_upstream_tcp_fallback. rewrite Ei. simpl. intros [= <- <-].
    right. exists xid, q. split; [done |]. right; right. split; [done |].
    eexists. split; [|split; [|reflexivity]]; done. }
  destruct (from_bytes reply) as [msg|]; [|intros [= <- <-]; by left].
  destruct (deliver_answered now xid q reply s Hok Hr) as (s1 & o1 & Ed & Ha).
  assert (deliver_reply now xid q reply s = Returned (s', out) →
    answered now reply s xid q s' out) as Hd by (rewrite Ed; by intros [= <- <-]).
  intros Hres. right. exists xid, q. split; [done |].
  destruct (_ || _); [|by left; apply Hd].
  destruct (failover_spec now q xid Hok) as [[_ E] | (ip' & _ & Hip' & _ & _ & E)];
    rewrite E in Hres; simpl in Hres; [by left; apply Hd |].
  injection Hres as <- <-. right; left. split; [done |]. by exists ip'.
Qed.

(** C28: only the server that was asked is believed, and it answers each
    client once.  A packet on the upstream socket changes something only if its
    transaction id belongs to a query in flight and it comes from port 53 of
    the very server the query was last sent to; anything else leaves the
    state, the cache in particular, as it was, and sends nothing.  A genuine
    reply either takes the query out of flight and answers each of its clients
    exactly once, with the client's own transaction id and, over UDP, within
    the size the client accepts; or moves the query on to the next server; or
    hands the clients over to a TCP fallback. *)
Theorem upstream_reply_spec now reply from_addr s s' out :
  fw_inv now s → handle_upstream_reply now reply from_addr s = Returned (s', out) →
  (s' = s ∧ out = []) ∨
  ∃ xid q, genuine reply from_addr s xid q ∧
    (answered now reply s xid q s' out ∨ retried now s xid q s' out ∨
     over_tcp reply s xid q s' out).
Proof. apply upstream_reply_cases. Qed.

(** ** One reply per query *)

Definition to_client (o : FwOut) : bool :=
  match o with ToUdpClient _ _ | ToTcpClient _ _ => true | _ => false end.
Definition client_replies (out : list FwOut) : nat := length (filter (λ o, to_client o = true) out).

Definition waiting_in (pending : gmap Z PendingQuery) : nat :=
  map_fold (λ _ q n, (length (pq_clients q) + n)%nat) 0%nat pending.
Definition waiting s : nat :=
  (waiting_in (fw_pending s) + sum_list_with (length ∘ tf_clients) (fw_fallbacks s))%nat.

Definition is_client_query (e : FwEvent) : bool :=
  match e with FwClientUdp _ _ | FwClientTcp _ _ _ => true | _ => false end.

Lemma waiting_insert pending xid q :
  pending !! xid = None →
  waiting_in (<[xid := q]> pending) = (length (pq_clients q) + waiting_in pending)%nat.
Proof. intros Hn. unfold waiting_in. rewrite map_fold_insert_L; [done | intros; lia | done]. Qed.
Lemma waiting_delete pending xid q :
  pending !! xid = Some q →
  waiting_in pending = (length (pq_clients q) + waiting_in (delete xid pending))%nat.
Proof.
  intros Hq. rewrite <-(insert_delete_id pending xid q Hq) at 1.
  apply waiting_insert, lookup_delete_eq.
Qed.
Lemma waiting_update pending xid q q' :
  pending !! xid = Some q →
  (waiting_in (<[xid := q']> pending) + length (pq_clients q)
   = waiting_in pending + length (pq_clients q'))%nat.
Proof.
  intros Hq. rewrite (waiting_delete pending xid q Hq), <-insert_delete_eq.
  rewrite waiting_insert by apply lookup_delete_eq. lia.
Qed.
Lemma waiting_retain f pending : (waiting_in (retain f pending) ≤ waiting_in pending)%nat.
Proof.
  induction pending as [|xid q pending Hn IH] using map_ind.
  { unfold retain. by rewrite map_filter_empty. }
  rewrite (waiting_insert pending xid q Hn). unfold retain in *.
  destruct (f xid q) eqn:E.
  - rewrite map_filter_insert_True by done. rewrite waiting_insert; [lia |].
    apply map_lookup_filter_None. by left.
  - rewrite map_filter_insert_False by (simpl; congruence).
    rewrite delete_id by done. lia.
Qed.

Lemma client_replies_cons o out :
  client_replies (o :: out) = (Nat.b2n (to_client o) + client_replies out)%nat.
Proof.
  unfold client_replies. rewrite filter_cons.
  destruct (to_client o); [by rewrite decide_True | by rewrite decide_False].
Qed.
Lemma client_replies_app o1 o2 :
  client_replies (o1 ++ o2) = (client_replies o1 + client_replies o2)%nat.
Proof. unfold client_replies. by rewrite filter_app, length_app. Qed.

Lemma delivered_count reply clients out :
  Forall2 (delivered reply) clients out → client_replies out = length clients.
Proof.
  induction 1 as [|c o clients out (bytes & _ & Ho) _ IH]; [done |].
  rewrite client_replies_cons, IH. by destruct (pc_origin c); destruct Ho as [-> _].
Qed.

Lemma retry_waiting now l pending pending' out :
  map_Forall (λ _, query_ok) pending → retry_queries now l pending = Returned (pending', out) →
  waiting_in pending' = waiting_in pending ∧ client_replies out = 0%nat.
Proof.
  revert pending out. induction l as [|xid l IH]; intros pending out Hp; cbn [retry_queries].
  { by intros [= <- <-]. }
  destruct (pending !! xid) as [q|] eqn:Hq; [|by apply IH].
  destruct (failover_spec now q xid (Hp _ _ Hq)) as [[_ ->] | (ip & _ & _ & _ & Hq' & ->)]; simpl.
  { by apply IH. }
  destruct (retry_queries now l _) as [[p' o']|] eqn:E; [|done]. intros [= <- <-].
  apply IH in E as [E1 E2]; [|by apply map_Forall_insert_2]. simpl. split; [|done].
  pose proof (waiting_update pending xid q (failed_over now q) Hq). simpl in *. lia.
Qed.

Lemma forward_waiting now env query origin key pending servers p o :
  whole query →
  forward_new_client_query now env query origin key pending servers = Returned (p, o) →
  (waiting_in p ≤ waiting_in pending + 1)%nat ∧ client_replies o = 0%nat.
Proof.
  intros Hq. destruct (new_client_ok query origin Hq) as (c & Ec & _ & _).
  unfold forward_new_client_query. rewrite Ec.
  case_bool_decide; [intros [= <- <-]; split; [lia | done] |].
  destruct (allocate_unique_xid _ _) as [xid|] eqn:Ea; [|intros [= <- <-]; split; [lia | done]].
  unfold allocate_unique_xid in Ea. rewrite bool_decide_false in Ea by done.
  apply draw_xid_Some in Ea as (_ & _ & Hn). simpl.
  destruct (index _ 0) as [srv|]; [|done]. simpl. destruct (set_xid query xid); [|done]. simpl.
  destruct (fe_send_ok env); intros [= <- <-]; (split; [|done]); [|lia].
  rewrite waiting_insert by done. simpl. lia.
Qed.

Lemma join_waiting pending key query origin p :
  whole query → try_join_in_flight_query pending key query origin = Returned (Some p) →
  waiting_in p = (waiting_in pending + 1)%nat.
Proof.
  intros Hq. destruct (new_client_ok query origin Hq) as (c & Ec & _ & _).
  unfold try_join_in_flight_query. rewrite Ec.
  destruct (iter_find _ _) as [[xid q]|] eqn:Hf; [|done].
  case_bool_decide; [done |]. simpl. intros [= <-].
  apply iter_find_Some in Hf as (i & Hi%list_elem_of_lookup_2%elem_of_hash_iter & _).
  set (q' := mkPendingQuery _ _ _ _ _ _).
  pose proof (waiting_update pending xid q q' Hi) as Hu.
  unfold q' in Hu at 2. simpl in Hu. rewrite length_app in Hu. simpl in Hu. lia.
Qed.

Lemma cache_miss_waiting now env query origin key s s' out :
  whole query → handle_cache_miss now env query origin key s = Returned (s', out) →
  (client_replies out + waiting s' ≤ waiting s + 1)%nat.
Proof.
  intros Hq. unfold handle_cache_miss.
  destruct (sa_ip (peer_addr origin)) as [ip|]; [|intros [= <- <-]; simpl; lia].
  destruct (limiter_check _ _ _) as [[] l]; cbn [negb];
    [|intros [= <- <-]; unfold waiting; simpl; lia].
  destruct (try_join_in_flight_query _ _ _ _) as [[p|]|] eqn:Ej; simpl; [| |done].
  - intros [= <- <-]. apply join_waiting in Ej; [|done]. unfold waiting. simpl in *. lia.
  - destruct (forward_new_client_query _ _ _ _ _ _ _) as [[p o]|] eqn:Ef; [|done].
    intros [= <- <-]. apply forward_waiting in Ef as [E1 E2]; [|done].
    unfold waiting. simpl in *. lia.
Qed.

Lemma incoming_waiting now env query origin s s' out :
  handle_incoming_query now env query origin s = Returned (s', out) →
  (client_replies out + waiting s' ≤ waiting s + 1)%nat.
Proof.
  unfold handle_incoming_query. case_bool_decide as Hw; [intros [= <- <-]; simpl; lia |].
  destruct (try_resolve_local_query _ _ _) as [r|].
  { intros [= <- <-]. unfold client_replies, waiting. destruct origin; simpl; lia. }
  destruct (get_cache_key query) as [key|]; [|intros [= <- <-]; unfold waiting; simpl; lia].
  destruct (lookup_cache _ _ _) as [hit cache]. destruct hit as [r|].
  - destruct (index query 0) as [q0|]; [|done]. simpl. destruct (index_set r 0 q0) as [r1|]; [|done].
    simpl. destruct (index query 1) as [q1|]; [|done]. simpl.
    destruct (index_set r1 1 q1) as [r2|]; [|done]. intros [= <- <-].
    unfold client_replies, waiting. destruct origin; simpl; lia.
  - intros E. apply cache_miss_waiting in E; [exact E |]. unfold whole. lia.
Qed.

Lemma sum_delete (l : list TcpFallback) i t :
  l !! i = Some t →
  sum_list_with (length ∘ tf_clients) l
  = (length (tf_clients t) + sum_list_with (length ∘ tf_clients) (delete i l))%nat.
Proof.
  revert i. induction l as [|x l IH]; intros [|i]; simpl; try done; [by intros [= ->] |].
  intros H. rewrite (IH i H). lia.
Qed.

Lemma fw_event_waiting now env e s s' out :
  fw_inv now s → fw_event now env e s = Returned (s', out) →
  (client_replies out + waiting s' ≤ waiting s + Nat.b2n (is_client_query e))%nat.
Proof.
  intros H. destruct e as [| msg | src query | peer tx query | from_addr reply | i stream];
    cbn [fw_event is_client_query Nat.b2n].
  - unfold handle_cleanup, check_pending_timeouts. simpl.
    destruct (retry_queries _ _ _) as [[p o]|] eqn:E; [|done]. intros [= <- <-].
    apply retry_waiting in E as [E1 E2];
      [|intros k q [Hk _]%retain_lookup; by apply (fi_pending _ _ H k)].
    pose proof (waiting_retain (λ _ q, negb (timed_out now q) || has_next_server q) (fw_pending s)).
    rewrite client_replies_cons, E2. unfold waiting. simpl in *. lia.
  - intros [= <- <-]. destruct msg; unfold waiting; simpl; lia.
  - by apply incoming_waiting.
  - by apply incoming_waiting.
  - intros E. destruct (upstream_reply_cases now reply from_addr s s' out H E)
      as [[-> ->] | (xid & q & (_ & Hq & _) & [[Ho ->] | [[-> (ip & _ & ->)] | [-> (t & Ht & _ & ->)]]])].
    + simpl. lia.
    + apply delivered_count in Ho. pose proof (waiting_delete _ _ _ Hq).
      unfold waiting. simpl. lia.
    + pose proof (waiting_update _ _ _ (failed_over now q) Hq). unfold waiting. simpl in *. lia.
    + pose proof (waiting_delete _ _ _ Hq). unfold waiting. simpl.
      rewrite sum_list_with_app. simpl. rewrite Ht. lia.
  - destruct (fw_fallbacks s !! i) as [t|] eqn:Ht; [|intros [= <- <-]; simpl; lia].
    pose proof (Forall_lookup_1 _ _ _ _ (fi_fallbacks _ _ H) Ht) as Hok.
    destruct (fetch_ok t stream Hok) as (r & -> & Hr). destruct Hok as (_ & Hf & Hc).
    pose proof (sum_delete _ _ _ Ht) as Hsum. destruct r as [b|]; simpl.
    + destruct (fanout_delivered (tf_clients t) b (Hr b eq_refl) Hc) as (o & -> & Ho).
      intros [= <- <-]. apply delivered_count in Ho. unfold waiting. simpl. lia.
    + destruct (fanout_delivered (tf_clients t) _ Hf Hc) as (o & -> & Ho).
      intros [= <- <-]. apply delivered_count in Ho. unfold waiting. simpl. lia.
Qed.

(** The forwarder does not amplify: over any run, the replies it has sent
    to clients together with the clients still waiting are at most the queries
    that clients have sent. *)
Theorem one_reply_per_query now events s out :
  fw_clock now events → run_forwarder_loop events Forwarder_new = Returned (s, out) →
  (client_replies out + waiting s
   ≤ length (filter (λ e, is_client_query e.2 = true) events))%nat.
Proof.
  intros Hck Hrun.
  assert (∀ s0, fw_inv now s0 → run_forwarder_loop events s0 = Returned (s, out) →
    (client_replies out + waiting s
     ≤ waiting s0 + length (filter (λ e, is_client_query e.2 = true) events))%nat) as Hgen;
    [|apply (Hgen _ (new_inv now) Hrun)].
  clear Hrun. revert now Hck out. induction events as [|[[t env] e] events IH];
    intros now Hck out s0 Hs0; cbn [run_forwarder_loop].
  - intros [= -> <-]. simpl. lia.
  - destruct Hck as [Hle Hck]. apply (fw_inv_later _ t) in Hs0; [|done].
    pose proof (fw_event_ok t env e s0 Hs0) as Hok.
    destruct (fw_event t env e s0) as [[s1 o1]|] eqn:E; [|done]. simpl.
    apply fw_event_waiting in E; [|done]. destruct Hok as [H1 _].
    destruct (run_forwarder_loop events s1) as [[s2 o2]|] eqn:E2; [|done]. intros [= -> <-].
    specialize (IH t Hck o2 s1 H1 E2). rewrite client_replies_app, filter_cons.
    destruct (is_client_query e) eqn:Eq; simpl in *; rewrite ?Eq in *; simpl in *; lia.
Qed.
End replies.

(** ** Time-outs *)

(** What a clean-up at [now] makes of a query in flight. *)
Definition after_timeout now q : option PendingQuery :=
  if timed_out now q then if has_next_server q then Some (failed_over now q) else None
  else Some q.

Lemma bool_decide_cons_ne (x y : Z) l : x ≠ y → bool_decide (x ∈ y :: l) = bool_decide (x ∈ l).
Proof. intros Hne. apply bool_decide_ext. rewrite elem_of_cons. naive_solver. Qed.

Lemma retry_lookup now l pending pending' out :
  map_Forall (λ _, query_ok) pending → NoDup l →
  retry_queries now l pending = Returned (pending', out) →
  (∀ xid, pending' !! xid =
    (q ← pending !! xid;
     if bool_decide (xid ∈ l) && has_next_server q then Some (failed_over now q) else Some q)) ∧
  ∀ o, o ∈ out ↔ ∃ xid q ip, xid ∈ l ∧ pending !! xid = Some q ∧
    pq_upstream_servers q !! S (pq_current_server_idx q) = Some ip ∧
    o = ToUpstream ip (with_xid (pq_query_payload q) xid).
Proof.
  revert pending pending' out. induction l as [|x l IH]; intros pending pending' out Hp Hnd;
    cbn [retry_queries].
  { intros [= <- <-]. split.
    - intros xid. by destruct (pending !! xid).
    - intros o. split; [by intros ?%not_elem_of_nil | by intros (? & ? & ? & ?%not_elem_of_nil & _)]. }
  apply NoDup_cons in Hnd as [Hx Hnd].
  destruct (pending !! x) as [q|] eqn:Hq.
  2: { intros E. destruct (IH _ _ _ Hp Hnd E) as [H1 H2]. split.
       - intros xid. rewrite H1. destruct (pending !! xid) as [q|] eqn:Exid; [|done]. simpl.
         rewrite bool_decide_cons_ne by congruence. done.
       - intros o. rewrite H2. setoid_rewrite elem_of_cons. naive_solver. }
  destruct (failover_spec now q x (Hp _ _ Hq)) as [[Hn ->] | (ip & Hn & Hip & _ & Hq' & ->)]; simpl.
  - intros E. destruct (IH _ _ _ Hp Hnd E) as [H1 H2]. split.
    + intros xid. rewrite H1. destruct (decide (xid = x)) as [-> | Hne].
      * rewrite Hq. simpl. by rewrite Hn, !andb_false_r.
      * by rewrite bool_decide_cons_ne.
    + intros o. rewrite H2. setoid_rewrite elem_of_cons.
      assert (pq_upstream_servers q !! S (pq_current_server_idx q) = None) as Hnone.
      { apply lookup_ge_None_2. unfold has_next_server in Hn. apply bool_decide_eq_false in Hn. lia. }
      naive_solver.
  - destruct (retry_queries now l _) as [[p o']|] eqn:E; [|done]. intros [= <- <-].
    assert (map_Forall (λ _, query_ok) (<[x := failed_over now q]> pending)) as Hp'
      by (by apply map_Forall_insert_2).
    destruct (IH _ _ _ Hp' Hnd E) as [H1 H2]. split.
    + intros xid. rewrite H1. destruct (decide (xid = x)) as [-> | Hne].
      * rewrite lookup_insert_eq, Hq. simpl. rewrite Hn.
        rewrite (bool_decide_false (x ∈ l)) by done.
        by rewrite bool_decide_true by (by apply elem_of_cons; left).
      * by rewrite lookup_insert_ne, bool_decide_cons_ne by done.
    + intros o. rewrite elem_of_cons, H2. setoid_rewrite elem_of_cons. split.
      * intros [-> | (xid & q1 & ip1 & Hl & Hl2 & H)]; [by exists x, q, ip; auto |].
        exists xid, q1, ip1. rewrite lookup_insert_ne in Hl2 by congruence. auto.
      * intros (xid & q1 & ip1 & [-> | Hl] & Hl2 & Hip1 & ->); [left; congruence |].
        right. exists xid, q1, ip1. rewrite lookup_insert_ne by congruence. auto.
Qed.

Lemma timeouts_lookup now s :
  fw_inv now s →
  ∃ p out, check_pending_timeouts now (fw_pending s) = Returned (p, out) ∧
    (∀ xid, p !! xid = fw_pending s !! xid ≫= after_timeout now) ∧
    ∀ o, o ∈ out ↔ ∃ xid q ip, fw_pending s !! xid = Some q ∧ timed_out now q = true ∧
      pq_upstream_servers q !! S (pq_current_server_idx q) = Some ip ∧
      o = ToUpstream ip (with_xid (pq_query_payload q) xid).
Proof.
  intros H. unfold check_pending_timeouts.
  set (l := (filter _ _).*1). set (p0 := retain _ _).
  assert (map_Forall (λ _, query_ok) p0) as Hp0
    by (intros k q [Hk _]%retain_lookup; by apply (fi_pending _ _ H k)).
  assert (NoDup l) as Hnd.
  { eapply sublist_NoDup; [apply (hash_iter_NoDup_fst (fw_pending s)) | apply fmap_sublist, sublist_filter]. }
  assert (∀ xid, xid ∈ l ↔ ∃ q, fw_pending s !! xid = Some q ∧ timed_out now q = true ∧
    has_next_server q = true) as Hl.
  { intros xid. unfold l. rewrite list_elem_of_fmap. split.
    - intros ([x q] & -> & [Hf%andb_true_iff Hi%elem_of_hash_iter]%list_elem_of_filter).
      exists q. by destruct Hf.
    - intros (q & Hq & Ht & Hn). exists (xid, q). split; [done |]. apply list_elem_of_filter.
      split; [simpl; by rewrite Ht, Hn | by apply elem_of_hash_iter]. }
  destruct (retry_ok now l p0 Hp0) as (p & out & E & _ & _ & _).
  destruct (retry_lookup now l p0 p out Hp0 Hnd E) as [H1 H2].
  exists p, out. split; [done |]. split.
  - intros xid. rewrite H1. unfold p0. clear H1 H2 E.
    destruct (retain _ (fw_pending s) !! xid) as [q|] eqn:Er.
    + apply retain_lookup in Er as [Hq Hk]. rewrite Hq. simpl. unfold after_timeout.
      destruct (timed_out now q) eqn:Et; simpl in Hk.
      * rewrite Hk, bool_decide_true by (apply Hl; eauto). done.
      * rewrite bool_decide_false; [done |]. intros (q' & Hq' & Ht & _)%Hl. congruence.
    + simpl. destruct (fw_pending s !! xid) as [q|] eqn:Hq; [|done]. simpl. unfold after_timeout.
      destruct (negb (timed_out now q) || has_next_server q) eqn:Ek.
      { assert (retain (λ _ q, negb (timed_out now q) || has_next_server q) (fw_pending s) !! xid
          = Some q) by (by apply retain_lookup). congruence. }
      apply orb_false_iff in Ek as [->%negb_false_iff ->]. done.
  - intros o. rewrite H2. clear H1 H2 E. split.
    + intros (xid & q & ip & (q' & Hq' & Ht & _)%Hl & [Hq _]%retain_lookup & Hip & ->).
      exists xid, q, ip. split_and!; [done | congruence | done | done].
    + intros (xid & q & ip & Hq & Ht & Hip & ->). exists xid, q, ip.
      assert (has_next_server q = true) as Hn
        by (apply bool_decide_eq_true; by eapply lookup_lt_Some).
      split_and!; [apply Hl; eauto | apply retain_lookup; by rewrite Hn, orb_true_r | done | done].
Qed.

(** A clean-up handles every query in flight as it should: one whose
    deadline has not passed is kept as it is; one whose deadline has passed is
    sent to its next server, with its own transaction id and a new deadline,
    and if there is no other server it is dropped; nothing else is sent
    upstream. *)
Theorem check_pending_timeouts_spec now s :
  fw_inv now s →
  ∃ p out, check_pending_timeouts now (fw_pending s) = Returned (p, out) ∧
    (∀ xid, p !! xid = fw_pending s !! xid ≫= after_timeout now) ∧
    ∀ o, o ∈ out ↔ ∃ xid q ip, fw_pending s !! xid = Some q ∧ timed_out now q = true ∧
      pq_upstream_servers q !! S (pq_current_server_idx q) = Some ip ∧
      o = ToUpstream ip (with_xid (pq_query_payload q) xid).
Proof. apply timeouts_lookup. Qed.

(** Clean-ups that leave each server its time. *)
Fixpoint spaced (deadline : Instant) (ticks : list Instant) : Prop :=
  match ticks with
  | [] => True
  | t :: ticks' => deadline ≤ t ∧ spaced (t + UPSTREAM_TIMEOUT) ticks'
  end.
Definition cleanups (ticks : list Instant) : list (Instant * FwEnv * FwEvent) :=
  (λ t, (t, mkFwEnv [] true, FwCleanup)) <$> ticks.

Lemma cleanup_pending now s :
  fw_inv now s →
  ∃ s' out, handle_cleanup now s = Returned (s', out) ∧ fw_inv now s' ∧
    ∀ xid, fw_pending s' !! xid = fw_pending s !! xid ≫= after_timeout now.
Proof.
  intros H. pose proof (cleanup_ok now s H) as Hok. unfold handle_cleanup in *. simpl in *.
  destruct (timeouts_lookup now s H) as (p & out & E & Hp & _). rewrite E in *. simpl in *.
  eexists _, _. split; [done |]. split; [apply Hok | done].
Qed.

(** A query does not stay in flight for ever: if no answer comes, then
    after as many clean-ups past a deadline as it has servers left it is gone,
    whatever else is in flight. *)
Theorem unanswered_query_ends now s xid q ticks :
  fw_inv now s → fw_pending s !! xid = Some q → now ≤ pq_deadline q →
  spaced (pq_deadline q) ticks →
  (length (pq_upstream_servers q) - pq_current_server_idx q ≤ length ticks)%nat →
  ∃ s' out, run_forwarder_loop (cleanups ticks) s = Returned (s', out) ∧
    fw_pending s' !! xid = None.
Proof.
  intros H Hq Hle Hsp Hlen.
  assert (fw_pending s !! xid = None ∨ ∃ q, fw_pending s !! xid = Some q ∧ now ≤ pq_deadline q ∧
    spaced (pq_deadline q) ticks ∧
    (length (pq_upstream_servers q) - pq_current_server_idx q ≤ length ticks)%nat) as Hc by eauto 10.
  assert (fw_pending s !! xid = None → ∃ d, now ≤ d ∧ spaced d ticks) as Hd by congruence.
  clear Hq Hle Hsp Hlen q. revert now s H Hc Hd.
  induction ticks as [|t ticks IH]; intros now s H Hc Hd.
  { exists s, []. split; [done |]. destruct Hc as [Hn | (q & Hq & _ & _ & Hl)]; [done |].
    pose proof (qo_idx _ (fi_pending _ _ H _ _ Hq)). simpl in Hl. lia. }
  assert (now ≤ t ∧ spaced (t + UPSTREAM_TIMEOUT) ticks) as [Ht Hsp].
  { destruct Hc as [Hn | (q & Hq & Hle & [Hs1 Hs2] & _)]; [|split; [lia | done]].
    destruct (Hd Hn) as (d & ? & [? ?]). split; [lia | done]. }
  apply (fw_inv_later _ t) in H; [|done].
  destruct (cleanup_pending t s H) as (s1 & o1 & E & H1 & Hp). cbn [cleanups fmap list_fmap].
  cbn [run_forwarder_loop fw_event]. rewrite E. cbn [mbind outcome_bind fst snd].
  destruct (IH t s1 H1) as (s2 & o2 & E2 & Hn2).
  - rewrite Hp. destruct Hc as [-> | (q & Hq & Hle & [Hs1 Hs2] & Hl)]; [by left |]. rewrite Hq. simpl.
    unfold after_timeout, timed_out. rewrite bool_decide_true by done. destruct (has_next_server q) eqn:Hn; [|by left].
    right. eexists. split; [done |]. unfold has_next_server in Hn. apply bool_decide_eq_true in Hn.
    cbn [length] in Hl. unfold failed_over. cbn [pq_deadline pq_upstream_servers pq_current_server_idx].
    split_and!; [unfold UPSTREAM_TIMEOUT, from_secs, NANOS; lia | done | lia].
  - intros _. exists (t + UPSTREAM_TIMEOUT). split; [|done].
    unfold UPSTREAM_TIMEOUT, from_secs, NANOS. lia.
  - exists s2, (o1 ++ o2). split; [|done]. unfold cleanups in E2. by rewrite E2.
Qed.

(** ** The cache *)

Lemma foldl_min_spec t ts :
  foldl Z.min t ts ∈ t :: ts ∧ ∀ x, x ∈ t :: ts → foldl Z.min t ts ≤ x.
Proof.
  revert t. induction ts as [|y ts IH]; intros t.
  { split; [apply list_elem_of_here |]. intros x ->%list_elem_of_singleton. simpl. lia. }
  cbn [foldl]. destruct (IH (Z.min t y)) as [H1 H2]. split.
  - apply elem_of_cons in H1 as [-> | H1]; [|by do 2 apply list_elem_of_further].
    destruct (Z.min_spec t y) as [[_ ->] | [_ ->]];
      [apply list_elem_of_here | apply list_elem_of_further, list_elem_of_here].
  - pose proof (H2 _ (list_elem_of_here _ _)) as Hm.
    intros x [-> | [-> | Hx]%elem_of_cons]%elem_of_cons; [lia | lia |].
    apply H2. by apply list_elem_of_further.
Qed.

Definition is_soa (r : DnsRecord Name) : bool :=
  match rr_data r with RdSOA _ => true | _ => false end.

(** The life of a negative reply: from the first SOA record, if there is one. *)
Definition negative_life (authorities : list (DnsRecord Name)) (d : Duration) : Prop :=
  (∃ pre r m post, authorities = pre ++ r :: post ∧ Forall (λ x, is_soa x = false) pre ∧
     rr_data r = RdSOA m ∧
     d = from_secs (clamp MIN_NEGATIVE_TTL_SECS MAX_NEGATIVE_TTL_SECS (Z.min (rr_ttl r) m))) ∨
  (Forall (λ x, is_soa x = false) authorities ∧ d = from_secs DEFAULT_NEGATIVE_TTL_SECS).

Lemma negative_life_cons r l d : is_soa r = false → negative_life (r :: l) d ↔ negative_life l d.
Proof.
  intros Hr. unfold negative_life. rewrite list.Forall_cons. split.
  - intros [(pre & r' & m & post & E & Hp & Er & ->) | ((_ & H) & ->)]; [|by right].
    destruct pre as [|x pre]; simplify_eq/=; [by unfold is_soa in Hr; rewrite Er in Hr |].
    apply list.Forall_cons in Hp as [_ Hp]. left. by exists pre, r', m, post.
  - intros [(pre & r' & m & post & -> & Hp & Er & ->) | (H & ->)]; [|by right].
    left. exists (r :: pre), r', m, post. split_and!; [done | by constructor | done | done].
Qed.

Lemma negative_ttl_life l d : negative_ttl_of l = d ↔ negative_life l d.
Proof.
  induction l as [|r l IH]; cbn [negative_ttl_of].
  { split; [intros <-; right; split; [constructor | done] |].
    intros [([|??] & ? & ? & ? & ? & _) | [_ ->]]; done. }
  destruct (is_soa r) eqn:Hs; unfold is_soa in Hs; destruct (rr_data r) as [| |m|] eqn:Er; try done;
    try (rewrite IH, negative_life_cons; [done | by unfold is_soa; rewrite Er]).
  split; [intros <-; left; exists [], r, m, l; by split_and!; [|constructor | |] |].
  intros [(pre & r' & m' & post & E & Hp & Er' & ->) | [H _]].
  - destruct pre as [|x pre]; simplify_eq/=.
    { rewrite Er in Er'. by injection Er' as ->. }
    apply list.Forall_cons in Hp as [Hp _]. by unfold is_soa in Hp; rewrite Er in Hp.
  - apply list.Forall_cons in H as [Hp _]. by unfold is_soa in Hp; rewrite Er in Hp.
Qed.

Lemma least_ttl r0 rs d :
  (∃ r, r ∈ r0 :: rs ∧ (∀ r', r' ∈ r0 :: rs → rr_ttl r ≤ rr_ttl r') ∧
     rr_ttl r ≠ 0 ∧ d = from_secs (Z.min MAX_TTL_SECS (rr_ttl (Name := Name) r))) ↔
  foldl Z.min (rr_ttl r0) (rr_ttl <$> rs) ≠ 0 ∧
  d = from_secs (Z.min MAX_TTL_SECS (foldl Z.min (rr_ttl r0) (rr_ttl <$> rs))).
Proof.
  destruct (foldl_min_spec (rr_ttl r0) (rr_ttl <$> rs)) as [H1 H2].
  rewrite <-(fmap_cons rr_ttl r0 rs) in H1, H2.
  apply list_elem_of_fmap in H1 as (r & Er & Hr). split.
  - intros (r' & Hr' & Hle & Hz & ->).
    assert (foldl Z.min (rr_ttl r0) (rr_ttl <$> rs) = rr_ttl r') as ->; [|done].
    apply Z.le_antisymm; [by apply H2, list_elem_of_fmap_2 | rewrite Er; by apply Hle].
  - intros [Hz ->]. exists r. rewrite <-Er. split_and!; [done | | done | done].
    intros r' Hr'. by apply H2, list_elem_of_fmap_2.
Qed.

(** How long a reply is cached.  Exactly the untruncated responses that
    report success or a missing name are cached, except those with an answer
    whose time-to-live is zero; errors never are.  A successful reply with
    answers is kept for the least time-to-live among them, at most an hour; a
    negative reply for the lesser of the time-to-live and the minimum of its
    first SOA record, brought into 5 to 300 seconds, and for a minute if it
    has no SOA record. *)
Theorem calculate_cache_ttl_spec (packet : DnsMessage Name) d :
  calculate_cache_ttl packet = Some d ↔
  dm_truncation packet = false ∧ dm_message_type packet = MtResponse ∧
  ((dm_response_code packet = RcNoError ∧ ∃ r, r ∈ dm_answers packet ∧
      (∀ r', r' ∈ dm_answers packet → rr_ttl r ≤ rr_ttl r') ∧
      rr_ttl r ≠ 0 ∧ d = from_secs (Z.min MAX_TTL_SECS (rr_ttl r))) ∨
   ((dm_response_code packet = RcNoError ∧ dm_answers packet = [] ∨
     dm_response_code packet = RcNXDomain) ∧
    negative_life (dm_authorities packet) d)).
Proof.
  rewrite <-negative_ttl_life. fold (calculate_negative_ttl packet).
  unfold calculate_cache_ttl. destruct (dm_truncation packet); [naive_solver |]. simpl orb.
  case_bool_decide as Hmt; [naive_solver |].
  destruct (dm_response_code packet) eqn:Erc; try naive_solver.
  destruct (dm_answers packet) as [|r0 rs] eqn:Ea.
  { simpl. split; [naive_solver |]. intros (_ & _ & [(_ & r & []%not_elem_of_nil & _) | ?]); naive_solver. }
  rewrite least_ttl. cbn [fmap list_fmap]. case_bool_decide; naive_solver.
Qed.

Lemma make_room_lost now key cache k e :
  cache !! k = Some e → make_room now key cache !! k = None →
  MAX_CACHE_ENTRIES ≤ cache_len cache ∧ cache !! key = None ∧
  (ce_expiry e ≤ now ∨
   ∀ k' e', cache !! k' = Some e' → now < ce_expiry e' → ce_expiry e ≤ ce_expiry e').
Proof.
  intros Hk. unfold make_room.
  destruct (bool_decide_reflect (MAX_CACHE_ENTRIES ≤ cache_len cache)) as [Hf | Hf];
    [|cbn [andb]; congruence].
  destruct (cache !! key) as [e0|] eqn:Ek.
  { rewrite (bool_decide_true (is_Some (Some e0))) by (by eexists). cbn [negb andb]. congruence. }
  rewrite (bool_decide_false (is_Some None)) by (by intros []). cbn [negb andb].
  intros Hlost. split_and!; [done | done |].
  destruct (decide (ce_expiry e ≤ now)) as [Hexp | Hlive]; [by left |]. right.
  assert (evict_expired_cache now cache !! k = Some e) as Hek.
  { apply retain_lookup. split; [done |]. apply bool_decide_eq_true. lia. }
  case_bool_decide as Hfull; [|congruence].
  pose proof (min_by_expiry_spec (hash_iter (evict_expired_cache now cache))) as Hm.
  destruct (min_by_expiry _) as [[k0 e0]|]; [|congruence]. destruct Hm as [Hin Hmin].
  destruct (decide (k0 = k)) as [-> | Hne]; [|rewrite lookup_delete_ne in Hlost by done; congruence].
  apply elem_of_hash_iter in Hin. rewrite Hek in Hin. injection Hin as <-.
  intros k' e' Hk' Hl'. apply (Hmin (k', e')). apply elem_of_hash_iter, retain_lookup.
  split; [done |]. by apply bool_decide_eq_true.
Qed.

(** The cache gives back what was put in, for exactly as long as the
    reply may be cached, and a reply that may not be cached leaves the cache as
    it was.  Another entry is only lost when the cache is full and the key is
    new, and then only if it has expired or no live entry expires earlier. *)
Theorem insert_cache_spec now key response cache :
  match (if decide (whole response) then from_bytes response ≫= calculate_cache_ttl else None) with
  | None => insert_cache now key response cache = cache
  | Some d =>
      (∀ now', (lookup_cache now' key (insert_cache now key response cache)).1
         = if decide (now' < now + d) then Some response else None) ∧
      ∀ k e, k ≠ key → cache !! k = Some e →
        insert_cache now key response cache !! k = Some e ∨
        insert_cache now key response cache !! k = None ∧
        MAX_CACHE_ENTRIES ≤ cache_len cache ∧ cache !! key = None ∧
        (ce_expiry e ≤ now ∨
         ∀ k' e', cache !! k' = Some e' → now < ce_expiry e' → ce_expiry e ≤ ce_expiry e')
  end.
Proof.
  unfold insert_cache. case_decide as Hw; [|by rewrite bool_decide_true by (unfold whole in Hw; lia)].
  rewrite bool_decide_false by (unfold whole in Hw; lia).
  destruct (from_bytes response ≫= calculate_cache_ttl) as [d|]; [|done]. split.
  - intros now'. unfold lookup_cache. rewrite lookup_insert_eq. cbn [ce_expiry ce_response].
    case_decide; [by rewrite bool_decide_true | by rewrite bool_decide_false].
  - intros k e Hne Hk. rewrite lookup_insert_ne by done.
    destruct (make_room now key cache !! k) as [e'|] eqn:Er.
    + left. apply (lookup_weaken _ cache) in Er; [congruence | apply make_room_subseteq].
    + right. split; [done |]. by eapply make_room_lost.
Qed.

(** ** Local names *)

(** A name as it is compared: without the final dot, in lower case. *)
Definition canonical (name : str) : str := to_ascii_lowercase (trim_end_matches 46 name).

Lemma extract_lan name label :
  canonical name = label ++ lit ".lan" → 46 ∉ label →
  extract_local_forward_name name = Some (label, true).
Proof.
  intros Hn Hl. unfold extract_local_forward_name. fold (canonical name). rewrite Hn.
  assert (strip_suffix (46 :: LOCAL_DOMAIN) (label ++ lit ".lan") = Some label) as ->
    by (by apply strip_suffix_Some).
  rewrite bool_decide_false; [|intros E; apply (f_equal length) in E; rewrite length_app in E;
    simpl in E; lia].
  rewrite bool_decide_false by (by destruct label). cbn [orb].
  unfold contains_char. by rewrite bool_decide_false.
Qed.

Lemma extract_single name :
  46 ∉ canonical name → canonical name ≠ [] → canonical name ≠ LOCAL_DOMAIN →
  extract_local_forward_name name = Some (canonical name, false).
Proof.
  intros Hd Hn Hl. unfold extract_local_forward_name. fold (canonical name).
  rewrite !bool_decide_false by done. cbn [orb].
  destruct (strip_suffix _ _) as [p|] eqn:E.
  { apply strip_suffix_Some in E. destruct Hd. rewrite E. apply elem_of_app. right.
    apply list_elem_of_here. }
  unfold contains_char. by rewrite bool_decide_false.
Qed.

Lemma extract_mdns name :
  canonical name = MDNS_DOMAIN ∨ (∃ p, canonical name = p ++ 46 :: MDNS_DOMAIN) →
  is_mdns_local_domain name = true ∧
  ∀ label, extract_local_forward_name name ≠ Some (label, true).
Proof.
  intros Hn. unfold is_mdns_local_domain, extract_local_forward_name. fold (canonical name). split.
  - destruct Hn as [-> | (p & ->)]; [done |]. apply orb_true_iff. right.
    apply bool_decide_eq_true. exists p. by apply strip_suffix_Some.
  - intros label. destruct (_ || _); [done |].
    destruct (strip_suffix (46 :: LOCAL_DOMAIN) (canonical name)) as [p|] eqn:E.
    + exfalso. apply strip_suffix_Some in E. apply (f_equal (last)) in E.
      destruct Hn as [Hn | (p' & Hn)]; rewrite Hn in E;
        rewrite ?last_app in E; vm_compute in E; congruence.
    + by destruct (negb _).
Qed.

(** Local names stay local.  A query for a host of the [.lan] domain (one
    label under it), registered or not, for any record type; a query for a
    registered host by its bare name; and a query other than for a PTR record
    for a name under [.local] are answered by the forwarder itself, once:
    nothing is sent upstream, and neither the cache nor the queries in flight
    change. *)
Theorem local_names_stay_local now env query origin s msg question rest :
  whole query → from_bytes query = Some msg → dm_op_code msg = OpQuery →
  dm_queries msg = question :: rest →
  let n := canonical (name_to_utf8 (q_name question)) in
  ((∃ label, n = label ++ lit ".lan" ∧ 46 ∉ label) ∨
   ((46 ∉ n) ∧ n ≠ [] ∧ n ≠ LOCAL_DOMAIN ∧ is_Some (fw_local_hosts s !! n)) ∨
   (q_type question ≠ RtPTR ∧ (n = MDNS_DOMAIN ∨ ∃ p, n = p ++ 46 :: MDNS_DOMAIN))) →
  ∃ reply, handle_incoming_query now env query origin s
    = Returned (set_stats (count_query (fw_stats s)) s, [send_reply origin reply None]).
Proof.
  intros Hw Hm Hop Hqs n Hn. unfold handle_incoming_query.
  rewrite bool_decide_false by (unfold whole in Hw; lia).
  assert (∃ reply, try_resolve_local_query query (fw_local_hosts s) (fw_local_ips s) = Some reply)
    as (reply & Hr); [|exists reply; cbn [fw_local_hosts fw_local_ips set_stats]; by rewrite Hr].
  unfold try_resolve_local_query. rewrite Hm. simpl. unfold resolve_local.
  rewrite bool_decide_false by (intros Hx; by apply Hx). rewrite Hqs.
  destruct Hn as [(label & Hl & Hd) | [(Hd & Hne & Hl & [ip Hip]) | [Hpt Hmd]]].
  - rewrite (extract_lan _ label Hl Hd). destruct (fw_local_hosts s !! label); [|by eexists].
    case_bool_decide; by eexists.
  - rewrite (extract_single _ Hd Hne Hl). fold n. rewrite Hip. case_bool_decide; by eexists.
  - destruct (extract_mdns _ Hmd) as [Hm1 Hm2].
    destruct (extract_local_forward_name _) as [[label []]|]; [by destruct (Hm2 label) | |].
    + destruct (fw_local_hosts s !! label); [case_bool_decide; by eexists |].
      rewrite (bool_decide_false (q_type question = RtPTR)) by done. rewrite Hm1. by eexists.
    + rewrite (bool_decide_false (q_type question = RtPTR)) by done. rewrite Hm1. by eexists.
Qed.
End forwarder_spec.

(** ** A LAN with one resolver *)

Module DnsExample.
#[local] Existing Instance forward_order.
#[local] Existing Instance exact_binary64.

(** A stand-in for the wire format: after the header, one byte tells the
    message. *)
Definition question (name : string) (t : RecordType) : DnsMessage str :=
  mkDnsMessage 0 MtQuery OpQuery false false true false RcNoError
    [mkDnsQuery (lit name) t 1] [] [] None.
Definition answer (ttl : Z) (rcode : ResponseCode) : DnsMessage str :=
  mkDnsMessage 0 MtResponse OpQuery false false true true rcode
    [mkDnsQuery (lit "www.example.com.") RtA 1]
    [mkDnsRecord (lit "www.example.com.") ttl (RdA (ipv4 93 184 216 34))] [] None.
Definition parse (bytes : list Z) : option (DnsMessage str) :=
  match bytes !! 12%nat with
  | Some 1 => Some (question "www.example.com." RtA)
  | Some 2 => Some (answer 300 RcNoError)
  | Some 3 => Some (answer 300 RcServFail)
  | Some 4 => Some (question "_ipp._tcp.local." RtPTR)
  | Some 5 => Some (question "nas.home.lan." RtA)
  | Some 6 => Some (question "NAS.lan." RtA)
  | _ => None
  end.
(** A message is written with the header it was read with: its truncation is
    marked by its id. *)
#[local] Instance toy : Hickory str := {|
  from_bytes bytes :=
    match bytes with
    | b0 :: b1 :: _ =>
        (λ m, mkDnsMessage (b0 * 65536 + b1) (dm_message_type m) (dm_op_code m)
                (dm_authoritative m) (dm_truncation m) (dm_recursion_desired m)
                (dm_recursion_available m) (dm_response_code m) (dm_queries m) (dm_answers m)
                (dm_authorities m) (dm_edns m)) <$>
        (if bool_decide (0 ≤ b1 < 65536) then parse bytes else None)
    | _ => None
    end;
  emit m := (true, [dm_id m / 65536; dm_id m mod 65536] ++ replicate 10 0);
  truncate_msg m := m;
  name_to_ascii n := n;
  name_to_utf8 n := n;
  name_from_ascii n := Some n;
  parse_arpa_name n := None;
  record_type_debug t := match t with RtA => lit "A" | RtPTR => lit "PTR" | RtOther _ => lit "?" end;
  dns_class_debug c := lit "IN";
|}.
#[local] Instance toy_laws : HickoryLaws str.
Proof.
  split. intros bytes msg out. cbn [from_bytes toy]. destruct bytes as [|b0 [|b1 l]]; try done.
  case_bool_decide as Hb; [|done].
  destruct (parse _) as [m|]; [|done]. intros [= <-] [= <-]. cbn [dm_id truncate_msg toy app take].
  f_equal; [|f_equal].
  - rewrite Z.div_add_l by lia. rewrite Z.div_small by done. lia.
  - rewrite Z.add_comm, Z.mod_add by lia. by apply Z.mod_small.
Qed.

Definition packet (xid n : Z) : list Z :=
  [(u16_to_be_bytes xid).1; (u16_to_be_bytes xid).2] ++ replicate 10 0 ++ [n].
Definition laptop : SocketAddr := mkSocketAddr (V4 (ipv4 192 168 1 20)) 40000.
Definition phone : SocketAddr := mkSocketAddr (V4 (ipv4 192 168 1 21)) 50000.
Definition r1 : Ipv4Addr := ipv4 1 1 1 1.
Definition r2 : Ipv4Addr := ipv4 9 9 9 9.
Definition env (xid : Z) : FwEnv := mkFwEnv [0; xid] true.
Definition at_port53 (ip : Ipv4Addr) : SocketAddr := mkSocketAddr (V4 ip) DNS_PORT.

Definition start : list (Instant * FwEnv * FwEvent) :=
  [(0, env 1, FwParent (SetUpstreamResolvers [ipv4 127 0 0 1; r1; r2]));
   (0, env 1, FwParent (DnsRegisterLocalHost (lit "nas") (ipv4 192 168 1 50)));
   (1, env 7001, FwClientUdp laptop (packet 17 1));
   (2, env 7002, FwClientUdp phone (packet 23 1))].
Definition state (events : list (Instant * FwEnv * FwEvent)) : Forwarder :=
  match run_forwarder_loop events Forwarder_new with Returned (s, _) => s | Panicked => Forwarder_new end.
Definition sent (events : list (Instant * FwEnv * FwEvent)) : list FwOut :=
  match run_forwarder_loop events Forwarder_new with Returned (_, o) => o | Panicked => [] end.

(** The two clients share one upstream query; a forged reply is ignored, a
    failure moves on to the second resolver, and its answer goes to both. *)
Definition whole_run : list (Instant * FwEnv * FwEvent) :=
  start ++
  [(3, env 1, FwUpstream (at_port53 r2) (packet 7001 2));
   (4, env 1, FwUpstream (at_port53 r1) (packet 7001 3));
   (5, env 1, FwUpstream (at_port53 r2) (packet 7001 2));
   (6, env 7003, FwClientUdp laptop (packet 18 1))].

Lemma whole_run_sent :
  sent whole_run =
  [ToUpstream r1 (packet 7001 1); ToUpstream r2 (packet 7001 1);
   ToUdpClient laptop (packet 17 2); ToUdpClient phone (packet 23 2);
   ToUdpClient laptop (packet 18 2)].
Proof. vm_compute. reflexivity. Qed.

Lemma whole_run_clock : fw_clock 0 whole_run.
Proof. vm_compute. repeat split; congruence. Qed.

Lemma forwarder_safe_witness :
  ∃ s out, run_forwarder_loop whole_run Forwarder_new = Returned (s, out) ∧
    fw_inv (fw_end 0 whole_run) s ∧ Forall out_ok out.
Proof. exact (forwarder_safe 0 whole_run whole_run_clock). Defined.

Lemma fw_run_eq events :
  fw_clock 0 events →
  run_forwarder_loop events Forwarder_new = Returned (state events, sent events) ∧
  fw_inv (fw_end 0 events) (state events).
Proof.
  intros Hc. pose proof (fw_run_ok events 0 _ (new_inv 0) Hc) as Hr. unfold state, sent.
  destruct (run_forwarder_loop events Forwarder_new) as [[s o]|]; [|destruct Hr].
  split; [reflexivity | exact (proj1 Hr)].
Qed.

Lemma start_inv : fw_inv 2 (state start).
Proof. apply (fw_run_eq start). vm_compute. repeat split; congruence. Qed.

Lemma upstream_reply_spec_witness :
  ∃ s' out, handle_upstream_reply 3 (packet 7001 3) (at_port53 r1) (state start) = Returned (s', out) ∧
  ((s' = state start ∧ out = []) ∨
   ∃ xid q, genuine (packet 7001 3) (at_port53 r1) (state start) xid q ∧
    (answered 3 (packet 7001 3) (state start) xid q s' out ∨ retried 3 (state start) xid q s' out ∨
     over_tcp (packet 7001 3) (state start) xid q s' out)).
Proof.
  assert (fw_inv 3 (state start)) as H by (refine (fw_inv_later 2 3 _ start_inv _); lia).
  pose proof (upstream_ok 3 (packet 7001 3) (at_port53 r1) (state start) H) as Hok.
  destruct (handle_upstream_reply 3 (packet 7001 3) (at_port53 r1) (state start)) as [[s' out]|] eqn:E;
    [|destruct Hok].
  exists s', out. split; [reflexivity |].
  exact (upstream_reply_spec 3 (packet 7001 3) (at_port53 r1) (state start) s' out H E).
Defined.

Lemma one_reply_per_query_witness :
  (client_replies (sent whole_run) + waiting (state whole_run) ≤ 3)%nat.
Proof.
  exact (one_reply_per_query 0 whole_run (state whole_run) (sent whole_run) whole_run_clock
           (proj1 (fw_run_eq whole_run whole_run_clock))).
Defined.

Lemma check_pending_timeouts_spec_witness :
  ∃ p out, check_pending_timeouts (from_secs 4) (fw_pending (state start)) = Returned (p, out) ∧
    (∀ xid, p !! xid = fw_pending (state start) !! xid ≫= after_timeout (from_secs 4)) ∧
    ∀ o, o ∈ out ↔ ∃ xid q ip, fw_pending (state start) !! xid = Some q ∧
      timed_out (from_secs 4) q = true ∧
      pq_upstream_servers q !! S (pq_current_server_idx q) = Some ip ∧
      o = ToUpstream ip (with_xid (pq_query_payload q) xid).
Proof.
  refine (check_pending_timeouts_spec (from_secs 4) (state start) _).
  refine (fw_inv_later 2 (from_secs 4) _ start_inv _). vm_compute. congruence.
Defined.

Lemma allocate_unique_xid_spec_witness :
  (∃ x, 0 < x < 65536 ∧ fw_pending (state start) !! x = None ∧
     (x ∈ [0; 7001; 5] → is_Some (allocate_unique_xid (fw_pending (state start)) [0; 7001; 5]))) ∧
  ∀ xid, allocate_unique_xid (fw_pending (state start)) [0; 7001; 5] = Some xid →
    xid ∈ [0; 7001; 5] ∧ xid ≠ 0 ∧ fw_pending (state start) !! xid = None.
Proof.
  refine (allocate_unique_xid_spec (fw_pending (state start)) [0; 7001; 5] _).
  vm_compute. reflexivity.
Defined.

Lemma unanswered_query_ends_witness :
  ∃ s' out, run_forwarder_loop (cleanups [from_secs 4; from_secs 7]) (state start)
    = Returned (s', out) ∧ fw_pending s' !! 7001 = None.
Proof.
  destruct (fw_pending (state start) !! 7001) as [q|] eqn:E; [|exfalso; vm_compute in E; discriminate E].
  refine (unanswered_query_ends 2 (state start) 7001 q [from_secs 4; from_secs 7] start_inv E _ _ _);
    vm_compute in E; injection E as <-; vm_compute; repeat split; try congruence; lia.
Defined.

Lemma local_names_stay_local_witness :
  ∃ reply, handle_incoming_query 3 (env 7003) (packet 99 6) (OUdp laptop) (state start)
    = Returned (set_stats (count_query (fw_stats (state start))) (state start),
                [send_reply (OUdp laptop) reply None]).
Proof.
  destruct (from_bytes (packet 99 6)) as [msg|] eqn:E; [|exfalso; vm_compute in E; discriminate E].
  vm_compute in E. injection E as E. subst msg.
  refine (local_names_stay_local 3 (env 7003) (packet 99 6) (OUdp laptop) (state start)
            _ (mkDnsQuery (lit "NAS.lan.") RtA 1) [] _ eq_refl eq_refl eq_refl _).
  - vm_compute. congruence.
  - left. exists (lit "nas"). split; [vm_compute; reflexivity |].
    apply (bool_decide_unpack _). vm_compute. exact I.
Defined.

(** Finding: PTR queries for names under [.local] leave the network.  The
    forwarder is meant to answer every query for such a name itself; but the
    test for PTR queries comes first and returns, so that the service
    discovery query for [_ipp._tcp.local] is sent to the upstream resolver. *)
Theorem mdns_ptr_query_forwarded :
  is_mdns_local_domain (lit "_ipp._tcp.local.") = true ∧
  sent (start ++ [(3, env 7003, FwClientUdp laptop (packet 31 4))])
  = sent start ++ [ToUpstream r1 (packet 7003 4)].
Proof. split; vm_compute; reflexivity. Qed.

(** Finding: names with more than one label under [.lan] leave the network: the
    query for [nas.home.lan] is sent to the upstream resolver instead of being
    refused. *)
Theorem lan_subdomain_query_forwarded :
  sent (start ++ [(3, env 7003, FwClientUdp laptop (packet 31 5))])
  = sent start ++ [ToUpstream r1 (packet 7003 5)].
Proof. vm_compute. reflexivity. Qed.

(** Finding: a host can lose its reverse entry to another host's departure.  When
    an address passes from one name to another before the first name is
    deregistered, the deregistration of the first removes the reverse entry of
    the second, which is still registered. *)
Theorem reverse_entry_lost :
  let a := lit "old" in let b := lit "new" in let ip := ipv4 192 168 1 77 in
  let s := state [(0, env 1, FwParent (DnsRegisterLocalHost a ip));
                  (0, env 1, FwParent (DnsRegisterLocalHost b ip));
                  (0, env 1, FwParent (DnsDeregisterLocalHost a))] in
  fw_local_hosts s !! b = Some ip ∧ fw_local_ips s !! ip = None.
Proof. cbv zeta. split; vm_compute; reflexivity. Qed.
End DnsExample.
