(* ===== verification/DnsManager.v ===== *)
(** * The parent of the DNS forwarder

    [run_parent_dns_monitor] of [src/src/services/dns_forwarder/manager.rs]:
    it tells the worker which resolvers to use and which local hosts there
    are, and keeps a copy of the hosts for the next worker. *)

From Stdlib Require Import ZArith Lia.
From stdpp Require Import base gmap list strings.
From S2P Require Import Prelude NetAddr Hostname Packet RateLimiter Dns DnsForwarder.

#[local] Open Scope Z_scope.

(** The state of the loop: the servers last sent, the cache of local hosts
    (which outlives the worker) and whether the loop goes on. *)
Record DnsMonitor := mkDnsMonitor {
  dm_last_dns_servers : list Ipv4Addr;
  dm_cache : gmap str Ipv4Addr;
  dm_running : bool;
}.

Inductive DnsMonitorAction :=
| DmSend (msg : DnsParentToWorkerMsg)
| DmHeartbeat
| DmStats (stats : DnsStatsInfo)
| DmTerminateWorker.

Definition DnsMonitorAct := Act DnsMonitor DnsMonitorAction.

Definition set_last (servers : list Ipv4Addr) (m : DnsMonitor) : DnsMonitor :=
  mkDnsMonitor servers (dm_cache m) (dm_running m).
Definition set_hosts (cache : gmap str Ipv4Addr) (m : DnsMonitor) : DnsMonitor :=
  mkDnsMonitor (dm_last_dns_servers m) cache (dm_running m).
Definition set_dm_stopped (m : DnsMonitor) : DnsMonitor :=
  mkDnsMonitor (dm_last_dns_servers m) (dm_cache m) false.

(** [ipc.send], which may fail. *)
Definition dm_send (send_ok : bool) (msg : DnsParentToWorkerMsg) : DnsMonitorAct unit :=
  act_when send_ok (act_emit (DmSend msg)).

Definition update_upstream_resolvers (send_ok : bool) (servers : list Ipv4Addr) :
    DnsMonitorAct bool :=
  dm_send send_ok (SetUpstreamResolvers servers) ;; mret send_ok.

Section monitor.
Context {HO : HashOrder}.
Variable custom_dns : list Ipv4Addr.

(** The resolvers to use: the configured ones before those of the lease. *)
Definition initial_servers (lease : WanLease) : list Ipv4Addr :=
  match custom_dns with [] => wl_dns_servers lease | _ => custom_dns end.

Definition sync_initial_resolvers (lease : WanLease) (send_ok : bool) : DnsMonitorAct unit :=
  match initial_servers lease with
  | [] => mret tt
  | servers =>
      let* sent := update_upstream_resolvers send_ok servers in
      act_modify (set_last servers)
  end.

Definition sync_cached_hosts (send_ok : bool) : DnsMonitorAct unit :=
  let* m := act_get in
  act_iter (λ kv, dm_send send_ok (DnsRegisterLocalHost kv.1 kv.2)) (hash_iter (dm_cache m)).

Inductive DnsMonitorEvent :=
| DmEvShutdown
| DmEvHeartbeat (stats : DnsStatsInfo)
| DmEvWorkerClosed
| DmEvLease (lease : WanLease) (send_ok : bool)
| DmEvLeaseClosed
| DmEvHost (event : LocalHostEvent) (send_ok : bool).

Definition dns_monitor_event (e : DnsMonitorEvent) : DnsMonitorAct unit :=
  let* m := act_get in
  act_when (dm_running m)
    match e with
    | DmEvShutdown | DmEvWorkerClosed | DmEvLeaseClosed => act_modify set_dm_stopped
    | DmEvHeartbeat stats => act_emit DmHeartbeat ;; act_emit (DmStats stats)
    | DmEvLease lease send_ok =>
        if bool_decide (custom_dns = [])
           && bool_decide (wl_dns_servers lease ≠ dm_last_dns_servers m)
        then
          let* sent := update_upstream_resolvers send_ok (wl_dns_servers lease) in
          if sent : bool then act_modify (set_last (wl_dns_servers lease))
          else act_modify set_dm_stopped
        else mret tt
    | DmEvHost (HostRegister name ip) send_ok =>
        act_modify (λ m, set_hosts (<[name := ip]> (dm_cache m)) m) ;;
        dm_send send_ok (DnsRegisterLocalHost name ip)
    | DmEvHost (HostDeregister name) send_ok =>
        act_modify (λ m, set_hosts (delete name (dm_cache m)) m) ;;
        dm_send send_ok (DnsDeregisterLocalHost name)
    end.

(** [run_parent_dns_monitor]: the two initial synchronisations, the loop, and
    the end of the worker. *)
Definition run_parent_dns_monitor (lease : WanLease) (send_ok : bool)
    (events : list DnsMonitorEvent) : DnsMonitorAct unit :=
  sync_initial_resolvers lease send_ok ;;
  sync_cached_hosts send_ok ;;
  act_iter dns_monitor_event events ;;
  let* m := act_get in
  act_when (negb (dm_running m)) (act_emit DmTerminateWorker).
End monitor.

(** ** The worker follows its parent *)

Definition sent_msg (o : DnsMonitorAction) : option DnsParentToWorkerMsg :=
  match o with DmSend msg => Some msg | _ => None end.
Definition parent_msg (e : FwEvent) : option DnsParentToWorkerMsg :=
  match e with FwParent msg => Some msg | _ => None end.
Definition dm_send_ok (e : DnsMonitorEvent) : Prop :=
  match e with DmEvLease _ send_ok | DmEvHost _ send_ok => send_ok = true | _ => True end.

(** What the worker takes from its parent's messages: the resolvers and the
    names. *)
Definition view_step (v : list Ipv4Addr * gmap str Ipv4Addr) (msg : DnsParentToWorkerMsg) :
    list Ipv4Addr * gmap str Ipv4Addr :=
  match msg with
  | SetUpstreamResolvers servers => (servers, v.2)
  | DnsRegisterLocalHost name ip => (v.1, <[name := ip]> v.2)
  | DnsDeregisterLocalHost name => (v.1, delete name v.2)
  end.

Definition host_step (cache : gmap str Ipv4Addr) (e : DnsMonitorEvent) : gmap str Ipv4Addr :=
  match e with
  | DmEvHost (HostRegister name ip) _ => <[name := ip]> cache
  | DmEvHost (HostDeregister name) _ => delete name cache
  | _ => cache
  end.
Definition lease_step (lease : WanLease) (e : DnsMonitorEvent) : WanLease :=
  match e with DmEvLease lease' _ => lease' | _ => lease end.

Section follows.
Context {HO : HashOrder} (custom_dns : list Ipv4Addr).
Implicit Types m : DnsMonitor.

(** The monitor and the view its messages give agree. *)
Definition agrees m (v : list Ipv4Addr * gmap str Ipv4Addr) (lease : WanLease)
    (cache : gmap str Ipv4Addr) : Prop :=
  v = (dm_last_dns_servers m, dm_cache m) ∧
  dm_last_dns_servers m = initial_servers custom_dns lease ∧ dm_cache m = cache.

Lemma dns_monitor_event_agrees e m v lease cache :
  dm_send_ok e → agrees m v lease cache →
  let r := dns_monitor_event custom_dns e m in
  dm_running r.1.2 = true →
  agrees r.1.2 (foldl view_step v (omap sent_msg r.2)) (lease_step lease e) (host_step cache e).
Proof.
  intros Hok (-> & Hl & Hc) r Hrun. subst r. unfold dns_monitor_event, mbind, act_bind in *.
  cbn [act_get] in *. destruct (dm_running m) eqn:Hm; [|simpl in Hrun; congruence].
  cbn [act_when] in *. unfold agrees, initial_servers in *.
  destruct e as [| stats | | lease' send_ok | | [name ip | name] send_ok]; simpl in *; subst; try done.
  destruct custom_dns as [|d ds]; [|done]. rewrite bool_decide_true in * by done. cbn [andb] in *.
  case_bool_decide as Hne; simpl in *; [done |].
  destruct (decide (wl_dns_servers lease' = dm_last_dns_servers m)) as [-> | Hn]; [done |].
  by destruct Hne.
Qed.

Lemma dns_monitor_stays_stopped events m :
  dm_running m = false → act_iter (dns_monitor_event custom_dns) events m = (tt, m, []).
Proof.
  intros Hm. induction events as [|e events IH]; [done |]. cbn [act_iter].
  assert (dns_monitor_event custom_dns e m = (tt, m, [])) as E
    by (unfold dns_monitor_event, mbind, act_bind; simpl; by rewrite Hm).
  unfold mbind, act_bind. by rewrite E, IH.
Qed.

Lemma dns_monitor_events_agree events m v lease cache :
  Forall dm_send_ok events → agrees m v lease cache →
  let r := act_iter (dns_monitor_event custom_dns) events m in
  dm_running r.1.2 = true →
  agrees r.1.2 (foldl view_step v (omap sent_msg r.2))
    (foldl lease_step lease events) (foldl host_step cache events).
Proof.
  revert m v lease cache. induction events as [|e events IH]; intros m v lease cache Hok Ha; [done |].
  apply list.Forall_cons in Hok as [He Hok]. cbn [act_iter foldl].
  pose proof (dns_monitor_event_agrees e m v lease cache He Ha) as Hstep.
  unfold mbind, act_bind. destruct (dns_monitor_event custom_dns e m) as [[[] m1] o1]. cbn [fst snd] in *.
  destruct (dm_running m1) eqn:Hm1.
  - specialize (IH m1 _ _ _ Hok (Hstep eq_refl)).
    destruct (act_iter _ events m1) as [[[] m2] o2]. cbn [fst snd] in *.
    rewrite omap_app, foldl_app. exact IH.
  - rewrite (dns_monitor_stays_stopped events m1 Hm1). cbn. congruence.
Qed.

Lemma register_all (l : list (str * Ipv4Addr)) servers hosts :
  NoDup (l.*1) →
  foldl view_step (servers, hosts) ((λ kv, DnsRegisterLocalHost kv.1 kv.2) <$> l)
  = (servers, list_to_map l ∪ hosts).
Proof.
  revert hosts. induction l as [|[k x] l IH]; intros hosts Hn; simpl; [by rewrite (left_id_L ∅ (∪)) |].
  apply NoDup_cons in Hn as [Hk Hn]. rewrite IH by done. f_equal.
  rewrite <-insert_union_l, insert_union_r; [done |]. by apply not_elem_of_list_to_map.
Qed.

Lemma sync_agrees lease cache :
  let m0 := mkDnsMonitor [] cache true in
  let r := (sync_initial_resolvers custom_dns lease true ;; sync_cached_hosts true) m0 in
  dm_running r.1.2 = true ∧
  agrees r.1.2 (foldl view_step ([], ∅) (omap sent_msg r.2)) lease cache.
Proof.
  intros m0 r.
  assert (r = (tt, mkDnsMonitor (initial_servers custom_dns lease) cache true,
    (match initial_servers custom_dns lease with [] => [] | s => [DmSend (SetUpstreamResolvers s)] end)
    ++ ((λ kv, DmSend (DnsRegisterLocalHost kv.1 kv.2)) <$> hash_iter cache))) as ->.
  { subst r m0. unfold sync_initial_resolvers, sync_cached_hosts, dm_send, update_upstream_resolvers.
    destruct (initial_servers custom_dns lease); unfold mbind, act_bind; simpl;
      by rewrite act_iter_emit. }
  split; [done |]. cbn [fst snd]. unfold agrees. split_and!; [|done | done].
  rewrite omap_app, foldl_app. simpl.
  assert (foldl view_step ([], ∅) (omap sent_msg (match initial_servers custom_dns lease with
      [] => [] | s => [DmSend (SetUpstreamResolvers s)] end))
    = (initial_servers custom_dns lease, ∅)) as -> by (by destruct (initial_servers custom_dns lease)).
  assert (omap sent_msg ((λ kv, DmSend (DnsRegisterLocalHost kv.1 kv.2)) <$> hash_iter cache)
    = (λ kv, DnsRegisterLocalHost kv.1 kv.2) <$> hash_iter cache) as ->.
  { generalize (hash_iter cache) as l. induction l as [|kv l IH]; [done |]. simpl. f_equal. exact IH. }
  rewrite register_all by apply hash_iter_NoDup_fst. rewrite (right_id_L ∅ (∪)). f_equal.
  apply map_eq. intros k. apply option_eq. intros x.
  rewrite <-elem_of_list_to_map by apply hash_iter_NoDup_fst. apply elem_of_hash_iter.
Qed.
End follows.

(** ** The composition *)

Section composition.
Context {Name : Type} {HK : Hickory Name} {HO : HashOrder} {LM : Limiter}.
Implicit Types s : Forwarder.

Definition fw_view s : list Ipv4Addr * gmap str Ipv4Addr := (fw_upstream_servers s, fw_local_hosts s).

(** Take apart the steps of a handler that returned. *)
Ltac inv_returned :=
  repeat match goal with
  | H : mbind _ _ = Returned _ |- _ => apply bind_Returned in H as (? & ? & H)
  | H : Returned _ = Returned _ |- _ => injection H as H
  | H : Panicked = Returned _ |- _ => discriminate H
  | H : (if ?b then _ else _) = Returned _ |- _ => destruct b
  | H : match ?x with _ => _ end = Returned _ |- _ => destruct x
  | x : prod _ _ |- _ => destruct x
  end; subst.

Lemma incoming_view now env query origin s s' out :
  handle_incoming_query now env query origin s = Returned (s', out) → fw_view s' = fw_view s.
Proof.
  unfold handle_incoming_query, handle_cache_miss. intros H. inv_returned; done.
Qed.

Lemma upstream_view now reply from_addr s s' out :
  handle_upstream_reply now reply from_addr s = Returned (s', out) → fw_view s' = fw_view s.
Proof. unfold handle_upstream_reply, deliver_reply. intros H. inv_returned; done. Qed.

Lemma fw_event_view now env e s s' out :
  fw_event now env e s = Returned (s', out) →
  fw_view s' = foldl view_step (fw_view s) (omap parent_msg [e]).
Proof.
  destruct e; simpl.
  - unfold handle_cleanup. intros H. inv_returned; done.
  - intros H. inv_returned. by destruct msg.
  - apply incoming_view.
  - apply incoming_view.
  - apply upstream_view.
  - unfold handle_upstream_tcp_event. intros H. inv_returned; done.
Qed.

Lemma fw_run_view events s s' out :
  run_forwarder_loop events s = Returned (s', out) →
  fw_view s' = foldl view_step (fw_view s) (omap parent_msg (snd <$> events)).
Proof.
  revert s out. induction events as [|[[now env] e] events IH]; intros s out; cbn [run_forwarder_loop].
  { intros H. by inv_returned. }
  intros ([s1 o1] & E1 & ([s2 o2] & E2 & H)%bind_Returned)%bind_Returned. injection H as <- <-.
  rewrite (IH _ _ E2), fmap_cons. simpl fst. rewrite (fw_event_view _ _ _ _ _ _ E1).
  simpl. by destruct e.
Qed.

(** The worker's resolvers and names, from the parent's messages. *)
Lemma dns_worker_view custom_dns lease cache events fw_events s out :
  let r := run_parent_dns_monitor custom_dns lease true events (mkDnsMonitor [] cache true) in
  Forall dm_send_ok events → dm_running r.1.2 = true →
  omap parent_msg (snd <$> fw_events) = omap sent_msg r.2 →
  run_forwarder_loop fw_events Forwarder_new = Returned (s, out) →
  fw_view s = (initial_servers custom_dns (foldl lease_step lease events), foldl host_step cache events).
Proof.
  intros r Hok Hrun Hmsgs Hfw.
  pose proof (fw_run_view _ _ _ _ Hfw) as Hv. rewrite Hmsgs in Hv. clear Hmsgs Hfw.
  destruct (sync_agrees custom_dns lease cache) as [Hr0 H0].
  subst r. unfold run_parent_dns_monitor, mbind, act_bind in *.
  destruct (sync_initial_resolvers custom_dns lease true _) as [[[] m1] o1]. cbn [fst snd] in *.
  destruct (sync_cached_hosts true m1) as [[[] m2] o2]. cbn [fst snd] in *.
  pose proof (dns_monitor_events_agree custom_dns events m2 _ lease cache Hok H0) as H1.
  destruct (act_iter _ events m2) as [[[] m3] o3]. cbn [fst snd act_get] in *.
  destruct (dm_running m3) eqn:Hm3; cbn [negb act_when] in *; [|simpl in Hrun; congruence].
  destruct (H1 eq_refl) as (E & Hl & Hc). cbn in Hv. rewrite app_nil_r in Hv.
  change ((fw_upstream_servers s, fw_local_hosts s)
    = foldl view_step ([], ∅) (omap sent_msg (o1 ++ o2 ++ o3))) in Hv.
  rewrite app_assoc, omap_app, foldl_app, E in Hv. by rewrite <-Hl, <-Hc.
Qed.

(** The DNS worker follows its parent.  Start the parent with the hosts
    that an earlier worker left behind, feed it any sequence of leases,
    registrations, deregistrations and heartbeats, and let a fresh worker
    handle the messages it sends, mixed in any way with queries, replies and
    time-outs.  As long as the parent runs, the worker's resolvers are the
    configured ones, or those of the latest lease if none are configured; and
    its table of names is that of all registrations and deregistrations, those
    made before it was started included. *)
Theorem dns_worker_follows_parent custom_dns lease cache events fw_events s out :
  let r := run_parent_dns_monitor custom_dns lease true events (mkDnsMonitor [] cache true) in
  Forall dm_send_ok events → dm_running r.1.2 = true →
  omap parent_msg (snd <$> fw_events) = omap sent_msg r.2 →
  run_forwarder_loop fw_events Forwarder_new = Returned (s, out) →
  fw_upstream_servers s = initial_servers custom_dns (foldl lease_step lease events) ∧
  fw_local_hosts s = foldl host_step cache events.
Proof.
  intros r Hok Hrun Hmsgs Hfw.
  pose proof (dns_worker_view custom_dns lease cache events fw_events s out Hok Hrun Hmsgs Hfw) as Hv.
  by injection Hv as -> ->.
Qed.
End composition.

(** ** Example *)

Module DnsManagerExample.
#[local] Existing Instance forward_order.
#[local] Existing Instance exact_binary64.
#[local] Existing Instance DnsExample.toy.

Definition lease_of (dns : Ipv4Addr) : WanLease := mkWanLease None None None [dns].
Definition nas : str := lit "nas".
Definition laptop : str := lit "laptop".

(** A second worker: a host is known from before, another one comes, and the
    lease changes. *)
Definition known : gmap str Ipv4Addr := {[ nas := ipv4 192 168 1 9 ]}.
Definition happenings : list DnsMonitorEvent :=
  [DmEvHost (HostRegister laptop (ipv4 192 168 1 20)) true; DmEvLease (lease_of (ipv4 9 9 9 9)) true].
Definition messages : list DnsParentToWorkerMsg :=
  [SetUpstreamResolvers [ipv4 1 1 1 1]; DnsRegisterLocalHost nas (ipv4 192 168 1 9);
   DnsRegisterLocalHost laptop (ipv4 192 168 1 20); SetUpstreamResolvers [ipv4 9 9 9 9]].

Lemma dns_worker_follows_parent_witness :
  ∃ s, run_forwarder_loop (Name := str)
         ((λ msg, (0, DnsExample.env 1, FwParent msg)) <$> messages) Forwarder_new = Returned (s, []) ∧
    fw_upstream_servers s = [ipv4 9 9 9 9] ∧
    fw_local_hosts s = <[laptop := ipv4 192 168 1 20]> known.
Proof.
  eexists. split; [reflexivity |].
  eapply (dns_worker_follows_parent [] (lease_of (ipv4 1 1 1 1)) known happenings
    ((λ msg, (0, DnsExample.env 1, FwParent msg)) <$> messages)).
  - repeat constructor.
  - vm_compute. reflexivity.
  - vm_compute. reflexivity.
  - reflexivity.
Defined.
End DnsManagerExample.
