(* ===== verification/Observability.v ===== *)
(** * The status page

    [src/src/services/observability/server.rs], [status.rs] and [mod.rs]: the
    check of the [Host] header, the routes, the accounting of log streams as
    interleaved steps, and the numbers shown.  The HTTP protocol ([axum]), JSON
    and the page's script are not modelled; a request is a method, a path, a
    query, a header and an address.  The splitting of a query into its pairs
    ([form_urlencoded]) and the limit of requests in flight ([tower]) are
    parameters. *)

From Stdlib Require Import ZArith Lia.
From stdpp Require Import base gmap sets list sorting strings.
From S2P Require Import Prelude NetAddr Text Config LeaseTable Logging Supervisor.

#[local] Open Scope Z_scope.

Definition MAX_CONCURRENT_HTTP_CONNECTIONS : nat := 16.
Definition MAX_CONCURRENT_SSE_STREAMS : nat := 4.
Definition MAX_SSE_STREAMS_PER_IP : nat := 2.
Definition DEFAULT_LOG_LINES_COUNT : Z := 100.
Definition MAX_LOG_LINES_COUNT : Z := 500.

(** ** The [Host] header *)

Definition count_char (c : char) (s : str) : nat := length (filter (λ x, x = c) s).

(** [extract_host_name]; the slice up to the bracket ends with it. *)
Definition extract_host_name (host_header : str) : str :=
  let trimmed := trim host_header in
  match (rest ← strip_prefix [91] trimmed; split_once 93 rest) with
  | Some (inner, _) => [91] ++ inner ++ [93]
  | None =>
      if bool_decide (1 < count_char COLON trimmed)%nat then trimmed
      else take_until COLON trimmed
  end.

Definition eq_ignore_ascii_case (a b : str) : bool :=
  bool_decide (to_ascii_lowercase a = to_ascii_lowercase b).

Definition is_allowed_host (host_header lan_ip : str) : bool :=
  let host := extract_host_name host_header in
  if bool_decide (host = []) then false else
  if eq_ignore_ascii_case host (lit "localhost")
     || bool_decide (host = lit "127.0.0.1")
     || bool_decide (host = lit "::1")
     || bool_decide (host = lit "[::1]")
     || eq_ignore_ascii_case host (lit "router.lan")
     || eq_ignore_ascii_case host (lit "router")
     || eq_ignore_ascii_case host (lit "router.local")
  then true
  else
    let ip_only := take_until 47 lan_ip in
    negb (bool_decide (ip_only = [])) && eq_ignore_ascii_case host ip_only.

(** ** Log streams *)

(** The tracker of streams per client, and the permits of the semaphore that
    are left. *)
Record Streams := mkStreams { sm_tracker : gmap Z nat; sm_permits : nat }.
Definition streams_new : Streams := mkStreams ∅ MAX_CONCURRENT_SSE_STREAMS.

Inductive StatusCode := OK | BAD_REQUEST | NOT_FOUND | METHOD_NOT_ALLOWED | TOO_MANY_REQUESTS.
#[global] Instance StatusCode_eq_dec : EqDecision StatusCode.
Proof. solve_decision. Defined.

(** [reserve_ip_sse_slot]: the tracker afterwards, and whether there was room. *)
Definition reserve_ip_sse_slot (client_ip : Z) (tracker : gmap Z nat) : gmap Z nat * bool :=
  let count := default 0%nat (tracker !! client_ip) in
  if bool_decide (MAX_SSE_STREAMS_PER_IP ≤ count)%nat
  then (<[client_ip := count]> tracker, false)
  else (<[client_ip := S count]> tracker, true).
(** [release_ip_sse_slot], and the same code in [Drop for IpStreamPermit]. *)
Definition release_ip_sse_slot (client_ip : Z) (tracker : gmap Z nat) : gmap Z nat :=
  match tracker !! client_ip with
  | Some count =>
      if bool_decide ((count - 1)%nat = 0%nat) then delete client_ip tracker
      else <[client_ip := (count - 1)%nat]> tracker
  | None => tracker
  end.

(** Where a request for the stream is in [handle_logs_stream]: it has a slot; it
    found no permit; it streams; its permit is being dropped, the tracker
    first and the semaphore after. *)
Inductive StreamPc := Reserved | Refused | Streaming | Dropping.
#[global] Instance StreamPc_eq_dec : EqDecision StreamPc.
Proof. solve_decision. Defined.
Record StreamReq := mkStreamReq { sr_ip : Z; sr_pc : StreamPc }.

(** The requests under way; the threads of the server take their steps in any
    order. *)
Record SseServer := mkSseServer { ss_streams : Streams; ss_reqs : gmap nat StreamReq }.
Definition sse_start : SseServer := mkSseServer streams_new ∅.

Inductive SseEvent :=
| SseRequest (id : nat) (client_ip : Z)
| SseStep (id : nat)
| SseDisconnect (id : nat).

Definition set_tracker (t : gmap Z nat) (m : Streams) : Streams := mkStreams t (sm_permits m).
Definition set_permits (n : nat) (m : Streams) : Streams := mkStreams (sm_tracker m) n.

(** The result is the answer, when the request is refused. *)
Definition sse_event (e : SseEvent) (s : SseServer) : SseServer * option StatusCode :=
  let m := ss_streams s in
  match e with
  | SseRequest id client_ip =>
      match ss_reqs s !! id with
      | Some _ => (s, None)
      | None =>
          match reserve_ip_sse_slot client_ip (sm_tracker m) with
          | (tracker, true) =>
              (mkSseServer (set_tracker tracker m)
                 (<[id := mkStreamReq client_ip Reserved]> (ss_reqs s)), None)
          | (tracker, false) => (mkSseServer (set_tracker tracker m) (ss_reqs s), Some TOO_MANY_REQUESTS)
          end
      end
  | SseStep id =>
      match ss_reqs s !! id with
      | Some (mkStreamReq ip Reserved) =>
          match sm_permits m with
          | O => (mkSseServer m (<[id := mkStreamReq ip Refused]> (ss_reqs s)), None)
          | S n => (mkSseServer (set_permits n m) (<[id := mkStreamReq ip Streaming]> (ss_reqs s)), None)
          end
      | Some (mkStreamReq ip Refused) =>
          (mkSseServer (set_tracker (release_ip_sse_slot ip (sm_tracker m)) m) (delete id (ss_reqs s)),
           Some TOO_MANY_REQUESTS)
      | Some (mkStreamReq ip Dropping) =>
          (mkSseServer (set_permits (S (sm_permits m)) m) (delete id (ss_reqs s)), None)
      | _ => (s, None)
      end
  | SseDisconnect id =>
      match ss_reqs s !! id with
      | Some (mkStreamReq ip Streaming) =>
          (mkSseServer (set_tracker (release_ip_sse_slot ip (sm_tracker m)) m)
             (<[id := mkStreamReq ip Dropping]> (ss_reqs s)), None)
      | _ => (s, None)
      end
  end.
Definition sse_run (events : list SseEvent) : SseServer :=
  foldl (λ s e, (sse_event e s).1) sse_start events.

(** ** The server *)

Record LogsResponse := mkLogsResponse { total_lines_available : nat; response_lines : list str }.
Definition handle_logs (lines : option Z) (level : option LevelFilter) (s : LogState) : LogsResponse :=
  let lines_count := Z.to_nat (Z.min (default DEFAULT_LOG_LINES_COUNT lines) MAX_LOG_LINES_COUNT) in
  mkLogsResponse (length (ls_ring s)) (get_recent_logs lines_count level s).

(** [LogFilterParam::from_str] *)
Definition log_filter_from_str (s : str) : option LevelFilter :=
  let l := to_ascii_lowercase s in
  if bool_decide (l = lit "off") then Some LOff
  else if bool_decide (l = lit "error") then Some LError
  else if bool_decide (l = lit "warn") || bool_decide (l = lit "warning") then Some LWarn
  else if bool_decide (l = lit "info") then Some LInfo
  else if bool_decide (l = lit "debug") then Some LDebug
  else if bool_decide (l = lit "trace") then Some LTrace
  else None.

(** [form_urlencoded::parse]: the decoded pairs of a query. *)
Class FormUrlencoded := form_pairs : str → list (str * str).

(** The names of [LogFilterParam] for [Deserialize], ... *)
Definition log_filter_by_name (s : str) : option LevelFilter :=
  if bool_decide (s = lit "off") then Some LOff
  else if bool_decide (s = lit "error") then Some LError
  else if bool_decide (s = lit "warn") || bool_decide (s = lit "warning") then Some LWarn
  else if bool_decide (s = lit "info") then Some LInfo
  else if bool_decide (s = lit "debug") then Some LDebug
  else if bool_decide (s = lit "trace") then Some LTrace
  else None.
(** ... and [LogsQueryParams], read field by field: a field that comes twice or
    has a value that is not of its type is an error, other fields are left
    out. *)
Record LogsQueryParams := mkLogsQueryParams { qp_lines : option Z; qp_level : option LevelFilter }.
Definition query_field (params : LogsQueryParams) (field : str * str) : option LogsQueryParams :=
  let '(key, value) := field in
  if bool_decide (key = lit "lines") then
    match qp_lines params, parse_uint 64 value with
    | None, Some lines => Some (mkLogsQueryParams (Some lines) (qp_level params))
    | _, _ => None
    end
  else if bool_decide (key = lit "level") then
    match qp_level params, log_filter_by_name value with
    | None, Some level => Some (mkLogsQueryParams (qp_lines params) (Some level))
    | _, _ => None
    end
  else Some params.
Definition read_query_fields (fields : list (str * str)) : option LogsQueryParams :=
  foldl (λ params field, p ← params; query_field p field) (Some (mkLogsQueryParams None None)) fields.

Inductive Method := GET | HEAD | OtherMethod.
Record Request := mkRequest { rq_method : Method; rq_path : str; rq_query : str; rq_host : option str }.
(** What a request is answered with, by the handler that answers it. *)
Inductive Handler :=
| Dashboard
| Status
| Logs (params : LogsQueryParams)
| LogsStream
| NoHandler (status : StatusCode).
Inductive SecurityHeader := XFrameOptions | XContentTypeOptions | ContentSecurityPolicy | ReferrerPolicy.
Record Response := mkResponse { rs_handler : Handler; rs_headers : list SecurityHeader }.

(** [tower]'s [ConcurrencyLimitLayer]: whether a limit lets a request through
    to the service it limits, for the requests that it has let through and that
    are not answered yet; if not, the request waits. *)
Class ConcurrencyLimit := limit_admits : nat → list Request → Request → bool.
(** The limit is for each service that the layer is put on, which is at least a
    route and a method and at most all of them. *)
Class ConcurrencyLimitLaws `{ConcurrencyLimit} : Prop := {
  limit_free max in_flight r : (length in_flight < max)%nat → limit_admits max in_flight r = true;
  limit_full max in_flight r :
    Forall (λ q, rq_path q = rq_path r ∧ rq_method q = rq_method r) in_flight →
    (max ≤ length in_flight)%nat → limit_admits max in_flight r = false;
}.

Section router.
Context {FU : FormUrlencoded} {CL : ConcurrencyLimit}.

Definition logs_query (query : str) : option LogsQueryParams := read_query_fields (form_pairs query).

(** The routes of [create_router]; [get] also answers [HEAD].  The parameters of
    a handler are read before it is called. *)
Definition route (r : Request) : Handler :=
  let handler :=
    if bool_decide (rq_path r = lit "/") then Some Dashboard
    else if bool_decide (rq_path r = lit "/api/status") then Some Status
    else if bool_decide (rq_path r = lit "/api/logs")
    then Some match logs_query (rq_query r) with
              | Some params => Logs params
              | None => NoHandler BAD_REQUEST
              end
    else if bool_decide (rq_path r = lit "/api/logs/stream") then Some LogsStream
    else None in
  match handler, rq_method r with
  | None, _ => NoHandler NOT_FOUND
  | Some _, OtherMethod => NoHandler METHOD_NOT_ALLOWED
  | Some h, _ => h
  end.
(** A layer answers a request or lets it wait. *)
Definition limit_layer (max : nat) (in_flight : list Request) (next : Request → option Response)
    (r : Request) : option Response :=
  if limit_admits max in_flight r then next r else None.
Definition validate_host_middleware (lan_ip : str) (next : Request → option Response) (r : Request) :
    option Response :=
  if negb (is_allowed_host (default [] (rq_host r)) lan_ip)
  then Some (mkResponse (NoHandler BAD_REQUEST) [])
  else next r.
Definition security_headers_middleware (next : Request → option Response) (r : Request) : option Response :=
  response ← next r;
  Some (mkResponse (rs_handler response)
    (rs_headers response ++ [XFrameOptions; XContentTypeOptions; ContentSecurityPolicy; ReferrerPolicy])).
(** [create_router]: the layer added last sees a request first. *)
Definition create_router (lan_ip : str) (in_flight : list Request) : Request → option Response :=
  security_headers_middleware
    (validate_host_middleware lan_ip
       (limit_layer MAX_CONCURRENT_HTTP_CONNECTIONS in_flight (λ r, Some (mkResponse (route r) [])))).
End router.

(** ** The numbers shown *)

Record MemoryStatus := mkMemoryStatus { ms_total_bytes : Z; ms_used_bytes : Z; ms_free_bytes : Z }.
Record StorageStatus := mkStorageStatus { st_total_bytes : Z; st_used_bytes : Z; st_free_bytes : Z }.
Record ArpEntry := mkArpEntry { ar_ip : str; ar_mac : str; ar_interface : str; ar_flags : str }.
Record WanStatus := mkWanStatus {
  ws_interface : str;
  ws_mac : str;
  ws_ip : option str;
  ws_prefix_len : option Z;
  ws_gateway : option str;
  ws_dns_servers : list str;
  ws_lease_expiry_seconds : option Z;
  ws_traffic : Z * Z * Z * Z;
}.
Record LanStatus := mkLanStatus {
  la_interface : str;
  la_mac : str;
  la_ip : str;
  la_prefix_len : Z;
  la_mode : str;
  la_traffic : Z * Z * Z * Z;
}.
Record DhcpLeaseEntry := mkDhcpLeaseEntry {
  de_mac : str;
  de_ip : str;
  de_hostname : option str;
  de_expires_in_seconds : Z;
  de_is_static : bool;
}.
Record DhcpServerStatus := mkDhcpServerStatus {
  ds_active_leases_count : nat;
  ds_leases : list DhcpLeaseEntry;
}.

Record NetworkStatus := mkNetworkStatus {
  nt_wan : WanStatus;
  nt_lan : LanStatus;
  nt_arp_cache : list ArpEntry;
}.

Definition PROC_NET_ARP_PATH : str := lit "/proc/net/arp".
Definition SYS_CLASS_NET_PATH : str := lit "/sys/class/net".

Definition saturating_sub (a b : Z) : Z := Z.max (a - b) 0.

(** The values of [/proc/meminfo] collected so far by [parse_meminfo_str], in
    kilobytes. *)
Record MemInfo := mkMemInfo {
  mi_total : Z;
  mi_avail : option Z;
  mi_free : Z;
  mi_buffers : Z;
  mi_cached : Z;
}.
Definition meminfo_line (m : MemInfo) (line : str) : MemInfo :=
  match split_once COLON line with
  | None => m
  | Some (key, val_str) =>
      let kb := default 0 (head (split_whitespace val_str) ≫= parse_uint 64) in
      let key := trim key in
      if bool_decide (key = lit "MemTotal")
      then mkMemInfo kb (mi_avail m) (mi_free m) (mi_buffers m) (mi_cached m)
      else if bool_decide (key = lit "MemAvailable")
      then mkMemInfo (mi_total m) (Some kb) (mi_free m) (mi_buffers m) (mi_cached m)
      else if bool_decide (key = lit "MemFree")
      then mkMemInfo (mi_total m) (mi_avail m) kb (mi_buffers m) (mi_cached m)
      else if bool_decide (key = lit "Buffers")
      then mkMemInfo (mi_total m) (mi_avail m) (mi_free m) kb (mi_cached m)
      else if bool_decide (key = lit "Cached")
      then mkMemInfo (mi_total m) (mi_avail m) (mi_free m) (mi_buffers m) kb
      else m
  end.
Definition parse_meminfo_str (content : str) : MemoryStatus :=
  let m := foldl meminfo_line (mkMemInfo 0 None 0 0 0) (lines content) in
  let effective_avail_kb :=
    match mi_avail m with
    | Some avail_kb => avail_kb
    | None => saturating_add (saturating_add (mi_free m) (mi_buffers m)) (mi_cached m)
    end in
  let total_bytes := saturating_mul (mi_total m) 1024 in
  let free_bytes := saturating_mul effective_avail_kb 1024 in
  mkMemoryStatus total_bytes (saturating_sub total_bytes free_bytes) free_bytes.

(** [read_storage_stats]: a path with a NUL character is not a C string;
    [statvfs] is the system call, with the fields [f_frsize], [f_blocks] and
    [f_bavail] when it succeeds. *)
Definition read_storage_stats (statvfs : str → option (Z * Z * Z)) (path : str) : StorageStatus :=
  if bool_decide (0 ∈ path) then mkStorageStatus 0 0 0
  else
    match statvfs path with
    | None => mkStorageStatus 0 0 0
    | Some (block_size, blocks, bavail) =>
        let total_bytes := saturating_mul blocks block_size in
        let free_bytes := saturating_mul bavail block_size in
        mkStorageStatus total_bytes (saturating_sub total_bytes free_bytes) free_bytes
    end.

(** Files read as text: [read path] is [fs::read_to_string]. *)
Section files.
Context (read : str → option str).

Definition read_sysfs_u64 (path : str) : Z :=
  default 0 (s ← read path; parse_uint 64 (trim s)).
Definition read_interface_mac (iface_name : str) : str :=
  match read (SYS_CLASS_NET_PATH ++ [SLASH] ++ iface_name ++ lit "/address") with
  | Some s => trim s
  | None => lit "00:00:00:00:00:00"
  end.
(** Received and sent bytes, received and sent packets. *)
Definition read_interface_traffic (iface_name : str) : Z * Z * Z * Z :=
  let stats_dir := path_join (path_join SYS_CLASS_NET_PATH iface_name) (lit "statistics") in
  (read_sysfs_u64 (path_join stats_dir (lit "rx_bytes")),
   read_sysfs_u64 (path_join stats_dir (lit "tx_bytes")),
   read_sysfs_u64 (path_join stats_dir (lit "rx_packets")),
   read_sysfs_u64 (path_join stats_dir (lit "tx_packets"))).

Definition collect_wan_status (wan_lease : WanLease) (wan_iface : str) : WanStatus :=
  mkWanStatus wan_iface (read_interface_mac wan_iface)
    (ipv4_display <$> wl_ip wan_lease)
    (m ← wl_mask wan_lease; ok (mask_to_prefix_len m))
    (ipv4_display <$> wl_gateway wan_lease)
    (ipv4_display <$> wl_dns_servers wan_lease)
    None (read_interface_traffic wan_iface).

Definition parse_arp_line (line : str) : option ArpEntry :=
  let cols := split_whitespace line in
  if bool_decide (6 ≤ length cols)%nat then
    ip ← cols !! 0%nat; flags ← cols !! 2%nat; mac ← cols !! 3%nat; interface ← cols !! 5%nat;
    Some (mkArpEntry ip mac interface flags)
  else None.
(** [a.interface.cmp(&b.interface).then_with(|| a.ip.cmp(&b.ip))] is not
    [Greater]. *)
Definition arp_le (a b : ArpEntry) : Prop :=
  if bool_decide (ar_interface a = ar_interface b) then str_le (ar_ip a) (ar_ip b)
  else str_le (ar_interface a) (ar_interface b).
#[global] Instance arp_le_dec : RelDecision arp_le.
Proof. intros a b. unfold arp_le. destruct (bool_decide _); apply _. Defined.
Definition parse_arp_cache_str (content : str) : list ArpEntry :=
  merge_sort arp_le (omap parse_arp_line (drop 1 (lines content))).
Definition collect_arp_cache (arp_path : str) : list ArpEntry :=
  match read arp_path with Some c => parse_arp_cache_str c | None => [] end.

Context `{Ipv4NetOps Net}.

(** [None] when the network that stands in for an unreadable one cannot be read
    either. *)
Definition collect_lan_status (lan_iface current_lan_ip_str : str) : option LanStatus :=
  lan_net ← match net_parse (Net := Net) current_lan_ip_str with
            | Some n => Some n
            | None => net_parse (lit "192.168.1.1/24")
            end;
  let mode :=
    if bool_decide (is_Some (strip_prefix (lit "192.168.1.") current_lan_ip_str))
    then lit "primary" else lit "backup" in
  Some (mkLanStatus lan_iface (read_interface_mac lan_iface) (ipv4_display (net_addr lan_net))
          (net_prefix_len lan_net) mode (read_interface_traffic lan_iface)).

Definition collect_network_status (wan_lease : WanLease)
    (wan_iface lan_iface current_lan_ip_str : str) : option NetworkStatus :=
  lan ← collect_lan_status lan_iface current_lan_ip_str;
  Some (mkNetworkStatus (collect_wan_status wan_lease wan_iface) lan
          (collect_arp_cache PROC_NET_ARP_PATH)).
End files.

(** [collect_dhcp_status]; [mac_display] is the [Display] of the [pnet] crate's
    addresses. *)
Definition collect_dhcp_status (mac_display : MacAddr → str) (leases_raw : list DhcpLeaseInfo) : DhcpServerStatus :=
  let leases := (λ l, mkDhcpLeaseEntry (mac_display (li_mac l)) (ipv4_display (li_ip l))
                        (li_hostname l) (li_expires_in_seconds l) (li_is_static l)) <$> leases_raw in
  mkDhcpServerStatus (length leases) leases.

(** [resolve_bind_socket_addr]: the address and port the server listens on. *)
Definition resolve_bind_socket_addr (lan_ip : str) (port : Z) : Ipv4Addr * Z :=
  let ip_str := take_until SLASH lan_ip in
  (default 0 (ipv4_from_str ip_str), port).

(** What the kernel answers to the calls on the new socket. *)
Record SocketEnv := mkSocketEnv {
  so_bind_device : str → bool;
  so_bind : Ipv4Addr * Z → bool;
  so_listen : bool;
}.
(** What the socket is bound to when it listens: a device, if that worked, and
    an address.  Options that fail to be set are ignored. *)
Record BoundSocket := mkBoundSocket { bs_device : option str; bs_addr : Ipv4Addr * Z }.

Definition configure_socket_binding (env : SocketEnv) (lan_interface lan_ip : str) (port : Z) :
    Result ServiceError BoundSocket :=
  let device :=
    if negb (bool_decide (lan_interface = [])) && so_bind_device env lan_interface
    then Some lan_interface else None in
  let bind_addr := resolve_bind_socket_addr lan_ip port in
  let? addr :=
    if so_bind env bind_addr then Ok bind_addr
    else if so_bind env (0, port) then Ok (0, port) else Err ServiceIo in
  if so_listen env then Ok (mkBoundSocket device addr) else Err ServiceIo.

(** ** Streams are counted right *)

Section counting.
Context {A : Type} (P : A → bool).

(** How many values of a map have a property. *)
Definition count_values (m : gmap nat A) : nat := size (filter (λ kv, P kv.2 = true) m).

Lemma count_values_fresh m i x :
  m !! i = None → count_values (<[i := x]> m) = (count_values m + if P x then 1 else 0)%nat.
Proof.
  intros Hi. unfold count_values. destruct (P x) eqn:E.
  - rewrite map_filter_insert_True by done. rewrite map_size_insert_None; [lia |].
    apply map_lookup_filter_None. by left.
  - rewrite map_filter_insert_not'; [lia | simpl; congruence | intros y Hy; congruence].
Qed.
Lemma count_values_lookup m i y :
  m !! i = Some y → count_values m = (count_values (delete i m) + if P y then 1 else 0)%nat.
Proof.
  intros Hi. rewrite <-(insert_delete_id m i y Hi) at 1. apply count_values_fresh, lookup_delete_eq.
Qed.
Lemma count_values_insert m i x :
  count_values (<[i := x]> m) = (count_values (delete i m) + if P x then 1 else 0)%nat.
Proof. rewrite <-insert_delete_eq. apply count_values_fresh, lookup_delete_eq. Qed.
Lemma count_values_empty : count_values ∅ = 0%nat.
Proof. unfold count_values. by rewrite map_filter_empty, map_size_empty. Qed.
End counting.

Definition holds_slot (ip : Z) (r : StreamReq) : bool :=
  bool_decide (sr_ip r = ip) && negb (bool_decide (sr_pc r = Dropping)).
Definition holds_permit (r : StreamReq) : bool :=
  bool_decide (sr_pc r = Streaming) || bool_decide (sr_pc r = Dropping).

Record sse_inv (s : SseServer) : Prop := {
  si_tracker ip : default 0%nat (sm_tracker (ss_streams s) !! ip) = count_values (holds_slot ip) (ss_reqs s);
  si_nonzero ip : sm_tracker (ss_streams s) !! ip ≠ Some 0%nat;
  si_limit ip : (count_values (holds_slot ip) (ss_reqs s) ≤ MAX_SSE_STREAMS_PER_IP)%nat;
  si_permits : (sm_permits (ss_streams s) + count_values holds_permit (ss_reqs s))%nat
               = MAX_CONCURRENT_SSE_STREAMS;
}.

Lemma reserve_spec ip tracker :
  (∀ ip, tracker !! ip ≠ Some 0%nat) →
  let '(tracker', ok) := reserve_ip_sse_slot ip tracker in
  (∀ ip, tracker' !! ip ≠ Some 0%nat) ∧
  (ok = true ↔ (default 0 (tracker !! ip) < MAX_SSE_STREAMS_PER_IP)%nat) ∧
  ∀ ip', default 0%nat (tracker' !! ip') =
         (default 0%nat (tracker !! ip') + if ok && bool_decide (ip' = ip) then 1 else 0)%nat.
Proof.
  intros Hnz. unfold reserve_ip_sse_slot.
  case_bool_decide as Hl; cbn [andb].
  - split; [|split; [split; [done | lia] |]].
    + intros ip' [[<- E] | [_ E]]%lookup_insert_Some; [|by apply Hnz in E].
      unfold MAX_SSE_STREAMS_PER_IP in Hl. lia.
    + intros ip'. destruct (decide (ip' = ip)) as [-> | Hne].
      * rewrite lookup_insert_eq. simpl. lia.
      * rewrite lookup_insert_ne by done. lia.
  - split; [|split; [split; [lia | done] |]].
    + intros ip' [[<- E] | [_ E]]%lookup_insert_Some; [done | by apply Hnz in E].
    + intros ip'. case_bool_decide as Hip.
      * subst. rewrite lookup_insert_eq. simpl. lia.
      * rewrite lookup_insert_ne by done. lia.
Qed.

Lemma release_spec ip tracker :
  (∀ ip, tracker !! ip ≠ Some 0%nat) →
  let tracker' := release_ip_sse_slot ip tracker in
  (∀ ip, tracker' !! ip ≠ Some 0%nat) ∧
  ∀ ip', default 0%nat (tracker' !! ip') =
         (default 0%nat (tracker !! ip') - if bool_decide (ip' = ip) then 1 else 0)%nat.
Proof.
  intros Hnz. unfold release_ip_sse_slot. destruct (tracker !! ip) as [count|] eqn:Hc.
  2: { split; [done |]. intros ip'. case_bool_decide as Hip; [subst; by rewrite Hc | lia]. }
  case_bool_decide as Hz; (split; [intros ip' | intros ip'; case_bool_decide as Hip]).
  - intros [_ E]%lookup_delete_Some. by apply Hnz in E.
  - subst. rewrite lookup_delete_eq, Hc. simpl. lia.
  - rewrite lookup_delete_ne by done. lia.
  - intros [[<- E] | [_ E]]%lookup_insert_Some; [congruence | by apply Hnz in E].
  - subst. by rewrite lookup_insert_eq, Hc.
  - rewrite lookup_insert_ne by done. lia.
Qed.

Lemma holds_slot_eq ip ip' pc :
  holds_slot ip (mkStreamReq ip' pc) =
  bool_decide (ip = ip') && negb (bool_decide (pc = Dropping)).
Proof. unfold holds_slot. simpl. f_equal. by apply bool_decide_ext. Qed.

(** The counts without and with the request in question. *)
Ltac count_request Hid Hs Hpc :=
  pose proof (λ ip', count_values_lookup (holds_slot ip') _ _ _ Hid) as Hs;
  pose proof (count_values_lookup holds_permit _ _ _ Hid) as Hpc; simpl in Hpc.

Lemma sse_request_inv id ip s : sse_inv s → sse_inv (sse_event (SseRequest id ip) s).1.
Proof.
  intros [Ht Hnz Hl Hp]. cbn [sse_event].
  destruct (ss_reqs s !! id) as [r|] eqn:Hid; [by split |].
  pose proof (reserve_spec ip (sm_tracker (ss_streams s)) Hnz) as Hr.
  destruct (reserve_ip_sse_slot ip (sm_tracker (ss_streams s))) as [tracker []].
  all: destruct Hr as (Hnz' & Hok & Hcount); split; simpl; try done.
  all: try (intros ip'; rewrite Hcount, Ht; simpl; lia).
  - intros ip'. rewrite Hcount, Ht, count_values_fresh, holds_slot_eq by done. simpl. by rewrite andb_true_r.
  - intros ip'. rewrite count_values_fresh, holds_slot_eq, <-Ht by done. simpl. rewrite andb_true_r.
    case_bool_decide; [subst; apply proj1 in Hok; specialize (Hok eq_refl); lia |].
    rewrite Ht. specialize (Hl ip'). lia.
  - rewrite count_values_fresh by done. simpl. lia.
Qed.

Lemma sse_step_inv id s : sse_inv s → sse_inv (sse_event (SseStep id) s).1.
Proof.
  intros [Ht Hnz Hl Hp]. cbn [sse_event].
  destruct (ss_reqs s !! id) as [[ip []]|] eqn:Hid; [| | by split | | by split];
    count_request Hid Hs Hpc.
  - destruct (sm_permits (ss_streams s)) as [|n] eqn:Hn; split; simpl; try done.
    all: try (intros ip'; rewrite count_values_insert; specialize (Hs ip');
              rewrite holds_slot_eq in *; simpl in *; first [rewrite Ht; lia | specialize (Hl ip'); lia]).
    all: rewrite count_values_insert; simpl; lia.
  - destruct (release_spec ip (sm_tracker (ss_streams s)) Hnz) as [Hnz' Hcount].
    split; simpl; [|done | | lia]; intros ip'; specialize (Hs ip').
    + rewrite Hcount, Ht. rewrite holds_slot_eq, andb_true_r in Hs. lia.
    + specialize (Hl ip'). lia.
  - split; simpl; [|done | | lia]; intros ip'; specialize (Hs ip').
    + rewrite Ht. rewrite holds_slot_eq, andb_false_r in Hs. lia.
    + specialize (Hl ip'). lia.
Qed.

Lemma sse_disconnect_inv id s : sse_inv s → sse_inv (sse_event (SseDisconnect id) s).1.
Proof.
  intros [Ht Hnz Hl Hp]. cbn [sse_event].
  destruct (ss_reqs s !! id) as [[ip []]|] eqn:Hid; [by split | by split | | by split | by split].
  count_request Hid Hs Hpc.
  destruct (release_spec ip (sm_tracker (ss_streams s)) Hnz) as [Hnz' Hcount].
  split; simpl; [|done | | rewrite count_values_insert; simpl; lia];
    intros ip'; specialize (Hs ip'); rewrite count_values_insert; rewrite holds_slot_eq in *.
  - rewrite Hcount, Ht. rewrite andb_true_r in Hs. rewrite andb_false_r. lia.
  - specialize (Hl ip'). rewrite andb_false_r. lia.
Qed.

Lemma sse_run_inv events : sse_inv (sse_run events).
Proof.
  unfold sse_run. induction events as [|e events IH] using rev_ind; simpl.
  { split; simpl; intros; rewrite ?lookup_empty, ?count_values_empty; simpl; done || lia. }
  rewrite foldl_app. simpl.
  destruct e; [by apply sse_request_inv | by apply sse_step_inv | by apply sse_disconnect_inv].
Qed.

(** The streams of a client, and all of them. *)
Definition client_streams (ip : Z) (s : SseServer) : nat :=
  count_values (λ r, bool_decide (sr_ip r = ip) && bool_decide (sr_pc r = Streaming)) (ss_reqs s).
Definition all_streams (s : SseServer) : nat :=
  count_values (λ r, bool_decide (sr_pc r = Streaming)) (ss_reqs s).

Lemma count_values_le {A} (P Q : A → bool) (m : gmap nat A) :
  (∀ x, P x = true → Q x = true) → (count_values P m ≤ count_values Q m)%nat.
Proof.
  intros HPQ. unfold count_values. apply map_subseteq_size, map_filter_subseteq_ext. naive_solver.
Qed.

(** C23: the log streams of the status page are within their limits and none is
    lost.  In every interleaving of the requests of any clients, of the threads
    that serve them and of disconnections, a client has at most 2 streams and
    there are at most 4; a new request is turned away by the first check
    exactly if its client has 2 requests that hold a slot; and when no request
    is left, every slot and every permit is free again. *)
Theorem sse_streams_bounded events :
  let s := sse_run events in
  (∀ ip, (client_streams ip s ≤ MAX_SSE_STREAMS_PER_IP)%nat) ∧
  (all_streams s ≤ MAX_CONCURRENT_SSE_STREAMS)%nat ∧
  (∀ id ip, ss_reqs s !! id = None →
     (sse_event (SseRequest id ip) s).2 = Some TOO_MANY_REQUESTS ↔
     count_values (holds_slot ip) (ss_reqs s) = MAX_SSE_STREAMS_PER_IP) ∧
  (ss_reqs s = ∅ → ss_streams s = streams_new).
Proof.
  intros s. destruct (sse_run_inv events) as [Ht Hnz Hl Hp]. fold s in Ht, Hnz, Hl, Hp. split_and!.
  - intros ip. etrans; [apply count_values_le | apply (Hl ip)]. intros [i pc]. unfold holds_slot. simpl.
    by destruct (bool_decide (i = ip)), pc.
  - unfold all_streams. etrans; [apply (count_values_le _ holds_permit) | lia].
    intros [i pc]. by destruct pc.
  - intros id ip Hid. simpl. rewrite Hid.
    pose proof (reserve_spec ip (sm_tracker (ss_streams s)) Hnz) as Hr.
    destruct (reserve_ip_sse_slot ip (sm_tracker (ss_streams s))) as [tracker ok].
    destruct Hr as (_ & Hok & _). rewrite Ht in Hok. specialize (Hl ip).
    destruct ok; simpl; (split; [intros E | intros E]); try done.
    + apply proj1 in Hok. specialize (Hok eq_refl). lia.
    + destruct (decide (count_values (holds_slot ip) (ss_reqs s) < MAX_SSE_STREAMS_PER_IP)%nat) as [Hlt|];
        [by apply Hok in Hlt | lia].
  - intros E. rewrite E in *. rewrite count_values_empty in Hp.
    destruct (ss_streams s) as [tracker permits]. simpl in *. unfold streams_new. f_equal; [|lia].
    apply map_eq. intros ip. rewrite lookup_empty. specialize (Ht ip). specialize (Hnz ip).
    rewrite count_values_empty in Ht. by destruct (tracker !! ip) as [[|n]|].
Qed.

(** ** The numbers shown are right *)

Definition meminfo_ok (m : MemInfo) : Prop :=
  0 ≤ mi_total m ∧ 0 ≤ default 0 (mi_avail m) ∧ 0 ≤ mi_free m ∧ 0 ≤ mi_buffers m ∧ 0 ≤ mi_cached m.

Lemma meminfo_line_ok m line : meminfo_ok m → meminfo_ok (meminfo_line m line).
Proof.
  unfold meminfo_line. destruct (split_once COLON line) as [[key val]|]; [|done].
  assert (0 ≤ default 0 (head (split_whitespace val) ≫= parse_uint 64)) as Hkb.
  { destruct (_ ≫= _) as [n|] eqn:E; [|done]. apply bind_Some in E as (w & _ & Hw).
    apply parse_uint_range in Hw. simpl. lia. }
  revert Hkb. generalize (default 0 (head (split_whitespace val) ≫= parse_uint 64)).
  intros kb Hkb Hm. unfold meminfo_ok in *.
  repeat (destruct (bool_decide _); [simpl; tauto |]). tauto.
Qed.

(** The memory shown, from any contents of [/proc/meminfo]: three numbers of 64
    bits, and the used and free parts make up the total unless more is said to
    be free than there is, when nothing is used. *)
Lemma parse_meminfo_str_spec content :
  let m := parse_meminfo_str content in
  0 ≤ ms_total_bytes m ≤ U64_MAX ∧ 0 ≤ ms_free_bytes m ≤ U64_MAX ∧
  (if bool_decide (ms_free_bytes m ≤ ms_total_bytes m)
   then ms_used_bytes m + ms_free_bytes m = ms_total_bytes m else ms_used_bytes m = 0).
Proof.
  assert (meminfo_ok (foldl meminfo_line (mkMemInfo 0 None 0 0 0) (lines content))) as Hok.
  { generalize (lines content). intros ls.
    assert (∀ m, meminfo_ok m → meminfo_ok (foldl meminfo_line m ls)) as Hf.
    { induction ls as [|l ls IH]; simpl; [done |]. eauto using meminfo_line_ok. }
    apply Hf. by unfold meminfo_ok. }
  unfold parse_meminfo_str. destruct (foldl _ _ _) as [tot avail fr bu ca].
  unfold meminfo_ok in Hok. simpl in *.
  unfold saturating_sub, saturating_mul, saturating_add, U64_MAX in *.
  destruct avail as [av|]; simpl in *; case_bool_decide; lia.
Qed.

#[global] Instance arp_le_total : Total arp_le.
Proof.
  intros a b. unfold arp_le.
  destruct (bool_decide_reflect (ar_interface a = ar_interface b)) as [E|E].
  - rewrite bool_decide_true by done. apply (total str_le).
  - rewrite bool_decide_false by done. apply (total str_le).
Qed.

(** The list of neighbours is in order of interface and address, and has one
    entry for every line after the first that has six columns. *)
Lemma parse_arp_cache_str_spec content :
  Sorted arp_le (parse_arp_cache_str content) ∧
  parse_arp_cache_str content ≡ₚ omap parse_arp_line (drop 1 (lines content)).
Proof. split; [apply Sorted_merge_sort, _ | apply merge_sort_Permutation]. Qed.

(** A server that listens is bound to the LAN address it was given or to every
    address, and to the LAN interface when the kernel allows it. *)
Lemma configure_socket_binding_spec env lan_interface lan_ip port b :
  configure_socket_binding env lan_interface lan_ip port = Ok b →
  so_bind env (bs_addr b) = true ∧
  (bs_addr b = resolve_bind_socket_addr lan_ip port ∨ bs_addr b = (0, port)) ∧
  (lan_interface ≠ [] → so_bind_device env lan_interface = true → bs_device b = Some lan_interface).
Proof.
  unfold configure_socket_binding.
  destruct (so_bind env (resolve_bind_socket_addr lan_ip port)) eqn:E1; simpl;
    [|destruct (so_bind env (0, port)) eqn:E2; simpl; [|done]];
    destruct (so_listen env); intros; simplify_eq/=;
    (split_and!; [done | tauto |]; intros Hne ->; by rewrite bool_decide_false).
Qed.

(** ** Who may ask *)

(** A host name or address, without a port. *)
Definition plain_host (name : str) : Prop :=
  name ≠ [] ∧ head name ≠ Some 91 ∧ COLON ∉ name ∧ Forall (λ c, is_whitespace c = false) name.
(** Nothing, or a port. *)
Definition port_suffix (suffix : str) : Prop :=
  suffix = [] ∨ ∃ port, suffix = COLON :: port ∧ COLON ∉ port ∧
    Forall (λ c, is_whitespace c = false) port.

Lemma count_char_none c s : c ∉ s → count_char c s = 0%nat.
Proof.
  intros Hc. unfold count_char. induction s as [|x s IH]; [done |].
  apply not_elem_of_cons in Hc as [Hx Hs]. rewrite filter_cons_False by congruence. by apply IH.
Qed.

Lemma extract_host_name_plain name suffix :
  plain_host name → port_suffix suffix → extract_host_name (name ++ suffix) = name.
Proof.
  intros (Hne & Hb & Hc & Hw) Hs. unfold extract_host_name.
  assert (Forall (λ c, is_whitespace c = false) (name ++ suffix)) as Hws.
  { apply Forall_app_2; [done |]. destruct Hs as [-> | (port & -> & _ & Hp)]; [constructor |].
    by constructor. }
  rewrite (trim_id _ Hws).
  assert (strip_prefix [91] (name ++ suffix) = None) as ->.
  { destruct name as [|x name]; [done |]. simpl. rewrite decide_False; [done |]. intros <-. by apply Hb. }
  simpl. rewrite bool_decide_false.
  - apply take_until_app; [done |]. destruct Hs as [-> | (port & -> & _)]; [by right | by left].
  - unfold count_char. rewrite filter_app, length_app.
    fold (count_char COLON name). rewrite (count_char_none COLON name Hc).
    destruct Hs as [-> | (port & -> & Hp & _)]; [simpl; lia |].
    rewrite filter_cons_True by done. simpl. fold (count_char COLON port).
    rewrite (count_char_none COLON port Hp). lia.
Qed.

(** The names of the router, and its addresses. *)
Definition router_name (lan_ip name : str) : Prop :=
  to_ascii_lowercase name ∈ [lit "localhost"; lit "router.lan"; lit "router"; lit "router.local"] ∨
  name = lit "127.0.0.1" ∨
  take_until 47 lan_ip ≠ [] ∧ to_ascii_lowercase name = to_ascii_lowercase (take_until 47 lan_ip).

#[global] Instance router_name_dec lan_ip name : Decision (router_name lan_ip name).
Proof. unfold router_name. apply _. Defined.

Lemma is_allowed_host_plain lan_ip name suffix :
  plain_host name → port_suffix suffix →
  is_allowed_host (name ++ suffix) lan_ip = true ↔ router_name lan_ip name.
Proof.
  intros Hn Hs. unfold is_allowed_host. rewrite extract_host_name_plain by done.
  destruct Hn as (Hne & Hb & Hc & _). rewrite bool_decide_false by done.
  rewrite (bool_decide_false (name = lit "::1")) by (intros ->; apply Hc, list_elem_of_here).
  rewrite (bool_decide_false (name = lit "[::1]")) by (intros ->; by apply Hb).
  unfold router_name, eq_ignore_ascii_case. rewrite !elem_of_cons.
  change (to_ascii_lowercase (lit "localhost")) with (lit "localhost").
  change (to_ascii_lowercase (lit "router.lan")) with (lit "router.lan").
  change (to_ascii_lowercase (lit "router")) with (lit "router").
  change (to_ascii_lowercase (lit "router.local")) with (lit "router.local").
  assert (∀ b c : bool, (if b then true else c) = b || c) as Hif by by intros [].
  rewrite Hif, !orb_false_r, !orb_true_iff, andb_true_iff, negb_true_iff, bool_decide_eq_false,
    !bool_decide_eq_true.
  pose proof (not_elem_of_nil (to_ascii_lowercase name)). tauto.
Qed.

(** What a request to a path gets, apart from the method. *)
Inductive at_path {FU : FormUrlencoded} : str → str → Handler → Prop :=
| at_dashboard query : at_path (lit "/") query Dashboard
| at_status query : at_path (lit "/api/status") query Status
| at_logs query params : logs_query query = Some params → at_path (lit "/api/logs") query (Logs params)
| at_logs_bad query : logs_query query = None → at_path (lit "/api/logs") query (NoHandler BAD_REQUEST)
| at_stream query : at_path (lit "/api/logs/stream") query LogsStream.

Lemma at_path_route {FU : FormUrlencoded} r h :
  at_path (rq_path r) (rq_query r) h →
  route r = match rq_method r with OtherMethod => NoHandler METHOD_NOT_ALLOWED | _ => h end.
Proof.
  unfold route. destruct r as [method path query host_header]. cbn [rq_path rq_query rq_method].
  intros [?|?|? ? E|? E|?]; rewrite ?E; by destruct method.
Qed.
Lemma no_path_route {FU : FormUrlencoded} r :
  (∀ h, ¬ at_path (rq_path r) (rq_query r) h) → route r = NoHandler NOT_FOUND.
Proof.
  intros Hn. unfold route. destruct r as [method path query host_header]. cbn [rq_path rq_query rq_method] in *.
  destruct (bool_decide_reflect (path = lit "/")) as [->|]; [destruct (Hn Dashboard); constructor |].
  destruct (bool_decide_reflect (path = lit "/api/status")) as [->|]; [destruct (Hn Status); constructor |].
  destruct (bool_decide_reflect (path = lit "/api/logs")) as [->|].
  { destruct (logs_query query) as [params|] eqn:E; [destruct (Hn (Logs params)) | destruct (Hn (NoHandler BAD_REQUEST))];
      by constructor. }
  destruct (bool_decide_reflect (path = lit "/api/logs/stream")) as [->|]; [destruct (Hn LogsStream); constructor |].
  done.
Qed.

(** C29: the status page only answers requests that name the router.  For a
    request whose [Host] header is a name or address, with or without a port,
    and whatever requests are in flight: if the name is none of the router's
    names or addresses (as when a foreign site has its own name resolve to the
    router), the answer is an error whatever the path, query and method, and so
    it is without a header.  If it is one of them, the request is routed when
    the limit of 16 requests in flight lets it through, as it does when fewer are
    in flight, and waits otherwise, as it does when as many for the same path and
    method are.  A routed request gets the handler of its path, with the
    parameters of its query for the log, for the methods [GET] and [HEAD]; an
    error when the parameters cannot be read; the error that the method is not
    allowed for every other method; and the error that there is no such page
    for any other path.  Every answer, errors included, has the security
    headers. *)
Theorem only_router_names_served {FU : FormUrlencoded} `{!ConcurrencyLimit, !ConcurrencyLimitLaws}
    lan_ip name suffix r in_flight :
  plain_host name → port_suffix suffix → rq_host r = Some (name ++ suffix) →
  let answer h := Some (mkResponse h [XFrameOptions; XContentTypeOptions; ContentSecurityPolicy; ReferrerPolicy]) in
  (¬ router_name lan_ip name → create_router lan_ip in_flight r = answer (NoHandler BAD_REQUEST)) ∧
  create_router lan_ip in_flight (mkRequest (rq_method r) (rq_path r) (rq_query r) None)
    = answer (NoHandler BAD_REQUEST) ∧
  (router_name lan_ip name →
    (create_router lan_ip in_flight r = answer (route r) ∨ create_router lan_ip in_flight r = None) ∧
    ((length in_flight < 16)%nat → create_router lan_ip in_flight r = answer (route r)) ∧
    (Forall (λ q, rq_path q = rq_path r ∧ rq_method q = rq_method r) in_flight → (16 ≤ length in_flight)%nat →
       create_router lan_ip in_flight r = None)) ∧
  (∀ h, at_path (rq_path r) (rq_query r) h →
     route r = match rq_method r with OtherMethod => NoHandler METHOD_NOT_ALLOWED | _ => h end) ∧
  ((∀ h, ¬ at_path (rq_path r) (rq_query r) h) → route r = NoHandler NOT_FOUND).
Proof.
  intros Hn Hs Hr answer. pose proof (is_allowed_host_plain lan_ip name suffix Hn Hs) as Hallowed.
  split_and!; [| done | | apply at_path_route | apply no_path_route];
    unfold create_router, security_headers_middleware, validate_host_middleware, limit_layer;
    rewrite Hr; simpl default.
  - intros Hno. destruct (is_allowed_host (name ++ suffix) lan_ip); [by destruct Hno; apply Hallowed | done].
  - intros Hyes. rewrite (proj2 Hallowed Hyes). cbn [negb]. split_and!.
    + destruct (limit_admits _ _ _); [by left | by right].
    + intros Hfree. by rewrite limit_free.
    + intros Hsame Hfull. by rewrite limit_full.
Qed.

Module ObservabilityExample.
Definition lan_ip : str := lit "192.168.1.1/24".
Definition ask (host : str) : Request := mkRequest GET (lit "/api/logs") (lit "lines=5") (Some host).

(** Pairs separated by ampersands, without escapes, ... *)
#[local] Instance pairs : FormUrlencoded := λ query, omap (split_once 61) (split 38 query).
(** ... and one limit for all requests. *)
#[local] Instance one_limit : ConcurrencyLimit := λ max in_flight _, bool_decide (length in_flight < max)%nat.
#[local] Instance one_limit_laws : ConcurrencyLimitLaws.
Proof.
  split; intros max in_flight r; [intros H; by apply bool_decide_eq_true |].
  intros _ H. apply bool_decide_eq_false. lia.
Defined.

Lemma only_router_names_served_witness :
  rs_handler <$> create_router lan_ip [] (ask (lit "Router.LAN" ++ lit ":80"))
    = Some (Logs (mkLogsQueryParams (Some 5) None)) ∧
  rs_handler <$> create_router lan_ip [] (ask (lit "evil.example")) = Some (NoHandler BAD_REQUEST) ∧
  create_router lan_ip (replicate 16 (ask (lit "router"))) (ask (lit "router")) = None.
Proof.
  assert (plain_host (lit "Router.LAN") ∧ plain_host (lit "evil.example") ∧ plain_host (lit "router")) as (H1 & H2 & H3).
  { split_and!; (split_and!; [done | done | apply (bool_decide_unpack _); reflexivity |]);
      repeat (constructor; [reflexivity |]); constructor. }
  assert (port_suffix (lit ":80")) as H4.
  { right. exists (lit "80"). split_and!; [done | apply (bool_decide_unpack _); reflexivity |].
    repeat (constructor; [reflexivity |]); constructor. }
  split_and!.
  - destruct (only_router_names_served lan_ip (lit "Router.LAN") (lit ":80")
      (ask (lit "Router.LAN" ++ lit ":80")) [] H1 H4 eq_refl) as (_ & _ & H & Hroute & _).
    destruct H as (_ & H & _); [left; apply (bool_decide_unpack _); reflexivity |].
    rewrite H by (apply Nat.lt_0_succ). unfold fmap, option_fmap, option_map. cbn [rs_handler].
    rewrite (Hroute (Logs (mkLogsQueryParams (Some 5) None))); [done |]. constructor. vm_compute. reflexivity.
  - destruct (only_router_names_served lan_ip (lit "evil.example") [] (ask (lit "evil.example")) []
      H2 (or_introl eq_refl) eq_refl) as (H & _).
    rewrite H; [done |]. apply (bool_decide_unpack _). reflexivity.
  - destruct (only_router_names_served lan_ip (lit "router") [] (ask (lit "router"))
      (replicate 16 (ask (lit "router"))) H3 (or_introl eq_refl) eq_refl) as (_ & _ & H & _).
    destruct H as (_ & _ & H); [left; apply (bool_decide_unpack _); reflexivity |]. apply H; [|simpl; lia].
    by apply Forall_replicate.
Defined.

(** Finding: the status page calls the LAN "primary" by the text of its address,
    so a router configured with another primary network shows "backup". *)
Theorem custom_primary_shown_as_backup :
  la_mode <$> collect_lan_status (Net := IpNet) (λ _, None) (lit "lan") (lit "10.0.0.1/24") = Some (lit "backup").
Proof. vm_compute. done. Qed.
End ObservabilityExample.
