(* ===== verification/Status.v ===== *)
(** * The status response

    The parts of [src/src/services/observability/status.rs] that compute in
    floating point (uptime, load, hit ratio) and the assembly of the response
    from what the services publish.  Text is read as an [f64] by the grammar of
    the standard library; the rounding is that of [RateLimiter].  The theorems
    carry the counters of the DNS worker from its event loop to the page. *)

From Stdlib Require Import ZArith QArith Qround Lqa Lia.
From stdpp Require Import base gmap list strings.
From S2P Require Import Prelude NetAddr Text LeaseTable RateLimiter Dns DnsForwarder Observability.

#[local] Open Scope Z_scope.

(** ** [f64] *)

(** The sign of a zero is left out. *)
Inductive F64 := Finite (q : Q) | Infinite (negative : bool) | NaN.

Fixpoint span_digits (s : str) : str * str :=
  match s with
  | c :: s' =>
      if is_ascii_digit c then let '(ds, rest) := span_digits s' in (c :: ds, rest) else ([], s)
  | [] => ([], [])
  end.
Definition split_sign (s : str) : bool * str :=
  match s with
  | c :: s' => if bool_decide (c = 45) then (true, s')
               else if bool_decide (c = 43) then (false, s') else (false, s)
  | [] => (false, [])
  end.
(** The exponent of a number, if any: the rest of the text. *)
Definition parse_exponent (s : str) : option Z :=
  match s with
  | [] => Some 0
  | c :: s' =>
      if bool_decide (c = 101) || bool_decide (c = 69) then
        let '(negative, ds) := split_sign s' in
        if bool_decide (ds ≠ []) && forallb is_ascii_digit ds
        then Some (if negative then - digits_value 0 ds else digits_value 0 ds)
        else None
      else None
  end.
(** Digits with an optional fraction and exponent. *)
Definition parse_decimal (s : str) : option Q :=
  let '(int_part, rest) := span_digits s in
  let '(fraction, rest) :=
    match rest with
    | c :: rest' => if bool_decide (c = 46) then span_digits rest' else ([], rest)
    | [] => ([], [])
    end in
  if bool_decide (int_part = []) && bool_decide (fraction = []) then None
  else
    exponent ← parse_exponent rest;
    Some (inject_Z (digits_value 0 (int_part ++ fraction))
          * Qpower 10 (exponent - Z.of_nat (length fraction)))%Q.

Section f64_text.
Context {B64 : Binary64}.

(** The nearest [f64]; from halfway past the greatest finite one it is
    infinite. *)
Definition nearest_f64 (negative : bool) (q : Q) : F64 :=
  if Qle_bool (inject_Z (2 ^ 1024 - 2 ^ 970)) q then Infinite negative
  else Finite (rnd (if negative then - q else q)%Q).
(** [str::parse::<f64>] *)
Definition parse_f64 (s : str) : option F64 :=
  let '(negative, body) := split_sign s in
  let word := to_ascii_lowercase body in
  if bool_decide (word = lit "inf") || bool_decide (word = lit "infinity")
  then Some (Infinite negative)
  else if bool_decide (word = lit "nan") then Some NaN
  else nearest_f64 negative <$> parse_decimal body.
End f64_text.

(** [f64::max] with zero, which is not a number only if both are not. *)
Definition F64_max_0 (f : F64) : F64 :=
  match f with
  | Finite q => Finite (f64_max q 0)
  | Infinite false => Infinite false
  | Infinite true | NaN => Finite 0
  end.
(** [as u64] truncates and saturates. *)
Definition F64_as_u64 (f : F64) : Z :=
  match f with
  | Finite q => Z.max 0 (Z.min u64_max (Qfloor q))
  | Infinite negative => if negative then 0 else u64_max
  | NaN => 0
  end.
(** [f64::round]: to the nearest integer, halves away from zero. *)
Definition f64_round (q : Q) : Q :=
  if Qle_bool 0 q then inject_Z (Qfloor (q + (1 # 2)))
  else inject_Z (- Qfloor (- q + (1 # 2))).

(** ** The parts of the response *)

Definition DEFAULT_WAN_INTERFACE : str := lit "wan".
Definition PROC_UPTIME_PATH : str := lit "/proc/uptime".
Definition PROC_LOADAVG_PATH : str := lit "/proc/loadavg".
Definition PROC_MEMINFO_PATH : str := lit "/proc/meminfo".
Definition LOG_PARTITION_PATH : str := lit "/var/log".

Record SystemStatus := mkSystemStatus {
  sy_version : str;
  sy_git_sha : str;
  sy_uptime_seconds : Z;
  sy_memory : MemoryStatus;
  sy_storage : StorageStatus;
  sy_load_average : F64 * F64 * F64;
  sy_watchdog_active : bool;
}.
Record DnsForwarderStatus := mkDnsForwarderStatus {
  df_queries_total : Z;
  df_cache_hits_total : Z;
  df_cache_hit_ratio : Q;
  df_cached_entries_count : Z;
  df_rate_limited_drops_total : Z;
}.
Record SntpStatus := mkSntpStatus {
  sn_synchronized : bool;
  sn_last_sync_timestamp : option str;
  sn_stratum : option Z;
  sn_server : option str;
}.
Record StatusResponse := mkStatusResponse {
  sp_system : SystemStatus;
  sp_network : NetworkStatus;
  sp_dhcp_server : DhcpServerStatus;
  sp_dns_forwarder : DnsForwarderStatus;
  sp_sntp : SntpStatus;
}.
(** The values the services last published. *)
Record ObservabilityReceivers := mkObservabilityReceivers {
  or_wan_lease : WanLease;
  or_dhcp_leases : list DhcpLeaseInfo;
  or_dns_stats : DnsStatsInfo;
  or_sntp_status : SntpStatus;
  or_watchdog_active : bool;
}.
Definition SntpStatus_default : SntpStatus := mkSntpStatus false None None None.
Definition ObservabilityReceivers_from_wan_lease (wan_lease : WanLease) : ObservabilityReceivers :=
  mkObservabilityReceivers wan_lease [] (mkDnsStatsInfo 0 0 0 0) SntpStatus_default false.

(** What the build recorded: [VERGEN_GIT_DESCRIBE], [CARGO_PKG_VERSION] and
    [VERGEN_GIT_SHA]. *)
Record BuildInfo := mkBuildInfo {
  bi_git_describe : option str;
  bi_pkg_version : str;
  bi_git_sha : option str;
}.

Section status.
Context {B64 : Binary64}.

Definition parse_uptime_str (content : str) : Z :=
  default 0 ((λ f, F64_as_u64 (F64_max_0 f)) <$> (head (split_whitespace content) ≫= parse_f64)).
Definition parse_loadavg_str (content : str) : F64 * F64 * F64 :=
  let load i := default (Finite 0) (split_whitespace content !! i ≫= parse_f64) in
  (load 0%nat, load 1%nat, load 2%nat).

Definition build_version (build : BuildInfo) : str :=
  match bi_git_describe build with
  | Some desc =>
      if bool_decide (head desc = Some 118) || from_option is_ascii_digit false (head desc)
      then default desc (strip_prefix [118] desc)
      else bi_pkg_version build
  | None => bi_pkg_version build
  end.
Definition collect_system_status (build : BuildInfo) (read : str → option str)
    (statvfs : str → option (Z * Z * Z)) (watchdog_active : bool) : SystemStatus :=
  mkSystemStatus (build_version build) (default (lit "unknown") (bi_git_sha build))
    (parse_uptime_str (default [] (read PROC_UPTIME_PATH)))
    (parse_meminfo_str (default [] (read PROC_MEMINFO_PATH)))
    (read_storage_stats statvfs LOG_PARTITION_PATH)
    (parse_loadavg_str (default [] (read PROC_LOADAVG_PATH)))
    watchdog_active.

Definition collect_dns_status (stats : DnsStatsInfo) : DnsForwarderStatus :=
  let cache_hit_ratio :=
    if bool_decide (0 < queries_total stats) then
      f64_div (f64_round (f64_mul
        (f64_div (rnd (inject_Z (cache_hits_total stats))) (rnd (inject_Z (queries_total stats))))
        1000)) 1000
    else 0%Q in
  mkDnsForwarderStatus (queries_total stats) (cache_hits_total stats) cache_hit_ratio
    (cached_entries_count stats) (rate_limited_drops_total stats).

Definition collect_sntp_status (sntp : SntpStatus) : SntpStatus := sntp.

Context `{Ipv4NetOps Net}.

(** [None] as for [collect_lan_status]. *)
Definition collect_status_response (build : BuildInfo) (read : str → option str)
    (statvfs : str → option (Z * Z * Z)) (mac_display : MacAddr → str)
    (receivers : ObservabilityReceivers) (lan_interface lan_ip : str) : option StatusResponse :=
  let system := collect_system_status build read statvfs (or_watchdog_active receivers) in
  network ← collect_network_status (Net := Net) read (or_wan_lease receivers)
              DEFAULT_WAN_INTERFACE lan_interface lan_ip;
  Some (mkStatusResponse system network (collect_dhcp_status mac_display (or_dhcp_leases receivers))
          (collect_dns_status (or_dns_stats receivers))
          (collect_sntp_status (or_sntp_status receivers))).
End status.

(** ** Numbers *)

Section numbers.
Context {B64 : Binary64} {BL : Binary64Laws}.

(** The uptime is a [u64] whatever [/proc/uptime] says; no text makes it
    negative or wrap around. *)
Lemma parse_uptime_str_range content : 0 ≤ parse_uptime_str content ≤ u64_max.
Proof.
  unfold parse_uptime_str, u64_max. destruct (_ ≫= _) as [f|]; [|simpl; lia].
  destruct f as [q | [] |]; simpl; unfold u64_max; lia.
Qed.

Lemma f64_round_nonneg q : (0 <= q → 0 <= f64_round q)%Q.
Proof.
  intros Hq. unfold f64_round. rewrite (proj2 (Qle_bool_iff _ _) Hq).
  change 0%Q with (inject_Z 0). rewrite <-Zle_Qle. apply (Qfloor_resp_le 0). lra.
Qed.
Lemma f64_round_close q : (0 <= q → q - (1 # 2) <= f64_round q ∧ f64_round q <= q + (1 # 2))%Q.
Proof.
  intros Hq. unfold f64_round. rewrite (proj2 (Qle_bool_iff _ _) Hq).
  pose proof (Qfloor_le (q + (1 # 2))). pose proof (Qlt_floor (q + (1 # 2))) as Hf.
  rewrite inject_Z_plus in Hf. change (inject_Z 1) with 1%Q in Hf. split; lra.
Qed.
Lemma f64_round_le_int q n : (0 <= q → q <= inject_Z n → f64_round q <= inject_Z n)%Q.
Proof.
  intros Hq Hn. unfold f64_round. rewrite (proj2 (Qle_bool_iff _ _) Hq).
  rewrite <-Zle_Qle. apply Z.lt_succ_r. rewrite Zlt_Qlt. unfold Z.succ.
  rewrite inject_Z_plus. change (inject_Z 1) with 1%Q.
  pose proof (Qfloor_le (q + (1 # 2))). lra.
Qed.

Lemma rnd_near q :
  (0 <= q → q <= 2048 → q - (1 # 8796093022208) <= rnd q ∧ rnd q <= q + (1 # 8796093022208))%Q.
Proof. intros H0 H1. split; [by apply rnd_close_below | by apply rnd_close]. Qed.

Lemma ratio_range (a b : Q) : (0 <= a → a <= b → 1 <= b → 0 <= a / b ∧ a / b <= 1)%Q.
Proof.
  intros Ha Hab Hb. split.
  - apply Qle_shift_div_l; lra.
  - apply Qle_shift_div_r; lra.
Qed.

(** What the counters of the DNS worker satisfy. *)
Definition stats_ok (st : DnsStatsInfo) : Prop :=
  0 ≤ cache_hits_total st ≤ queries_total st ∧ queries_total st ≤ u64_max.

(** The hit ratio shown is between 0 and 1 whatever the counters, and up to
    2^53 queries it is the ratio to three decimals. *)
Lemma collect_dns_status_ratio st :
  stats_ok st →
  let r := df_cache_hit_ratio (collect_dns_status st) in
  (0 <= r ∧ r <= 1)%Q ∧
  (0 < queries_total st ≤ 2 ^ 53 →
   let exact := (inject_Z (cache_hits_total st) / inject_Z (queries_total st))%Q in
   (exact - (51 # 100000) <= r ∧ r <= exact + (51 # 100000))%Q).
Proof.
  intros [[Hh0 Hhq] _]. simpl. case_bool_decide as Hq; [|split; [lra | lia]].
  set (h := rnd (inject_Z (cache_hits_total st))). set (q := rnd (inject_Z (queries_total st))).
  assert (0 <= h ∧ h <= q ∧ 1 <= q)%Q as (Hh & Hle & Hone).
  { split_and!.
    - apply rnd_nonneg. by rewrite (Zle_Qle 0) in Hh0.
    - apply rnd_mono. by rewrite <-Zle_Qle.
    - rewrite <-(rnd_int 1) by done. apply rnd_mono. rewrite <-Zle_Qle. lia. }
  destruct (ratio_range h q Hh Hle Hone) as [Hd0 Hd1].
  unfold f64_div, f64_mul. set (d := rnd (h / q)).
  assert (0 <= d ∧ d <= 1)%Q as [Hr0 Hr1] by (split; [by apply rnd_nonneg | by apply (rnd_le_int 1)]).
  set (m := rnd (d * 1000)).
  assert (0 <= m ∧ m <= 1000)%Q as [Hm0 Hm1]
    by (split; [apply rnd_nonneg; lra | apply (rnd_le_int 1000); [done | change (inject_Z 1000) with 1000%Q; lra]]).
  pose proof (f64_round_nonneg m Hm0). pose proof (f64_round_close m Hm0) as [Hc1 Hc2].
  pose proof (f64_round_le_int m 1000 Hm0 Hm1) as Hr.
  assert (0 <= f64_round m / 1000 ∧ f64_round m / 1000 <= 1)%Q as [Ht0 Ht1]
    by (unfold Qdiv; change (/ 1000)%Q with (1 # 1000); change (inject_Z 1000) with 1000%Q in Hr; lra).
  split; [split; [by apply rnd_nonneg | by apply (rnd_le_int 1)] |].
  intros [_ Hmax].
  set (exact := (inject_Z (cache_hits_total st) / inject_Z (queries_total st))%Q).
  assert (h / q == exact)%Q as He by (unfold h, q, exact; rewrite !rnd_int by lia; done).
  pose proof (rnd_near (h / q) Hd0 ltac:(lra)) as E1.
  pose proof (rnd_near (d * 1000) ltac:(lra) ltac:(lra)) as E2.
  pose proof (rnd_near (f64_round m / 1000) Ht0 ltac:(lra)) as E3.
  fold d in E1. fold m in E2. rewrite He in E1.
  unfold Qdiv in *. change (/ 1000)%Q with (1 # 1000) in *. lra.
Qed.
End numbers.

(** ** The counters of the DNS worker *)

Section counters.
Context {Name : Type} {HK : Hickory Name} {HO : HashOrder} {LM : Limiter}.

(** The counters sent with a heartbeat are good. *)
Definition heartbeat_ok (o : FwOut) : Prop :=
  match o with ToParentHeartbeat st => stats_ok st | _ => True end.
(** If the code returns, the counters are good and so are those it sent. *)
Definition counts_ok (r : Outcome (Forwarder * list FwOut)) : Prop :=
  match r with
  | Returned (s, out) => stats_ok (fw_stats s) ∧ Forall heartbeat_ok out
  | Panicked => True
  end.

Lemma counts_bind {A} (x : Outcome A) (f : A → Outcome (Forwarder * list FwOut)) :
  (∀ a, x = Returned a → counts_ok (f a)) → counts_ok (x ≫= f).
Proof. destruct x; simpl; [auto | done]. Qed.

Lemma send_reply_heartbeat origin bytes cap : heartbeat_ok (send_reply origin bytes cap).
Proof. by destruct origin. Qed.
Lemma fanout_heartbeat clients reply out :
  fanout_client_replies clients reply = Returned out → Forall heartbeat_ok out.
Proof.
  revert out. induction clients as [|c clients IH]; intros out; simpl; [by intros [= <-] |].
  destruct (set_xid _ _) as [r|]; simpl; [|done].
  destruct (fanout_client_replies clients reply) as [rest|]; simpl; [|done].
  intros [= <-]. constructor; [apply send_reply_heartbeat | by apply IH].
Qed.
Lemma failover_heartbeat now q xid q' o :
  try_failover_upstream_query now q xid = Returned (Some (q', o)) → heartbeat_ok o.
Proof.
  unfold try_failover_upstream_query. case_bool_decide; [done |].
  destruct (index _ _); simpl; [|done]. destruct (if bool_decide _ then _ else _); simpl; [|done].
  by intros [= _ <-].
Qed.
Lemma retry_heartbeat now l pending r :
  retry_queries now l pending = Returned r → Forall heartbeat_ok r.2.
Proof.
  revert pending r. induction l as [|xid l IH]; intros pending r; simpl; [by intros [= <-] |].
  destruct (pending !! xid) as [q|]; [|by apply IH].
  destruct (try_failover_upstream_query now q xid) as [[[q' o]|]|] eqn:E; simpl; [|by apply IH | done].
  destruct (retry_queries now l _) as [r'|] eqn:E'; simpl; [|done]. intros [= <-].
  constructor; [by eapply failover_heartbeat | by eapply IH].
Qed.
Lemma forward_heartbeat now env query origin key pending servers r :
  forward_new_client_query now env query origin key pending servers = Returned r →
  Forall heartbeat_ok r.2.
Proof.
  unfold forward_new_client_query. case_bool_decide; [by intros [= <-] |].
  destruct (allocate_unique_xid _ _); [|by intros [= <-]].
  destruct (new_client _ _); simpl; [|done]. destruct (index _ _); simpl; [|done].
  destruct (set_xid _ _); simpl; [|done]. destruct (fe_send_ok env); intros [= <-]; by repeat constructor.
Qed.

Lemma count_query_ok st :
  stats_ok st →
  stats_ok (count_query st) ∧ (stats_ok (count_hit (count_query st))).
Proof.
  unfold stats_ok, count_query, count_hit, u64_saturating_add. simpl. intros. lia.
Qed.

Lemma incoming_counts now env query origin s :
  stats_ok (fw_stats s) → counts_ok (handle_incoming_query now env query origin s).
Proof.
  intros Hs. unfold handle_incoming_query. case_bool_decide; [by split |].
  destruct (count_query_ok _ Hs) as [Hq Hhit].
  destruct (try_resolve_local_query _ _ _) as [resp|].
  { split; [done |]. repeat constructor. apply send_reply_heartbeat. }
  destruct (get_cache_key query) as [key|]; [|by split].
  destruct (lookup_cache now key _) as [[response|] cache]; simpl.
  { repeat (apply counts_bind; intros ? _). split; [done |]. repeat constructor. apply send_reply_heartbeat. }
  unfold handle_cache_miss. destruct (sa_ip _) as [ip|]; [|by split].
  destruct (limiter_check now ip _) as [[] l]; simpl; [|by split].
  apply counts_bind. intros [pending|] _; [by split |].
  apply counts_bind. intros r Hr%forward_heartbeat. by split.
Qed.

Lemma deliver_counts now xid q reply s :
  stats_ok (fw_stats s) → counts_ok (deliver_reply now xid q reply s).
Proof. intros Hs. apply counts_bind. intros out Hout%fanout_heartbeat. by split. Qed.

Lemma upstream_counts now reply from_addr s :
  stats_ok (fw_stats s) → counts_ok (handle_upstream_reply now reply from_addr s).
Proof.
  intros Hs. unfold handle_upstream_reply. case_bool_decide; [by split |].
  apply counts_bind. intros xid _. destruct (fw_pending s !! xid) as [q|]; [|by split].
  apply counts_bind. intros ip _. case_bool_decide; [by split |].
  apply counts_bind. intros flags _. case_bool_decide.
  { apply counts_bind. intros task _. by split. }
  destruct (from_bytes reply) as [msg|]; [|by split].
  destruct (_ || _); [|by apply deliver_counts].
  apply counts_bind. intros [[q' o]|] E; [|by apply deliver_counts].
  split; [done |]. repeat constructor. by eapply failover_heartbeat.
Qed.

Lemma fw_event_counts now env e s :
  stats_ok (fw_stats s) → counts_ok (fw_event now env e s).
Proof.
  intros Hs. destruct e as [| msg | src query | peer tx query | from_addr reply | i stream];
    cbn [fw_event]; [| | by apply incoming_counts.. | by apply upstream_counts |].
  - apply counts_bind. intros r Hr%retry_heartbeat. split; [done | by constructor].
  - by destruct msg; split.
  - destruct (fw_fallbacks s !! i) as [task|]; [|by split].
    apply counts_bind. intros [reply|] _; apply counts_bind; intros out Hout%fanout_heartbeat; by split.
Qed.

Lemma fw_run_counts events s s' out :
  stats_ok (fw_stats s) → run_forwarder_loop events s = Returned (s', out) →
  stats_ok (fw_stats s') ∧ Forall heartbeat_ok out.
Proof.
  revert s s' out. induction events as [|[[now env] e] events IH]; intros s s' out Hs; simpl;
    [by intros [= <- <-] |].
  pose proof (fw_event_counts now env e s Hs) as He.
  destruct (fw_event now env e s) as [[s1 o1]|]; simpl; [|done]. destruct He as [H1 Ho1].
  destruct (run_forwarder_loop events s1) as [[s2 o2]|] eqn:E; simpl; [|done]. intros [= <- <-].
  destruct (IH _ _ _ H1 E). split; [done | by apply Forall_app_2].
Qed.
End counters.

(** ** The page *)

Section page.
Context {Name : Type} {HK : Hickory Name} {HO : HashOrder} {LM : Limiter}.
Context {B64 : Binary64} {BL : Binary64Laws}.
Context {Net : Type} {NO : Ipv4NetOps Net} {NL : Ipv4NetLaws Net}.

Lemma fallback_network_parses : is_Some (net_parse (Net := Net) (lit "192.168.1.1/24")).
Proof.
  change (lit "192.168.1.1/24") with (cidr_display (ipv4 192 168 1 1) 24).
  rewrite net_parse_cidr by (vm_compute; done || split; congruence).
  destruct (net_new_valid (Net := Net) (ipv4 192 168 1 1) 24) as (n & -> & _);
    [by vm_compute; done || split; congruence | lia | done].
Qed.

(** C30: the status page always has an answer, and its numbers are those of the
    router.  Whatever the files of [/proc] and [/sys] contain or lack, and
    whatever text the LAN address is, the response is assembled without a panic;
    every lease published by the DHCP server is shown, and their number; and
    when the DNS counters are those of any heartbeat the DNS worker sent in a
    run over any events, the hits shown are no more than the queries, the hit
    ratio is between 0 and 1, and up to 2^53 queries it is the exact ratio to
    within the rounding to three decimals. *)
Theorem status_response_consistent events s out build read statvfs mac_display receivers
    lan_interface lan_ip :
  run_forwarder_loop events Forwarder_new = Returned (s, out) →
  ToParentHeartbeat (or_dns_stats receivers) ∈ out →
  ∃ resp, collect_status_response (Net := Net) build read statvfs mac_display receivers
            lan_interface lan_ip = Some resp ∧
    let dns := sp_dns_forwarder resp in
    0 ≤ sy_uptime_seconds (sp_system resp) ≤ u64_max ∧
    ds_active_leases_count (sp_dhcp_server resp) = length (or_dhcp_leases receivers) ∧
    de_ip <$> ds_leases (sp_dhcp_server resp) = ipv4_display ∘ li_ip <$> or_dhcp_leases receivers ∧
    0 ≤ df_cache_hits_total dns ≤ df_queries_total dns ∧
    (0 <= df_cache_hit_ratio dns ∧ df_cache_hit_ratio dns <= 1)%Q ∧
    (0 < df_queries_total dns ≤ 2 ^ 53 →
     let exact := (inject_Z (df_cache_hits_total dns) / inject_Z (df_queries_total dns))%Q in
     (exact - (51 # 100000) <= df_cache_hit_ratio dns ∧
      df_cache_hit_ratio dns <= exact + (51 # 100000))%Q).
Proof.
  intros Hrun Hin. apply fw_run_counts in Hrun as [_ Hout]; [|by vm_compute].
  rewrite Forall_forall in Hout. specialize (Hout _ Hin). simpl in Hout.
  destruct (collect_dns_status_ratio _ Hout) as [Hr01 Hexact].
  unfold collect_status_response, collect_network_status, collect_lan_status.
  assert (is_Some (match net_parse (Net := Net) lan_ip with
                   | Some n => Some n | None => net_parse (lit "192.168.1.1/24") end)) as [n ->].
  { destruct (net_parse lan_ip); [done | apply fallback_network_parses]. }
  simpl. eexists. split; [done |]. cbn [sp_dns_forwarder sp_system sp_dhcp_server sy_uptime_seconds].
  split; [apply parse_uptime_str_range |].
  split; [by simpl; rewrite length_fmap |]. split; [by simpl; rewrite <-list_fmap_compose |].
  split; [apply Hout |]. by split.
Qed.
End page.

Module StatusExample.
Import DnsExample.
#[local] Existing Instances forward_order DnsExample.toy.

(** The run of [DnsExample] with a clean-up at its end: three queries, one of
    them answered from the cache. *)
Definition run : list (Instant * FwEnv * FwEvent) := whole_run ++ [(7, env 1, FwCleanup)].
Definition lease : DhcpLeaseInfo :=
  mkDhcpLeaseInfo (mac6 2 0 0 0 0 7) (ipv4 192 168 1 20) (Some (lit "laptop")) 3600 false.
Definition receivers : ObservabilityReceivers :=
  mkObservabilityReceivers WanLease_default [lease] (mkDnsStatsInfo 3 1 1 0) SntpStatus_default true.
Definition proc (path : str) : option str :=
  if bool_decide (path = PROC_UPTIME_PATH) then Some (lit "1234.56 99.0")
  else if bool_decide (path = PROC_LOADAVG_PATH) then Some (lit "0.25 1e1 x 1/99")
  else None.
Definition build : BuildInfo := mkBuildInfo (Some (lit "v1.2.0-3-gabc")) (lit "1.2.0") None.
Definition page : option StatusResponse :=
  collect_status_response (Net := IpNet) build proc (λ _, None) (λ _, lit "02:00:00:00:00:07")
    receivers (lit "lan") (lit "not an address").

Lemma page_system :
  (λ r, (sy_version (sp_system r), sy_git_sha (sp_system r), sy_uptime_seconds (sp_system r)))
    <$> page = Some (lit "1.2.0-3-gabc", lit "unknown", 1234).
Proof. vm_compute. reflexivity. Qed.

Lemma status_response_consistent_witness :
  ∃ resp, page = Some resp ∧ ds_active_leases_count (sp_dhcp_server resp) = 1%nat ∧
    (df_cache_hit_ratio (sp_dns_forwarder resp) <= 1)%Q.
Proof.
  destruct (status_response_consistent (Net := IpNet) run (state run) (sent run) build proc (λ _, None)
    (λ _, lit "02:00:00:00:00:07") receivers (lit "lan") (lit "not an address"))
    as (resp & E & _ & Hn & _ & _ & Hr & _).
  - apply fw_run_eq. vm_compute. repeat split; congruence.
  - change (or_dns_stats receivers) with (mkDnsStatsInfo 3 1 1 0).
    apply (list_elem_of_lookup_2 _ 5). vm_compute. reflexivity.
  - exists resp. split; [exact E |]. split; [exact Hn | apply Hr].
Defined.
End StatusExample.
