(* ===== verification/LogStream.v ===== *)
(** * The log stream

    The lines a client of [/api/logs/stream] gets: [get_broadcaster],
    [subscribe_logs] and the broadcast of [push_to_ring_buffer_and_broadcast] of
    [src/src/logging.rs], and the stream of [handle_logs_stream] of
    [src/src/services/observability/server.rs].  Each client reads at its own
    pace; the channel keeps the last 128 lines, and a client that falls further
    behind skips to the oldest line the channel still has. *)

From Stdlib Require Import ZArith Lia.
From stdpp Require Import base gmap list strings.
From S2P Require Import Prelude Text Logging.

#[local] Open Scope nat_scope.

Definition BROADCAST_CHANNEL_CAPACITY : nat := 128.

(** ** The channel *)

(** A receiver is the number of the next line it reads; [recv] gives a line, or
    the number of lines that were overwritten before they were read, or waits. *)
Inductive RecvResult := Line (line : str) | Lagged (skipped : nat).
Definition recv (sent : list str) (next : nat) : option (RecvResult * nat) :=
  let oldest := length sent - BROADCAST_CHANNEL_CAPACITY in
  if bool_decide (next < oldest) then Some (Lagged (oldest - next), oldest)
  else line ← sent !! next; Some (Line line, S next).
(** [subscribe_logs]: from the next line on. *)
Definition subscribe_logs (sent : list str) : nat := length sent.

(** ** The stream of a client *)

(** [poll_next] of the stream of [handle_logs_stream]: lags are passed over.  The
    result is the data of an event, or nothing for now, with the receiver and
    the number of lines passed over.  A lag is followed by a line, so that two
    rounds are enough. *)
Fixpoint poll_stream (fuel : nat) (sent : list str) (next : nat) : option str * nat * nat :=
  match fuel with
  | O => (None, next, 0)
  | S fuel =>
      match recv sent next with
      | None => (None, next, 0)
      | Some (Line line, next) => (Some (trim_end line), next, 0)
      | Some (Lagged skipped, next) =>
          let '(r, next, more) := poll_stream fuel sent next in (r, next, skipped + more)
      end
  end.
Definition poll_next (sent : list str) (next : nat) : option str * nat * nat := poll_stream 2 sent next.

(** A client: where its stream began, its receiver, the data it got, and how many
    lines it missed. *)
Record Client := mkClient { cl_start : nat; cl_next : nat; cl_got : list str; cl_missed : nat }.
Definition client_poll (sent : list str) (c : Client) : Client :=
  let '(r, next, skipped) := poll_next sent (cl_next c) in
  mkClient (cl_start c) next (cl_got c ++ option_list r) (cl_missed c + skipped).

(** The logger, the lines sent since the start, and the clients. *)
Record LogWorld := mkLogWorld { lw_log : LogState; lw_sent : list str; lw_clients : gmap nat Client }.
Inductive StreamEvent :=
| StWrite (env : LogEnv) (line : str)
| StSubscribe (id : nat)
| StPoll (id : nat)
| StClose (id : nat).

Section world.
Context `{Chrono}.

Definition broadcasts (out : list LogOut) : list str :=
  omap (λ o, match o with Broadcast line => Some line | Console _ => None end) out.
Definition stream_event (w : LogWorld) (e : StreamEvent) : LogWorld :=
  match e with
  | StWrite env line =>
      let r := write_entry env line (lw_log w) in
      mkLogWorld r.1 (lw_sent w ++ broadcasts r.2) (lw_clients w)
  | StSubscribe id =>
      let start := subscribe_logs (lw_sent w) in
      mkLogWorld (lw_log w) (lw_sent w) (<[id := mkClient start start [] 0]> (lw_clients w))
  | StPoll id => mkLogWorld (lw_log w) (lw_sent w) (alter (client_poll (lw_sent w)) id (lw_clients w))
  | StClose id => mkLogWorld (lw_log w) (lw_sent w) (delete id (lw_clients w))
  end.
Definition stream_run (events : list StreamEvent) (w : LogWorld) : LogWorld := foldl stream_event w events.
Definition stream_start (s : LogState) : LogWorld := mkLogWorld s [] ∅.
End world.

(** ** What a client gets *)

(** The number of lines sent that a receiver has not read. *)
Definition behind (sent : list str) (next : nat) : nat := length sent - next.

Lemma poll_next_spec sent next :
  next ≤ length sent →
  let skipped := behind sent next - BROADCAST_CHANNEL_CAPACITY in
  poll_next sent next =
    match sent !! (next + skipped) with
    | Some line => (Some (trim_end line), S (next + skipped), skipped)
    | None => (None, next, 0)
    end.
Proof.
  intros Hn skipped. unfold poll_next, behind in *. cbn [poll_stream]. unfold recv.
  unfold BROADCAST_CHANNEL_CAPACITY in *. case_bool_decide as Hlag.
  - rewrite bool_decide_false by lia.
    replace (next + skipped) with (length sent - 128) by lia. replace (length sent - 128 - next) with skipped by lia.
    destruct (lookup_lt_is_Some_2 sent (length sent - 128)) as [line ->]; [lia |].
    cbn [mbind option_bind]. by rewrite Nat.add_0_r.
  - replace skipped with 0 by lia. rewrite Nat.add_0_r. by destruct (sent !! next).
Qed.

(** The state of a client that has missed nothing it could have read: what it got
    are lines sent since it subscribed, in their order. *)
Record client_inv (sent : list str) (c : Client) : Prop := {
  ci_start : cl_start c ≤ cl_next c;
  ci_next : cl_next c ≤ length sent;
  ci_got : cl_got c `sublist_of` (trim_end <$> drop (cl_start c) (take (cl_next c) sent));
  ci_count : length (cl_got c) + cl_missed c = cl_next c - cl_start c;
}.

Lemma client_inv_sent sent more c : client_inv sent c → client_inv (sent ++ more) c.
Proof.
  intros [Hs Hn Hg Hc]. split; [done | rewrite length_app; lia | | done]. by rewrite take_app_le.
Qed.
Lemma client_poll_inv sent c : client_inv sent c → client_inv sent (client_poll sent c).
Proof.
  intros [Hs Hn Hg Hc]. unfold client_poll. rewrite poll_next_spec by done.
  set (k := cl_next c + _). destruct (sent !! k) as [line|] eqn:E; [|by split; simpl; rewrite ?app_nil_r, ?Nat.add_0_r].
  pose proof (lookup_lt_Some _ _ _ E) as Hk. split; simpl; [lia | lia | |].
  - rewrite (take_S_r _ _ _ E), drop_app_le by (rewrite length_take; lia). rewrite fmap_app.
    apply sublist_app; [|done]. etrans; [exact Hg |].
    replace k with (cl_next c + (k - cl_next c)) by lia.
    rewrite <-(take_take_drop sent (cl_next c) (k - cl_next c)), drop_app_le by (rewrite length_take; lia).
    rewrite fmap_app. apply sublist_inserts_r. done.
  - rewrite length_app. simpl. lia.
Qed.

Lemma sublist_full {A} (l k : list A) : l `sublist_of` k → length l = length k → l = k.
Proof.
  induction 1 as [|x l k _ IH|x l k Hl _]; simpl; intros Hlen; [done | f_equal; auto |].
  apply sublist_length in Hl. lia.
Qed.

(** Polls in a row, from a client that is not too far behind ... *)
Lemma polls_near sent n c :
  cl_next c ≤ length sent → behind sent (cl_next c) ≤ BROADCAST_CHANNEL_CAPACITY →
  Nat.iter n (client_poll sent) c =
    mkClient (cl_start c) (Nat.min (cl_next c + n) (length sent))
      (cl_got c ++ (trim_end <$> take n (drop (cl_next c) sent))) (cl_missed c).
Proof.
  intros Hn Hb. induction n as [|n IH].
  { rewrite Nat.add_0_r, Nat.min_l, app_nil_r by lia. by destruct c. }
  rewrite Nat.iter_succ, IH. unfold client_poll. cbn [cl_start cl_next cl_got cl_missed].
  rewrite poll_next_spec by lia. unfold behind in *.
  replace (length sent - Nat.min (cl_next c + n) (length sent) - BROADCAST_CHANNEL_CAPACITY) with 0 by lia.
  rewrite Nat.add_0_r. destruct (decide (cl_next c + n < length sent)) as [Hlt|Hge].
  - rewrite Nat.min_l by lia. destruct (lookup_lt_is_Some_2 sent (cl_next c + n) Hlt) as [line E]. rewrite E.
    rewrite Nat.add_0_r. cbn [option_list]. f_equal; [lia |].
    rewrite (take_S_r _ n line) by (by rewrite lookup_drop). by rewrite fmap_app, app_assoc.
  - rewrite Nat.min_r by lia. rewrite (lookup_ge_None_2 sent (length sent)) by lia.
    rewrite Nat.add_0_r, app_nil_r. f_equal; [lia |]. do 2 f_equal.
    rewrite !take_ge by (rewrite length_drop; lia). done.
Qed.
(** ... and from any client. *)
Lemma polls_catch_up sent n c :
  cl_next c ≤ length sent →
  cl_got (Nat.iter n (client_poll sent) c) =
    cl_got c ++ take n (lastn BROADCAST_CHANNEL_CAPACITY (trim_end <$> drop (cl_next c) sent)).
Proof.
  intros Hn. destruct n as [|n]; [by rewrite app_nil_r |]. rewrite Nat.iter_succ_r.
  unfold lastn. rewrite length_fmap, length_drop. set (skipped := length sent - cl_next c - BROADCAST_CHANNEL_CAPACITY).
  rewrite <-fmap_drop, drop_drop, <-fmap_take.
  unfold client_poll at 2. rewrite poll_next_spec by done. unfold behind. fold skipped.
  destruct (sent !! (cl_next c + skipped)) as [line|] eqn:E.
  - pose proof (lookup_lt_Some _ _ _ E). unfold skipped in *. rewrite polls_near by (simpl; unfold behind; lia). simpl.
    rewrite (drop_S _ _ _ E). cbn [take fmap list_fmap]. by rewrite <-app_assoc.
  - apply lookup_ge_None in E. assert (cl_next c = length sent) by (unfold skipped, BROADCAST_CHANNEL_CAPACITY in E; lia).
    rewrite polls_near by (simpl; unfold behind; lia). simpl.
    rewrite app_nil_r, !drop_ge by lia. by rewrite !take_nil.
Qed.

Section faithful.
Context `{Chrono}.

Definition written_line (e : StreamEvent) : option str := match e with StWrite _ line => Some line | _ => None end.

Lemma stream_run_inv s events :
  let w := stream_run events (stream_start s) in
  lw_sent w = omap written_line events ∧ map_Forall (λ _, client_inv (lw_sent w)) (lw_clients w).
Proof.
  unfold stream_run. induction events as [|e events [IHs IHc]] using rev_ind.
  { split; [done |]. by intros i c. }
  rewrite foldl_app, omap_app. cbn [foldl]. set (w := foldl _ _ events) in *.
  destruct e as [env line|id|id|id]; cbn [stream_event lw_sent lw_clients omap list_omap written_line].
  - rewrite write_entry_out. cbn [broadcasts omap list_omap]. rewrite <-IHs. split; [done |].
    intros i c Hc. by apply client_inv_sent, (IHc i).
  - rewrite app_nil_r. split; [done |]. apply map_Forall_insert_2; [|done].
    unfold subscribe_logs. split; simpl; [done | done | apply sublist_nil_l | lia].
  - rewrite app_nil_r. split; [done |]. intros i c [(-> & c0 & Hc & ->)|[_ Hc]]%lookup_alter_Some; [|by apply (IHc i)].
    by apply client_poll_inv, (IHc i).
  - rewrite app_nil_r. split; [done |]. intros i c [_ Hc]%lookup_delete_Some. by apply (IHc i).
Qed.
Lemma stream_polls n id w c :
  lw_clients w !! id = Some c →
  lw_clients (stream_run (replicate n (StPoll id)) w) !! id = Some (Nat.iter n (client_poll (lw_sent w)) c).
Proof.
  revert w c. induction n as [|n IH]; intros w c Hc; [done |]. rewrite Nat.iter_succ_r.
  apply (IH (stream_event w (StPoll id))). cbn [stream_event lw_clients]. by rewrite lookup_alter_eq, Hc.
Qed.

(** C24: The log stream of the status page.  In every interleaving of lines
    written to the log and of clients that subscribe, read and leave, each at
    its own pace: what a client has got are lines written since it subscribed,
    in their order and each at most once; every such line is either among them,
    or counted as missed, or still to be read; a client that never fell too far
    behind has got all of them up to where it has read; and however far behind
    it is, it gets the last 128 of the lines it has not read, one with each
    further read. *)
Theorem log_stream_faithful s events id c :
  let w := stream_run events (stream_start s) in
  lw_clients w !! id = Some c →
  let since := trim_end <$> drop (cl_start c) (omap written_line events) in
  cl_got c `sublist_of` since ∧
  length (cl_got c) + cl_missed c + behind (lw_sent w) (cl_next c) = length since ∧
  (cl_missed c = 0 → cl_got c `prefix_of` since) ∧
  ∀ n, ∃ c', lw_clients (stream_run (replicate n (StPoll id)) w) !! id = Some c' ∧
    cl_got c' = cl_got c ++
      take n (lastn BROADCAST_CHANNEL_CAPACITY (trim_end <$> drop (cl_next c) (omap written_line events))).
Proof.
  intros w Hc since. destruct (stream_run_inv s events) as [Hsent Hinv]. fold w in Hsent, Hinv.
  destruct (Hinv id c Hc) as [Hs Hn Hg Hcount]. unfold since. rewrite <-Hsent. clear since.
  assert (drop (cl_start c) (lw_sent w) = drop (cl_start c) (take (cl_next c) (lw_sent w)) ++ drop (cl_next c) (lw_sent w)) as Hsplit.
  { rewrite <-(take_drop (cl_next c) (lw_sent w)) at 1. by rewrite drop_app_le by (rewrite length_take; lia). }
  rewrite length_fmap, length_drop, Hsplit, fmap_app. split_and!.
  - by apply sublist_inserts_r.
  - unfold behind. lia.
  - intros Hm. rewrite (sublist_full _ _ Hg); [by apply prefix_app_r |].
    rewrite length_fmap, length_drop, length_take. lia.
  - intros n. eexists. split; [by apply stream_polls |]. by apply polls_catch_up.
Qed.
End faithful.

(** ** Examples *)

Module LogStreamExample.
#[local] Existing Instance LogExample.calendar.

Definition line (n : nat) : str := [(97 + Z.of_nat n)%Z] ++ [LF].
Definition write (n : nat) : StreamEvent := StWrite (LogExample.at_time 1) (line n).
(** A client that reads one line while 135 are written. *)
Definition slow : list StreamEvent :=
  [write 0; StSubscribe 5; write 1; StPoll 5] ++ (write <$> seq 2 134) ++ [StPoll 5].

Lemma log_stream_faithful_witness :
  ∃ c, lw_clients (stream_run slow (stream_start (logger_start (LogExample.at_time 0) ∅))) !! 5 = Some c ∧
    cl_got c = [[98%Z]; [105%Z]] ∧ cl_missed c = 6 ∧
    length (cl_got c) + cl_missed c + behind (omap written_line slow) (cl_next c) = 135.
Proof.
  set (s := logger_start (LogExample.at_time 0) ∅).
  destruct (lw_clients (stream_run slow (stream_start s)) !! 5) as [c|] eqn:Ec; [|by vm_compute in Ec].
  destruct (log_stream_faithful s slow 5 c Ec) as (_ & Hcount & _).
  assert (c = mkClient 1 9 [[98%Z]; [105%Z]] 6) as -> by (vm_compute in Ec; by injection Ec as <-).
  exists (mkClient 1 9 [[98%Z]; [105%Z]] 6). split; [done |]. split; [done |]. split; [done |].
  rewrite (proj1 (stream_run_inv s slow)) in Hcount. rewrite Hcount. vm_compute. reflexivity.
Defined.
End LogStreamExample.
