(* ===== verification/Dashboard.v ===== *)
(** * The page

    The script of [src/src/services/observability/html.rs], which shows the
    status and the log in the browser of the administrator: the escaping of
    text, the order and the rows of the tables, and the entries of the log.
    Names, addresses and log lines come from the network, so what matters is
    that they cannot become markup.  Strings are lists of code points.

    Attributes of the page's markup are in double quotes; [html] writes them
    with backquotes. *)

From Stdlib Require Import ZArith Lia.
From stdpp Require Import base list sorting strings.
From S2P Require Import Prelude NetAddr Hostname Text Logging Observability.

#[local] Open Scope Z_scope.

Definition QUOTE : char := 34.
Definition html (s : string) : str := map (λ c, if decide (c = 96) then QUOTE else c) (lit s).
Arguments html s%_string.
(** The line breaks and indentation of a template. *)
Definition nl (n : nat) : str := LF :: replicate n 32.

(** ** Escaping *)

(** What [innerHTML] gives for the text of an element. *)
Definition escape_char (c : char) : str :=
  if decide (c = 38) then lit "&amp;" else if decide (c = 160) then lit "&nbsp;"
  else if decide (c = 60) then lit "&lt;" else if decide (c = 62) then lit "&gt;" else [c].
Definition escapeHtml (text : option str) : str :=
  match text with None => [] | Some text => concat (escape_char <$> text) end.

(** ** Numbers and addresses *)

Definition formatUptime (seconds : Z) : str :=
  let d := seconds / (3600 * 24) in
  let h := seconds mod (3600 * 24) / 3600 in
  let m := seconds mod 3600 / 60 in
  let s := seconds mod 60 in
  (if bool_decide (0 < d) then int_display d ++ lit "d " else [])
  ++ (if bool_decide (0 < h) || bool_decide (0 < d) then int_display h ++ lit "h " else [])
  ++ int_display m ++ lit "m " ++ int_display s ++ lit "s".

(** White space and the characters that [.] of a regular expression matches, in
    JavaScript. *)
Definition js_space (c : char) : bool :=
  bool_decide (9 ≤ c ≤ 13) || bool_decide (c = 32) || bool_decide (c = 160) || bool_decide (c = 5760)
  || bool_decide (8192 ≤ c ≤ 8202) || bool_decide (c = 8232) || bool_decide (c = 8233) || bool_decide (c = 8239)
  || bool_decide (c = 8287) || bool_decide (c = 12288) || bool_decide (c = 65279).
Definition js_dot (c : char) : bool :=
  negb (bool_decide (c = 10) || bool_decide (c = 13) || bool_decide (c = 8232) || bool_decide (c = 8233)).

(** [parseInt(n, 10) || 0] *)
Fixpoint leading_digits (acc : Z) (s : str) : Z :=
  match s with
  | c :: s => if is_ascii_digit c then leading_digits (acc * 10 + (c - 48)) s else acc
  | [] => acc
  end.
Definition parse_int (s : str) : Z :=
  match drop_while js_space s with
  | 45 :: s => - leading_digits 0 s
  | 43 :: s => leading_digits 0 s
  | s => leading_digits 0 s
  end.
Definition parseIpForSort (ipStr : str) : list Z :=
  if bool_decide (ipStr = []) then [0; 0; 0; 0] else parse_int <$> split 46 ipStr.
(** The loop of [compareIps]; a missing number differs from every other, and a
    difference with it is no number, which [sort] takes as 0. *)
Fixpoint compare_octets (n : nat) (octA octB : list Z) : Z :=
  match n with
  | O => 0
  | S n =>
      match octA, octB with
      | a :: octA, b :: octB => if decide (a ≠ b) then a - b else compare_octets n octA octB
      | _, _ => 0
      end
  end.
Definition compareIps (a b : str) : Z := compare_octets 4 (parseIpForSort a) (parseIpForSort b).

(** What the script uses of the browser's Unicode tables: [localeCompare] and
    [toUpperCase], which leaves upper-case ASCII letters alone. *)
Class JsText := {
  localeCompare : str → str → Z;
  toUpperCase : str → str;
}.
Class JsTextLaws `{JsText} : Prop :=
  upper_ascii s : forallb is_ascii_uppercase s = true → toUpperCase s = s.

(** [[...list].sort(cmp)], which is stable. *)
Section sort.
Context {A : Type} (cmp : A → A → Z).
Fixpoint sort_insert (x : A) (l : list A) : list A :=
  match l with
  | [] => [x]
  | y :: l => if decide (cmp x y ≤ 0) then x :: y :: l else y :: sort_insert x l
  end.
Definition js_sort (l : list A) : list A := foldr sort_insert [] l.
End sort.

Inductive ArpKey := ArpIp | ArpMac | ArpInterface | ArpFlags.
Inductive DhcpKey := DhcpIp | DhcpMac | DhcpHostname | DhcpExpires | DhcpStatic.
#[global] Instance ArpKey_eq_dec : EqDecision ArpKey.
Proof. solve_decision. Defined.
#[global] Instance DhcpKey_eq_dec : EqDecision DhcpKey.
Proof. solve_decision. Defined.

(** ** The tables *)

Section page.
Context `{JsText}.

Definition sortArpList (key : ArpKey) (asc : bool) (l : list ArpEntry) : list ArpEntry :=
  js_sort (λ a b,
    let cmp :=
      match key with
      | ArpIp => compareIps (ar_ip a) (ar_ip b)
      | ArpMac => localeCompare (ar_mac a) (ar_mac b)
      | ArpInterface => localeCompare (ar_interface a) (ar_interface b)
      | ArpFlags => localeCompare (ar_flags a) (ar_flags b)
      end in
    if asc then cmp else - cmp) l.
Definition sortDhcpList (key : DhcpKey) (asc : bool) (l : list DhcpLeaseEntry) : list DhcpLeaseEntry :=
  js_sort (λ a b,
    let cmp :=
      match key with
      | DhcpIp => compareIps (de_ip a) (de_ip b)
      | DhcpExpires => de_expires_in_seconds a - de_expires_in_seconds b
      | DhcpStatic => if bool_decide (de_is_static a = de_is_static b) then 0 else if de_is_static a then -1 else 1
      | DhcpMac => localeCompare (de_mac a) (de_mac b)
      | DhcpHostname => localeCompare (default [] (de_hostname a)) (default [] (de_hostname b))
      end in
    if asc then cmp else - cmp) l.

(** The state of the sort buttons. *)
Record SortState := mkSortState { so_arp : ArpKey * bool; so_dhcp : DhcpKey * bool }.
Definition sort_start : SortState := mkSortState (ArpInterface, true) (DhcpIp, true).
Definition setArpSort (key : ArpKey) (s : SortState) : SortState :=
  mkSortState (if decide ((so_arp s).1 = key) then (key, negb (so_arp s).2) else (key, true)) (so_dhcp s).
Definition setDhcpSort (key : DhcpKey) (s : SortState) : SortState :=
  mkSortState (so_arp s) (if decide ((so_dhcp s).1 = key) then (key, negb (so_dhcp s).2) else (key, true)).

Definition truthy (s : option str) : option str := match s with Some [] => None | _ => s end.
(** A row of the table of leases, and of the ARP table. *)
Definition lease_row (l : DhcpLeaseEntry) : str :=
  nl 10 ++ html "<tr>"
  ++ nl 12 ++ html "<td>" ++ escapeHtml (Some (de_ip l)) ++ html "</td>"
  ++ nl 12 ++ html "<td>" ++ escapeHtml (Some (de_mac l)) ++ html "</td>"
  ++ nl 12 ++ html "<td>"
  ++ match truthy (de_hostname l) with
     | Some hostname => escapeHtml (Some hostname)
     | None => html "<span style=`color:var(--text-muted);`>unknown</span>"
     end ++ html "</td>"
  ++ nl 12 ++ html "<td>" ++ formatUptime (de_expires_in_seconds l) ++ html "</td>"
  ++ nl 12 ++ html "<td><span class=`badge` style=`font-size:0.7rem;`>"
  ++ (if de_is_static l then html "STATIC" else html "DYNAMIC") ++ html "</span></td>"
  ++ nl 10 ++ html "</tr>" ++ nl 8.
Definition arp_row (a : ArpEntry) : str :=
  nl 10 ++ html "<tr>"
  ++ nl 12 ++ html "<td>" ++ escapeHtml (Some (ar_ip a)) ++ html "</td>"
  ++ nl 12 ++ html "<td>" ++ escapeHtml (Some (ar_mac a)) ++ html "</td>"
  ++ nl 12 ++ html "<td><span class=`badge` style=`font-size:0.7rem;`>" ++ escapeHtml (Some (ar_interface a))
  ++ html "</span></td>"
  ++ nl 12 ++ html "<td>" ++ escapeHtml (Some (ar_flags a)) ++ html "</td>"
  ++ nl 10 ++ html "</tr>" ++ nl 8.
Definition NO_LEASES : str :=
  html "<tr><td colspan=`5` style=`text-align: center; color: var(--text-muted);`>No active leases</td></tr>".
Definition NO_ARP : str :=
  html "<tr><td colspan=`4` style=`text-align: center; color: var(--text-muted);`>No ARP entries</td></tr>".
(** [renderTables]: the contents of the two tables. *)
Definition renderTables (s : SortState) (leases : list DhcpLeaseEntry) (arp_cache : list ArpEntry) : str * str :=
  (match leases with
   | [] => NO_LEASES
   | _ => concat (lease_row <$> sortDhcpList (so_dhcp s).1 (so_dhcp s).2 leases)
   end,
   match arp_cache with
   | [] => NO_ARP
   | _ => concat (arp_row <$> sortArpList (so_arp s).1 (so_arp s).2 arp_cache)
   end).
End page.

(** ** The log *)

(** [raw.trim()] *)
Definition js_trim (s : str) : str := reverse (drop_while js_space (reverse (drop_while js_space s))).

(** The pieces of the regular expression of [parseLogLine]: a group of any
    characters up to a closing bracket after which the rest matches, the first
    such bracket; white space and an opening bracket; white space and the rest of
    the line. *)
Fixpoint lazy_group {A} (k : str → option A) (s : str) : option (str * A) :=
  match s with
  | [] => None
  | c :: s =>
      match (if decide (c = 93) then k s else None) with
      | Some r => Some ([], r)
      | None => if js_dot c then gr ← lazy_group k s; Some (c :: gr.1, gr.2) else None
      end
  end.
Definition spaces (s : str) : option str :=
  match s with c :: s => if js_space c then Some (drop_while js_space s) else None | [] => None end.
Definition opening (s : str) : option str := rest ← spaces s; strip_prefix [91] rest.
Definition last_group (s : str) : option str :=
  rest ← spaces s; if forallb js_dot rest then Some rest else None.
Definition log_regexp (raw : str) : option (str * (str * (str * str))) :=
  s ← strip_prefix [91] raw;
  lazy_group (λ s, s ← opening s; lazy_group (λ s, s ← opening s; lazy_group last_group s) s) s.

Record LogEntry := mkLogEntry { pl_ts : str; pl_level : str; pl_svc : str; pl_msg : str }.
Inductive FilterChoice := FilterAll | FilterInfo | FilterWarn | FilterError.
(** The contents of the log on the page, whether it is paused, and the filter. *)
Record Terminal := mkTerminal { te_lines : list str; te_paused : bool; te_filter : FilterChoice }.

Section log.
Context `{JsText}.

Definition parseLogLine (raw : str) : LogEntry :=
  match log_regexp raw with
  | Some (ts, (level, (svc, msg))) => mkLogEntry ts (toUpperCase level) svc msg
  | None => mkLogEntry [] (lit "INFO") [] raw
  end.
Definition entry_html (parsed : LogEntry) : str :=
  html "<span class=`log-ts`>[" ++ escapeHtml (Some (pl_ts parsed)) ++ html "]</span><span class=`log-line log-"
  ++ escapeHtml (Some (pl_level parsed)) ++ html "`>[" ++ escapeHtml (Some (pl_level parsed))
  ++ html "]</span> <span class=`log-svc`>[" ++ escapeHtml (Some (pl_svc parsed))
  ++ html "]</span> <span class=`log-msg`>" ++ escapeHtml (Some (pl_msg parsed)) ++ html "</span>".
Definition filtered (f : FilterChoice) (level : str) : bool :=
  match f with
  | FilterError => bool_decide (level ≠ lit "ERROR")
  | FilterWarn => bool_decide (level ≠ lit "WARN") && bool_decide (level ≠ lit "ERROR")
  | FilterInfo => bool_decide (level = lit "DEBUG")
  | FilterAll => false
  end.
Definition appendLog (raw : str) (t : Terminal) : Terminal :=
  if te_paused t then t else
  let parsed := parseLogLine (js_trim raw) in
  if filtered (te_filter t) (pl_level parsed) then t else
  let lines := te_lines t ++ [entry_html parsed] in
  mkTerminal (if bool_decide (500 < length lines)%nat then tail lines else lines) (te_paused t) (te_filter t).
End log.

(** The page keeps 500 entries at most. *)
Lemma appendLog_bound `{JsText} raw t : (length (te_lines t) ≤ 500)%nat → (length (te_lines (appendLog raw t)) ≤ 500)%nat.
Proof.
  intros Ht. unfold appendLog. destruct (te_paused t); [done |]. destruct (filtered _ _); [done |]. simpl.
  case_bool_decide as Hl; [|lia]. rewrite length_app in Hl. simpl in Hl.
  destruct (te_lines t) as [|x l]; simpl in *; [lia |]. rewrite length_app. simpl. lia.
Qed.

(** ** Markup *)

(** The tags of a piece of markup, as the text between their angle brackets:
    between quotes a closing bracket does not end a tag. *)
Fixpoint html_tags (tag : option (str * bool)) (s : str) : list str :=
  match s with
  | [] => []
  | c :: s =>
      match tag with
      | None => html_tags (if decide (c = 60) then Some ([], false) else None) s
      | Some (text, quoted) =>
          if decide (c = 62 ∧ quoted = false) then text :: html_tags None s
          else html_tags (Some (text ++ [c], if decide (c = QUOTE) then negb quoted else quoted)) s
      end
  end.
Abbreviation tags := (html_tags None).
(** The words of a tag that are not in quotes: its name and its attributes. *)
Definition tag_words (tag : str) : list str :=
  omap (λ x, if Nat.even x.1 then Some x.2 else None) (imap pair (split QUOTE tag)).

(** Where the reading of a piece of markup ends. *)
Fixpoint html_state (tag : option (str * bool)) (s : str) : option (str * bool) :=
  match s with
  | [] => tag
  | c :: s =>
      html_state
        match tag with
        | None => if decide (c = 60) then Some ([], false) else None
        | Some (text, quoted) =>
            if decide (c = 62 ∧ quoted = false) then None
            else Some (text ++ [c], if decide (c = QUOTE) then negb quoted else quoted)
        end s
  end.
Lemma html_tags_app tag a b : html_tags tag (a ++ b) = html_tags tag a ++ html_tags (html_state tag a) b.
Proof.
  revert tag. induction a as [|c a IH]; intros tag; [done |]. simpl.
  destruct tag as [[text quoted]|]; [|by rewrite IH]. case_decide; [|by rewrite IH]. simpl. by rewrite IH.
Qed.
Lemma html_state_app tag a b : html_state tag (a ++ b) = html_state (html_state tag a) b.
Proof. revert tag. induction a as [|c a IH]; intros tag; [done |]. simpl. by rewrite IH. Qed.

(** Text adds no tags, and in quotes it stays in quotes. *)
Lemma text_state t : 60 ∉ t → html_state None t = None ∧ html_tags None t = [].
Proof.
  induction t as [|c t IH]; [done |]. intros [Hc Ht]%not_elem_of_cons. simpl. rewrite decide_False by done. by apply IH.
Qed.
Lemma quoted_state text t :
  QUOTE ∉ t → html_state (Some (text, true)) t = Some (text ++ t, true) ∧ html_tags (Some (text, true)) t = [].
Proof.
  revert text. induction t as [|c t IH]; intros text; [by rewrite app_nil_r |].
  intros [Hq Hqt]%not_elem_of_cons. simpl.
  rewrite !(decide_False (P := c = 62 ∧ true = false)), !(decide_False (P := c = QUOTE)) by naive_solver.
  destruct (IH (text ++ [c]) Hqt) as [-> ->]. by rewrite <-app_assoc.
Qed.
Lemma escape_no c t : c = 60 ∨ c = 62 → c ∉ escapeHtml t.
Proof.
  intros Hc. destruct t as [t|]; [|apply not_elem_of_nil]. simpl.
  induction t as [|x t IH]; [apply not_elem_of_nil |]. cbn [fmap list_fmap concat]. rewrite elem_of_app. intros [Hx|Hx]; [|done].
  revert Hx. unfold escape_char. repeat case_decide.
  1-4: apply (bool_decide_unpack (c ∉ _)); destruct Hc as [-> | ->]; vm_compute; exact I.
  rewrite list_elem_of_singleton. naive_solver.
Qed.
Lemma escape_no_quote t : QUOTE ∉ t → QUOTE ∉ escapeHtml (Some t).
Proof.
  induction t as [|x t IH]; [done |]. intros [Hx Ht]%not_elem_of_cons. specialize (IH Ht). simpl in *.
  rewrite elem_of_app. intros [Hq|Hq]; [|done]. revert Hq. unfold escape_char. repeat case_decide.
  1-4: apply (bool_decide_unpack (QUOTE ∉ _)); vm_compute; exact I.
  by rewrite list_elem_of_singleton.
Qed.
Lemma escape_text t : html_state None (escapeHtml t) = None ∧ html_tags None (escapeHtml t) = [].
Proof. apply text_state, escape_no. by left. Qed.
Lemma int_display_no_lt n : 0 ≤ n → 60 ∉ int_display n.
Proof.
  intros Hn. destruct (int_display_digits n Hn) as [Hd _]. apply forallb_Forall in Hd. rewrite Forall_forall in Hd.
  intros H60. by specialize (Hd _ H60).
Qed.
Lemma uptime_text n : 0 ≤ n → html_state None (formatUptime n) = None ∧ html_tags None (formatUptime n) = [].
Proof.
  intros Hn. apply text_state. unfold formatUptime. rewrite !elem_of_app.
  assert (∀ m, 0 ≤ m → 60 ∉ int_display m) as Hd by (intros; by apply int_display_no_lt).
  assert (0 ≤ n / (3600 * 24)) by (apply Z.div_pos; lia).
  assert (0 ≤ n mod (3600 * 24) / 3600) by (apply Z.div_pos; [apply Z.mod_pos_bound |]; lia).
  assert (0 ≤ n mod 3600 / 60) by (apply Z.div_pos; [apply Z.mod_pos_bound |]; lia).
  assert (0 ≤ n mod 60) by (apply Z.mod_pos_bound; lia).
  assert (∀ s : string, bool_decide (60 ∉ lit s) = true → 60 ∉ lit s) as Hl by (intros s Hs; by apply bool_decide_eq_true in Hs).
  pose proof (Hl "d " eq_refl). pose proof (Hl "h " eq_refl). pose proof (Hl "m " eq_refl). pose proof (Hl "s" eq_refl).
  repeat case_match; rewrite ?elem_of_app, ?elem_of_nil; intros Hin; naive_solver.
Qed.

Lemma tags_piece a b : html_state None a = None → tags (a ++ b) = tags a ++ tags b.
Proof. intros Ha. by rewrite html_tags_app, Ha. Qed.
Lemma tags_escape t b : tags (escapeHtml t ++ b) = tags b.
Proof. rewrite tags_piece by apply escape_text. by rewrite (proj2 (escape_text t)). Qed.

(** A piece of markup with no open tag. *)
Definition closed (a : str) (ts : list str) : Prop := html_state None a = None ∧ tags a = ts.
Lemma closed_app a b ts1 ts2 : closed a ts1 → closed b ts2 → closed (a ++ b) (ts1 ++ ts2).
Proof. intros [Ha1 Ha2] [Hb1 Hb2]. split; [by rewrite html_state_app, Ha1 | by rewrite tags_piece, Ha2, Hb2]. Qed.
Lemma closed_eq a ts ts' : closed a ts → ts = ts' → closed a ts'.
Proof. by intros ? ->. Qed.
Lemma closed_concat {A} (row : A → str) (row_tag : A → list str) l :
  Forall (λ x, closed (row x) (row_tag x)) l → closed (concat (row <$> l)) (concat (row_tag <$> l)).
Proof. induction 1 as [|x l Hx _ IH]; [done |]. by apply closed_app. Qed.
(** Reads a template piece by piece. *)
Ltac closed_piece :=
  match goal with
  | |- closed (escapeHtml _) _ => apply escape_text
  | H : closed ?a _ |- closed ?a _ => exact H
  | |- closed (html _) _ => by split
  | |- closed (nl _) _ => by split
  end.
Ltac closed_pieces := repeat (eapply closed_app; [closed_piece |]); closed_piece.

Definition row_tags (middle : list str) : list str :=
  [html "tr"; html "td"; html "/td"; html "td"; html "/td"; html "td"] ++ middle ++ [html "/td"; html "/tr"].
Definition badge_tags : list str := [html "span class=`badge` style=`font-size:0.7rem;`"; html "/span"].
(** The tags of a row, for whether there is a name. *)
Definition lease_tags (named : bool) : list str :=
  row_tags ((if named then [] else [html "span style=`color:var(--text-muted);`"; html "/span"])
            ++ [html "/td"; html "td"; html "/td"; html "td"] ++ badge_tags).
Definition arp_tags : list str := row_tags (badge_tags ++ [html "/td"; html "td"]).

Definition named (l : DhcpLeaseEntry) : bool := bool_decide (is_Some (truthy (de_hostname l))).
Lemma lease_row_tags l : 0 ≤ de_expires_in_seconds l → closed (lease_row l) (lease_tags (named l)).
Proof.
  intros He. unfold lease_row. pose proof (uptime_text _ He : closed _ []) as Hu.
  set (name := match truthy (de_hostname l) with Some _ => _ | None => _ end).
  assert (closed name (if named l then [] else [html "span style=`color:var(--text-muted);`"; html "/span"])) as Hn.
  { unfold name, named. destruct (truthy (de_hostname l)) as [h|].
    - rewrite bool_decide_true by done. apply (escape_text (Some h)).
    - rewrite bool_decide_false by (by intros []). by split. }
  set (kind := if de_is_static l then _ else _).
  assert (closed kind []) as Hk by (unfold kind; by destruct (de_is_static l)). clearbody name kind.
  eapply closed_eq; [closed_pieces |]. by destruct (named l).
Qed.
Lemma arp_row_tags a : closed (arp_row a) arp_tags.
Proof. unfold arp_row. eapply closed_eq; [closed_pieces | done]. Qed.

(** *** Entries of the log *)

Definition entry_tags (level : str) : list str :=
  [html "span class=`log-ts`"; html "/span"; html "span class=`log-line log-" ++ escapeHtml (Some level) ++ [QUOTE];
   html "/span"; html "span class=`log-svc`"; html "/span"; html "span class=`log-msg`"; html "/span"].
Lemma entry_html_tags p : QUOTE ∉ pl_level p → tags (entry_html p) = entry_tags (pl_level p).
Proof.
  intros Hq%escape_no_quote. unfold entry_html. rewrite tags_piece by reflexivity. rewrite tags_escape.
  rewrite html_tags_app.
  set (st := html_state None (html "]</span><span class=`log-line log-")).
  assert (st = Some (html "span class=`log-line log-", true)) as -> by reflexivity.
  rewrite html_tags_app. destruct (quoted_state (html "span class=`log-line log-") _ Hq) as [-> ->].
  rewrite html_tags_app.
  assert (∀ t, html_tags (Some (t, true)) (html "`>[") = [t ++ [QUOTE]] ∧
               html_state (Some (t, true)) (html "`>[") = None) as Hc by done.
  destruct (Hc (html "span class=`log-line log-" ++ escapeHtml (Some (pl_level p)))) as [-> ->].
  rewrite tags_escape. rewrite tags_piece by reflexivity.
  rewrite tags_escape. rewrite tags_piece by reflexivity. rewrite tags_escape. by rewrite <-app_assoc.
Qed.

(** The tag has its name and one attribute, [class]. *)
Definition plain_tag (tag : str) : Prop :=
  tag_words tag = [html "/span"] ∨ tag_words tag = [html "span class="; []].
Lemma entry_tags_plain level : QUOTE ∉ level → Forall plain_tag (entry_tags level).
Proof.
  intros Hq%escape_no_quote. unfold entry_tags. repeat apply Forall_cons_2; [..| apply Forall_nil_2].
  all: try (by left); try (by right). right. unfold tag_words.
  set (lv := escapeHtml (Some level)) in *. clearbody lv.
  change (html "span class=`log-line log-") with (html "span class=" ++ [QUOTE] ++ html "log-line log-").
  rewrite <-!app_assoc. rewrite split_app_sep by (by apply (bool_decide_unpack (_ ∉ _))).
  change [QUOTE] with ([QUOTE] ++ []). rewrite app_assoc, split_app_sep; [done |]. rewrite elem_of_app. intros [Hin|Hin]; [|done].
  revert Hin. by apply (bool_decide_unpack (_ ∉ _)).
Qed.

Lemma lazy_group_app {A} (k : str → option A) g rest r :
  93 ∉ g → forallb js_dot g = true → k rest = Some r → lazy_group k (g ++ 93 :: rest) = Some (g, r).
Proof.
  intros Hg Hd Hk. induction g as [|c g IH]; simpl; [by rewrite Hk |].
  apply not_elem_of_cons in Hg as [Hc Hg]. apply andb_true_iff in Hd as [Hdc Hd].
  rewrite decide_False, Hdc, IH by done. done.
Qed.

Section sorted.
Context {A : Type} (cmp : A → A → Z).
Lemma sort_insert_perm x l : sort_insert cmp x l ≡ₚ x :: l.
Proof. induction l as [|y l IH]; simpl; [done |]. case_decide; [done |]. rewrite IH. apply Permutation_swap. Qed.
Lemma js_sort_perm l : js_sort cmp l ≡ₚ l.
Proof. induction l as [|x l IH]; simpl; [done |]. by rewrite sort_insert_perm, IH. Qed.
End sorted.

Section shown.
Context `{!Chrono, !JsText, !JsTextLaws}.

(** Text within one pair of brackets. *)
Definition bracket_text (s : str) : Prop := 93 ∉ s ∧ forallb js_dot s = true.
(** A message of one line with no white space around it. *)
Definition message_text (s : str) : Prop :=
  s ≠ [] ∧ forallb js_dot s = true ∧ from_option js_space false (head s) = false ∧
  from_option js_space false (last s) = false.

Lemma level_display_bracket level : bracket_text (level_display level) ∧ forallb is_ascii_uppercase (level_display level) = true.
Proof. destruct level; (split; [split; [by apply (bool_decide_unpack (_ ∉ _)) |] |]); reflexivity. Qed.

Lemma js_trim_line s body : from_option js_space false (last body) = false → body ≠ [] →
  js_trim (91 :: s ++ body ++ [LF]) = 91 :: s ++ body.
Proof.
  intros Hl Hne. destruct (last body) as [c|] eqn:E; [|by apply last_None in E].
  apply last_Some in E as [b ->]. simpl in Hl. unfold js_trim.
  change (drop_while js_space (91 :: s ++ (b ++ [c]) ++ [LF])) with (91 :: s ++ (b ++ [c]) ++ [LF]).
  rewrite !app_comm_cons, !app_assoc, reverse_snoc.
  change (drop_while js_space (LF :: ?x)) with (drop_while js_space x). rewrite reverse_snoc. simpl. rewrite Hl.
  by rewrite reverse_cons, reverse_involutive.
Qed.

Lemma parse_own_line t level service body :
  bracket_text (ts_format t) → bracket_text service → message_text body →
  parseLogLine (js_trim (log_line t level service body)) = mkLogEntry (ts_format t) (level_display level) service body.
Proof.
  intros [Ht1 Ht2] [Hs1 Hs2] (Hne & Hd & Hh & Hl). destruct (level_display_bracket level) as [[Hl1 Hl2] Hup].
  unfold parseLogLine.
  assert (js_trim (log_line t level service body) =
    91 :: ts_format t ++ 93 :: 32 :: 91 :: level_display level ++ 93 :: 32 :: 91 :: service ++ 93 :: 32 :: body) as ->.
  { transitivity (js_trim (91 :: (ts_format t ++ lit "] [" ++ level_display level ++ lit "] [" ++ service ++ lit "] ") ++ body ++ [LF])).
    - unfold log_line. f_equal. by rewrite <-!app_assoc.
    - rewrite js_trim_line by done. by rewrite <-!app_assoc. }
  assert (log_regexp (91 :: ts_format t ++ 93 :: 32 :: 91 :: level_display level ++ 93 :: 32 :: 91 :: service ++ 93 :: 32 :: body)
    = Some (ts_format t, (level_display level, (service, body)))) as ->; [|by rewrite upper_ascii].
  unfold log_regexp. cbn [strip_prefix]. rewrite decide_True by done. cbn [mbind option_bind].
  apply lazy_group_app; [done.. |]. change (opening (32 :: 91 :: ?x)) with (Some x). cbn [mbind option_bind].
  apply lazy_group_app; [done.. |]. change (opening (32 :: 91 :: ?x)) with (Some x). cbn [mbind option_bind].
  apply lazy_group_app; [done.. |]. unfold last_group. cbn [spaces].
  change (js_space 32) with true. cbn [mbind option_bind].
  destruct body as [|c body]; [done |]. simpl in Hh. cbn [drop_while]. rewrite Hh. by rewrite Hd.
Qed.

Lemma parse_int_octet n : 0 ≤ n ≤ 255 → parse_int (u8_display n) = n.
Proof.
  intros Hn. assert (n ∈ seqZ 0 256) as Hin%list_elem_of_In by (apply elem_of_seqZ; lia).
  assert (forallb (λ n, bool_decide (parse_int (u8_display n) = n)) (seqZ 0 256) = true) as HP
    by (vm_compute; reflexivity).
  rewrite forallb_forall in HP. exact (bool_decide_eq_true_1 _ (HP n Hin)).
Qed.
Lemma parse_ip_display ip :
  parseIpForSort (ipv4_display ip) = [octet 0 ip; octet 1 ip; octet 2 ip; octet 3 ip].
Proof.
  unfold parseIpForSort. rewrite bool_decide_false.
  2: { unfold ipv4_display. change (lit ".") with [46]. intros E. by apply app_eq_nil in E as [_ [? _]%app_eq_nil]. }
  unfold ipv4_display. change (lit ".") with [46].
  pose proof (λ i, u8_display_spec (octet i ip) (octet_range i ip)) as Hd.
  rewrite !split_app_sep, split_no_sep by (apply Hd). cbn [fmap list_fmap].
  by rewrite !parse_int_octet by apply octet_range.
Qed.
(** The order of the column of addresses is the order of the addresses. *)
Lemma compareIps_numeric a b :
  is_u32 a → is_u32 b →
  (compareIps (ipv4_display a) (ipv4_display b) < 0 ↔ a < b) ∧ (compareIps (ipv4_display a) (ipv4_display b) = 0 ↔ a = b).
Proof.
  intros [Ha1 Ha2] [Hb1 Hb2]. unfold compareIps. rewrite !parse_ip_display. cbn [compare_octets].
  assert (∀ ip, octet 0 ip = ip / 16777216 mod 256 ∧ octet 1 ip = ip / 65536 mod 256 ∧
    octet 2 ip = ip / 256 mod 256 ∧ octet 3 ip = ip mod 256) as Ho.
  { intros ip. unfold octet. change 255 with (Z.ones 8). rewrite !Z.land_ones by lia.
    rewrite !Z.shiftr_div_pow2 by lia. change (2 ^ 8) with 256.
    change (2 ^ (8 * (3 - 0))) with 16777216. change (2 ^ (8 * (3 - 1))) with 65536.
    change (2 ^ (8 * (3 - 2))) with 256. change (2 ^ (8 * (3 - 3))) with 1. by rewrite Z.div_1_r. }
  destruct (Ho a) as (-> & -> & -> & ->). destruct (Ho b) as (-> & -> & -> & ->). clear Ho.
  unfold is_u32, is_u in *. repeat case_decide; Z.to_euclidean_division_equations; lia.
Qed.

(** C19: Nothing from the network becomes markup.  Whatever names, addresses and
    interfaces the status holds, the tables of the page, in any order, have
    exactly the tags of their templates, one row for each entry; and a line that
    the router's own logger writes is shown as it was logged, time, level,
    service and message each in its place, with no tag and no attribute but
    those of the template. *)
Theorem dashboard_inert (s : SortState) leases arp_cache t level service body :
  Forall (λ l, 0 ≤ de_expires_in_seconds l) leases →
  bracket_text (ts_format t) → bracket_text service → message_text body →
  let '(lease_table, arp_table) := renderTables s leases arp_cache in
  (leases ≠ [] → ∃ shown, shown ≡ₚ leases ∧ tags lease_table = concat (lease_tags ∘ named <$> shown)) ∧
  (arp_cache ≠ [] → tags arp_table = concat (replicate (length arp_cache) arp_tags)) ∧
  let entry := parseLogLine (js_trim (log_line t level service body)) in
  entry = mkLogEntry (ts_format t) (level_display level) service body ∧
  tags (entry_html entry) = entry_tags (level_display level) ∧ Forall plain_tag (tags (entry_html entry)).
Proof.
  intros Hl Ht Hs Hb. unfold renderTables. split_and!.
  - intros Hne. destruct leases as [|l0 ls]; [done |].
    exists (sortDhcpList (so_dhcp s).1 (so_dhcp s).2 (l0 :: ls)). split; [apply js_sort_perm |].
    apply closed_concat. eapply Permutation_Forall; [symmetry; apply js_sort_perm |].
    eapply Forall_impl; [exact Hl |]. intros l. apply lease_row_tags.
  - intros Hne. destruct arp_cache as [|a0 az]; [done |].
    set (sorted := sortArpList _ _ _). assert (length sorted = length (a0 :: az)) as <- by apply Permutation_length, js_sort_perm.
    assert (replicate (length sorted) arp_tags = const arp_tags <$> sorted) as ->
      by (clear; induction sorted as [|x l IH]; [done |]; simpl; by rewrite IH).
    apply closed_concat, Forall_true. intros a. apply arp_row_tags.
  - by apply parse_own_line.
  - rewrite parse_own_line by done. apply entry_html_tags. simpl. destruct level; by apply (bool_decide_unpack (_ ∉ _)).
  - rewrite parse_own_line by done. assert (QUOTE ∉ level_display level)
      by (destruct level; by apply (bool_decide_unpack (_ ∉ _))).
    rewrite entry_html_tags by done. by apply entry_tags_plain.
Qed.
End shown.

(** ** Examples *)

Module DashboardExample.
#[local] Existing Instance LogExample.calendar.
#[local] Instance ascii_text : JsText := {|
  localeCompare a b := Z.of_nat (length a) - Z.of_nat (length b);
  toUpperCase s := (λ c, if is_ascii_lowercase c then c - 32 else c) <$> s;
|}.
#[local] Instance ascii_laws : JsTextLaws.
Proof.
  intros s. induction s as [|c s IH]; [done |]. intros [Hc Hs]%andb_true_iff. cbn [toUpperCase ascii_text fmap list_fmap].
  assert (is_ascii_lowercase c = false) as ->.
  { unfold is_ascii_uppercase, is_ascii_lowercase in *. apply bool_decide_eq_true in Hc. apply bool_decide_eq_false. lia. }
  f_equal. by apply IH.
Defined.

(** Two leases, one with a name that is markup. *)
Definition leases : list DhcpLeaseEntry :=
  [mkDhcpLeaseEntry (lit "02:00:00:00:00:06") (lit "192.168.1.9") None 90061 false;
   mkDhcpLeaseEntry (lit "02:00:00:00:00:05") (lit "192.168.1.7") (Some (html "<img src=`x`>")) 60 true].
Definition log_body : str := html "host <b>`x`</b> joined".

Lemma dashboard_inert_witness :
  ∃ shown, shown ≡ₚ leases ∧
    tags (renderTables sort_start leases []).1 = concat (lease_tags ∘ named <$> shown) ∧
    pl_msg (parseLogLine (js_trim (log_line 0 LevelInfo (lit "dhcp-server") log_body))) = log_body.
Proof.
  assert (message_text log_body) as Hb by (split; [done | split_and!; reflexivity]).
  assert (bracket_text (ts_format 0) ∧ bracket_text (lit "dhcp-server")) as [Ht Hs]
    by (split; (split; [by apply (bool_decide_unpack (_ ∉ _)) | reflexivity])).
  pose proof (dashboard_inert sort_start leases [] 0 LevelInfo (lit "dhcp-server") log_body
    ltac:(repeat constructor; simpl; lia) Ht Hs Hb) as Hd.
  destruct (renderTables sort_start leases []) as [lease_table arp_table].
  destruct Hd as (Hl & _ & He & _). destruct (Hl ltac:(done)) as (shown & Hp & Htags). exists shown.
  split; [exact Hp |]. split; [exact Htags |]. rewrite He. reflexivity.
Defined.

(** Finding: a worker's line that looks like a log line is relayed as it is, and
    its level is put into an attribute of the page, where a quote ends the
    attribute and the rest becomes an attribute of its own. *)
Definition forged : str := html "[2026-01-01T00:00:00Z] [x` ONMOUSEOVER=`1] [dns] hello".
Example worker_line_adds_attribute :
  format_raw_line 0 forged = Returned (forged ++ [LF]) ∧
  (tag_words <$> tags (entry_html (parseLogLine (js_trim (forged ++ [LF]))))) !! 2%nat =
    Some [html "span class="; html " ONMOUSEOVER="; []].
Proof. split; vm_compute; reflexivity. Qed.

(** Finding: the filter for entries of level INFO and higher lets TRACE entries
    through, though not DEBUG entries. *)
Example info_filter_shows_trace :
  length (te_lines (appendLog (log_line 0 LevelTrace (lit "dns") (lit "query")) (mkTerminal [] false FilterInfo))) = 1%nat ∧
  length (te_lines (appendLog (log_line 0 LevelDebug (lit "dns") (lit "query")) (mkTerminal [] false FilterInfo))) = 0%nat.
Proof. split; vm_compute; reflexivity. Qed.
End DashboardExample.
