(* ===== verification/PageServer.v ===== *)
(** * The server of the status page

    The life of the server of the status page: [ObservabilityService] and
    [create_bound_tcp_listener] of [src/src/services/observability/mod.rs], and
    [HttpServer::run] of [src/src/services/observability/server.rs], over the
    routes and streams of [Observability] and the controller of [Supervisor].
    Connections, requests, the threads that answer them, disconnections and
    [stop] are events in any order.  Last comes what an open log stream does to
    the LAN manager, which waits for the server to end, and so to the watchdog. *)

From Stdlib Require Import ZArith Lia.
From stdpp Require Import base gmap list strings.
From S2P Require Import Prelude Watchdog Supervisor Observability.

#[local] Open Scope Z_scope.

(** ** The listener *)

(** What the kernel answers to the calls that make the listener. *)
Record ListenEnv := mkListenEnv {
  ln_socket : bool;
  ln_binding : SocketEnv;
  ln_from_std : bool;
  ln_local_addr : bool;
}.
Definition create_bound_tcp_listener (env : ListenEnv) (lan_interface lan_ip : str) (port : Z) :
    Result ServiceError BoundSocket :=
  if negb (ln_socket env) then Err ServiceIo else
  let? socket := configure_socket_binding (ln_binding env) lan_interface lan_ip port in
  if ln_from_std env then Ok socket else Err ServiceIo.

(** ** Connections *)

(** A connection waits for a request, is being answered, or has asked for the
    log stream with a method; where that request is, is in [SseServer]. *)
Inductive Phase := Idle | Replying | OnStream (m : Method).
Record Conn := mkConn { cn_ip : Z; cn_phase : Phase }.
Definition in_flight (c : Conn) : bool := match cn_phase c with Idle => false | _ => true end.

(** [axum::serve] with [with_graceful_shutdown]: whether the call returns, for the
    signal and the open connections. *)
Class AxumServe := serve_done : bool → gmap nat Conn → bool.
(** It returns only after the signal and when the requests that were under way
    are answered; and it does return when no connection is left. *)
Class AxumLaws `{AxumServe} : Prop := {
  serve_signalled signal conns : serve_done signal conns = true → signal = true;
  serve_answered signal conns id c :
    serve_done signal conns = true → conns !! id = Some c → in_flight c = false;
  serve_returns : serve_done true ∅ = true;
}.

(** The task of [HttpServer::run]. *)
Record ServerTask := mkServerTask {
  tk_socket : BoundSocket;
  tk_shutdown : bool;
  tk_conns : gmap nat Conn;
  tk_sse : SseServer;
}.
(** [HttpServer::new] *)
Definition HttpServer_new (listener : BoundSocket) : ServerTask :=
  mkServerTask listener false ∅ sse_start.

(** [ObservabilityService]; the task is there until it has ended. *)
Record ObservabilityService := mkObservabilityService {
  ob_lan_interface : str;
  ob_lan_ip : str;
  ob_port : Z;
  ob_controller : ServiceController;
  ob_task : option ServerTask;
}.
Definition ObservabilityService_new (lan_interface lan_ip : str) (port : Z) : ObservabilityService :=
  mkObservabilityService lan_interface lan_ip port controller_new None.
Definition set_task (t : option ServerTask) (o : ObservabilityService) : ObservabilityService :=
  mkObservabilityService (ob_lan_interface o) (ob_lan_ip o) (ob_port o) (ob_controller o) t.
Definition set_controller (c : ServiceController) (o : ObservabilityService) : ObservabilityService :=
  mkObservabilityService (ob_lan_interface o) (ob_lan_ip o) (ob_port o) c (ob_task o).
Definition set_conns (cs : gmap nat Conn) (t : ServerTask) : ServerTask :=
  mkServerTask (tk_socket t) (tk_shutdown t) cs (tk_sse t).
Definition set_sse (sse : SseServer) (t : ServerTask) : ServerTask :=
  mkServerTask (tk_socket t) (tk_shutdown t) (tk_conns t) sse.

Definition ObservabilityService_start (env : ListenEnv) (o : ObservabilityService) :
    Result ServiceError ObservabilityService :=
  let? listener := create_bound_tcp_listener env (ob_lan_interface o) (ob_lan_ip o) (ob_port o) in
  if negb (ln_local_addr env) then Err ServiceIo else
  let? c := controller_start (ob_controller o) in
  Ok (set_task (Some (HttpServer_new listener)) (set_controller c o)).
(** [stop], up to the wait for the task: it returns when the task has ended. *)
Definition ObservabilityService_stop (o : ObservabilityService) : Result ServiceError ObservabilityService :=
  let? r := controller_stop (ob_controller o) in
  let signal := default false r.2 in
  Ok (set_controller r.1
        (set_task ((λ t, mkServerTask (tk_socket t) (tk_shutdown t || signal) (tk_conns t) (tk_sse t)) <$> ob_task o) o)).

(** ** Events of the server *)

Inductive PageEvent :=
| PgConnect (id : nat) (ip : Z)
| PgRequest (id : nat) (r : Request)
(** The server's threads go on with a connection *)
| PgStep (id : nat)
(** The server finds that the client is gone *)
| PgDisconnect (id : nat)
(** [axum::serve] looks whether it can return *)
| PgPoll.

(** A request of a connection is an event when the router takes it, after it has
    waited for its turn in the limit of [create_router]; nothing else then stands
    in its way there. *)
Definition conn_request {FU : FormUrlencoded} {CL : ConcurrencyLimit} (lan_ip : str) (id : nat) (ip : Z) (r : Request) (t : ServerTask) : ServerTask :=
  match rs_handler <$> create_router lan_ip [] r with
  | Some LogsStream =>
      let '(sse, refused) := sse_event (SseRequest id ip) (tk_sse t) in
      set_sse sse (set_conns (<[id := mkConn ip match refused with Some _ => Replying | None => OnStream (rq_method r) end]> (tk_conns t)) t)
  | _ => set_conns (<[id := mkConn ip Replying]> (tk_conns t)) t
  end.

(** An answer is sent; a request for the stream goes on; the body of an answer
    to [HEAD] is dropped. *)
Definition conn_step (id : nat) (c : Conn) (t : ServerTask) : ServerTask :=
  match cn_phase c with
  | Idle => t
  | Replying => set_conns (<[id := mkConn (cn_ip c) Idle]> (tk_conns t)) t
  | OnStream m =>
      match sr_pc <$> ss_reqs (tk_sse t) !! id, m with
      | Some Streaming, HEAD => set_sse (sse_event (SseDisconnect id) (tk_sse t)).1 t
      | Some Dropping, HEAD =>
          set_sse (sse_event (SseStep id) (tk_sse t)).1
            (set_conns (<[id := mkConn (cn_ip c) Idle]> (tk_conns t)) t)
      | Some Dropping, _ =>
          set_sse (sse_event (SseStep id) (tk_sse t)).1 (set_conns (delete id (tk_conns t)) t)
      | _, _ =>
          let '(sse, refused) := sse_event (SseStep id) (tk_sse t) in
          set_sse sse
            match refused with
            | Some _ => set_conns (<[id := mkConn (cn_ip c) Replying]> (tk_conns t)) t
            | None => t
            end
      end
  end.
(** A stream is dropped at the next step. *)
Definition conn_disconnect (id : nat) (c : Conn) (t : ServerTask) : ServerTask :=
  match cn_phase c with
  | Idle | Replying => set_conns (delete id (tk_conns t)) t
  | OnStream _ => set_sse (sse_event (SseDisconnect id) (tk_sse t)).1 t
  end.

Section server.
Context `{AxumServe} {FU : FormUrlencoded} {CL : ConcurrencyLimit}.

(** The task after an event; it ends when [axum::serve] returns, whose
    connections are closed. *)
Definition task_event (lan_ip : str) (e : PageEvent) (t : ServerTask) : option ServerTask :=
  match e with
  | PgConnect id ip =>
      Some (if tk_shutdown t || bool_decide (is_Some (tk_conns t !! id)) then t
            else set_conns (<[id := mkConn ip Idle]> (tk_conns t)) t)
  | PgRequest id r =>
      Some match tk_conns t !! id with
           | Some (mkConn ip Idle) => conn_request lan_ip id ip r t
           | _ => t
           end
  | PgStep id => Some match tk_conns t !! id with Some c => conn_step id c t | None => t end
  | PgDisconnect id => Some match tk_conns t !! id with Some c => conn_disconnect id c t | None => t end
  | PgPoll => if serve_done (tk_shutdown t) (tk_conns t) then None else Some t
  end.
Definition page_event (o : ObservabilityService) (e : PageEvent) : ObservabilityService :=
  set_task (ob_task o ≫= task_event (ob_lan_ip o) e) o.
Definition page_run (events : list PageEvent) (o : ObservabilityService) : ObservabilityService :=
  foldl page_event o events.
End server.

(** ** When the server ends *)

Definition sse_id (e : SseEvent) : nat :=
  match e with SseRequest id _ | SseStep id | SseDisconnect id => id end.
Lemma sse_event_other e s id : id ≠ sse_id e → ss_reqs (sse_event e s).1 !! id = ss_reqs s !! id.
Proof.
  intros Hid. destruct e as [i ip|i|i]; cbn [sse_event sse_id] in *.
  - destruct (ss_reqs s !! i); [done |]. destruct (reserve_ip_sse_slot _ _) as [? []]; [|done].
    cbn [fst ss_reqs]. by rewrite lookup_insert_ne.
  - destruct (ss_reqs s !! i) as [[ip []]|]; [destruct (sm_permits _) | ..];
      cbn [fst ss_reqs]; rewrite ?lookup_insert_ne, ?lookup_delete_ne by done; done.
  - destruct (ss_reqs s !! i) as [[ip []]|]; cbn [fst ss_reqs]; rewrite ?lookup_insert_ne by done; done.
Qed.
Lemma sse_request_own id ip s :
  ss_reqs s !! id = None →
  ss_reqs (sse_event (SseRequest id ip) s).1 !! id =
    match (sse_event (SseRequest id ip) s).2 with Some _ => None | None => Some (mkStreamReq ip Reserved) end.
Proof.
  intros Hid. cbn [sse_event]. rewrite Hid. destruct (reserve_ip_sse_slot _ _) as [? []]; [|done].
  cbn [fst snd ss_reqs]. by rewrite lookup_insert_eq.
Qed.

Definition on_stream (c : Conn) : bool := match cn_phase c with OnStream _ => true | _ => false end.
(** Exactly the connections on the stream have a request under way. *)
Definition task_inv (t : ServerTask) : Prop :=
  ∀ id, is_Some (ss_reqs (tk_sse t) !! id) ↔ ∃ c, tk_conns t !! id = Some c ∧ on_stream c = true.

(** The part of the task that one connection sees. *)
Definition view (id : nat) (t : ServerTask) : option Conn * option StreamPc :=
  (tk_conns t !! id, sr_pc <$> ss_reqs (tk_sse t) !! id).
Definition view_ok (v : option Conn * option StreamPc) : Prop :=
  is_Some v.2 ↔ ∃ c, v.1 = Some c ∧ on_stream c = true.
Lemma task_inv_view t : task_inv t ↔ ∀ id, view_ok (view id t).
Proof. unfold task_inv, view_ok, view. simpl. by setoid_rewrite fmap_is_Some. Qed.

Lemma view_set id t cs sse :
  view id (set_sse sse (set_conns cs t)) = (cs !! id, sr_pc <$> ss_reqs sse !! id).
Proof. done. Qed.

Section ends.
Context `{AxumServe} {FU : FormUrlencoded} {CL : ConcurrencyLimit}.

Definition page_id (e : PageEvent) : option nat :=
  match e with PgConnect id _ | PgRequest id _ | PgStep id | PgDisconnect id => Some id | PgPoll => None end.

Lemma task_event_other lan_ip e t t' id :
  task_event lan_ip e t = Some t' → page_id e ≠ Some id → view id t' = view id t.
Proof.
  destruct e as [i ip|i r|i|i|]; cbn [task_event page_id]; intros E Hid;
    try (assert (id ≠ i) as Hne by congruence); clear Hid; unfold view.
  - injection E as <-. case_match; [done |]. cbn. by rewrite lookup_insert_ne.
  - injection E as <-. destruct (tk_conns t !! i) as [[ip []]|]; [|done..]. unfold conn_request.
    pose proof (sse_event_other (SseRequest i ip) (tk_sse t) id Hne) as Ho.
    destruct (rs_handler <$> _) as [[]|]; [..| destruct (sse_event _ _) as [sse []] | |]; unfold set_sse, set_conns; cbn [fst tk_conns tk_sse] in *;
      rewrite ?lookup_insert_ne, ?Ho by done; done.
  - injection E as <-. destruct (tk_conns t !! i) as [[ip p]|]; [|done]. unfold conn_step. cbn [cn_phase].
    pose proof (sse_event_other (SseStep i) (tk_sse t) id Hne) as Ho1.
    pose proof (sse_event_other (SseDisconnect i) (tk_sse t) id Hne) as Ho2.
    destruct p as [| |m]; [done | cbn; by rewrite lookup_insert_ne |].
    destruct (sse_event (SseDisconnect i) (tk_sse t)) as [sse2 ?].
    destruct (sse_event (SseStep i) (tk_sse t)) as [sse []], (sr_pc <$> ss_reqs (tk_sse t) !! i) as [[]|], m;
      unfold set_sse, set_conns; cbn [fst tk_conns tk_sse] in *; rewrite ?lookup_insert_ne, ?lookup_delete_ne, ?Ho1, ?Ho2 by done; done.
  - injection E as <-. destruct (tk_conns t !! i) as [[ip p]|]; [|done]. unfold conn_disconnect. cbn [cn_phase].
    pose proof (sse_event_other (SseDisconnect i) (tk_sse t) id Hne) as Ho2.
    destruct (sse_event (SseDisconnect i) (tk_sse t)) as [sse2 ?].
    destruct p as [| |m]; unfold set_sse, set_conns; cbn [fst tk_conns tk_sse] in *; rewrite ?lookup_delete_ne, ?Ho2 by done; done.
  - destruct (serve_done _ _); [done |]. by injection E as <-.
Qed.

(** What its own events do to a connection; [permit] is whether the semaphore has
    a permit. *)
Definition view_step (permit : bool) (v : option Conn * option StreamPc) : option Conn * option StreamPc :=
  match v with
  | (Some (mkConn ip Replying), pc) => (Some (mkConn ip Idle), pc)
  | (Some (mkConn ip (OnStream m)), Some pc) =>
      match pc, m with
      | Reserved, _ => (v.1, Some (if permit then Streaming else Refused))
      | Refused, _ => (Some (mkConn ip Replying), None)
      | Streaming, HEAD => (v.1, Some Dropping)
      | Streaming, _ => v
      | Dropping, HEAD => (Some (mkConn ip Idle), None)
      | Dropping, _ => (None, None)
      end
  | _ => v
  end.
Definition view_drop (v : option Conn * option StreamPc) : option Conn * option StreamPc :=
  match v with
  | (Some (mkConn ip (OnStream m)), Some Streaming) => (v.1, Some Dropping)
  | (Some (mkConn ip (OnStream m)), _) => v
  | (_, pc) => (None, pc)
  end.
Ltac view_cases :=
  cbn [fst snd tk_conns tk_sse ss_reqs ss_streams set_conns set_sse]; rewrite ?lookup_insert_eq, ?lookup_delete_eq;
  cbn [fmap option_fmap option_map sr_pc].

Lemma conn_step_view lan_ip id t :
  ∃ t', task_event lan_ip (PgStep id) t = Some t' ∧
    view id t' = view_step (negb (sm_permits (ss_streams (tk_sse t)) =? 0)%nat) (view id t).
Proof.
  eexists. split; [done |]. unfold view. destruct (tk_conns t !! id) as [[ip [| |m]]|] eqn:E.
  - unfold conn_step. cbn [cn_phase]. by rewrite E.
  - unfold conn_step. cbn [cn_phase cn_ip]. by view_cases.
  - unfold conn_step. cbn [cn_phase cn_ip]. cbn [sse_event].
    destruct (ss_reqs (tk_sse t) !! id) as [[ip' []]|] eqn:Er; cbn [fmap option_fmap option_map sr_pc].
    all: try (destruct (sm_permits _) as [|n] eqn:Ep). all: destruct m; view_cases. all: by rewrite ?E, ?Er.
  - rewrite E. by destruct (ss_reqs (tk_sse t) !! id).
Qed.
Lemma conn_drop_view lan_ip id t :
  ∃ t', task_event lan_ip (PgDisconnect id) t = Some t' ∧ view id t' = view_drop (view id t).
Proof.
  eexists. split; [done |]. unfold view. destruct (tk_conns t !! id) as [[ip [| |m]]|] eqn:E.
  - unfold conn_disconnect. cbn [cn_phase]. by view_cases.
  - unfold conn_disconnect. cbn [cn_phase]. by view_cases.
  - unfold conn_disconnect. cbn [cn_phase sse_event].
    destruct (ss_reqs (tk_sse t) !! id) as [[ip' []]|] eqn:Er; view_cases; by rewrite ?E, ?Er.
  - rewrite E. by destruct (ss_reqs (tk_sse t) !! id).
Qed.

(** The invariant holds from the start on. *)
Lemma view_step_ok permit v : view_ok v → view_ok (view_step permit v).
Proof.
  destruct v as [[[ip [| |m]]|] [[]|]], permit; try destruct m; try done; unfold view_ok; simpl; naive_solver.
Qed.
Lemma view_drop_ok v : view_ok v → view_ok (view_drop v).
Proof. destruct v as [[[ip [| |m]]|] [[]|]]; try done; unfold view_ok; simpl; naive_solver. Qed.
Lemma task_event_inv lan_ip e t t' : task_event lan_ip e t = Some t' → task_inv t → task_inv t'.
Proof.
  rewrite !task_inv_view. intros E Hinv id. specialize (Hinv id).
  destruct (decide (page_id e = Some id)) as [Hid|Hid]; [|by rewrite (task_event_other _ _ _ _ _ E Hid)].
  destruct e as [i ip|i r|i|i|]; cbn [page_id] in Hid; [injection Hid as ->.. | done].
  - injection E as <-. case_match eqn:Ec; [done |]. apply orb_false_iff in Ec as [_ Ec].
    apply bool_decide_eq_false, eq_None_not_Some in Ec. unfold view_ok, view in *. rewrite Ec in Hinv.
    cbn [set_conns tk_conns tk_sse]. rewrite lookup_insert_eq. simpl in *. naive_solver.
  - injection E as <-. destruct (tk_conns t !! id) as [[ip []]|] eqn:Ec; [|done..].
    unfold view_ok, view in *. rewrite Ec in Hinv. simpl in Hinv.
    assert (ss_reqs (tk_sse t) !! id = None) as Er
      by (destruct (ss_reqs (tk_sse t) !! id) as [r'|]; [destruct (proj1 Hinv ltac:(by eexists)) as (? & [= <-] & ?) | ]; done).
    unfold conn_request. pose proof (sse_request_own id ip (tk_sse t) Er) as Hown.
    destruct (rs_handler <$> _) as [[]|]; [..| destruct (sse_event _ _) as [sse refused] | |];
      cbn [fst snd] in Hown; view_cases.
    1-3,5-6: rewrite Er; simpl; naive_solver.
    rewrite Hown. destruct refused; simpl; naive_solver.
  - destruct (conn_step_view lan_ip id t) as (t1 & E1 & Ev). rewrite E1 in E. injection E as <-. rewrite Ev. by apply view_step_ok.
  - destruct (conn_drop_view lan_ip id t) as (t1 & E1 & Ev). rewrite E1 in E. injection E as <-. rewrite Ev. by apply view_drop_ok.
Qed.

(** *** Streams keep the server *)

(** The client of the connection reads the log stream. *)
Definition streaming (id : nat) (t : ServerTask) : Prop :=
  ∃ ip m, m ≠ HEAD ∧ view id t = (Some (mkConn ip (OnStream m)), Some Streaming).

Section laws.
Context `{!AxumLaws}.

Lemma streaming_stays lan_ip e t id :
  e ≠ PgDisconnect id → streaming id t → ∃ t', task_event lan_ip e t = Some t' ∧ streaming id t'.
Proof.
  intros He (ip & m & Hm & Hv).
  assert (∃ t', task_event lan_ip e t = Some t') as [t' E].
  { destruct e; try by eexists. cbn [task_event]. destruct (serve_done _ _) eqn:Ed; [|by eexists].
    injection Hv as Hc _. by pose proof (serve_answered _ _ _ _ Ed Hc). }
  exists t'. split; [done |]. exists ip, m. split; [done |]. rewrite <-Hv.
  destruct (decide (page_id e = Some id)) as [Hid|Hid]; [|by eapply task_event_other].
  destruct e as [i ip'|i r|i|i|]; cbn [page_id] in Hid; [injection Hid as ->.. | done].
  - injection E as <-. injection Hv as Hc _. by rewrite Hc, orb_true_r.
  - injection E as <-. injection Hv as Hc _. by rewrite Hc.
  - destruct (conn_step_view lan_ip id t) as (t1 & E1 & Ev). rewrite E1 in E. injection E as <-.
    rewrite Ev, Hv. by destruct m.
  - done.
Qed.
Lemma streaming_run id events o t :
  ob_task o = Some t → streaming id t → PgDisconnect id ∉ events →
  ∃ t', ob_task (page_run events o) = Some t' ∧ streaming id t'.
Proof.
  revert o t. induction events as [|e events IH]; intros o t Ht Hs Hn; [by exists t |].
  apply not_elem_of_cons in Hn as [He Hn].
  destruct (streaming_stays (ob_lan_ip o) e t id ltac:(done) Hs) as (t' & E & Hs').
  apply (IH (page_event o e) t'); [|done..]. unfold page_event. cbn [set_task ob_task]. by rewrite Ht.
Qed.

(** *** Without clients it ends *)

Definition closing (id : nat) : list PageEvent := [PgStep id; PgStep id; PgStep id; PgDisconnect id; PgStep id].
Lemma page_run_app ev1 ev2 o : page_run (ev1 ++ ev2) o = page_run ev2 (page_run ev1 o).
Proof. apply foldl_app. Qed.

Lemma task_event_shutdown lan_ip e t t' : task_event lan_ip e t = Some t' → tk_shutdown t' = tk_shutdown t.
Proof.
  destruct e as [i ip|i r|i|i|]; cbn [task_event]; [intros [= <-].. |].
  - by case_match.
  - destruct (tk_conns t !! i) as [[ip []]|]; [|done..]. unfold conn_request.
    destruct (rs_handler <$> _) as [[]|]; [done.. | | done | done]. by destruct (sse_event _ _).
  - destruct (tk_conns t !! i) as [[ip [| |m]]|]; [done.. | | done]. unfold conn_step. cbn [cn_phase].
    destruct (sse_event (SseStep i) _) as [sse []], (sr_pc <$> _) as [[]|], m; done.
  - by destruct (tk_conns t !! i) as [[ip [| |m]]|].
  - case_match; [done |]. by intros [= <-].
Qed.

(** The task [t'] is [t] but for the connection [id], which is in the state [v]. *)
Record moved (id : nat) (v : option Conn * option StreamPc) (t t' : ServerTask) : Prop := {
  mv_inv : task_inv t';
  mv_shutdown : tk_shutdown t' = tk_shutdown t;
  mv_own : view id t' = v;
  mv_other id' : id' ≠ id → view id' t' = view id' t;
}.
Lemma moved_event id e v v' o t t' :
  ob_task o = Some t' → moved id v t t' → page_id e = Some id →
  (∃ t'', task_event (ob_lan_ip o) e t' = Some t'' ∧ view id t'' = v') →
  ∃ t'', ob_task (page_event o e) = Some t'' ∧ moved id v' t t''.
Proof.
  intros Ho [Hi Hs _ Ht] He (t'' & E & Hv). exists t''. unfold page_event. cbn [set_task ob_task]. rewrite Ho.
  split; [done |]. split; [by eapply task_event_inv | by rewrite (task_event_shutdown _ _ _ _ E) | done |].
  intros id' Hne. rewrite <-(Ht id' Hne). eapply task_event_other; [done |]. congruence.
Qed.
Lemma moved_step id v o t t' :
  ob_task o = Some t' → moved id v t t' →
  ∃ t'' permit, ob_task (page_event o (PgStep id)) = Some t'' ∧ moved id (view_step permit v) t t''.
Proof.
  intros Ho Hm. pose proof (conn_step_view (ob_lan_ip o) id t') as Hv. rewrite (mv_own _ _ _ _ Hm) in Hv.
  destruct (moved_event id (PgStep id) v _ o t t' Ho Hm eq_refl Hv) as (t'' & ? & ?). eauto.
Qed.
Lemma moved_drop id v o t t' :
  ob_task o = Some t' → moved id v t t' →
  ∃ t'', ob_task (page_event o (PgDisconnect id)) = Some t'' ∧ moved id (view_drop v) t t''.
Proof.
  intros Ho Hm. pose proof (conn_drop_view (ob_lan_ip o) id t') as Hv. rewrite (mv_own _ _ _ _ Hm) in Hv.
  by apply (moved_event id (PgDisconnect id) v _ o t t').
Qed.

Lemma closing_closes id o t :
  ob_task o = Some t → task_inv t →
  ∃ t', ob_task (page_run (closing id) o) = Some t' ∧ moved id (None, None) t t'.
Proof.
  intros Ho Hinv. set (v := view id t). assert (moved id v t t) as Hm by done.
  assert (view_ok v) as Hv by (by apply task_inv_view). clearbody v.
  destruct (moved_step id v o t t Ho Hm) as (t1 & p1 & Ho1 & Hm1).
  destruct (moved_step id _ _ t t1 Ho1 Hm1) as (t2 & p2 & Ho2 & Hm2).
  destruct (moved_step id _ _ t t2 Ho2 Hm2) as (t3 & p3 & Ho3 & Hm3).
  destruct (moved_drop id _ _ t t3 Ho3 Hm3) as (t4 & Ho4 & Hm4).
  destruct (moved_step id _ _ t t4 Ho4 Hm4) as (t5 & p5 & Ho5 & Hm5).
  exists t5. split; [exact Ho5 |].
  assert (∀ w, view_ok w → w.1 = None → w = (None, None)) as Hnone.
  { intros [[c|] [pc|]] Hw Hw1; try done. destruct (proj1 Hw ltac:(by eexists)) as (? & ? & ?). done. }
  rewrite (Hnone (view_step p5 _)) in Hm5; [done | by repeat first [apply view_step_ok | apply view_drop_ok] |].
  destruct v as [[[ip [| |m]]|] pc]; [done | done | | by destruct pc].
  destruct pc as [pc|]; [|destruct (proj2 Hv (ex_intro _ _ (conj eq_refl eq_refl))) as [? [=]]].
  by destruct pc, m, p1, p2, p3, p5.
Qed.

Lemma closing_all ids o t :
  ob_task o = Some t → task_inv t →
  ∃ t', ob_task (page_run (ids ≫= closing) o) = Some t' ∧ task_inv t' ∧ tk_shutdown t' = tk_shutdown t ∧
    ∀ id c, tk_conns t' !! id = Some c → id ∉ ids ∧ tk_conns t !! id = Some c.
Proof.
  revert o t. induction ids as [|id ids IH]; intros o t Ho Hinv; cbn [mbind list_bind].
  { exists t. split_and!; [done.. |]. intros id c Hc. by split; [apply not_elem_of_nil |]. }
  rewrite page_run_app. destruct (closing_closes id o t Ho Hinv) as (t1 & Ho1 & [Hi1 Hs1 Hv1 Ht1]).
  destruct (IH _ t1 Ho1 Hi1) as (t2 & Ho2 & Hi2 & Hs2 & Hc2). exists t2. split_and!; [done | done | congruence |].
  intros id' c Hc. destruct (Hc2 id' c Hc) as [Hn Hc1]. injection Hv1 as Hv1 _.
  destruct (decide (id' = id)) as [->|Hne]; [congruence |]. split; [by apply not_elem_of_cons |].
  specialize (Ht1 id' Hne). injection Ht1 as E _. congruence.
Qed.

Lemma page_run_ended events o : ob_task o = None → ob_task (page_run events o) = None.
Proof.
  revert o. induction events as [|e events IH]; intros o Ho; [done |]. apply IH. unfold page_event.
  cbn [set_task ob_task]. by rewrite Ho.
Qed.
Lemma page_run_inv events o :
  (∀ t, ob_task o = Some t → task_inv t) → ∀ t, ob_task (page_run events o) = Some t → task_inv t.
Proof.
  revert o. induction events as [|e events IH]; intros o Ho; [done |]. apply IH. intros t.
  unfold page_event. cbn [set_task ob_task]. intros (t0 & Et & Ht0)%bind_Some.
  eapply task_event_inv; [done |]. by apply Ho.
Qed.
Lemma page_run_shutdown events o :
  (∀ t, ob_task o = Some t → tk_shutdown t = true) →
  ∀ t, ob_task (page_run events o) = Some t → tk_shutdown t = true.
Proof.
  revert o. induction events as [|e events IH]; intros o Ho; [done |]. apply IH. intros t.
  unfold page_event. cbn [set_task ob_task]. intros (t0 & Et & Ht0)%bind_Some.
  rewrite (task_event_shutdown _ _ _ _ Ht0). by apply Ho.
Qed.
Lemma page_run_controller events o : ob_controller (page_run events o) = ob_controller o.
Proof. revert o. induction events as [|e events IH]; intros o; [done |]. apply (IH (page_event o e)). Qed.

(** What [stop] leaves to wait for. *)
Lemma stop_signals env o0 o events :
  ObservabilityService_start env o0 = Ok o →
  ∃ o', ObservabilityService_stop (page_run events o) = Ok o' ∧
    (∀ t, ob_task o' = Some t → task_inv t ∧ tk_shutdown t = true) ∧
    (∀ t id, ob_task (page_run events o) = Some t → streaming id t →
       ∃ t', ob_task o' = Some t' ∧ streaming id t').
Proof.
  unfold ObservabilityService_start. intros Hst.
  destruct (create_bound_tcp_listener _ _ _ _) as [listener|]; [|done]. simpl in Hst.
  destruct (ln_local_addr env); [|done]. simpl in Hst. unfold controller_start in Hst.
  destruct (is_running _); [done |]. simpl in Hst. injection Hst as <-.
  set (o1 := set_task _ _). assert (ob_controller o1 = mkServiceController (Some false) true) as Hc by done.
  pose proof (page_run_inv events o1) as Hinv.
  unfold ObservabilityService_stop. rewrite page_run_controller, Hc. simpl. eexists. split; [done |]. simpl. split.
  - intros t (t0 & Ht0 & ->)%fmap_Some. simpl. rewrite orb_true_r. split; [|done].
    apply (Hinv ltac:(by intros t1 [= <-] id; simpl; rewrite !lookup_empty; split; [intros [] | intros (? & ? & _)]) t0 Ht0).
  - intros t id -> (ip & m & Hm & Hv). simpl. eexists. split; [done |]. by exists ip, m.
Qed.

(** C18: Stopping the status page.  Whenever the running service is stopped, in
    any state that the requests of any clients have brought about, the stop
    signals the server and then waits.  As long as some client goes on reading
    the log stream, the server does not end and the stop does not return,
    whatever else happens; and once the server has gone on with every
    connection and found its client gone, it ends and the stop returns. *)
Theorem status_page_stop env o0 o events more :
  ObservabilityService_start env o0 = Ok o →
  let p := page_run events o in
  ∃ o', ObservabilityService_stop p = Ok o' ∧
    (∀ t id, ob_task p = Some t → streaming id t → PgDisconnect id ∉ more → ob_task (page_run more o') ≠ None) ∧
    (∀ ids, (∀ t id c, ob_task (page_run more o') = Some t → tk_conns t !! id = Some c → id ∈ ids) →
       ob_task (page_run (more ++ (ids ≫= closing) ++ [PgPoll]) o') = None).
Proof.
  intros Hst p. destruct (stop_signals env o0 o events Hst) as (o' & Ho' & Hinv & Hstr). exists o'. split_and!; [done | |].
  - intros t id Ht Hs Hn. destruct (Hstr t id Ht Hs) as (t' & Ht' & Hs').
    by destruct (streaming_run id more o' t' Ht' Hs' Hn) as (t'' & -> & _).
  - intros ids Hids. rewrite !page_run_app.
    destruct (ob_task (page_run more o')) as [t|] eqn:Et; [|by do 2 apply page_run_ended].
    pose proof (page_run_inv more o' (λ t Ht, proj1 (Hinv t Ht)) t Et) as Hi.
    pose proof (page_run_shutdown more o' (λ t Ht, proj2 (Hinv t Ht)) t Et) as Hsd.
    destruct (closing_all ids _ t Et Hi) as (t' & Et' & _ & Hs' & Hc').
    change (page_run [PgPoll] ?x) with (page_event x PgPoll). unfold page_event. cbn [set_task ob_task]. rewrite Et'. simpl.
    rewrite Hs', Hsd. replace (tk_conns t') with (∅ : gmap nat Conn); [by rewrite serve_returns |].
    symmetry. apply map_empty. intros id. destruct (tk_conns t' !! id) as [c|] eqn:Ec; [|done].
    destruct (Hc' id c Ec) as [Hn Hc]. by apply (Hids t id c) in Hc.
Qed.

(** ** The LAN manager waits *)

(** What happens while [stop_services] of the LAN manager waits for the server:
    events of the server and of the watchdog, in one order. *)
Inductive WaitEvent := WtPage (e : PageEvent) | WtWatchdog (e : WdEvent).
Definition page_part (tl : list (Instant * WaitEvent)) : list PageEvent :=
  omap (λ x, match x.2 with WtPage e => Some e | _ => None end) tl.
Definition watchdog_part (tl : list (Instant * WaitEvent)) : list (Instant * WdEvent) :=
  omap (λ x, match x.2 with WtWatchdog e => Some (x.1, e) | _ => None end) tl.
(** The LAN manager sends its next heartbeat after its wait. *)
Definition lan_waits (o : ObservabilityService) (tl : list (Instant * WaitEvent)) : Prop :=
  ∀ before t after, tl = before ++ (t, WtWatchdog (Beat LanManager)) :: after →
    ob_task (page_run (page_part before) o) = None.

(** Finding: a client that reads the log stream while the LAN manager stops the
    status page keeps the LAN manager waiting, and from 30 seconds after the last
    turn of the watchdog's monitor before the wait, the watchdog is not fed. *)
Theorem open_stream_starves_watchdog env o0 o events o' t id tl w start before u ok t1 ok1 :
  ObservabilityService_start env o0 = Ok o →
  ob_task (page_run events o) = Some t → streaming id t →
  ObservabilityService_stop (page_run events o) = Ok o' →
  lan_waits o' tl → PgDisconnect id ∉ page_part tl →
  let pre := before ++ (u, Tick false ok) :: watchdog_part tl in
  wd_file w = true → clock start pre → no_shutdown pre → calm 0 pre →
  from_secs DEFAULT_HEARTBEAT_TIMEOUT_SECS < t1 - u →
  (start_watchdog_monitor w ALL start (pre ++ [(t1, Tick false ok1)])).2 !! length pre = Some [].
Proof.
  intros Hst Ht Hs Ho' Hw Hn pre Hf Hc Hns Hcalm Hlt.
  destruct (stop_signals env o0 o events Hst) as (o1 & Ho1 & _ & Hstr). rewrite Ho1 in Ho'. injection Ho' as ->.
  destruct (Hstr t id Ht Hs) as (t' & Ht' & Hs').
  apply (silent_not_fed w ALL start before u ok (watchdog_part tl) t1 ok1 [] LanManager); try done.
  { do 3 (apply elem_of_cons; right). apply list_elem_of_here. }
  intros tb ([t0 e] & Hin & He)%list_elem_of_omap. simpl in He. destruct e as [|e]; [done |]. injection He as -> ->.
  apply list_elem_of_split in Hin as (l1 & l2 & ->).
  destruct (streaming_run id (page_part l1) o' t' Ht' Hs') as (t'' & E & _).
  - intros Hin. apply Hn. unfold page_part. rewrite omap_app. apply elem_of_app. by left.
  - by rewrite (Hw l1 tb l2 eq_refl) in E.
Qed.
End laws.
End ends.

(** ** Examples *)

Module PageExample.
#[local] Existing Instances ObservabilityExample.pairs ObservabilityExample.one_limit.

(** Idle connections are closed after the signal. *)
#[local] Instance axum : AxumServe :=
  λ signal conns, signal && bool_decide (map_Forall (λ _ c, in_flight c = false) conns).
#[local] Instance axum_laws : AxumLaws.
Proof.
  split.
  - by intros signal conns [-> _]%andb_true_iff.
  - intros signal conns id c [_ Hall]%andb_true_iff Hc. apply bool_decide_eq_true in Hall. by apply (Hall id).
  - done.
Defined.

Definition net : ListenEnv := mkListenEnv true (mkSocketEnv (λ _, true) (λ _, true) true) true true.
Definition page : ObservabilityService := ObservabilityService_new (lit "lan") (lit "192.168.1.1/24") 80.
Definition get (path : str) : Request := mkRequest GET path [] (Some (lit "192.168.1.1")).
(** Two clients: one reads the page, the other the log stream. *)
Definition requests : list PageEvent :=
  [PgConnect 1 7; PgRequest 1 (get (lit "/")); PgConnect 2 8; PgRequest 2 (get (lit "/api/logs/stream")); PgStep 2; PgStep 1].
Definition started : ObservabilityService :=
  match ObservabilityService_start net page with Ok o => o | Err _ => page end.

Lemma status_page_stop_witness :
  ∃ o', ObservabilityService_stop (page_run requests started) = Ok o' ∧
    ob_task (page_run [PgStep 1; PgDisconnect 1; PgPoll; PgStep 2] o') ≠ None ∧
    ob_task (page_run ([PgPoll] ++ ([1; 2]%nat ≫= closing) ++ [PgPoll]) o') = None.
Proof.
  assert (ObservabilityService_start net page = Ok started) as Hst by reflexivity.
  destruct (status_page_stop net page started requests [PgStep 1; PgDisconnect 1; PgPoll; PgStep 2] Hst)
    as (o' & Ho' & Hstays & _).
  destruct (status_page_stop net page started requests [PgPoll] Hst) as (o'' & Ho'' & _ & Hends).
  rewrite Ho' in Ho''. injection Ho'' as <-. exists o'. split; [exact Ho' | split].
  - destruct (ob_task (page_run requests started)) as [t|] eqn:Et; [|by vm_compute in Et].
    apply (Hstays t 2%nat eq_refl).
    + exists 8, GET. split; [done |]. vm_compute in Et. injection Et as <-. by vm_compute.
    + intros Hin. repeat (apply elem_of_cons in Hin as [Hin|Hin]; [done |]). by apply not_elem_of_nil in Hin.
  - apply Hends. intros t id c Ht Hc.
    assert (match ObservabilityService_stop (page_run requests started) with
            | Ok o' => match ob_task (page_run [PgPoll] o') with
                       | Some t => bool_decide (map_Forall (λ id _, id ∈ [1; 2]%nat) (tk_conns t))
                       | None => false
                       end
            | Err _ => false
            end = true) as Hall by (vm_compute; reflexivity).
    rewrite Ho', Ht in Hall. apply bool_decide_eq_true in Hall. exact (Hall id c Hc).
Defined.
End PageExample.
