(* ===== verification/Interface.v ===== *)
(** * Network interfaces

    [src/src/interface.rs] and [src/src/network.rs]: the monitor that finds the
    WAN and LAN devices by their MAC addresses, gives them their names and runs
    their services while they are present, and the requests to the kernel that
    it and the other services make.  The [rtnetlink] crate and the kernel are an
    interface with the laws that the theorems about names need. *)

From Stdlib Require Import ZArith Lia.
From stdpp Require Import base gmap sets list strings.
From S2P Require Import Prelude NetAddr Text Supervisor.

#[local] Open Scope Z_scope.

(** ** The kernel *)

Inductive LinkAttribute := IfName (name : str) | Address (addr : list Z) | OtherAttribute.
Record LinkMessage := mkLinkMessage {
  lm_index : Z;
  lm_up : bool;
  lm_lower_up : bool;
  lm_attributes : list LinkAttribute;
}.
Inductive LinkChange := LinkDown | LinkUp | LinkName (name : str).

(** An address of an interface; [am_local] has the IPv4 addresses among the
    attributes [Local]. *)
Record AddressMessage := mkAddressMessage {
  am_index : Z;
  am_inet : bool;
  am_prefix_len : Z;
  am_local : list Ipv4Addr;
}.

(** Requests of the [rtnetlink] crate: a request that fails gives an error
    code.  A dump is the messages received and the error that ended it, if one
    did. *)
Class Netlink := {
  Nl : Type;
  nl_connect : Nl → option Z;
  nl_links : Nl → list LinkMessage * option Z;
  nl_link_by_name : str → Nl → Result Z (option LinkMessage);
  nl_change : Z → LinkChange → Nl → Nl * option Z;
  nl_addrs : Nl → list AddressMessage * option Z;
  nl_addr_add : Z → Ipv4Addr → Z → Nl → Nl * option Z;
  nl_addr_del : AddressMessage → Nl → Nl * option Z;
}.

(** What the requests do when they succeed, on the names and states of the
    links. *)
Record Link := mkLink { lk_name : str; lk_up : bool }.
Definition link_change (c : LinkChange) (l : Link) : Link :=
  match c with
  | LinkDown => mkLink (lk_name l) false
  | LinkUp => mkLink (lk_name l) true
  | LinkName n => mkLink n (lk_up l)
  end.
Class NetlinkLaws `{Netlink} := {
  nl_view : Nl → gmap Z Link;
  nl_change_ok i c k k' :
    nl_change i c k = (k', None) →
    is_Some (nl_view k !! i) ∧ nl_view k' = alter (link_change c) i (nl_view k);
  nl_by_name_found n k m :
    nl_link_by_name n k = Ok (Some m) → nl_view k !! lm_index m = Some (mkLink n (lm_up m));
  nl_by_name_none n k i l :
    nl_link_by_name n k = Ok None → nl_view k !! i = Some l → lk_name l ≠ n;
  nl_names_unique k i j l m :
    nl_view k !! i = Some l → nl_view k !! j = Some m → lk_name l = lk_name m → i = j;
}.

(** ** Requests *)

Inductive NetError := NetlinkFailed (code : Z) | InterfaceNotFound (name : str) | BadNetwork.

Section network.
Context `{Netlink}.

(** Code that talks to the kernel and may return early with an error; the
    changes it asks for are its actions. *)
Inductive NetRequest := ChangeLink (index : Z) (c : LinkChange).
Definition Net (A : Type) : Type := Try Nl NetRequest NetError A.
Definition net_code (code : option Z) : Result NetError unit :=
  match code with None => Ok tt | Some e => Err (NetlinkFailed e) end.
(** [rtnetlink::new_connection()?] *)
Definition net_connect : Net unit := λ k, (net_code (nl_connect k), k, []).
(** [handle.link().change(...).execute().await?] *)
Definition change_link (index : Z) (c : LinkChange) : Net unit := λ k,
  let '(k', e) := nl_change index c k in (net_code e, k', [ChangeLink index c]).
(** [links.try_next().await?] on the links with a name *)
Definition link_by_name (name : str) : Net (option LinkMessage) := λ k,
  (match nl_link_by_name name k with Ok m => Ok m | Err e => Err (NetlinkFailed e) end, k, []).
End network.

Section requests.
Context `{Netlink}.

(** [find_mac_address_attribute]: the first attribute that is a MAC address. *)
Fixpoint find_mac_address_attribute (attributes : list LinkAttribute) : option MacAddr :=
  match attributes with
  | [] => None
  | Address a :: attributes =>
      match mac_from_slice a with Ok mac => Some mac | Err _ => find_mac_address_attribute attributes end
  | _ :: attributes => find_mac_address_attribute attributes
  end.
Inductive MacError := MacNoConnection | MacNotFound | MacRequestFailed | MacMissing.
Definition get_interface_mac (ifname : str) (k : Nl) : Result MacError MacAddr :=
  match nl_connect k with
  | Some _ => Err MacNoConnection
  | None =>
      match nl_link_by_name ifname k with
      | Ok (Some link) => ok_or MacMissing (find_mac_address_attribute (lm_attributes link))
      | Ok None => Err MacNotFound
      | Err _ => Err MacRequestFailed
      end
  end.

Definition ensure_interface_up (name : str) : Net bool :=
  let^ _ := net_connect in
  let^ found := link_by_name name in
  match found with
  | None => try_ok false
  | Some link =>
      if lm_up link then try_ok true
      else let^ _ := change_link (lm_index link) LinkUp in try_ok true
  end.

Definition get_interface_index (name : str) (k : Nl) : option Z :=
  match nl_connect k with
  | Some _ => None
  | None => match nl_link_by_name name k with Ok (Some m) => Some (lm_index m) | _ => None end
  end.

(** [del] of the addresses of a dump; failures are ignored. *)
Definition delete_addresses (stale : AddressMessage → bool) (msgs : list AddressMessage) (k : Nl) : Nl :=
  foldl (λ k m, if stale m then (nl_addr_del m k).1 else k) k msgs.

Definition of_interface (index : Z) (m : AddressMessage) : bool :=
  bool_decide (am_index m = index) && am_inet m.

(** [flush_ipv4_addresses]; the dump is read while addresses are deleted, and
    is that of its start. *)
Definition flush_ipv4_addresses (index : Z) : Net unit := λ k,
  match nl_connect k with
  | Some e => (Err (NetlinkFailed e), k, [])
  | None =>
      let '(msgs, e) := nl_addrs k in
      (net_code e, delete_addresses (of_interface index) msgs k, [])
  end.

(** [EEXIST], as the kernel sends it. *)
Definition EEXIST : Z := -17.

Context `{Ipv4NetOps IpNetT}.

Definition configure_interface (name : str) (ip_net : option IpNetT) : Net unit :=
  let^ found := link_by_name name in
  match found with
  | None => try_err (InterfaceNotFound name)
  | Some link =>
      let^ _ := change_link (lm_index link) LinkUp in
      match ip_net with
      | None => try_ok tt
      | Some net => λ k,
          (Ok tt, (nl_addr_add (lm_index link) (net_addr net) (net_prefix_len net) k).1, [])
      end
  end.

Definition is_expected (index : Z) (ip : Ipv4Addr) (prefix : Z) (m : AddressMessage) : bool :=
  of_interface index m && bool_decide (ip ∈ am_local m) && bool_decide (am_prefix_len m = prefix).

Definition configure_interface_ip (name ip_cidr : str) : Net bool :=
  let^ _ := net_connect in
  let^ found := link_by_name name in
  match found with
  | None => try_ok false
  | Some link =>
      match net_parse (Net := IpNetT) ip_cidr with
      | None => try_err BadNetwork
      | Some expected_net => λ k,
          let index := lm_index link in
          let expected := is_expected index (net_addr expected_net) (net_prefix_len expected_net) in
          let '(msgs, e) := nl_addrs k in
          let k1 := delete_addresses (λ m, of_interface index m && negb (expected m)) msgs k in
          match e with
          | Some e => (Err (NetlinkFailed e), k1, [])
          | None =>
              if existsb expected msgs then (Ok true, k1, [])
              else
                let '(k2, code) := nl_addr_add index (net_addr expected_net) (net_prefix_len expected_net) k1 in
                match code with
                | None => (Ok true, k2, [])
                | Some c => (if bool_decide (c = EEXIST) then Ok true else Err (NetlinkFailed c), k2, [])
                end
          end
      end
  end.
End requests.

(** ** Managed interfaces *)

Inductive RouterServiceKind := DhcpClientService | SntpClientService | LanManagerService | ObservabilityKind.
#[global] Instance RouterServiceKind_eq_dec : EqDecision RouterServiceKind.
Proof. solve_decision. Defined.
(** [RouterService]: a service is started and stopped by its controller. *)
Record RouterService := mkRouterService { rs_kind : RouterServiceKind; rs_controller : ServiceController }.

(** [bind_ok]: whether the status page can open its socket, which it does before
    its controller is started. *)
Definition service_start (bind_ok : bool) (s : RouterService) : Result ServiceError RouterService :=
  if bool_decide (rs_kind s = ObservabilityKind) && negb bind_ok then Err ServiceIo
  else let? c := controller_start (rs_controller s) in Ok (mkRouterService (rs_kind s) c).
Definition service_stop (s : RouterService) : Result ServiceError RouterService :=
  let? c := controller_stop (rs_controller s) in Ok (mkRouterService (rs_kind s) c.1).

Record ManagedInterface := mkManagedInterface {
  mi_name : str;
  mi_mac : MacAddr;
  mi_active_services : list RouterService;
  mi_active_index : option Z;
}.
Definition ManagedInterface_new (name : str) (mac : MacAddr) (services : list RouterService) :
    ManagedInterface := mkManagedInterface name mac services None.

(** An error of a service is logged and the service is as it was. *)
Definition or_keep (f : RouterService → Result ServiceError RouterService) (s : RouterService) :
    RouterService := match f s with Ok s' => s' | Err _ => s end.
Definition ManagedInterface_start_services (bind_ok : bool) (i : ManagedInterface) : ManagedInterface :=
  mkManagedInterface (mi_name i) (mi_mac i) (or_keep (service_start bind_ok) <$> mi_active_services i)
    (mi_active_index i).
Definition ManagedInterface_stop_services (i : ManagedInterface) : ManagedInterface :=
  mkManagedInterface (mi_name i) (mi_mac i) (or_keep service_stop <$> mi_active_services i)
    (mi_active_index i).
Definition set_active_index (index : option Z) (i : ManagedInterface) : ManagedInterface :=
  mkManagedInterface (mi_name i) (mi_mac i) (mi_active_services i) index.

(** ** Files of an interface *)

Section sysfs.
(** [fs::read_to_string] *)
Context (read : str → option str).

Definition read_sysfs_net_attr (iface_name attr : str) : option str :=
  read (lit "/sys/class/net/" ++ iface_name ++ lit "/" ++ attr).

Definition parse_link_speed_str (content : str) : str :=
  match parse_uint 32 (trim content) with
  | Some mbps => if bool_decide (0 < mbps) then int_display mbps ++ lit " Mbps" else lit "unknown"
  | None => lit "unknown"
  end.
Definition get_link_speed (iface_name : str) : str :=
  match read_sysfs_net_attr iface_name (lit "speed") with
  | Some s => parse_link_speed_str s
  | None => lit "unknown"
  end.

Definition parse_carrier_file_content (content : str) : option bool :=
  let t := trim content in
  if bool_decide (t = lit "1") then Some true
  else if bool_decide (t = lit "0") then Some false else None.
Definition parse_operstate_str (content : str) : option bool :=
  let t := trim content in
  if bool_decide (t = lit "up") then Some true
  else if bool_decide (t ∈ [lit "down"; lit "lowerlayerdown"; lit "dormant"]) then Some false
  else None.
Definition get_interface_carrier (iface_name : str) : option bool :=
  match read_sysfs_net_attr iface_name (lit "carrier") ≫= parse_carrier_file_content with
  | Some carrier => Some carrier
  | None => read_sysfs_net_attr iface_name (lit "operstate") ≫= parse_operstate_str
  end.

(** [if_indextoname], given the entries of [/sys/class/net] that can be read. *)
Definition if_indextoname (entries : list str) (index : Z) : option str :=
  iter_find (λ name,
    match read_sysfs_net_attr name (lit "ifindex") ≫= λ s, parse_uint 32 (trim s) with
    | Some ifindex => bool_decide (ifindex = index)
    | None => false
    end) entries.
End sysfs.

(** ** The monitor *)

(** What the monitor knows of a link: name, MAC and carrier. *)
Abbreviation LinkStates := (gmap Z (str * MacAddr * bool)).

Inductive IfOut :=
| IfRequest (r : NetRequest)
| IfHeartbeat
| GotLink (name : str) (mac : MacAddr) (speed : str)
| LostLink (name : str) (mac : MacAddr)
| DetectedDevice (name : str) (mac : MacAddr).

(** What the system has when an event is handled: the kernel, the files and
    whether a socket can be bound. *)
Record IfEnv `{Netlink} := mkIfEnv {
  ie_kernel : Nl;
  ie_read : str → option str;
  ie_entries : list str;
  ie_bind_ok : bool;
}.

Definition log_carrier_transition (read : str → option str) (name : str) (mac : MacAddr)
    (carrier : bool) : IfOut :=
  if carrier then GotLink name mac (get_link_speed read name) else LostLink name mac.

Definition update_carrier_state (read : str → option str) (index : Z) (name : str) (mac : MacAddr)
    (carrier : bool) (link_states : LinkStates) : LinkStates * list IfOut :=
  match link_states !! index with
  | Some (n, m, c) =>
      if Bool.eqb c carrier then (link_states, [])
      else (<[index := (n, m, carrier)]> link_states, [log_carrier_transition read name mac carrier])
  | None =>
      (<[index := (name, mac, carrier)]> link_states,
       if carrier then [log_carrier_transition read name mac carrier] else [])
  end.

Fixpoint poll_interface_carrier_states (read : str → option str) (interfaces : list ManagedInterface)
    (link_states : LinkStates) : LinkStates * list IfOut :=
  match interfaces with
  | [] => (link_states, [])
  | iface :: rest =>
      let '(states, out) :=
        match mi_active_index iface, get_interface_carrier read (mi_name iface) with
        | Some index, Some carrier =>
            update_carrier_state read index (mi_name iface) (mi_mac iface) carrier link_states
        | _, _ => (link_states, [])
        end in
      let '(states', out') := poll_interface_carrier_states read rest states in
      (states', out ++ out')
  end.

(** The last name and the last address of a message; an address that is not a
    MAC address clears the one before. *)
Definition parse_link_attributes (attributes : list LinkAttribute) : option str * option MacAddr :=
  foldl (λ '(name, address) nla,
    match nla with
    | IfName n => (Some n, address)
    | Address a => (name, ok (mac_from_slice a))
    | OtherAttribute => (name, address)
    end) (None, None) attributes.

Section monitor.
Context `{Netlink}.

(** [create_rtnetlink_handle] and the three requests of a renaming. *)
Definition rename_interface_by_index (index : Z) (new_name : str) : Net unit :=
  let^ _ := net_connect in
  let^ _ := change_link index LinkDown in
  let^ _ := change_link index (LinkName new_name) in
  change_link index LinkUp.

Definition rename_and_up_interface (target_name : str) (index : Z) (current_name : str) : Net unit :=
  if bool_decide (current_name = target_name) then try_ok tt
  else rename_interface_by_index index target_name.

(** An error comes before any change to the interface. *)
Definition activate_interface (bind_ok : bool) (iface : ManagedInterface) (index : Z)
    (current_name : str) : Net ManagedInterface :=
  let^ _ := rename_and_up_interface (mi_name iface) index current_name in
  let^ _ := ensure_interface_up (mi_name iface) in
  try_ok (set_active_index (Some index) (ManagedInterface_start_services bind_ok iface)).

(** [format!("{}_old_{}", iface.name, index)] *)
Definition temp_name (iface : ManagedInterface) (index : Z) : str :=
  mi_name iface ++ lit "_old_" ++ int_display index.

Definition handle_new_link (bind_ok : bool) (iface : ManagedInterface) (index : Z) (name : str)
    (mac : MacAddr) : Net ManagedInterface :=
  if bool_decide (mac = mi_mac iface) then
    match mi_active_index iface with
    | None => activate_interface bind_ok iface index name
    | Some active =>
        if bool_decide (active = index)
        then let^ _ := ensure_interface_up (mi_name iface) in try_ok iface
        else try_ok iface
    end
  else if bool_decide (name = mi_name iface)
  then let^ _ := rename_interface_by_index index (temp_name iface index) in try_ok iface
  else try_ok iface.

Definition handle_del_link (iface : ManagedInterface) (index : Z) : ManagedInterface :=
  if bool_decide (mi_active_index iface = Some index)
  then set_active_index None (ManagedInterface_stop_services iface) else iface.

(** A loop over the interfaces that ends at the first error. *)
Fixpoint each_interface (f : ManagedInterface → Net ManagedInterface) (l : list ManagedInterface) :
    Net (list ManagedInterface) :=
  match l with
  | [] => try_ok []
  | i :: rest =>
      let^ i' := f i in let^ rest' := each_interface f rest in try_ok (i' :: rest')
  end.

(** The first link of a dump with the MAC address. *)
Definition find_interface_by_mac (target_mac : MacAddr) (k : Nl) : option (Z * str) :=
  match nl_connect k with
  | Some _ => None
  | None =>
      head (omap (λ link,
        match parse_link_attributes (lm_attributes link) with
        | (Some n, Some addr) => if bool_decide (addr = target_mac) then Some (lm_index link, n) else None
        | _ => None
        end) (nl_links k).1)
  end.

(** The local variables of [monitor_interfaces]. *)
Record IfMonitor := mkIfMonitor {
  mo_interfaces : list ManagedInterface;
  mo_detected : gset Z;
  mo_links : LinkStates;
}.

(** The links of a dump are brought up one by one; a failure ends the dump or is
    ignored. *)
Fixpoint initial_link_scan_loop (read : str → option str) (msgs : list LinkMessage) (st : LinkStates)
    (k : Nl) : LinkStates * Nl * list IfOut :=
  match msgs with
  | [] => (st, k, [])
  | link_msg :: rest =>
      match parse_link_attributes (lm_attributes link_msg) with
      | (Some n, Some addr) =>
          if bool_decide (n = lit "lo") then initial_link_scan_loop read rest st k
          else
            let '(_, k1, reqs) := ensure_interface_up n k in
            let '(st1, out) := update_carrier_state read (lm_index link_msg) n addr (lm_lower_up link_msg) st in
            let '(st2, k2, out') := initial_link_scan_loop read rest st1 k1 in
            (st2, k2, (IfRequest <$> reqs) ++ out ++ out')
      | _ => initial_link_scan_loop read rest st k
      end
  end.
Definition initial_link_scan (read : str → option str) (k : Nl) : LinkStates * Nl * list IfOut :=
  initial_link_scan_loop read (nl_links k).1 ∅ k.

(** [activate_startup_interfaces], with the indices detected; an error is a
    panic of the caller. *)
Fixpoint activate_startup_interfaces (bind_ok : bool) (interfaces : list ManagedInterface)
    (detected : gset Z) : Net (list ManagedInterface * gset Z) :=
  match interfaces with
  | [] => try_ok ([], detected)
  | iface :: rest => λ k,
      (match find_interface_by_mac (mi_mac iface) k with
       | Some (index, name) =>
           let^ iface' := activate_interface bind_ok iface index name in
           let^ r := activate_startup_interfaces bind_ok rest ({[index]} ∪ detected) in
           try_ok (iface' :: r.1, r.2)
       | None =>
           let^ r := activate_startup_interfaces bind_ok rest detected in
           try_ok (iface :: r.1, r.2)
       end) k
  end.

(** The name and the address a [NewLink] message is about: its own, or those
    known, or those of the files. *)
Definition resolve_link (env : IfEnv) (index : Z) (attributes : list LinkAttribute)
    (link_states : LinkStates) : option (str * MacAddr) :=
  let '(name, address) := parse_link_attributes attributes in
  match name, address, link_states !! index with
  | Some n, Some a, _ => Some (n, a)
  | _, _, Some (cn, ca, _) => Some (default cn name, default ca address)
  | _, _, None =>
      n ← match name with Some n => Some n | None => if_indextoname (ie_read env) (ie_entries env) index end;
      Some (n, default mac_zero address)
  end.

Definition handle_new_link_event (env : IfEnv) (link_msg : LinkMessage) (m : IfMonitor) :
    Result NetError IfMonitor * list IfOut :=
  let index := lm_index link_msg in
  match resolve_link env index (lm_attributes link_msg) (mo_links m) with
  | None => (Ok m, [])
  | Some (n, addr) =>
      if bool_decide (n = lit "lo") then (Ok m, []) else
      let '(links, out1) :=
        update_carrier_state (ie_read env) index n addr (lm_lower_up link_msg) (mo_links m) in
      let '(k1, out2) :=
        if bool_decide (index ∈ mo_detected m) then (ie_kernel env, [])
        else
          let '(_, k1, reqs) := ensure_interface_up n (ie_kernel env) in
          (k1, DetectedDevice n addr :: (IfRequest <$> reqs)) in
      let '(r, _, reqs) :=
        each_interface (λ iface, handle_new_link (ie_bind_ok env) iface index n addr)
          (mo_interfaces m) k1 in
      (match r with
       | Ok interfaces => Ok (mkIfMonitor interfaces ({[index]} ∪ mo_detected m) links)
       | Err e => Err e
       end, out1 ++ out2 ++ (IfRequest <$> reqs))
  end.

Definition handle_del_link_event (link_msg : LinkMessage) (m : IfMonitor) : IfMonitor * list IfOut :=
  let index := lm_index link_msg in
  (mkIfMonitor ((λ iface, handle_del_link iface index) <$> mo_interfaces m)
     (mo_detected m ∖ {[index]}) (delete index (mo_links m)),
   match mo_links m !! index with
   | Some (n, addr, true) => [LostLink n addr]
   | _ => []
   end).

(** [process_netlink_message]; a payload that is not a route message is
    [OtherMessage]. *)
Inductive RouteMessage := NewLink (link_msg : LinkMessage) | DelLink (link_msg : LinkMessage) | OtherMessage.
Definition process_netlink_message (env : IfEnv) (msg : RouteMessage) (m : IfMonitor) :
    Result NetError IfMonitor * list IfOut :=
  match msg with
  | NewLink link_msg => handle_new_link_event env link_msg m
  | DelLink link_msg => let '(m', out) := handle_del_link_event link_msg m in (Ok m', out)
  | OtherMessage => (Ok m, [])
  end.

(** The arms of the loop's [select!]; [MessagesClosed] is the end of the
    stream. *)
Inductive MonitorEvent := HeartbeatTimer | Message (msg : RouteMessage) | MessagesClosed.
Fixpoint interface_loop (events : list (IfEnv * MonitorEvent)) (m : IfMonitor) :
    Outcome IfMonitor * list IfOut :=
  match events with
  | [] => (Returned m, [])
  | (env, e) :: rest =>
      match e with
      | HeartbeatTimer =>
          let '(links, out) := poll_interface_carrier_states (ie_read env) (mo_interfaces m) (mo_links m) in
          let '(r, out') := interface_loop rest (mkIfMonitor (mo_interfaces m) (mo_detected m) links) in
          (r, IfHeartbeat :: out ++ out')
      | MessagesClosed => (Returned m, [])
      | Message msg =>
          match process_netlink_message env msg m with
          | (Ok m', out) => let '(r, out') := interface_loop rest m' in (r, IfHeartbeat :: out ++ out')
          | (Err _, out) => (Panicked, IfHeartbeat :: out)
          end
      end
  end.

(** [monitor_interfaces], with the answer to the request for a multicast
    socket. *)
Definition monitor_interfaces (multicast_ok : bool) (env : IfEnv) (interfaces : list ManagedInterface)
    (events : list (IfEnv * MonitorEvent)) : Outcome IfMonitor * list IfOut :=
  if multicast_ok then
    let '(links, k, out1) := initial_link_scan (ie_read env) (ie_kernel env) in
    let '(r, _, reqs) := activate_startup_interfaces (ie_bind_ok env) interfaces ∅ k in
    let out := IfHeartbeat :: out1 ++ (IfRequest <$> reqs) in
    match r with
    | Ok (interfaces', detected) =>
        let '(r, out') := interface_loop events (mkIfMonitor interfaces' detected links) in (r, out ++ out')
    | Err _ => (Panicked, out)
    end
  else (Panicked, [IfHeartbeat]).

(** ** Services run while the interface is present *)

Definition runs (s : RouterService) : bool := is_running (rs_controller s).

(** The services of an interface run exactly while it is active; the status page
    runs only if its socket could be opened. *)
Definition iface_ok (detected : gset Z) (i : ManagedInterface) : Prop :=
  match mi_active_index i with
  | Some index => index ∈ detected ∧
      Forall (λ s, rs_kind s ≠ ObservabilityKind → runs s = true) (mi_active_services i)
  | None => Forall (λ s, runs s = false) (mi_active_services i)
  end.
(** What does not change of an interface. *)
Definition same_iface (i j : ManagedInterface) : Prop :=
  mi_name j = mi_name i ∧ mi_mac j = mi_mac i ∧
  rs_kind <$> mi_active_services j = rs_kind <$> mi_active_services i.
#[local] Instance same_iface_refl : Reflexive same_iface.
Proof. by intros i. Qed.
#[local] Instance same_iface_trans : Transitive same_iface.
Proof. intros a b c (?&?&?) (?&?&?). repeat split; congruence. Qed.

Lemma or_keep_start_runs bind_ok s :
  runs s = false →
  rs_kind (or_keep (service_start bind_ok) s) = rs_kind s ∧
  (rs_kind s ≠ ObservabilityKind → runs (or_keep (service_start bind_ok) s) = true).
Proof.
  unfold runs, or_keep, service_start, controller_start. intros ->.
  destruct (bool_decide_reflect (rs_kind s = ObservabilityKind)); destruct bind_ok; done.
Qed.
Lemma or_keep_stop_runs s :
  rs_kind (or_keep service_stop s) = rs_kind s ∧ runs (or_keep service_stop s) = false.
Proof.
  unfold runs, or_keep, service_stop, controller_stop, is_running.
  by destruct (ct_task_handle (rs_controller s)) eqn:E.
Qed.
Lemma fmap_kind_eq f (l : list RouterService) :
  (∀ s, s ∈ l → rs_kind (or_keep f s) = rs_kind s) →
  rs_kind <$> (or_keep f <$> l) = rs_kind <$> l.
Proof.
  intros Hf. rewrite <-list_fmap_compose. apply list_fmap_ext. intros j s Hs. simpl.
  apply Hf. by eapply list_elem_of_lookup_2.
Qed.

Lemma iface_ok_mono d d' i : d ⊆ d' → iface_ok d i → iface_ok d' i.
Proof. unfold iface_ok. destruct (mi_active_index i); [|done]. intros Hd [? ?]. split; [set_solver | done]. Qed.

Lemma activated_ok bind_ok index d i :
  mi_active_index i = None → iface_ok d i →
  let i' := set_active_index (Some index) (ManagedInterface_start_services bind_ok i) in
  iface_ok ({[index]} ∪ d) i' ∧ same_iface i i'.
Proof.
  unfold iface_ok. intros -> Hstop. rewrite list.Forall_forall in Hstop. simpl.
  split_and!; [set_solver | | split_and!; [done | done |]].
  - apply Forall_fmap, list.Forall_forall. intros s Hs Hk. simpl in *.
    destruct (or_keep_start_runs bind_ok s (Hstop s Hs)) as [Ek Hr]. rewrite Ek in Hk. auto.
  - apply fmap_kind_eq. intros s Hs. by apply or_keep_start_runs, Hstop.
Qed.

Lemma activate_interface_Ok bind_ok i index name k i' :
  act_result (activate_interface bind_ok i index name) k = Ok i' →
  i' = set_active_index (Some index) (ManagedInterface_start_services bind_ok i).
Proof.
  unfold activate_interface. intros (u & _ & (b & _ & [= <-])%try_bind_Ok)%try_bind_Ok. done.
Qed.

Lemma handle_new_link_ok bind_ok index name mac d i k i' :
  act_result (handle_new_link bind_ok i index name mac) k = Ok i' →
  iface_ok d i → iface_ok ({[index]} ∪ d) i' ∧ same_iface i i'.
Proof.
  intros Hr Hok.
  assert (iface_ok ({[index]} ∪ d) i ∧ same_iface i i) as Hsame
    by (split; [eapply iface_ok_mono; [|done]; set_solver | done]).
  revert Hr. unfold handle_new_link. destruct (bool_decide (mac = mi_mac i)).
  - destruct (mi_active_index i) as [active|] eqn:Ea.
    + destruct (bool_decide (active = index)); [|by intros [= <-]].
      by intros (b & _ & [= <-])%try_bind_Ok.
    + intros ->%activate_interface_Ok. by apply activated_ok.
  - destruct (bool_decide (name = mi_name i)); [|by intros [= <-]].
    by intros (u & _ & [= <-])%try_bind_Ok.
Qed.

Lemma each_interface_ok f d d' l k l' :
  (∀ i k i', act_result (f i) k = Ok i' → iface_ok d i → iface_ok d' i' ∧ same_iface i i') →
  act_result (each_interface f l) k = Ok l' →
  Forall (iface_ok d) l → Forall (iface_ok d') l' ∧ Forall2 same_iface l l'.
Proof.
  intros Hf. revert k l'. induction l as [|i l IH]; intros k l'; cbn [each_interface].
  { intros [= <-] _. done. }
  intros (i' & Hi & (r & Hr & [= <-])%try_bind_Ok)%try_bind_Ok [Hok Hl]%Forall_cons.
  destruct (Hf i k i' Hi Hok), (IH _ _ Hr Hl). auto.
Qed.

Lemma handle_del_link_ok index d i :
  iface_ok d i →
  let i' := handle_del_link i index in
  iface_ok (d ∖ {[index]}) i' ∧ same_iface i i' ∧ mi_active_index i' ≠ Some index.
Proof.
  unfold handle_del_link. intros Hok.
  destruct (bool_decide_reflect (mi_active_index i = Some index)) as [E|E]; simpl.
  - split_and!; [| split_and!; [done | done |] | done].
    + apply Forall_fmap, list.Forall_forall. intros s _. apply or_keep_stop_runs.
    + apply fmap_kind_eq. intros s _. apply or_keep_stop_runs.
  - split_and!; [| done | done]. unfold iface_ok in *. destruct (mi_active_index i) as [a|]; [|done].
    destruct Hok. split; [|done]. set_solver.
Qed.

Lemma activate_startup_ok bind_ok l d k l' d' :
  act_result (activate_startup_interfaces bind_ok l d) k = Ok (l', d') →
  Forall (λ i, mi_active_index i = None ∧ iface_ok ∅ i) l →
  d ⊆ d' ∧ Forall (iface_ok d') l' ∧ Forall2 same_iface l l'.
Proof.
  revert d k l' d'. induction l as [|i l IH]; intros d k l' d'; cbn [activate_startup_interfaces].
  { intros [= <- <-] _. done. }
  intros Hr [[Hn Hok] Hl]%Forall_cons. revert Hr. unfold act_result.
  destruct (find_interface_by_mac (mi_mac i) k) as [[index name]|].
  - intros (i' & ->%activate_interface_Ok & ([l1 d1] & Hr & [= <- <-])%try_bind_Ok)%try_bind_Ok.
    destruct (IH _ _ _ _ Hr Hl) as (Hd & Hfa & Hs).
    destruct (activated_ok bind_ok index ∅ i Hn Hok) as [Ha Hsame].
    split_and!; [set_solver | | by constructor]. constructor; [|done].
    eapply iface_ok_mono; [|exact Ha]. set_solver.
  - intros ([l1 d1] & Hr & [= <- <-])%try_bind_Ok.
    destruct (IH _ _ _ _ Hr Hl) as (Hd & Hfa & Hs).
    split_and!; [done | | by constructor]. constructor; [|done].
    eapply iface_ok_mono; [|exact Hok]. set_solver.
Qed.

(** *** Which names are given *)

Lemma net_all_connect P : try_all P net_connect.
Proof. intros k x Hx. by apply elem_of_nil in Hx. Qed.
Lemma net_all_by_name P name : try_all P (link_by_name name).
Proof. intros k x Hx. by apply elem_of_nil in Hx. Qed.
Lemma net_all_change (P : NetRequest → Prop) index c : P (ChangeLink index c) → try_all P (change_link index c).
Proof.
  intros HP k x. unfold act_out, change_link. destruct (nl_change index c k) as [k' e]. simpl.
  by intros ->%list_elem_of_singleton.
Qed.
Hint Resolve net_all_connect net_all_by_name net_all_change : try.

Lemma net_all_ensure_up (P : NetRequest → Prop) name :
  (∀ index, P (ChangeLink index LinkUp)) → try_all P (ensure_interface_up name).
Proof.
  intros HP. unfold ensure_interface_up, try_ok.
  apply try_all_bind; [auto with try | intros _]. apply try_all_bind; [auto with try |].
  intros [link|]; [|auto with try]. destruct (lm_up link); auto with try.
Qed.
Lemma net_all_rename (P : NetRequest → Prop) index name :
  (∀ c, match c with LinkName n => n = name | _ => True end → P (ChangeLink index c)) →
  try_all P (rename_interface_by_index index name).
Proof. intros HP. unfold rename_interface_by_index. repeat (apply try_all_bind; [auto with try | intros _]). auto with try. Qed.

(** A request that gives a name, while a message about the link [index] with a
    name and a MAC address is handled: the link gets the name of the interface
    with that address, or it has the name of an interface with another address
    and gets a spare name. *)
Definition naming_ok (ifaces : list ManagedInterface) (index : Z) (name : str) (mac : MacAddr)
    (r : NetRequest) : Prop :=
  ∀ index' new, r = ChangeLink index' (LinkName new) →
    index' = index ∧ ∃ i, i ∈ ifaces ∧
      (mac = mi_mac i ∧ new = mi_name i ∨
       mac ≠ mi_mac i ∧ name = mi_name i ∧ new = temp_name i index).

Lemma handle_new_link_naming bind_ok ifaces i index name mac :
  i ∈ ifaces → try_all (naming_ok ifaces index name mac) (handle_new_link bind_ok i index name mac).
Proof.
  intros Hi. assert (∀ j, naming_ok ifaces index name mac (ChangeLink j LinkUp)) as Hup by done.
  unfold handle_new_link. destruct (bool_decide_reflect (mac = mi_mac i)) as [Em|Em].
  - destruct (mi_active_index i) as [active|].
    + destruct (bool_decide _); [|apply try_all_ret].
      apply try_all_bind; [by apply net_all_ensure_up | intros; apply try_all_ret].
    + unfold activate_interface, rename_and_up_interface.
      apply try_all_bind; [|intros _; apply try_all_bind;
                              [by apply net_all_ensure_up | intros; apply try_all_ret]].
      destruct (bool_decide _); [apply try_all_ret |]. apply net_all_rename.
      intros c Hc index' new [= <- ->]. split; [done |]. exists i. auto.
  - destruct (bool_decide_reflect (name = mi_name i)) as [En|En]; [|apply try_all_ret].
    apply try_all_bind; [|intros; apply try_all_ret]. apply net_all_rename.
    intros c Hc index' new [= <- ->]. split; [done |]. exists i. auto.
Qed.

Lemma each_interface_all P f l :
  (∀ i, i ∈ l → try_all P (f i)) → try_all P (each_interface f l).
Proof.
  induction l as [|i l IH]; intros Hf; cbn [each_interface]; [apply try_all_ret |].
  apply try_all_bind; [apply Hf, list_elem_of_here |]. intros i'.
  apply try_all_bind; [|intros; apply try_all_ret].
  apply IH. intros j Hj. apply Hf. by apply list_elem_of_further.
Qed.

Lemma handle_new_link_event_naming env link_msg m r :
  IfRequest r ∈ (handle_new_link_event env link_msg m).2 →
  ∀ index new, r = ChangeLink index (LinkName new) →
  ∃ name mac, resolve_link env (lm_index link_msg) (lm_attributes link_msg) (mo_links m) = Some (name, mac) ∧
    naming_ok (mo_interfaces m) (lm_index link_msg) name mac r.
Proof.
  unfold handle_new_link_event. destruct (resolve_link _ _ _ _) as [[n a]|]; [|intros []%elem_of_nil].
  destruct (bool_decide (n = lit "lo")); [intros []%elem_of_nil |].
  assert (∀ r, IfRequest r ∉
    (update_carrier_state (ie_read env) (lm_index link_msg) n a (lm_lower_up link_msg) (mo_links m)).2) as Hc.
  { intros x. unfold update_carrier_state, log_carrier_transition.
    destruct (mo_links m !! lm_index link_msg) as [[[? ?] c]|]; destruct (lm_lower_up link_msg);
      try destruct c; simpl; rewrite ?list_elem_of_singleton, ?elem_of_nil; by intros ?. }
  destruct (update_carrier_state _ _ _ _ _ _) as [links out1]. simpl in Hc.
  pose proof (net_all_ensure_up (λ r, ∀ i new, r ≠ ChangeLink i (LinkName new)) n ltac:(done) (ie_kernel env)) as Hup.
  unfold act_out in Hup. destruct (ensure_interface_up n (ie_kernel env)) as [[? ku] ru]. simpl in Hup.
  set (k1 := if bool_decide (lm_index link_msg ∈ mo_detected m) then ie_kernel env else ku).
  pose proof (each_interface_all (naming_ok (mo_interfaces m) (lm_index link_msg) n a)
    (λ i, handle_new_link (ie_bind_ok env) i (lm_index link_msg) n a) (mo_interfaces m)
    (λ i Hi, handle_new_link_naming _ _ _ _ _ _ Hi) k1) as Hall. unfold act_out in Hall.
  intros Hr index new ->. exists n, a. split; [done |].
  revert Hr Hall. unfold k1.
  destruct (bool_decide (lm_index link_msg ∈ mo_detected m));
    destruct (each_interface _ _ _) as [[? ?] reqs]; simpl; intros Hr Hall;
    rewrite elem_of_app, ?elem_of_cons, ?elem_of_app, !list_elem_of_fmap in Hr.
  - destruct Hr as [Hr | (x & [= <-] & Hx)]; [by apply Hc in Hr | by apply Hall].
  - destruct Hr as [Hr | [? | [(x & [= <-] & Hx) | (x & [= <-] & Hx)]]];
      [by apply Hc in Hr | done | by destruct (Hup _ Hx index new) | by apply Hall].
Qed.

(** *** The whole run *)

Definition monitor_ok (ifaces : list ManagedInterface) (m : IfMonitor) : Prop :=
  Forall (iface_ok (mo_detected m)) (mo_interfaces m) ∧ Forall2 same_iface ifaces (mo_interfaces m).

Lemma handle_new_link_event_ok ifaces env link_msg m m' :
  (handle_new_link_event env link_msg m).1 = Ok m' → monitor_ok ifaces m → monitor_ok ifaces m'.
Proof.
  unfold handle_new_link_event. destruct (resolve_link _ _ _ _) as [[n a]|]; [|by intros [= <-]].
  destruct (bool_decide (n = lit "lo")); [by intros [= <-] |].
  destruct (update_carrier_state _ _ _ _ _ _) as [links out1].
  destruct (if bool_decide _ then _ else _) as [k1 out2]. simpl.
  destruct (each_interface _ _ k1) as [[r k2] reqs] eqn:E. simpl.
  destruct r as [l'|e]; [|done]. intros [= <-] [Hok Hs].
  assert (act_result (each_interface (λ iface, handle_new_link (ie_bind_ok env) iface
    (lm_index link_msg) n a) (mo_interfaces m)) k1 = Ok l') as Er by (unfold act_result; by rewrite E).
  destruct (each_interface_ok _ (mo_detected m) ({[lm_index link_msg]} ∪ mo_detected m) _ _ _
    (λ i k i' Hr Hi, handle_new_link_ok _ _ _ _ _ _ _ _ Hr Hi) Er Hok) as [Hok' Hs'].
  split; [done |]. simpl. by etrans.
Qed.

Lemma handle_del_link_event_ok ifaces link_msg m :
  monitor_ok ifaces m →
  let m' := (handle_del_link_event link_msg m).1 in
  monitor_ok ifaces m' ∧ Forall (λ i, mi_active_index i ≠ Some (lm_index link_msg)) (mo_interfaces m').
Proof.
  intros [Hok Hs]. simpl. unfold monitor_ok. simpl.
  rewrite list.Forall_forall in Hok.
  assert (∀ i, i ∈ mo_interfaces m → _) as Hdel
    by (intros i Hi; exact (handle_del_link_ok (lm_index link_msg) _ i (Hok i Hi))).
  split_and!.
  - apply Forall_fmap, list.Forall_forall. intros i Hi. by apply Hdel.
  - etrans; [exact Hs |]. apply Forall2_fmap_r, Forall_Forall2_diag, list.Forall_forall.
    intros i Hi. by apply Hdel.
  - apply Forall_fmap, list.Forall_forall. intros i Hi. by apply Hdel.
Qed.

Lemma interface_loop_ok ifaces events m m' out :
  interface_loop events m = (Returned m', out) → monitor_ok ifaces m → monitor_ok ifaces m'.
Proof.
  revert m out. induction events as [|[env e] events IH]; intros m out; cbn [interface_loop].
  { by intros [= <- _]. }
  destruct e as [|msg|].
  - destruct (poll_interface_carrier_states _ _ _) as [links o].
    destruct (interface_loop events _) as [r o'] eqn:E. intros [= -> _] Hok. by eapply IH.
  - destruct (process_netlink_message env msg m) as [[m1|?] o] eqn:Ep; [|done].
    destruct (interface_loop events m1) as [r o'] eqn:E. intros [= -> _] Hok. eapply IH; [done |].
    destruct msg as [lm|lm|]; cbn [process_netlink_message] in Ep.
    + eapply (handle_new_link_event_ok _ env lm m); [by rewrite Ep | done].
    + destruct (handle_del_link_event lm m) as [m2 o2] eqn:Ed. injection Ep as <- _.
      pose proof (handle_del_link_event_ok ifaces lm m Hok) as [Hd _]. by rewrite Ed in Hd.
    + by injection Ep as <- _.
  - by intros [= <- _].
Qed.

(** C11: the life of the managed interfaces.  Whatever the kernel sends and answers
    and whatever the files hold, as long as the monitor runs: the services of an
    interface run exactly while the interface is active (the status page if its
    socket could be opened), an active interface has the index of a link that
    was detected and not removed since, and names, addresses and kinds of
    services stay as configured.  When a link is removed no interface stays
    active on it.  While a message is handled only the link it is about is
    renamed: to the name of an interface if it has its MAC address, and to a
    spare name if it has an interface's name with another address. *)
Theorem interface_lifecycle multicast_ok env ifaces events m out :
  monitor_interfaces multicast_ok env ifaces events = (Returned m, out) →
  Forall (λ i, mi_active_index i = None ∧ Forall (λ s, runs s = false) (mi_active_services i)) ifaces →
  Forall (iface_ok (mo_detected m)) (mo_interfaces m) ∧
  Forall2 same_iface ifaces (mo_interfaces m) ∧
  (∀ link_msg, Forall (λ i, mi_active_index i ≠ Some (lm_index link_msg))
                 (mo_interfaces (handle_del_link_event link_msg m).1)) ∧
  (∀ env link_msg index new,
     IfRequest (ChangeLink index (LinkName new)) ∈ (handle_new_link_event env link_msg m).2 →
     ∃ name mac, resolve_link env (lm_index link_msg) (lm_attributes link_msg) (mo_links m) = Some (name, mac) ∧
       naming_ok (mo_interfaces m) (lm_index link_msg) name mac (ChangeLink index (LinkName new))).
Proof.
  intros Hrun Hfresh.
  assert (monitor_ok ifaces m) as Hok.
  { revert Hrun. unfold monitor_interfaces. destruct multicast_ok; [|done].
    destruct (initial_link_scan _ _) as [[links k] out1].
    destruct (activate_startup_interfaces _ _ _ k) as [[[[l' d]|e] k2] reqs] eqn:E; [|done].
    destruct (interface_loop _ _) as [r out'] eqn:El. intros [= -> _].
    eapply interface_loop_ok; [exact El |].
    eapply (activate_startup_ok (ie_bind_ok env) ifaces ∅ k l' d); [unfold act_result; by rewrite E |].
    eapply Forall_impl; [exact Hfresh |]. intros i [Hn Hs]. split; [done |]. unfold iface_ok. by rewrite Hn. }
  split; [apply Hok |]. split; [apply Hok |]. split.
  - intros link_msg. by apply (handle_del_link_event_ok ifaces link_msg m Hok).
  - intros env' link_msg index new Hr. by eapply handle_new_link_event_naming.
Qed.
End monitor.

(** ** What becomes of a link *)

Section naming.
Context `{Netlink, !NetlinkLaws}.

Lemma alter_known {A} (f : A → A) i (m : gmap Z A) x : m !! i = Some x → alter f i m = <[i := f x]> m.
Proof.
  intros Hx. apply map_eq. intros j. destruct (decide (j = i)) as [->|Hj].
  - by rewrite lookup_alter_eq, Hx, lookup_insert_eq.
  - by rewrite lookup_alter_ne, lookup_insert_ne.
Qed.

(** A request to change a link, carried out. *)
Lemma change_link_spec index c k l :
  act_result (change_link index c) k = Ok tt → nl_view k !! index = Some l →
  nl_view (act_state (change_link index c) k) = <[index := link_change c l]> (nl_view k).
Proof.
  unfold act_result, act_state, change_link. destruct (nl_change index c k) as [k' [e|]] eqn:E; [done |].
  intros _ Hl. simpl. destruct (nl_change_ok _ _ _ _ E) as [_ ->]. by apply alter_known.
Qed.

Lemma rename_spec index new k l :
  act_result (rename_interface_by_index index new) k = Ok tt → nl_view k !! index = Some l →
  nl_view (act_state (rename_interface_by_index index new) k) =
    <[index := mkLink new true]> (nl_view k).
Proof.
  unfold rename_interface_by_index.
  intros ([] & Hc & H2)%try_bind_Ok Hl. rewrite (try_bind_state _ _ _ _ Hc).
  apply try_bind_Ok in H2 as ([] & Hd & H3). rewrite (try_bind_state _ _ _ _ Hd).
  apply try_bind_Ok in H3 as ([] & Hn & Hu). rewrite (try_bind_state _ _ _ _ Hn).
  change (act_state net_connect k) with k in *.
  pose proof (change_link_spec _ _ _ _ Hd Hl) as V1.
  assert (nl_view (act_state (change_link index LinkDown) k) !! index = Some (link_change LinkDown l)) as L1
    by (by rewrite V1, lookup_insert_eq).
  pose proof (change_link_spec _ _ _ _ Hn L1) as V2.
  erewrite (change_link_spec index LinkUp _ _ Hu) by (by rewrite V2, lookup_insert_eq).
  rewrite V2, V1, !insert_insert_eq. done.
Qed.

(** [ensure_interface_up] on the name of a link. *)
Lemma ensure_up_spec name k b index l :
  act_result (ensure_interface_up name) k = Ok b → nl_view k !! index = Some l → lk_name l = name →
  nl_view (act_state (ensure_interface_up name) k) = <[index := mkLink name true]> (nl_view k).
Proof.
  unfold ensure_interface_up. intros ([] & Hc & Hr)%try_bind_Ok Hl Hn.
  rewrite (try_bind_state _ _ _ _ Hc). change (act_state net_connect k) with k in *.
  apply try_bind_Ok in Hr as (found & Hf & Hr). rewrite (try_bind_state _ _ _ _ Hf).
  change (act_state (link_by_name name) k) with k in *.
  unfold act_result, link_by_name in Hf. destruct (nl_link_by_name name k) as [o|] eqn:E; [|done].
  injection Hf as ->. destruct found as [lm|].
  2: { by destruct (nl_by_name_none _ _ _ _ E Hl). }
  pose proof (nl_by_name_found _ _ _ E) as Hm.
  assert (lm_index lm = index) as Hi by (eapply nl_names_unique; [exact Hm | exact Hl | done]).
  rewrite Hi in *. rewrite Hl in Hm. injection Hm as ->. simpl in *.
  destruct (lm_up lm) eqn:Eu.
  - change (nl_view k = <[index := mkLink name true]> (nl_view k)). by rewrite insert_id.
  - apply try_bind_Ok in Hr as ([] & Hu & _). rewrite (try_bind_state _ _ _ _ Hu).
    exact (change_link_spec _ _ _ _ Hu Hl).
Qed.

(** A kernel that carries out what it is asked for a link that exists, unless
    another link has the name wanted. *)
Definition name_free (n : str) (index : Z) (k : Nl) : Prop :=
  ∀ j l, nl_view k !! j = Some l → lk_name l = n → j = index.
Record kernel_willing (index : Z) : Prop := {
  kw_connect k : nl_connect k = None;
  kw_by_name n k : ∃ o, nl_link_by_name n k = Ok o;
  kw_change c k : is_Some (nl_view k !! index) →
    (∀ n, c = LinkName n → name_free n index k) → (nl_change index c k).2 = None;
}.

Lemma connect_works index k : kernel_willing index → act_result net_connect k = Ok tt.
Proof. intros Hw. unfold act_result, net_connect. by rewrite (kw_connect _ Hw). Qed.
Lemma change_works index c k :
  kernel_willing index → is_Some (nl_view k !! index) → (∀ n, c = LinkName n → name_free n index k) →
  act_result (change_link index c) k = Ok tt.
Proof.
  intros Hw Hs Hf. pose proof (kw_change _ Hw c k Hs Hf) as He.
  unfold act_result, change_link. destruct (nl_change index c k) as [k' e]. simpl in *. by subst e.
Qed.

Lemma rename_works index new k :
  kernel_willing index → is_Some (nl_view k !! index) → name_free new index k →
  act_result (rename_interface_by_index index new) k = Ok tt.
Proof.
  intros Hw [l Hl] Hf. unfold rename_interface_by_index.
  rewrite (try_bind_works _ _ _ tt) by (by apply (connect_works index)).
  change (act_state net_connect k) with k.
  pose proof (change_works index LinkDown k Hw (mk_is_Some _ _ Hl) ltac:(done)) as Hd.
  rewrite (try_bind_works _ _ _ _ Hd). pose proof (change_link_spec _ _ _ _ Hd Hl) as V1.
  set (k1 := act_state (change_link index LinkDown) k) in *.
  assert (nl_view k1 !! index = Some (link_change LinkDown l)) as L1 by (by rewrite V1, lookup_insert_eq).
  assert (act_result (change_link index (LinkName new)) k1 = Ok tt) as Hn.
  { apply change_works; [done | by rewrite L1 |]. intros n [= <-] j x Hx Hnx.
    destruct (decide (j = index)) as [->|Hj]; [done |].
    rewrite V1, lookup_insert_ne in Hx by done. by eapply Hf. }
  rewrite (try_bind_works _ _ _ _ Hn). apply change_works; [done | | done].
  rewrite (change_link_spec _ _ _ _ Hn L1), lookup_insert_eq. by eexists.
Qed.

Lemma ensure_up_works name index k l :
  kernel_willing index → nl_view k !! index = Some l → lk_name l = name →
  ∃ b, act_result (ensure_interface_up name) k = Ok b.
Proof.
  intros Hw Hl Hn. unfold ensure_interface_up.
  rewrite (try_bind_works _ _ _ tt) by (by apply (connect_works index)).
  change (act_state net_connect k) with k. destruct (kw_by_name _ Hw name k) as [o Ho].
  rewrite (try_bind_works _ _ _ o) by (unfold act_result, link_by_name; by rewrite Ho).
  change (act_state (link_by_name name) k) with k.
  destruct o as [lm|]; [|by exists false]. destruct (lm_up lm); [by exists true |].
  pose proof (nl_by_name_found _ _ _ Ho) as Hm.
  assert (lm_index lm = index) as -> by (eapply nl_names_unique; [exact Hm | exact Hl | done]).
  exists true. rewrite (try_bind_works _ _ _ tt); [done |]. by apply change_works.
Qed.

Lemma activate_spec bind_ok iface index name up k :
  nl_view k !! index = Some (mkLink name up) →
  let m := activate_interface bind_ok iface index name in
  (∀ iface', act_result m k = Ok iface' →
     nl_view (act_state m k) = <[index := mkLink (mi_name iface) true]> (nl_view k) ∧
     iface' = set_active_index (Some index) (ManagedInterface_start_services bind_ok iface)) ∧
  (kernel_willing index → name_free (mi_name iface) index k → ∃ iface', act_result m k = Ok iface').
Proof.
  intros Hl. cbv zeta. unfold activate_interface. set (named := rename_and_up_interface _ _ _).
  assert (act_result named k = Ok tt → ∃ up', nl_view (act_state named k) = <[index := mkLink (mi_name iface) up']> (nl_view k)) as Hnamed.
  { unfold named, rename_and_up_interface. destruct (bool_decide_reflect (name = mi_name iface)) as [<-|En].
    - intros _. exists up. change (nl_view k = <[index := mkLink name up]> (nl_view k)). by rewrite insert_id.
    - intros Hr. exists true. by eapply rename_spec. }
  split.
  - intros iface' ([] & Hr & (b & Hb & [= <-])%try_bind_Ok)%try_bind_Ok. split; [|done].
    rewrite (try_bind_state _ _ _ _ Hr), (try_bind_state _ _ _ _ Hb).
    destruct (Hnamed Hr) as [up' Hv].
    change (nl_view (act_state (ensure_interface_up (mi_name iface)) (act_state named k)) =
      <[index := mkLink (mi_name iface) true]> (nl_view k)).
    erewrite ensure_up_spec; [|exact Hb | by rewrite Hv, lookup_insert_eq | done].
    by rewrite Hv, insert_insert_eq.
  - intros Hw Hf.
    assert (act_result named k = Ok tt) as Hr.
    { unfold named, rename_and_up_interface. destruct (bool_decide _); [done |].
      by apply rename_works; [| eexists |]. }
    destruct (Hnamed Hr) as [up' Hv]. rewrite (try_bind_works _ _ _ _ Hr).
    destruct (ensure_up_works (mi_name iface) index (act_state named k) (mkLink (mi_name iface) up') Hw) as [b Hb];
      [by rewrite Hv, lookup_insert_eq | done |].
    eexists. by rewrite (try_bind_works _ _ _ _ Hb).
Qed.

(** What becomes of a link that appears.  A link with the MAC address of an
    interface that is not active gets the interface's name and is up, and the
    interface is active on it with its services started; the link an interface
    is active on is brought up again if it still has its name; a link that has
    the name of an interface but another address gets a spare name; every other
    link is left alone, and so are the links that the message is not about.
    The handler fails only if the kernel refuses something or another link has
    the name wanted. *)
Theorem handle_new_link_spec bind_ok iface index name mac up k :
  nl_view k !! index = Some (mkLink name up) →
  let handler := handle_new_link bind_ok iface index name mac in
  let links := nl_view (act_state handler k) in
  let wanted := if decide (mac = mi_mac iface) then mi_name iface else temp_name iface index in
  (∀ iface', act_result handler k = Ok iface' →
     if decide (mac = mi_mac iface) then
       match mi_active_index iface with
       | None => links = <[index := mkLink (mi_name iface) true]> (nl_view k) ∧
                 iface' = set_active_index (Some index) (ManagedInterface_start_services bind_ok iface)
       | Some active => iface' = iface ∧ (active ≠ index → links = nl_view k) ∧
           (active = index → name = mi_name iface → links = <[index := mkLink name true]> (nl_view k))
       end
     else iface' = iface ∧
       links = if decide (name = mi_name iface) then <[index := mkLink (temp_name iface index) true]> (nl_view k)
               else nl_view k) ∧
  (kernel_willing index → name_free wanted index k →
   mi_active_index iface = None ∨ name = mi_name iface → ∃ iface', act_result handler k = Ok iface').
Proof.
  intros Hl. unfold handle_new_link. cbv zeta.
  destruct (decide (mac = mi_mac iface)) as [Em|Em];
    [rewrite (bool_decide_true _ Em) | rewrite (bool_decide_false _ Em)].
  - destruct (mi_active_index iface) as [active|].
    + destruct (decide (active = index)) as [->|Ea].
      * rewrite bool_decide_true by done. split.
        -- intros i' (b & Hb & [= <-])%try_bind_Ok. split_and!; [done | done |]. intros _ ->.
           rewrite (try_bind_state _ _ _ _ Hb). by eapply ensure_up_spec.
        -- intros Hw _ [? | ->]; [done |]. destruct (ensure_up_works _ _ _ _ Hw Hl eq_refl) as [b Hb].
           eexists. by rewrite (try_bind_works _ _ _ _ Hb).
      * rewrite bool_decide_false by done. split; [by intros i' [= <-] | eauto].
    + destruct (activate_spec bind_ok iface index name up k Hl) as [Ha Hw].
      split; [exact Ha | auto].
  - destruct (decide (name = mi_name iface)) as [En|En];
      [rewrite (bool_decide_true _ En) | rewrite (bool_decide_false _ En); split; [by intros i' [= <-] | eauto]].
    split.
    + intros i' ([] & Hr & [= <-])%try_bind_Ok. split; [done |].
      rewrite (try_bind_state _ _ _ _ Hr). by eapply rename_spec.
    + intros Hw Hf _. eexists. rewrite (try_bind_works _ _ _ tt); [done |]. by apply rename_works; [| eexists |].
Qed.
End naming.

(** ** Examples *)

Module InterfaceExample.
(** A kernel: its links with their names, states and MAC addresses.  It refuses
    requests about links that do not exist and names that are taken. *)
Abbreviation Links := (gmap Z (Link * list Z)).
Definition unique_names (k : Links) : Prop :=
  map_Forall (λ i l, map_Forall (λ j m, lk_name l.1 = lk_name m.1 → i = j) k) k.
#[global] Instance link_eq_dec : EqDecision Link.
Proof. solve_decision. Defined.
#[global] Instance unique_names_dec k : Decision (unique_names k).
Proof. unfold unique_names. apply _. Defined.

Definition ENODEV : Z := -19.
Definition links_view (k : Links) : gmap Z Link := if decide (unique_names k) then fst <$> k else ∅.
Definition change (i : Z) (c : LinkChange) (k : Links) : Links * option Z :=
  let k' := alter (λ l, (link_change c l.1, l.2)) i k in
  if decide (unique_names k) then
    match k !! i with
    | None => (k, Some ENODEV)
    | Some _ => if decide (unique_names k') then (k', None) else (k, Some EEXIST)
    end
  else (k, Some ENODEV).
Definition message (kv : Z * (Link * list Z)) : LinkMessage :=
  mkLinkMessage kv.1 (lk_up kv.2.1) (lk_up kv.2.1) [IfName (lk_name kv.2.1); Address kv.2.2].
Definition by_name (n : str) (k : Links) : Result Z (option LinkMessage) :=
  if decide (unique_names k)
  then Ok (message <$> iter_find (λ kv, bool_decide (lk_name kv.2.1 = n)) (map_to_list k))
  else Ok None.
#[global] Instance links_kernel : Netlink := {|
  Nl := Links;
  nl_connect _ := None;
  nl_links k := (message <$> map_to_list k, None);
  nl_link_by_name := by_name;
  nl_change := change;
  nl_addrs _ := ([], None);
  nl_addr_add _ _ _ k := (k, None);
  nl_addr_del _ k := (k, None);
|}.

Lemma links_view_Some k i l : links_view k !! i = Some l → unique_names k ∧ ∃ x, k !! i = Some x ∧ x.1 = l.
Proof.
  unfold links_view. destruct (decide (unique_names k)) as [Hu|]; [|done].
  rewrite lookup_fmap, fmap_Some. intros (x & Hx & ->). eauto.
Qed.
Lemma change_law i c (k k' : Links) :
  change i c k = (k', None) →
  is_Some (links_view k !! i) ∧ links_view k' = alter (link_change c) i (links_view k).
Proof.
  unfold change. destruct (decide (unique_names k)) as [Hu|]; [|done].
  destruct (k !! i) as [x|] eqn:Ex; [|done].
  destruct (decide (unique_names _)) as [Hu'|]; [|done]. intros [= <-].
  unfold links_view. rewrite !decide_True by done. split; [by rewrite lookup_fmap, Ex |].
  apply map_eq. intros j. rewrite lookup_fmap. destruct (decide (j = i)) as [->|Hj].
  - by rewrite !lookup_alter_eq, lookup_fmap, Ex.
  - by rewrite !lookup_alter_ne, lookup_fmap.
Qed.
#[global] Program Instance links_laws : NetlinkLaws := {| nl_view := links_view |}.
Next Obligation. intros i c k k'. apply change_law. Qed.
Next Obligation.
  intros n k m. simpl. unfold by_name. destruct (decide (unique_names k)) as [Hu|]; [|done].
  intros [= (x & Hx & ->)%fmap_Some]. apply iter_find_Some in Hx as (j & Hj & Hn & _).
  apply list_elem_of_lookup_2 in Hj. destruct x as [i [l a]]. apply elem_of_map_to_list in Hj.
  apply bool_decide_eq_true in Hn. unfold links_view. rewrite decide_True by done.
  simpl in *. rewrite lookup_fmap, Hj. simpl. subst n. by destruct l.
Qed.
Next Obligation.
  intros n k i l. simpl. unfold by_name. intros Hb (Hu & x & Hi & <-)%links_view_Some Hn. revert Hb.
  rewrite decide_True by done. intros [= Hx%fmap_None].
  assert (bool_decide (lk_name (i, x).2.1 = n) = false) as Hf
    by (apply (proj1 (iter_find_None _ _) Hx), elem_of_map_to_list, Hi).
  by apply bool_decide_eq_false in Hf.
Qed.
Next Obligation.
  intros k i j l m (Hu & x & Hx & <-)%links_view_Some (_ & y & Hy & <-)%links_view_Some Hn.
  exact (Hu i x Hx j y Hy Hn).
Qed.

Lemma links_willing index : kernel_willing index.
Proof.
  split; [done | |].
  - intros n k. simpl. unfold by_name. destruct (decide (unique_names k)); eauto.
  - intros c k [l (Hu & x & Hx & Hxl)%links_view_Some] Hfree. simpl. unfold change.
    rewrite decide_True, Hx by done. rewrite decide_True; [done |].
    assert (∀ i y, k !! i = Some y → i ≠ index → lk_name y.1 ≠ lk_name (link_change c x.1)) as Hne.
    { intros i y Hy Hi. destruct c as [| |n]; simpl; intros E;
        [by apply Hi, (Hu i y Hy index x Hx) | by apply Hi, (Hu i y Hy index x Hx) |].
      apply Hi, (Hfree n eq_refl i y.1); [|done].
      simpl. unfold links_view. rewrite decide_True by done. rewrite lookup_fmap.
      exact (f_equal (fmap fst) Hy). }
    intros i y Hy j z Hz E. rewrite lookup_alter in Hy, Hz.
    destruct (decide (index = i)) as [<-|Hi], (decide (index = j)) as [<-|Hj]; [done | | |].
    + rewrite Hx in Hy. injection Hy as <-. by destruct (Hne j z Hz ltac:(done)).
    + rewrite Hx in Hz. injection Hz as <-. by destruct (Hne i y Hy ltac:(done)).
    + exact (Hu i y Hy j z Hz E).
Qed.

Definition wan_mac : MacAddr := mac6 2 0 0 0 0 1.
Definition lan_mac : MacAddr := mac6 2 0 0 0 0 2.
Definition stopped (kind : RouterServiceKind) : RouterService := mkRouterService kind controller_new.
Definition wan : ManagedInterface :=
  ManagedInterface_new (lit "wan") wan_mac [stopped DhcpClientService; stopped SntpClientService].
Definition lan : ManagedInterface :=
  ManagedInterface_new (lit "lan") lan_mac [stopped LanManagerService].
Definition system (k : Links) : IfEnv := mkIfEnv _ k (λ _, None) [] true.
Definition plugged (index : Z) (name : str) (mac : MacAddr) : Links :=
  {[index := (mkLink name false, mac_octets mac)]}.
Definition appears (index : Z) (name : str) (mac : MacAddr) : IfEnv * MonitorEvent :=
  (system (plugged index name mac),
   Message (NewLink (mkLinkMessage index false false [IfName name; Address (mac_octets mac)]))).

(** A card with the WAN's address is plugged in. *)
Definition plug_in : list (IfEnv * MonitorEvent) := [appears 5 (lit "eth0") wan_mac].

Lemma interface_lifecycle_witness :
  ∃ m out, monitor_interfaces true (system ∅) [wan; lan] plug_in = (Returned m, out) ∧
    (mi_active_index <$> mo_interfaces m) = [Some 5; None] ∧
    Forall (iface_ok (mo_detected m)) (mo_interfaces m).
Proof.
  destruct (monitor_interfaces true (system ∅) [wan; lan] plug_in) as [[m|] out] eqn:E;
    [|by exfalso; vm_compute in E].
  exists m, out. split; [done |]. split.
  - vm_compute in E. injection E as <- _. reflexivity.
  - apply (interface_lifecycle true (system ∅) [wan; lan] plug_in m out E).
    repeat constructor.
Defined.

Lemma handle_new_link_spec_witness :
  ∃ iface', act_result (handle_new_link true wan 5 (lit "eth0") wan_mac) (plugged 5 (lit "eth0") wan_mac) = Ok iface' ∧
    nl_view (act_state (handle_new_link true wan 5 (lit "eth0") wan_mac) (plugged 5 (lit "eth0") wan_mac)) !! 5 =
      Some (mkLink (lit "wan") true).
Proof.
  assert (nl_view (plugged 5 (lit "eth0") wan_mac) !! 5 = Some (mkLink (lit "eth0") false)) as Hl
    by (vm_compute; reflexivity).
  destruct (@handle_new_link_spec links_kernel links_laws true wan 5 (lit "eth0") wan_mac false (plugged 5 (lit "eth0") wan_mac) Hl)
    as [Hspec Hworks].
  destruct Hworks as [iface' Hi]; [apply links_willing | | by left |].
  - intros j l (_ & x & Hx & _)%links_view_Some _. unfold plugged in Hx.
    by apply lookup_singleton_Some in Hx as [<- _].
  - exists iface'. split; [exact Hi |]. destruct (Hspec iface' Hi) as [-> _]. apply lookup_insert_eq.
Defined.

(** Finding: at the start an interface is renamed without looking whether its name
    is taken.  With the names of the two cards exchanged the monitor panics. *)
Theorem exchanged_names_panic :
  (monitor_interfaces true
     (system (<[1 := (mkLink (lit "lan") true, mac_octets wan_mac)]>
                {[2 := (mkLink (lit "wan") true, mac_octets lan_mac)]})) [wan; lan] []).1 = Panicked.
Proof. vm_compute. reflexivity. Qed.

(** Finding: the name in the message is compared with every interface, also after
    the link was renamed.  A card with the WAN's address and the LAN's name
    becomes the WAN, and is then moved out of the LAN's way: the WAN is active
    on a link with another name. *)
Theorem activated_link_renamed_away :
  let handler := each_interface (λ i, handle_new_link true i 5 (lit "lan") wan_mac) [wan; lan] in
  let k := plugged 5 (lit "lan") wan_mac in
  option_map (map mi_active_index) (ok (act_result handler k)) = Some [Some 5; None] ∧
  nl_view (act_state handler k) !! 5 = Some (mkLink (lit "lan_old_5") true).
Proof. vm_compute. done. Qed.
End InterfaceExample.
