(* ===== verification/Lan.v ===== *)
(** * LAN manager

    [src/src/services/lan/manager.rs]: detection of a collision between the
    WAN lease and the LAN subnet, the move of the LAN to its backup subnet,
    and the translation of reservations and port forwards that goes with it.
    The interface is configured with the requests of [Interface] and the
    firewall with [configure_firewall] of [Firewall], any of which may fail. *)

From Stdlib Require Import ZArith Lia.
From stdpp Require Import base gmap list strings.
From S2P Require Import Prelude NetAddr Hostname Config Firewall Interface.

#[local] Open Scope Z_scope.

(** What the manager needs to know of a netlink message. *)
Inductive RouteNetlinkMessage := NewLink | NewAddress | DelAddress | OtherRouteMessage.
Inductive NetlinkPayload :=
| InnerMessage (m : RouteNetlinkMessage)
| OtherPayload.

Definition is_address_or_link_event (payload : NetlinkPayload) : bool :=
  match payload with
  | InnerMessage NewLink | InnerMessage NewAddress | InnerMessage DelAddress => true
  | _ => false
  end.

Definition is_valid_subnet_prefix (prefix : Z) : bool := bool_decide (8 ≤ prefix ≤ 30).

Section subnet.
Context {Net : Type} `{!Ipv4NetOps Net}.

Definition is_subnet_overlap (net1 net2 : Net) : bool :=
  net_contains net1 (net_network net2) || net_contains net2 (net_network net1).

Definition translate_ip_to_subnet (ip : Ipv4Addr) (from_net to_net : Net) :
    option Ipv4Addr :=
  if negb (net_contains from_net ip) then None
  else
    offset ← u32_checked_sub ip (net_network from_net);
    mapped_ip ← u32_checked_add (net_network to_net) offset;
    if net_contains to_net mapped_ip && bool_decide (mapped_ip ≠ net_addr to_net)
       && bool_decide (mapped_ip ≠ net_broadcast to_net)
    then Some mapped_ip else None.

Definition remap_lease (primary_net target_net : Net) (l : StaticLease) :
    option StaticLease :=
  mapped_ip ← translate_ip_to_subnet (sl_ip l) primary_net target_net;
  Some (mkStaticLease (sl_mac l) mapped_ip (sl_hostname l)).

Definition remap_static_leases_for_subnet (static_leases : list StaticLease)
    (primary_net target_net : Net) : list StaticLease :=
  if bool_decide (primary_net = target_net) then static_leases
  else omap (remap_lease primary_net target_net) static_leases.

Definition remap_rule (primary_net target_net : Net) (r : PortForwardRule) :
    option PortForwardRule :=
  mapped_ip ← translate_ip_to_subnet (internal_ip r) primary_net target_net;
  Some (mkPortForwardRule (protocol r) (external_port r) mapped_ip (internal_port r)
          (description r)).

Definition remap_port_forwards_for_subnet (port_forwards : list PortForwardRule)
    (primary_net target_net : Net) : list PortForwardRule :=
  if bool_decide (primary_net = target_net) then port_forwards
  else omap (remap_rule primary_net target_net) port_forwards.
End subnet.

(** ** The runner *)

(** The services the runner owns: what they were created with and whether
    they were started. *)
Record DhcpServerSvc := mkDhcpServerSvc {
  ds_lan_ip : str;
  ds_static_leases : list StaticLease;
  ds_running : bool;
}.
Record ObservabilitySvc := mkObservabilitySvc {
  os_lan_ip : str;
  os_running : bool;
}.

Record LanRunner := mkLanRunner {
  lr_lan_interface : str;
  lr_wan_interface : str;
  lr_initial_ip : str;
  lr_current_ip : str;
  lr_backup_ip : str;
  lr_wan_lease : WanLease;
  lr_has_heartbeat : bool;
  lr_has_local_hosts : bool;
  lr_static_leases : list StaticLease;
  lr_port_forwards : list PortForwardRule;
  lr_dhcp_server : DhcpServerSvc;
  lr_observability : ObservabilitySvc;
}.

Definition set_current_ip (ip : str) (s : LanRunner) : LanRunner :=
  mkLanRunner (lr_lan_interface s) (lr_wan_interface s) (lr_initial_ip s) ip (lr_backup_ip s)
    (lr_wan_lease s) (lr_has_heartbeat s) (lr_has_local_hosts s) (lr_static_leases s)
    (lr_port_forwards s) (lr_dhcp_server s) (lr_observability s).
Definition set_dhcp_server (d : DhcpServerSvc) (s : LanRunner) : LanRunner :=
  mkLanRunner (lr_lan_interface s) (lr_wan_interface s) (lr_initial_ip s) (lr_current_ip s) (lr_backup_ip s)
    (lr_wan_lease s) (lr_has_heartbeat s) (lr_has_local_hosts s) (lr_static_leases s)
    (lr_port_forwards s) d (lr_observability s).
Definition set_observability (o : ObservabilitySvc) (s : LanRunner) : LanRunner :=
  mkLanRunner (lr_lan_interface s) (lr_wan_interface s) (lr_initial_ip s) (lr_current_ip s) (lr_backup_ip s)
    (lr_wan_lease s) (lr_has_heartbeat s) (lr_has_local_hosts s) (lr_static_leases s)
    (lr_port_forwards s) (lr_dhcp_server s) o.
Definition set_wan_lease (w : WanLease) (s : LanRunner) : LanRunner :=
  mkLanRunner (lr_lan_interface s) (lr_wan_interface s) (lr_initial_ip s) (lr_current_ip s) (lr_backup_ip s)
    w (lr_has_heartbeat s) (lr_has_local_hosts s) (lr_static_leases s)
    (lr_port_forwards s) (lr_dhcp_server s) (lr_observability s).

Definition LanRunner_new (lan_interface wan_interface initial_ip backup_ip : str) (wan_lease : WanLease)
    (has_heartbeat has_local_hosts : bool) (static_leases : list StaticLease)
    (port_forwards : list PortForwardRule) : LanRunner :=
  mkLanRunner lan_interface wan_interface initial_ip initial_ip backup_ip wan_lease has_heartbeat
    has_local_hosts static_leases port_forwards
    (mkDhcpServerSvc initial_ip static_leases false)
    (mkObservabilitySvc initial_ip false).

(** What the runner does to the rest of the system, with the results of the
    calls that it only logs. *)
Inductive LanAction :=
| SendHeartbeat
| StopDhcpServer
| StopObservability
| FlushAddresses (index : Z) (result : Result NetError unit)
| ConfigureInterfaceIp (cidr : str) (result : Result NetError bool)
| RegisterHost (name : str) (ip : Ipv4Addr)
| ConfigureFirewall (rules : list PortForwardRule) (result : Result FwError unit)
| StartDhcpServer (cidr : str) (leases : list StaticLease)
| StartObservability (cidr : str).

Inductive LanEvent :=
| Shutdown
| HeartbeatTick
| WanLeaseChanged (w : WanLease)
| WanLeaseSenderDropped
| NetlinkMessage (p : NetlinkPayload).

Section runner.
Context {Net : Type} `{!Ipv4NetOps Net} `{!Netlink, !Rustables}.

(** How the system answers the calls of one step: what others did to the
    interfaces before each of the runner's requests, the kernel's answers to the
    batches of the firewall, and which services can be started. *)
Record LanEnv := mkLanEnv {
  le_before_lookup : Nl → Nl;
  le_before_flush : Nl → Nl;
  le_before_configure : Nl → Nl;
  le_nf : NfEnv;
  dhcp_start_ok : bool;
  observability_start_ok : bool;
  netlink_ok : bool;
}.

(** The runner, the interfaces and the firewall of the kernel; nothing else
    changes the firewall while the runner runs. *)
Record LanState := mkLanState { ln_runner : LanRunner; ln_nl : Nl; ln_table : option Table }.
Abbreviation LanM := (Act LanState LanAction) (only parsing).

Definition get_runner : LanM LanRunner := λ s, (ln_runner s, s, []).
Definition modify_runner (f : LanRunner → LanRunner) : LanM unit :=
  act_modify (λ s, mkLanState (f (ln_runner s)) (ln_nl s) (ln_table s)).
(** A request on the interfaces, after what others did to them. *)
Definition on_links {A} (others : Nl → Nl) (m : Interface.Net A) : LanM (Result NetError A) := λ s,
  let '(res, k, _) := m (others (ln_nl s)) in (res, mkLanState (ln_runner s) k (ln_table s), []).

Definition send_heartbeat : LanM unit :=
  let* s := get_runner in act_when (lr_has_heartbeat s) (act_emit SendHeartbeat).

(** [stop_services], when the two services have ended; an error is logged.  How
    long the status page takes is in [PageServer]. *)
Definition stop_services : LanM unit :=
  let* s := get_runner in
  act_emit StopDhcpServer ;;
  modify_runner (set_dhcp_server (mkDhcpServerSvc (ds_lan_ip (lr_dhcp_server s))
    (ds_static_leases (lr_dhcp_server s)) false)) ;;
  act_emit StopObservability ;;
  modify_runner (set_observability (mkObservabilitySvc (os_lan_ip (lr_observability s)) false)).

Definition configure_lan_ip (env : LanEnv) (ip : str) : LanM (Result NetError bool) :=
  let* s := get_runner in
  let* res := on_links (le_before_configure env)
                (configure_interface_ip (IpNetT := Net) (lr_lan_interface s) ip) in
  act_emit (ConfigureInterfaceIp ip res) ;; mret res.

Definition reconfigure_lan_interface_ip (env : LanEnv) (new_ip : str) : LanM unit :=
  let* s := get_runner in
  let* index := on_links (le_before_lookup env) (λ k, (Ok (get_interface_index (lr_lan_interface s) k), k, [])) in
  match index with
  | Ok (Some index) =>
      let* res := on_links (le_before_flush env) (flush_ipv4_addresses index) in
      act_emit (FlushAddresses index res)
  | _ => mret tt
  end ;;
  configure_lan_ip env new_ip ;; mret tt.

Definition notify_router_dns_host (new_ip : str) : LanM unit :=
  let* s := get_runner in
  if lr_has_local_hosts s then
    match net_parse (Net := Net) new_ip with
    | Some new_net => act_emit (RegisterHost ROUTER_HOSTNAME (net_addr new_net))
    | None => mret tt
    end
  else mret tt.

Definition notify_static_lease_dns_hosts (remapped_leases : list StaticLease) : LanM unit :=
  let* s := get_runner in
  if lr_has_local_hosts s then
    act_iter (λ lease,
      match sl_hostname lease with
      | Some name => act_emit (RegisterHost name (sl_ip lease))
      | None => mret tt
      end) remapped_leases
  else mret tt.

Definition compute_remapped_rules (new_ip : str) (s : LanRunner) :
    list StaticLease * list PortForwardRule :=
  match net_parse (Net := Net) (lr_initial_ip s) with
  | None => (lr_static_leases s, lr_port_forwards s)
  | Some primary_net =>
      match net_parse (Net := Net) new_ip with
      | None => (lr_static_leases s, lr_port_forwards s)
      | Some target_net =>
          (remap_static_leases_for_subnet (lr_static_leases s) primary_net target_net,
           remap_port_forwards_for_subnet (lr_port_forwards s) primary_net target_net)
      end
  end.

Definition update_firewall_for_subnet (env : LanEnv) (remapped_forwards : list PortForwardRule) :
    LanM unit := λ s,
  let '(res, table) := configure_firewall (le_nf env) (lr_wan_interface (ln_runner s))
    (lr_lan_interface (ln_runner s)) remapped_forwards (ln_table s) in
  (tt, mkLanState (ln_runner s) (ln_nl s) table, [ConfigureFirewall remapped_forwards res]).

Definition restart_dhcp_server_on_subnet (env : LanEnv) (remapped_leases : list StaticLease) :
    LanM unit :=
  let* s := get_runner in
  act_emit (StartDhcpServer (lr_current_ip s) remapped_leases) ;;
  modify_runner (set_dhcp_server
    (mkDhcpServerSvc (lr_current_ip s) remapped_leases (dhcp_start_ok env))).

Definition restart_observability_on_subnet (env : LanEnv) : LanM unit :=
  let* s := get_runner in
  act_emit (StartObservability (lr_current_ip s)) ;;
  modify_runner (set_observability
    (mkObservabilitySvc (lr_current_ip s) (observability_start_ok env))).

(** The results of the calls are logged, and the move goes on. *)
Definition shift_lan_subnet (env : LanEnv) (new_ip : str) : LanM unit :=
  stop_services ;;
  reconfigure_lan_interface_ip env new_ip ;;
  modify_runner (set_current_ip new_ip) ;;
  notify_router_dns_host new_ip ;;
  let* s := get_runner in
  let '(remapped_leases, remapped_forwards) := compute_remapped_rules new_ip s in
  notify_static_lease_dns_hosts remapped_leases ;;
  update_firewall_for_subnet env remapped_forwards ;;
  restart_dhcp_server_on_subnet env remapped_leases ;;
  restart_observability_on_subnet env.

(** The guards of [check_and_resolve], in order: the subnet to move to, when
    the code reaches the call of [shift_lan_subnet]. *)
Definition conflict_target (s : LanRunner) : option str :=
  wan_ip ← wl_ip (lr_wan_lease s);
  wan_mask ← wl_mask (lr_wan_lease s);
  wan_prefix ← ok (mask_to_prefix_len wan_mask);
  if negb (is_valid_subnet_prefix wan_prefix) then None else
  wan_net ← net_new (Net := Net) wan_ip wan_prefix;
  current_net ← net_parse (lr_current_ip s);
  if negb (is_subnet_overlap wan_net current_net) then None else
  if bool_decide (lr_current_ip s = lr_backup_ip s) then None else
  backup_net ← net_parse (lr_backup_ip s);
  if is_subnet_overlap wan_net backup_net then None else
  Some (lr_backup_ip s).

Definition check_and_resolve (env : LanEnv) : LanM unit :=
  let* s := get_runner in
  match conflict_target s with
  | Some new_ip => shift_lan_subnet env new_ip
  | None => mret tt
  end.

(** One turn of the loop of [run]; [false] is [break]. *)
Definition run_event (env : LanEnv) (e : LanEvent) : LanM bool :=
  send_heartbeat ;;
  match e with
  | Shutdown => mret false
  | HeartbeatTick => send_heartbeat ;; mret true
  | WanLeaseSenderDropped => mret false
  | WanLeaseChanged w =>
      modify_runner (set_wan_lease w) ;; send_heartbeat ;; check_and_resolve env ;; mret true
  | NetlinkMessage p =>
      act_when (is_address_or_link_event p) (check_and_resolve env) ;; mret true
  end.

(** [true] when the loop was left, [false] when it is still waiting. *)
Fixpoint run_loop (events : list (LanEnv * LanEvent)) : LanM bool :=
  match events with
  | [] => mret false
  | (env, e) :: events' =>
      let* continue := run_event env e in
      if (continue : bool) then run_loop events'
      else stop_services ;; mret true
  end.

(** Only an error of the first configuration of the interface ends the run; that
    the interface is not there is none. *)
Definition run (env : LanEnv) (events : list (LanEnv * LanEvent)) : LanM bool :=
  send_heartbeat ;;
  let* s := get_runner in
  let* res := configure_lan_ip env (lr_current_ip s) in
  match res with Err _ => mret true | Ok _ =>
  act_emit (StartDhcpServer (ds_lan_ip (lr_dhcp_server s))
              (ds_static_leases (lr_dhcp_server s))) ;;
  if negb (dhcp_start_ok env) then mret true else
  modify_runner (set_dhcp_server (mkDhcpServerSvc (ds_lan_ip (lr_dhcp_server s))
    (ds_static_leases (lr_dhcp_server s)) true)) ;;
  act_emit (StartObservability (os_lan_ip (lr_observability s))) ;;
  modify_runner (set_observability (mkObservabilitySvc (os_lan_ip (lr_observability s))
    (observability_start_ok env))) ;;
  if negb (netlink_ok env) then stop_services ;; mret true else
  check_and_resolve env ;;
  run_loop events
  end.
End runner.

(** ** Subnets that share addresses *)

Section lan_spec.
Context {Net : Type} `{!Ipv4NetOps Net, !Ipv4NetLaws Net}.
Context `{!Netlink, !Rustables}.
Implicit Types (lan backup wan : Net) (s : LanRunner) (env : LanEnv) (st : LanState).

Definition share_address (n1 n2 : Net) : Prop :=
  ∃ ip, net_contains n1 ip = true ∧ net_contains n2 ip = true.

Lemma is_subnet_overlap_iff (n1 n2 : Net) :
  is_subnet_overlap n1 n2 = true ↔ share_address n1 n2.
Proof. unfold is_subnet_overlap, share_address. by rewrite subnets_share_iff, orb_true_iff. Qed.

#[local] Instance share_address_dec (n1 n2 : Net) : Decision (share_address n1 n2).
Proof.
  refine (cast_if (decide (is_subnet_overlap n1 n2 = true))); by rewrite <-is_subnet_overlap_iff.
Defined.

Lemma share_address_self (n : Net) : share_address n n.
Proof. exists (net_network n). split; apply net_contains_network. Qed.

(** ** Address translation *)

Lemma translate_Some_iff ip (from to : Net) ip' :
  translate_ip_to_subnet ip from to = Some ip' ↔
  net_contains from ip = true ∧ ip' - net_network to = ip - net_network from ∧
  net_contains to ip' = true ∧ ip' ≠ net_addr to ∧ ip' ≠ net_broadcast to.
Proof.
  unfold translate_ip_to_subnet. destruct (net_contains from ip) eqn:Hc; simpl; [|naive_solver].
  pose proof (proj1 (net_contains_iff _ _) Hc) as [Hlo _].
  unfold u32_checked_sub, u32_checked_add.
  rewrite (decide_True (P := net_network from ≤ ip)) by lia. simpl. split.
  - case_decide; simpl; [|done]. destruct (_ && _) eqn:Hb; [|done]. intros [= <-].
    apply andb_true_iff in Hb as [[Hin Ha%bool_decide_eq_true]%andb_true_iff
                                   Hbc%bool_decide_eq_true].
    split_and!; done || lia.
  - intros (_ & Hoff & Hin & Ha & Hb).
    assert (net_network to + (ip - net_network from) = ip') as -> by lia.
    pose proof (net_contains_u32 to ip' Hin) as [_ Hu].
    rewrite decide_True by (unfold u32_max; lia). simpl.
    by rewrite Hin, !bool_decide_true by done.
Qed.

(** [translate_ip_to_subnet] keeps the host offset: it maps an address of
    the first subnet to the address of the second with the same offset, and
    is defined exactly when that one is inside the second subnet and is
    neither its gateway nor its broadcast address; translating back gives the
    original address unless that is the gateway or the broadcast address of
    the first subnet; and two addresses are never mapped to one. *)
Theorem translate_ip_to_subnet_spec ip (from to : Net) :
  (∀ ip', translate_ip_to_subnet ip from to = Some ip' ↔
     net_contains from ip = true ∧ ip' = net_network to + (ip - net_network from) ∧
     net_contains to ip' = true ∧ ip' ≠ net_addr to ∧ ip' ≠ net_broadcast to) ∧
  (∀ ip', translate_ip_to_subnet ip from to = Some ip' →
     translate_ip_to_subnet ip' to from =
     if decide (ip = net_addr from ∨ ip = net_broadcast from) then None else Some ip) ∧
  (∀ ip2 ip', translate_ip_to_subnet ip from to = Some ip' →
     translate_ip_to_subnet ip2 from to = Some ip' → ip2 = ip).
Proof.
  split_and!.
  - intros ip'. rewrite translate_Some_iff. split; intros (? & ? & ? & ? & ?);
      split_and!; done || lia.
  - intros ip' (Hc & Ho & Hc' & Ha & Hb)%translate_Some_iff. case_decide as Hd.
    + destruct (translate_ip_to_subnet ip' to from) as [x|] eqn:Hx; [|done].
      apply translate_Some_iff in Hx as (_ & Ho' & _ & Hxa & Hxb).
      assert (x = ip) by lia. naive_solver.
    + apply translate_Some_iff. split_and!; try done; lia || naive_solver.
  - intros ip2 ip' (_ & H1 & _)%translate_Some_iff (_ & H2 & _)%translate_Some_iff. lia.
Qed.

(** ** Reservations and rules of a validated configuration *)

Lemma target_ok_translate lan backup ip :
  target_ok lan backup ip →
  ∃ ip', translate_ip_to_subnet ip lan backup = Some ip' ∧
         ip' - net_network backup = ip - net_network lan ∧ target_ok backup lan ip'.
Proof.
  intros [H1 H2]. pose proof H1 as (? & ? & ? & ?). pose proof H2 as (? & ? & ? & ?).
  eexists. split; [|split].
  - apply translate_Some_iff. split_and!; [done | | done..]. lia.
  - lia.
  - split; [done |].
    by replace (net_network lan + (net_network backup + (ip - net_network lan)
                  - net_network backup)) with ip by lia.
Qed.

(** The same entry, translated. *)
Definition lease_moved lan backup (l l' : StaticLease) : Prop :=
  sl_mac l' = sl_mac l ∧ sl_hostname l' = sl_hostname l ∧
  sl_ip l' - net_network backup = sl_ip l - net_network lan.
Definition rule_moved lan backup (r r' : PortForwardRule) : Prop :=
  protocol r' = protocol r ∧ external_port r' = external_port r ∧
  internal_port r' = internal_port r ∧ description r' = description r ∧
  internal_ip r' - net_network backup = internal_ip r - net_network lan.

Lemma remap_leases_moved lan backup ls :
  Forall (lease_ok lan backup) ls →
  Forall2 (lease_moved lan backup) ls (omap (remap_lease lan backup) ls) ∧
  Forall (lease_ok backup lan) (omap (remap_lease lan backup) ls).
Proof.
  induction 1 as [|l ls (Hm & Ht & Hh) _ [IH1 IH2]]; [by split; constructor |].
  destruct (target_ok_translate _ _ _ Ht) as (ip' & Htr & Ho & Ht').
  assert (remap_lease lan backup l = Some (mkStaticLease (sl_mac l) ip' (sl_hostname l)))
    as Hr by (unfold remap_lease; by rewrite Htr).
  cbn [omap list_omap]. rewrite Hr.
  split; constructor; done.
Qed.

Lemma remap_rules_moved lan backup rs :
  Forall (rule_ok lan backup) rs →
  Forall2 (rule_moved lan backup) rs (omap (remap_rule lan backup) rs) ∧
  Forall (rule_ok backup lan) (omap (remap_rule lan backup) rs).
Proof.
  induction 1 as [|r rs (He & Hi & Ht & Hd) _ [IH1 IH2]]; [by split; constructor |].
  destruct (target_ok_translate _ _ _ Ht) as (ip' & Htr & Ho & Ht').
  assert (remap_rule lan backup r = Some (mkPortForwardRule (protocol r) (external_port r)
    ip' (internal_port r) (description r))) as Hr by (unfold remap_rule; by rewrite Htr).
  cbn [omap list_omap]. rewrite Hr.
  split; constructor; done.
Qed.

Lemma leases_moved_ok lan backup ls ls' :
  Forall2 (lease_moved lan backup) ls ls' → Forall (lease_ok backup lan) ls' →
  leases_ok lan backup ls → leases_ok backup lan ls'.
Proof.
  intros Hmv Hok (_ & Hm & Hi & Hh). split; [done |].
  assert (sl_mac <$> ls' = sl_mac <$> ls ∧ omap sl_hostname ls' = omap sl_hostname ls ∧
    sl_ip <$> ls' = (λ ip, ip - net_network lan + net_network backup) <$> (sl_ip <$> ls))
    as (-> & -> & ->).
  { clear -Hmv. induction Hmv as [|l l' ls ls' (H1 & H2 & H3) _ (IH1 & IH2 & IH3)]; [done |].
    rewrite !fmap_cons. cbn [omap list_omap]. rewrite H1, H2, IH1, IH2, IH3.
    split_and!; [done.. |]. f_equal. lia. }
  split_and!; [done | | done]. apply NoDup_fmap_2; [|done]. intros x y Hxy. lia.
Qed.

Lemma rules_moved_ok lan backup rs rs' :
  Forall2 (rule_moved lan backup) rs rs' → Forall (rule_ok backup lan) rs' →
  rules_ok lan backup rs → rules_ok backup lan rs'.
Proof.
  intros Hmv Hok (_ & Ht & Hu). split; [done |].
  assert (tcp_ports rs' = tcp_ports rs ∧ udp_ports rs' = udp_ports rs) as [-> ->]; [|done].
  clear -Hmv. unfold tcp_ports, udp_ports.
  induction Hmv as [|r r' rs rs' (Hp & He & _) _ [IH1 IH2]]; [done |].
  rewrite !filter_cons, Hp. split.
  - destruct (is_tcp _); [rewrite !decide_True by done | by rewrite !decide_False by done].
    by rewrite !fmap_cons, He, IH1.
  - destruct (is_udp _); [rewrite !decide_True by done | by rewrite !decide_False by done].
    by rewrite !fmap_cons, He, IH2.
Qed.

(** Moving a validated configuration to its backup subnet loses nothing:
    every reservation and every port forward is kept, in order, with the same
    MAC, name, ports and protocol and the same host offset, and what results
    satisfies on the backup subnet everything the parser established on the
    primary one (client addresses, no duplicate MAC, address, name or
    port). *)
Theorem remap_valid_config lan backup c :
  valid_config lan backup c →
  let ls := remap_static_leases_for_subnet (static_leases c) lan backup in
  let rs := remap_port_forwards_for_subnet (port_forwards c) lan backup in
  Forall2 (lease_moved lan backup) (static_leases c) ls ∧ leases_ok backup lan ls ∧
  Forall2 (rule_moved lan backup) (port_forwards c) rs ∧ rules_ok backup lan rs.
Proof.
  intros Hv. cbv zeta. unfold remap_static_leases_for_subnet, remap_port_forwards_for_subnet.
  assert (lan ≠ backup) as Hne.
  { intros <-. apply (vc_disjoint _ _ _ Hv (net_network lan)).
    split; apply net_contains_network. }
  rewrite !bool_decide_false by done.
  pose proof (vc_leases _ _ _ Hv) as Hl. pose proof (vc_forwards _ _ _ Hv) as Hr.
  destruct (remap_leases_moved lan backup (static_leases c)) as [? ?]; [apply Hl |].
  destruct (remap_rules_moved lan backup (port_forwards c)) as [? ?]; [apply Hr |].
  split_and!; eauto using leases_moved_ok, rules_moved_ok.
Qed.

(** ** The runner's actions *)

(** The configurations of the firewall and of the interface among a list of
    actions, with their results. *)
Definition firewall_updates (out : list LanAction) : list (list PortForwardRule * Result FwError unit) :=
  omap (λ a, match a with ConfigureFirewall rs res => Some (rs, res) | _ => None end) out.
Definition interface_updates (out : list LanAction) : list (str * Result NetError bool) :=
  omap (λ a, match a with ConfigureInterfaceIp ip res => Some (ip, res) | _ => None end) out.
(** Neither of them. *)
Definition quiet (out : list LanAction) : Prop := firewall_updates out = [] ∧ interface_updates out = [].

Lemma firewall_updates_app o1 o2 :
  firewall_updates (o1 ++ o2) = firewall_updates o1 ++ firewall_updates o2.
Proof. apply omap_app. Qed.
Lemma interface_updates_app o1 o2 :
  interface_updates (o1 ++ o2) = interface_updates o1 ++ interface_updates o2.
Proof. apply omap_app. Qed.
Lemma quiet_app o1 o2 : quiet o1 → quiet o2 → quiet (o1 ++ o2).
Proof. intros [H1 H2] [H3 H4]. unfold quiet. by rewrite firewall_updates_app, interface_updates_app, H1, H2, H3, H4. Qed.

Lemma notify_static_spec ls st :
  ∃ out, notify_static_lease_dns_hosts ls st = (tt, st, out) ∧ quiet out.
Proof.
  unfold notify_static_lease_dns_hosts, mbind, act_bind, get_runner.
  destruct (lr_has_local_hosts (ln_runner st)); [|by eexists].
  induction ls as [|l ls (out & E & Hout)]; [by eexists |].
  cbn [act_iter]. unfold mbind, act_bind.
  destruct (act_iter _ ls st) as [[[] s1] o1] eqn:Ei. injection E as -> <-.
  destruct (sl_hostname l); simpl; rewrite Ei; by eexists.
Qed.

Lemma notify_router_spec ip st :
  ∃ out, notify_router_dns_host (Net := Net) ip st = (tt, st, out) ∧ quiet out.
Proof.
  unfold notify_router_dns_host, mbind, act_bind, get_runner.
  destruct (lr_has_local_hosts (ln_runner st)); [|by eexists].
  destruct (net_parse ip); by eexists.
Qed.

Lemma configure_lan_ip_spec env ip st :
  ∃ res k, configure_lan_ip (Net := Net) env ip st
    = (res, mkLanState (ln_runner st) k (ln_table st), [ConfigureInterfaceIp ip res]).
Proof.
  unfold configure_lan_ip, mbind, act_bind, get_runner, on_links.
  destruct (configure_interface_ip _ _ _) as [[res k] o]. by exists res, k.
Qed.

Lemma reconfigure_spec env ip st :
  ∃ k out res, reconfigure_lan_interface_ip (Net := Net) env ip st
    = (tt, mkLanState (ln_runner st) k (ln_table st), out) ∧
    firewall_updates out = [] ∧ interface_updates out = [(ip, res)].
Proof.
  unfold reconfigure_lan_interface_ip, mbind, act_bind, get_runner, on_links, act_emit, mret, act_ret.
  destruct (get_interface_index _ _) as [index|].
  - cbn [ln_runner ln_nl ln_table]. destruct (flush_ipv4_addresses index _) as [[res1 k1] o1].
    destruct (configure_lan_ip_spec env ip (mkLanState (ln_runner st) k1 (ln_table st))) as (res & k & ->).
    by eexists _, _, res.
  - destruct (configure_lan_ip_spec env ip (mkLanState (ln_runner st) (le_before_lookup env (ln_nl st)) (ln_table st)))
      as (res & k & ->). by eexists _, _, res.
Qed.

(** The runner after a shift: every service is on the new subnet, with the
    translated reservations. *)
Definition shifted env (ip : str) s : LanRunner :=
  set_observability (mkObservabilitySvc ip (observability_start_ok env))
    (set_dhcp_server (mkDhcpServerSvc ip (compute_remapped_rules (Net := Net) ip s).1
                        (dhcp_start_ok env))
       (set_current_ip ip s)).

Lemma shift_lan_subnet_spec env ip st :
  let s := ln_runner st in
  let rules := (compute_remapped_rules (Net := Net) ip s).2 in
  let fw := configure_firewall (le_nf env) (lr_wan_interface s) (lr_lan_interface s) rules (ln_table st) in
  ∃ k out res, shift_lan_subnet (Net := Net) env ip st = (tt, mkLanState (shifted env ip s) k fw.2, out) ∧
    firewall_updates out = [(rules, fw.1)] ∧ interface_updates out = [(ip, res)].
Proof.
  intros s rules fw. unfold shift_lan_subnet.
  set (s0 := set_observability (mkObservabilitySvc (os_lan_ip (lr_observability s)) false)
    (set_dhcp_server (mkDhcpServerSvc (ds_lan_ip (lr_dhcp_server s))
      (ds_static_leases (lr_dhcp_server s)) false) s)).
  assert (stop_services st = (tt, mkLanState s0 (ln_nl st) (ln_table st), [StopDhcpServer; StopObservability]))
    as Estop by done.
  destruct (reconfigure_spec env ip (mkLanState s0 (ln_nl st) (ln_table st))) as (k & o0 & res & E0 & F0 & I0).
  cbn [ln_runner ln_table] in E0. set (st1 := mkLanState (set_current_ip ip s0) k (ln_table st)).
  destruct (notify_router_spec ip st1) as (o1 & E1 & [F1 I1]).
  assert (compute_remapped_rules (Net := Net) ip (set_current_ip ip s0) = compute_remapped_rules (Net := Net) ip s)
    as Hc by done.
  subst rules. unfold shifted. fold s. destruct (compute_remapped_rules ip s) as [ls rs].
  destruct (notify_static_spec ls st1) as (o2 & E2 & [F2 I2]).
  unfold update_firewall_for_subnet, restart_dhcp_server_on_subnet, restart_observability_on_subnet.
  unfold mbind, act_bind. rewrite Estop, E0. cbn [modify_runner act_modify ln_runner ln_nl ln_table].
  fold st1. rewrite E1. unfold get_runner, act_emit. cbn [ln_runner st1]. rewrite Hc, E2.
  cbn [ln_runner ln_table ln_nl st1]. subst fw. cbn [snd] in *.
  change (lr_wan_interface (set_current_ip ip s0)) with (lr_wan_interface s).
  change (lr_lan_interface (set_current_ip ip s0)) with (lr_lan_interface s).
  destruct (configure_firewall _ _ _ rs _) as [fr table].
  cbn -[app]. eexists _, _, res. split; [done |].
  by rewrite !firewall_updates_app, !interface_updates_app, F0, F1, F2, I0, I1, I2.
Qed.

(** ** Resolution of collisions *)

(** The WAN subnet that the runner compares with, when the lease has one. *)
Definition wan_subnet (w : WanLease) : option Net :=
  ip ← wl_ip w; mask ← wl_mask w; p ← ok (mask_to_prefix_len mask);
  if is_valid_subnet_prefix p then net_new ip p else None.

Lemma conflict_target_eq s :
  conflict_target (Net := Net) s =
  (wan ← wan_subnet (lr_wan_lease s);
   cur ← net_parse (lr_current_ip s);
   if decide (share_address wan cur ∧ lr_current_ip s ≠ lr_backup_ip s) then
     bk ← net_parse (lr_backup_ip s);
     if decide (share_address wan bk) then None else Some (lr_backup_ip s)
   else None).
Proof.
  unfold conflict_target, wan_subnet.
  destruct (wl_ip _); [|done]. simpl. destruct (wl_mask _); [|done]. simpl.
  destruct (ok _); [|done]. simpl. destruct (is_valid_subnet_prefix _); [|done]. simpl.
  destruct (net_new _ _) as [wan|]; [|done]. simpl.
  destruct (net_parse (lr_current_ip s)) as [cur|]; [|done]. simpl.
  destruct (is_subnet_overlap wan cur) eqn:Ho; simpl.
  - apply is_subnet_overlap_iff in Ho. case_bool_decide.
    + rewrite decide_False by naive_solver. done.
    + rewrite decide_True by naive_solver.
      destruct (net_parse (lr_backup_ip s)) as [bk|]; [|done]. simpl.
      destruct (is_subnet_overlap wan bk) eqn:Hb.
      * apply is_subnet_overlap_iff in Hb. by rewrite decide_True.
      * rewrite decide_False; [done |]. rewrite <-is_subnet_overlap_iff. congruence.
  - rewrite decide_False; [done |]. rewrite <-is_subnet_overlap_iff. intros [? _]; congruence.
Qed.

Lemma conflict_target_Some s ip :
  conflict_target (Net := Net) s = Some ip → ip = lr_backup_ip s.
Proof.
  rewrite conflict_target_eq. destruct (wan_subnet _); [|done]. simpl.
  destruct (net_parse (lr_current_ip s)); [|done]. simpl. case_decide; [|done].
  destruct (net_parse (lr_backup_ip s)); [|done]. simpl. by case_decide; intros [= <-].
Qed.

Lemma check_and_resolve_eq env st :
  check_and_resolve (Net := Net) env st =
  match conflict_target (Net := Net) (ln_runner st) with
  | Some ip => shift_lan_subnet (Net := Net) env ip st
  | None => (tt, st, [])
  end.
Proof.
  unfold check_and_resolve, mbind, act_bind, get_runner.
  destruct (conflict_target _); [|done]. by destruct (shift_lan_subnet env _ st) as [[[] ?] ?].
Qed.

(** The runner of configuration [c] is on one of its two subnets, and its
    services were created for that subnet. *)
Definition on_primary c s : Prop :=
  lr_current_ip s = lan_ip c ∧ ds_lan_ip (lr_dhcp_server s) = lan_ip c ∧
  ds_static_leases (lr_dhcp_server s) = static_leases c ∧
  os_lan_ip (lr_observability s) = lan_ip c.
Definition on_backup lan backup c s : Prop :=
  lr_current_ip s = backup_lan_ip c ∧ ds_lan_ip (lr_dhcp_server s) = backup_lan_ip c ∧
  ds_static_leases (lr_dhcp_server s) =
    remap_static_leases_for_subnet (static_leases c) lan backup ∧
  os_lan_ip (lr_observability s) = backup_lan_ip c.
Definition runner_of c s : Prop :=
  lr_initial_ip s = lan_ip c ∧ lr_backup_ip s = backup_lan_ip c ∧
  lr_static_leases s = static_leases c ∧ lr_port_forwards s = port_forwards c.

Section valid.
Context (lan backup : Net) (c : RouterConfig) (Hvalid : valid_config lan backup c).

Lemma config_ips_differ : lan_ip c ≠ backup_lan_ip c.
Proof.
  intros E. pose proof (vc_lan _ _ _ Hvalid) as H1. pose proof (vc_backup _ _ _ Hvalid) as H2.
  rewrite E in H1. rewrite H1 in H2. injection H2 as <-.
  apply (vc_disjoint _ _ _ Hvalid (net_network lan)). split; apply net_contains_network.
Qed.

Lemma shifted_on_backup env s :
  runner_of c s →
  compute_remapped_rules (Net := Net) (backup_lan_ip c) s =
    (remap_static_leases_for_subnet (static_leases c) lan backup,
     remap_port_forwards_for_subnet (port_forwards c) lan backup) ∧
  runner_of c (shifted env (backup_lan_ip c) s) ∧
  on_backup lan backup c (shifted env (backup_lan_ip c) s).
Proof.
  intros (Hi & Hb & Hs & Hp).
  assert (compute_remapped_rules (Net := Net) (backup_lan_ip c) s =
    (remap_static_leases_for_subnet (static_leases c) lan backup,
     remap_port_forwards_for_subnet (port_forwards c) lan backup)) as E.
  { unfold compute_remapped_rules.
    by rewrite Hi, (vc_lan _ _ _ Hvalid), (vc_backup _ _ _ Hvalid), Hs, Hp. }
  split_and!; try done. unfold shifted. rewrite E. split_and!; done.
Qed.

Lemma conflict_target_on_backup s :
  runner_of c s → on_backup lan backup c s → conflict_target (Net := Net) s = None.
Proof.
  intros (_ & Hb & _) (Hc & _). rewrite conflict_target_eq, Hb, Hc.
  destruct (wan_subnet _); [|done]. simpl. destruct (net_parse _); [|done]. simpl.
  by rewrite decide_False by naive_solver.
Qed.

(** The names of the interfaces, the firewall before the run, the result of the
    first configuration of the interface, and the answers to batches that may
    occur. *)
Context (wan_if lan_if : str) (table0 : option Table) (first : Result NetError bool) (answers : NfEnv → Prop).
Abbreviation moved_forwards := (remap_port_forwards_for_subnet (port_forwards c) lan backup).

Definition firewall_moved (table : option Table) (fw : list (list PortForwardRule * Result FwError unit)) : Prop :=
  ∃ nf res, answers nf ∧ fw = [(moved_forwards, res)] ∧
    configure_firewall nf wan_if lan_if moved_forwards table0 = (res, table).

(** Where the runner is, and what it has done to the firewall and the interface
    so far. *)
Record runner_inv (st : LanState) (fw : list (list PortForwardRule * Result FwError unit))
    (ifs : list (str * Result NetError bool)) : Prop := {
  ri_of : runner_of c (ln_runner st);
  ri_names : lr_wan_interface (ln_runner st) = wan_if ∧ lr_lan_interface (ln_runner st) = lan_if;
  ri_side :
    (on_primary c (ln_runner st) ∧ ifs = [(lan_ip c, first)] ∧ fw = [] ∧ ln_table st = table0) ∨
    (on_backup lan backup c (ln_runner st) ∧ (∃ res, ifs = [(lan_ip c, first); (backup_lan_ip c, res)]) ∧
     firewall_moved (ln_table st) fw);
}.

(** Code that keeps it. *)
Definition keeps {A} (m : Act LanState LanAction A) : Prop :=
  ∀ st fw ifs, runner_inv st fw ifs →
    act_wp m (λ _ st' out, runner_inv st' (fw ++ firewall_updates out) (ifs ++ interface_updates out)) st.

Lemma keeps_bind {A B} (m : Act LanState LanAction A) (f : A → Act LanState LanAction B) :
  keeps m → (∀ a, keeps (f a)) → keeps (m ≫= f).
Proof.
  intros Hm Hf st fw ifs Hi. apply act_wp_bind. eapply act_wp_mono; [exact (Hm _ _ _ Hi) |].
  intros a st1 o1 Hi1. eapply act_wp_mono; [exact (Hf _ _ _ _ Hi1) |]. intros b st2 o2 Hi2.
  by rewrite firewall_updates_app, interface_updates_app, !app_assoc.
Qed.
(** Code that leaves the addresses, the reservations and the firewall alone. *)
Lemma keeps_quiet {A} (m : Act LanState LanAction A) :
  (∀ st, act_wp m (λ _ st' out, quiet out ∧ ln_table st' = ln_table st ∧
     ∃ w ds os, ln_runner st' = set_wan_lease w (set_observability (mkObservabilitySvc (os_lan_ip (lr_observability (ln_runner st))) os)
       (set_dhcp_server (mkDhcpServerSvc (ds_lan_ip (lr_dhcp_server (ln_runner st)))
          (ds_static_leases (lr_dhcp_server (ln_runner st))) ds) (ln_runner st)))) st) → keeps m.
Proof.
  intros Hm st fw ifs [H1 H2 H3]. eapply act_wp_mono; [apply Hm |].
  intros a st' out ([Hf Hi] & Ht & w & ds & os & Hs). rewrite Hf, Hi, !app_nil_r.
  split; rewrite Hs, ?Ht; done.
Qed.

Ltac same_runner s := exists (lr_wan_lease s), (ds_running (lr_dhcp_server s)), (os_running (lr_observability s));
  by destruct s as [? ? ? ? ? ? ? ? ? ? [] []].
Lemma keeps_ret {A} (a : A) : keeps (mret a).
Proof. apply keeps_quiet. intros [s k t]. apply act_wp_ret. split_and!; [done | done |]. same_runner s. Qed.
Lemma keeps_heartbeat : keeps send_heartbeat.
Proof.
  apply keeps_quiet. intros [s k t]. apply act_wp_eq.
  unfold send_heartbeat, mbind, act_bind, get_runner, act_when. simpl.
  destruct (lr_has_heartbeat s); (split_and!; [done | done |]); simpl; same_runner s.
Qed.
Lemma keeps_wan_lease w : keeps (modify_runner (set_wan_lease w)).
Proof.
  apply keeps_quiet. intros [s k t]. apply act_wp_eq. split_and!; [done | done |].
  exists w, (ds_running (lr_dhcp_server s)), (os_running (lr_observability s)).
  by destruct s as [? ? ? ? ? ? ? ? ? ? [] []].
Qed.
Lemma keeps_stop : keeps stop_services.
Proof.
  apply keeps_quiet. intros [s k t]. apply act_wp_eq. split_and!; [done | done |].
  exists (lr_wan_lease s), false, false. by destruct s as [? ? ? ? ? ? ? ? ? ? [] []].
Qed.

Lemma keeps_check env : answers (le_nf env) → keeps (check_and_resolve (Net := Net) env).
Proof.
  intros Henv st fw ifs [Hr [Hw Hl] Hside]. apply act_wp_eq. rewrite check_and_resolve_eq.
  destruct (conflict_target (ln_runner st)) as [ip|] eqn:Ht; [|by rewrite !app_nil_r].
  destruct Hside as [(Hp & -> & -> & Htab) | (Hb & _)]; [|by rewrite conflict_target_on_backup in Ht].
  assert (ip = backup_lan_ip c) as ->.
  { destruct Hr as (_ & <- & _). by apply conflict_target_Some. }
  destruct (shifted_on_backup env (ln_runner st) Hr) as (E & Hr' & Hb).
  destruct (shift_lan_subnet_spec env (backup_lan_ip c) st) as (k & out & res & -> & F & I).
  rewrite E, Hw, Hl, Htab in *. cbn [snd] in *. split; [done | done |]. right. cbn [ln_runner ln_table].
  split; [done |]. rewrite F, I. split; [by exists res |]. exists (le_nf env). eexists. split; [done |].
  split; [done |]. by destruct (configure_firewall _ _ _ _ _).
Qed.

Lemma keeps_event env e : answers (le_nf env) → keeps (run_event (Net := Net) env e).
Proof.
  intros Henv. unfold run_event. apply keeps_bind; [apply keeps_heartbeat | intros _]. destruct e as [| |w| |p].
  - apply keeps_ret.
  - apply keeps_bind; [apply keeps_heartbeat | intros _; apply keeps_ret].
  - apply keeps_bind; [apply keeps_wan_lease | intros _]. apply keeps_bind; [apply keeps_heartbeat | intros _].
    apply keeps_bind; [by apply keeps_check | intros _; apply keeps_ret].
  - apply keeps_ret.
  - apply keeps_bind; [|intros _; apply keeps_ret]. unfold act_when.
    destruct (is_address_or_link_event p); [by apply keeps_check | apply keeps_ret].
Qed.

Lemma keeps_loop events :
  (∀ env e, (env, e) ∈ events → answers (le_nf env)) → keeps (run_loop (Net := Net) events).
Proof.
  induction events as [|[env e] events IH]; intros Ha; cbn [run_loop]; [apply keeps_ret |].
  apply keeps_bind; [eapply keeps_event, Ha, list_elem_of_here |]. intros [].
  - apply IH. intros env' e' Hin. eapply Ha. by apply list_elem_of_further.
  - apply keeps_bind; [apply keeps_stop | intros _; apply keeps_ret].
Qed.
End valid.

(** What a configuration of the firewall leaves in the kernel. *)
Lemma configure_firewall_outcome nf wan_if lan_if rules table0 res table :
  configure_firewall nf wan_if lan_if rules table0 = (res, table) →
  match res with
  | Ok _ => ∃ t, build_table wan_if lan_if rules = Ok t ∧ table = Some t
  | Err _ => table = table0 ∨ table = None
  end.
Proof.
  unfold configure_firewall, flush_existing_table. repeat case_match; intros; simplify_eq; eauto.
Qed.

(** C4: from a validated configuration the LAN manager keeps the LAN on the
    primary subnet or moves it once to the backup subnet, whatever the
    sequence of WAN leases and netlink messages, whatever others do to the
    interfaces, and whichever calls fail.  Either its record of the current
    address, its DHCP server (with the reservations of the configuration) and its
    status page are those of the primary subnet, the interface was only
    configured with the primary address at the start, and the firewall was not
    touched; or all three are those of the backup subnet, with the reservations
    translated, the interface was after the start configured exactly once, with
    the backup address, and the firewall was configured exactly once, with every
    port forward translated.  Results of calls are only logged, so that the
    interface and the firewall follow exactly if their calls succeed: the kernel
    has the table for the translated forwards if the call succeeded, and
    otherwise the table from before or none. *)
Theorem run_invariant lan backup c wan_if lan_if w hb lh env events k table :
  valid_config lan backup c →
  let init := LanRunner_new lan_if wan_if (lan_ip c) (backup_lan_ip c) w hb lh
                (static_leases c) (port_forwards c) in
  let '(_, final, out) := run (Net := Net) env events (mkLanState init k table) in
  ∃ first,
  (on_primary c (ln_runner final) ∧ interface_updates out = [(lan_ip c, first)] ∧
   firewall_updates out = [] ∧ ln_table final = table) ∨
  (on_backup lan backup c (ln_runner final) ∧
   (∃ res, interface_updates out = [(lan_ip c, first); (backup_lan_ip c, res)]) ∧
   let forwards := remap_port_forwards_for_subnet (port_forwards c) lan backup in
   ∃ res, firewall_updates out = [(forwards, res)] ∧
     match res with
     | Ok _ => ∃ t, build_table wan_if lan_if forwards = Ok t ∧ ln_table final = Some t
     | Err _ => ln_table final = table ∨ ln_table final = None
     end).
Proof.
  intros Hv. cbv zeta. set (st := mkLanState _ k table).
  set (answers := λ nf, nf = le_nf env ∨ ∃ env' e, (env', e) ∈ events ∧ nf = le_nf env').
  unfold run. set (rest := (check_and_resolve env ;; run_loop events)). unfold mbind, act_bind.
  destruct (send_heartbeat st) as [[[] st0] o0] eqn:E0.
  assert (st0 = st ∧ quiet o0) as [-> [F0 I0]].
  { unfold send_heartbeat, mbind, act_bind, get_runner in E0. simpl in E0.
    destruct hb; by injection E0 as <- <-. }
  cbn [get_runner]. destruct (configure_lan_ip_spec env (lr_current_ip (ln_runner st)) st) as (first & k1 & ->).
  destruct first as [found|err].
  2: { cbn -[app]. exists (Err err). left. by rewrite !firewall_updates_app, !interface_updates_app, F0, I0. }
  unfold stop_services, mbind, act_bind.
  destruct (dhcp_start_ok env); cbn -[rest app];
    [|exists (Ok found); left; by rewrite !firewall_updates_app, !interface_updates_app, F0, I0].
  destruct (netlink_ok env); cbn -[rest app];
    [|exists (Ok found); left; by rewrite !firewall_updates_app, !interface_updates_app, F0, I0].
  assert (keeps lan backup c wan_if lan_if table (Ok found) answers rest) as Hrest.
  { apply keeps_bind; [apply keeps_check; [done | by left] | intros _].
    apply keeps_loop; [done |]. intros env' e Hin. right. by exists env', e. }
  set (st1 := mkLanState (set_observability _ _) k1 table).
  assert (runner_inv lan backup c wan_if lan_if table (Ok found) answers st1 [] [(lan_ip c, Ok found)]) as Hinit
    by (split; [done | done | by left]).
  apply Hrest, act_wp_eq in Hinit. destruct (rest st1) as [[b st2] o2].
  exists (Ok found). rewrite !firewall_updates_app, !interface_updates_app, F0, I0.
  destruct Hinit as [_ _ [Hp | (Hb & Hi & nf & res & _ & Hf & Hc)]]; [by left | right].
  split_and!; [done | done |]. exists res. split; [done |]. by apply configure_firewall_outcome in Hc.
Qed.

(** [check_and_resolve] moves the LAN exactly when it has to and can: when
    the WAN lease names a subnet (contiguous mask, prefix 8 to 30) that shares
    an address with the current LAN subnet and none with the backup subnet,
    the LAN ends up on the backup subnet, which is then disjoint from the
    WAN; in every other case nothing at all is done. *)
Theorem check_and_resolve_spec lan backup c st env :
  let s := ln_runner st in
  valid_config lan backup c → runner_of c s →
  on_primary c s ∨ on_backup lan backup c s →
  let st' := act_state (check_and_resolve (Net := Net) env) st in
  let out := act_out (check_and_resolve (Net := Net) env) st in
  match wan_subnet (lr_wan_lease s) with
  | Some wan =>
      (on_primary c s → share_address wan lan → ¬ share_address wan backup →
       on_backup lan backup c (ln_runner st')) ∧
      (on_backup lan backup c s ∨ ¬ share_address wan lan ∨ share_address wan backup →
       st' = st ∧ out = [])
  | None => st' = st ∧ out = []
  end.
Proof.
  cbv zeta. intros Hv Hr Hon. unfold act_state, act_out.
  rewrite check_and_resolve_eq, conflict_target_eq. set (s := ln_runner st) in *.
  destruct Hr as (Hi & Hb & Hs & Hp).
  destruct (wan_subnet (lr_wan_lease s)) as [wan|]; [simpl | done]. split.
  - intros (Hc & _) Hsh Hns. rewrite Hc, Hb, (vc_lan _ _ _ Hv). simpl.
    pose proof (config_ips_differ _ _ _ Hv). rewrite decide_True by done.
    rewrite (vc_backup _ _ _ Hv). simpl. rewrite decide_False by done.
    destruct (shift_lan_subnet_spec env (backup_lan_ip c) st) as (k & out & res & -> & _).
    by apply shifted_on_backup.
  - intros Hcase. assert (lr_current_ip s = backup_lan_ip c ∨
      (lr_current_ip s = lan_ip c ∧ (¬ share_address wan lan ∨ share_address wan backup)))
      as [Hc | [Hc Hsh]].
    { destruct Hon as [[Hon _] | [Hon _]]; [|by left]. right. split; [done |].
      destruct Hcase as [[Hcb _] | ?]; [|done].
      by destruct (config_ips_differ _ _ _ Hv); rewrite <-Hon, Hcb. }
    + rewrite Hc, Hb, (vc_backup _ _ _ Hv). simpl. by rewrite decide_False by naive_solver.
    + rewrite Hc, Hb, (vc_lan _ _ _ Hv). simpl. case_decide as Hd; [|done].
      rewrite (vc_backup _ _ _ Hv). simpl. rewrite decide_True by naive_solver. done.
Qed.
End lan_spec.

(** The example configuration, moved when the WAN takes its subnet, while the
    kernel does not take the new rules. *)
Module LanExample.
Import Config.Example.
#[local] Existing Instance FirewallExample.bits.

(** Interfaces that are never there. *)
#[local] Instance no_links : Netlink := {|
  Nl := unit;
  nl_connect _ := None;
  nl_links _ := ([], None);
  nl_link_by_name _ _ := Ok None;
  nl_change _ _ k := (k, Some (-19));
  nl_addrs _ := ([], None);
  nl_addr_add _ _ _ k := (k, Some (-19));
  nl_addr_del _ k := (k, Some (-19));
|}.

Definition env : LanEnv := mkLanEnv id id id (mkNfEnv None (Some 12)) true true true.
Definition wan : WanLease :=
  mkWanLease (Some (ipv4 192 168 7 77)) (Some (ipv4 255 255 255 0)) None [].
Definition init (w : WanLease) : LanRunner :=
  LanRunner_new (lit "lan") (lit "wan") (lan_ip parsed) (backup_lan_ip parsed) w true true
    (static_leases parsed) (port_forwards parsed).

Lemma translate_ip_to_subnet_spec_witness :
  translate_ip_to_subnet (ipv4 192 168 7 20) lan_net backup_net = Some (ipv4 10 0 0 20) ∧
  translate_ip_to_subnet (ipv4 10 0 0 20) backup_net lan_net = Some (ipv4 192 168 7 20).
Proof.
  assert (translate_ip_to_subnet (ipv4 192 168 7 20) lan_net backup_net
          = Some (ipv4 10 0 0 20)) as H by (vm_compute; reflexivity).
  split; [exact H |].
  exact (proj1 (proj2 (translate_ip_to_subnet_spec (ipv4 192 168 7 20) lan_net backup_net))
           (ipv4 10 0 0 20) H).
Defined.

Lemma remap_valid_config_witness :
  leases_ok backup_net lan_net
    [mkStaticLease (mac6 2 0 0 0 0 3) (ipv4 10 0 0 20) (Some (lit "nas"))].
Proof.
  exact (proj1 (proj2 (remap_valid_config lan_net backup_net parsed parsed_valid))).
Defined.

Lemma run_invariant_witness :
  let '(_, final, out) := run (Net := IpNet) env [(env, WanLeaseChanged wan)]
    (mkLanState (init WanLease_default) tt FirewallExample.installed) in
  lr_current_ip (ln_runner final) = lit "10.0.0.1/24" ∧
  firewall_updates out = [([mkPortForwardRule Both 8080 (ipv4 10 0 0 20) 8080 None], Err (NetlinkError 12))] ∧
  (ln_table final = FirewallExample.installed ∨ ln_table final = None).
Proof.
  pose proof (run_invariant lan_net backup_net parsed (lit "wan") (lit "lan") WanLease_default true true env
    [(env, WanLeaseChanged wan)] tt FirewallExample.installed parsed_valid) as H. cbv zeta in H.
  fold (init WanLease_default) in H.
  destruct (run env _ _) as [[b final] out] eqn:E. destruct H as [first [(_ & _ & H & _) | (Hb & _ & res & Hf & Ht)]].
  - exfalso. vm_compute in E. injection E as _ _ <-. vm_compute in H. discriminate H.
  - assert (res = Err (NetlinkError 12)) as ->.
    { vm_compute in E. injection E as _ _ <-. vm_compute in Hf. injection Hf as <-. reflexivity. }
    split; [exact (proj1 Hb) | split; [exact Hf | exact Ht]].
Defined.

Lemma check_and_resolve_spec_witness :
  on_backup lan_net backup_net parsed
    (ln_runner (act_state (check_and_resolve (Net := IpNet) env) (mkLanState (init wan) tt None))).
Proof.
  pose proof (check_and_resolve_spec lan_net backup_net parsed (mkLanState (init wan) tt None) env parsed_valid
    ltac:(split_and!; reflexivity) ltac:(left; split_and!; reflexivity)) as H. cbv zeta in H.
  assert (∃ w, wan_subnet (Net := IpNet) (lr_wan_lease (init wan)) = Some w ∧
    is_subnet_overlap w lan_net = true ∧ is_subnet_overlap w backup_net = false)
    as (w & E & H1 & H2).
  { exists (mkIpNet (ipv4 192 168 7 77) 24 eq_refl). split_and!; vm_compute; reflexivity. }
  cbn [ln_runner] in H. rewrite E in H. apply H.
  - split_and!; reflexivity.
  - by apply is_subnet_overlap_iff.
  - rewrite <-is_subnet_overlap_iff. by rewrite H2.
Defined.
End LanExample.
