(* ===== verification/Sandbox.v ===== *)
(** * Worker processes

    How a worker process is started and confined: the arguments and descriptors
    it is given ([src/src/cli.rs], [src/src/services/supervisor.rs]), the choice
    of what to run ([src/src/modes/]), and the dropping of privileges
    ([src/src/services/utils.rs]).  A worker has several threads when it drops
    its privileges, and some system calls act on the calling thread only, so the
    state of a process is that of its threads.  The kernel with the [nix],
    [caps] and [seccompiler] crates, and the [clap] crate, are interfaces. *)

From Stdlib Require Import ZArith Lia.
From stdpp Require Import base gmap sets list strings.
From S2P Require Import Prelude NetAddr Text.

#[local] Open Scope Z_scope.

(** ** Processes *)

Inductive CapSet := Bounding | Inheritable | Effective | Permitted.
#[global] Instance CapSet_eq_dec : EqDecision CapSet.
Proof. solve_decision. Defined.

(** A thread: its user and group, its capability sets, and the system calls its
    filter allows, if it has one. *)
Record Thread := mkThread {
  th_uid : Z;
  th_gid : Z;
  th_caps : CapSet → gset Z;
  th_filter : option (gset str);
}.
(** A process: its root and working directories, as paths of the system, the
    thread that runs the code at hand, and its other threads. *)
Record ProcView := mkProcView {
  pv_root : str;
  pv_cwd : str;
  pv_calling : Thread;
  pv_others : list Thread;
}.

(** The system calls; a call that fails gives an error code. *)
Class Linux := {
  Proc : Type;
  sys_create_dir_all : str → Proc → Proc * option Z;
  sys_metadata : str → Proc → option Z;
  sys_set_mode : str → Z → Proc → Proc * option Z;
  sys_chroot : str → Proc → Proc * option Z;
  sys_chdir : str → Proc → Proc * option Z;
  sys_caps_clear : CapSet → Proc → Proc * option Z;
  sys_setgid : Z → Proc → Proc * option Z;
  sys_setuid : Z → Proc → Proc * option Z;
  (** a filter that lets the system calls of a set through and answers [EPERM]
      to the others, compiled and applied to the calling thread *)
  sys_apply_filter : gset str → Proc → Proc * option Z;
  (** [set_nonblocking] and registration of a descriptor *)
  sys_prepare_fd : Z → Proc → Proc * option Z;
  sys_interface_mac : str → Proc → option MacAddr;
}.

Definition clear_caps (c : CapSet) (t : Thread) : Thread :=
  mkThread (th_uid t) (th_gid t) (λ d, if decide (d = c) then ∅ else th_caps t d) (th_filter t).
Definition set_gid (gid : Z) (t : Thread) : Thread :=
  mkThread (th_uid t) gid (th_caps t) (th_filter t).
(** A thread that gives up the user 0 loses what it may do. *)
Definition set_uid (uid : Z) (t : Thread) : Thread :=
  let t' := mkThread uid (th_gid t) (th_caps t) (th_filter t) in
  if decide (th_uid t = 0 ∧ uid ≠ 0) then clear_caps Effective (clear_caps Permitted t') else t'.
Definition set_filter (allowed : gset str) (t : Thread) : Thread :=
  mkThread (th_uid t) (th_gid t) (th_caps t)
    (Some (match th_filter t with Some old => old ∩ allowed | None => allowed end)).
Definition map_threads (f : Thread → Thread) (v : ProcView) : ProcView :=
  mkProcView (pv_root v) (pv_cwd v) (f (pv_calling v)) (f <$> pv_others v).
Definition map_calling (f : Thread → Thread) (v : ProcView) : ProcView :=
  mkProcView (pv_root v) (pv_cwd v) (f (pv_calling v)) (pv_others v).

(** What the calls do when they succeed.  The library functions for [setgid] and
    [setuid] change every thread; capabilities and filters are those of the
    calling thread. *)
Class LinuxLaws `{Linux} := {
  view : Proc → ProcView;
  create_dir_all_law p k k' : sys_create_dir_all p k = (k', None) → view k' = view k;
  set_mode_law p mode k k' : sys_set_mode p mode k = (k', None) → view k' = view k;
  chroot_law p k k' : sys_chroot p k = (k', None) → pv_root (view k) = lit "/" →
    view k' = mkProcView p (pv_cwd (view k)) (pv_calling (view k)) (pv_others (view k));
  chdir_root_law k k' : sys_chdir (lit "/") k = (k', None) →
    view k' = mkProcView (pv_root (view k)) (pv_root (view k)) (pv_calling (view k)) (pv_others (view k));
  caps_clear_law c k k' : sys_caps_clear c k = (k', None) → view k' = map_calling (clear_caps c) (view k);
  setgid_law gid k k' : sys_setgid gid k = (k', None) → view k' = map_threads (set_gid gid) (view k);
  setuid_law uid k k' : sys_setuid uid k = (k', None) → view k' = map_threads (set_uid uid) (view k);
  apply_filter_law allowed k k' :
    sys_apply_filter allowed k = (k', None) → view k' = map_calling (set_filter allowed) (view k);
  prepare_fd_law fd k k' : sys_prepare_fd fd k = (k', None) → view k' = view k;
}.

(** ** Dropping privileges *)

Definition CHROOT_JAIL_PATH : str := lit "/run/empty".
Definition SNTP_UID : Z := 10001.
Definition SNTP_GID : Z := 10001.
Definition DHCP_CLIENT_UID : Z := 10002.
Definition DHCP_CLIENT_GID : Z := 10002.
Definition DHCP_SERVER_UID : Z := 10003.
Definition DHCP_SERVER_GID : Z := 10003.
Definition DNS_FORWARDER_UID : Z := 10004.
Definition DNS_FORWARDER_GID : Z := 10004.

Inductive Arch := X86_64 | Aarch64 | Arm.
#[global] Instance Arch_eq_dec : EqDecision Arch.
Proof. solve_decision. Defined.

Definition only (b : bool) (name : str) : list str := if b then [name] else [].
(** [ALLOWED_SYSCALLS], the system calls by their names. *)
Definition ALLOWED_SYSCALLS (arch : Arch) : list str :=
  let not_aarch64 := bool_decide (arch ≠ Aarch64) in
  let x86_64 := bool_decide (arch = X86_64) in
  [lit "read"; lit "write"; lit "close"; lit "fstat"; lit "lseek"; lit "pread64"; lit "pwrite64";
   lit "readv"; lit "writev"; lit "sendto"; lit "recvfrom"; lit "sendmsg"; lit "recvmsg";
   lit "shutdown"; lit "fcntl"; lit "getsockopt"; lit "setsockopt"]
  ++ only not_aarch64 (lit "accept")
  ++ [lit "accept4"; lit "getpeername"; lit "getsockname"]
  ++ only not_aarch64 (lit "epoll_create")
  ++ [lit "epoll_ctl"]
  ++ only not_aarch64 (lit "epoll_wait")
  ++ [lit "epoll_create1"; lit "epoll_pwait"; lit "eventfd2"; lit "futex"]
  ++ only x86_64 (lit "clone") ++ only x86_64 (lit "clone3")
  ++ [if bool_decide (arch = Arm) then lit "mmap2" else lit "mmap"]
  ++ [lit "mprotect"; lit "munmap"; lit "brk"; lit "sched_yield"; lit "madvise"; lit "gettid";
      lit "set_robust_list"; lit "prctl"]
  ++ only x86_64 (lit "arch_prctl")
  ++ [lit "clock_gettime"; lit "clock_getres"; lit "sched_getaffinity"; lit "nanosleep";
      lit "gettimeofday"; lit "clock_nanosleep"; lit "exit"; lit "exit_group"; lit "rt_sigaction";
      lit "rt_sigprocmask"; lit "rt_sigreturn"; lit "sigaltstack"; lit "rt_sigqueueinfo";
      lit "getpid"; lit "getuid"; lit "geteuid"; lit "getgid"; lit "getegid"; lit "getrandom";
      lit "ioctl"; lit "uname"]
  ++ only not_aarch64 (lit "pipe")
  ++ [lit "pipe2"].
#[global] Arguments ALLOWED_SYSCALLS : simpl never.

(** What a thread may call. *)
Definition may_call (t : Thread) (name : str) : bool :=
  match th_filter t with None => true | Some allowed => bool_decide (name ∈ allowed) end.

Inductive WorkerError := OsError (code : Z) | PermissionDenied (e : WorkerError) | OtherError.

Section sandbox.
Context `{Linux} {Out : Type}.

Definition Work (A : Type) : Type := Try Proc Out WorkerError A.

Definition os_result (e : option Z) : Result WorkerError unit :=
  match e with None => Ok tt | Some code => Err (OsError code) end.
(** A system call and [?]. *)
Definition call (f : Proc → Proc * option Z) : Work unit := λ k,
  let '(k', e) := f k in (os_result e, k', []).

Definition apply_seccomp (arch : Arch) : Work unit :=
  call (sys_apply_filter (list_to_set (ALLOWED_SYSCALLS arch))).

Definition drop_privileges (arch : Arch) (uid gid : Z) : Work unit :=
  let^ _ := call (sys_create_dir_all CHROOT_JAIL_PATH) in
  let^ _ := call (λ k, (k, sys_metadata CHROOT_JAIL_PATH k)) in
  let^ _ := call (sys_set_mode CHROOT_JAIL_PATH 365) in
  let^ _ := call (sys_chroot CHROOT_JAIL_PATH) in
  let^ _ := call (sys_chdir (lit "/")) in
  let^ _ := call (sys_caps_clear Bounding) in
  let^ _ := call (sys_setgid gid) in
  let^ _ := call (sys_setuid uid) in
  let^ _ := call (sys_caps_clear Inheritable) in
  let^ _ := call (sys_caps_clear Effective) in
  let^ _ := call (sys_caps_clear Permitted) in
  apply_seccomp arch.

Definition run_sandboxed_worker (arch : Arch) (uid gid : Z) (ipc_fd : Z) (worker_fn : Work unit) :
    Work unit :=
  let^ _ := call (sys_prepare_fd ipc_fd) in
  let^ _ := try_map_err PermissionDenied (drop_privileges arch uid gid) in
  worker_fn.
End sandbox.

(** ** What a worker is told *)

(** [WorkerService]; a descriptor is its number. *)
Inductive WorkerService :=
| SntpClientWorker (ipc_fd ntp_socket_fd : Z)
| DhcpClientWorker (ipc_fd : Z) (wan_interface : str)
| DhcpServerWorker (ipc_fd : Z) (wan_interface lan_ip : str)
| DnsForwarderWorker (ipc_fd dns_socket_fd upstream_socket_fd dns_tcp_listener_fd : Z).

Definition SNTP_CLIENT_SERVICE_NAME : str := lit "sntp-client".
Definition DHCP_CLIENT_SERVICE_NAME : str := lit "dhcp-client".
Definition DHCP_SERVER_SERVICE_NAME : str := lit "dhcp-server".
Definition DNS_FORWARDER_SERVICE_NAME : str := lit "dns-forwarder".
(** The name with which the parent of a service starts its worker. *)
Definition service_name (s : WorkerService) : str :=
  match s with
  | SntpClientWorker _ _ => SNTP_CLIENT_SERVICE_NAME
  | DhcpClientWorker _ _ => DHCP_CLIENT_SERVICE_NAME
  | DhcpServerWorker _ _ _ => DHCP_SERVER_SERVICE_NAME
  | DnsForwarderWorker _ _ _ _ => DNS_FORWARDER_SERVICE_NAME
  end.

Definition to_args (s : WorkerService) : list str :=
  match s with
  | SntpClientWorker ipc ntp => [int_display ipc; int_display ntp]
  | DhcpClientWorker ipc wan => [int_display ipc; wan]
  | DhcpServerWorker ipc wan lan_ip => [int_display ipc; wan; lan_ip]
  | DnsForwarderWorker ipc dns upstream tcp =>
      [int_display ipc; int_display dns; int_display upstream; int_display tcp]
  end.
Definition child_fds (s : WorkerService) : list Z :=
  match s with
  | SntpClientWorker ipc ntp => [ipc; ntp]
  | DhcpClientWorker ipc _ => [ipc]
  | DhcpServerWorker ipc _ _ => [ipc]
  | DnsForwarderWorker ipc dns upstream tcp => [ipc; dns; upstream; tcp]
  end.

(** [s.parse::<i32>()] *)
Definition parse_i32 (s : str) : option Z :=
  match strip_prefix (lit "-") s with
  | Some digits => n ← parse_digits digits; if decide (n ≤ 2 ^ 31) then Some (- n) else None
  | None => parse_uint 31 s
  end.
Definition parse_cli_fd : str → option Z := parse_i32.

(** The values of the positional arguments of a subcommand of [worker], as its
    declaration has them. *)
Definition worker_of_values (name : str) (values : list str) : option WorkerService :=
  if bool_decide (name = SNTP_CLIENT_SERVICE_NAME) then
    match values with
    | [a; b] => ipc ← parse_cli_fd a; ntp ← parse_cli_fd b; Some (SntpClientWorker ipc ntp)
    | _ => None
    end
  else if bool_decide (name = DHCP_CLIENT_SERVICE_NAME) then
    match values with
    | [a; wan] => ipc ← parse_cli_fd a; Some (DhcpClientWorker ipc wan)
    | _ => None
    end
  else if bool_decide (name = DHCP_SERVER_SERVICE_NAME) then
    match values with
    | [a; wan; lan_ip] => ipc ← parse_cli_fd a; Some (DhcpServerWorker ipc wan lan_ip)
    | _ => None
    end
  else if bool_decide (name = DNS_FORWARDER_SERVICE_NAME) then
    match values with
    | [a; b; c; d] =>
        ipc ← parse_cli_fd a; dns ← parse_cli_fd b; upstream ← parse_cli_fd c; tcp ← parse_cli_fd d;
        Some (DnsForwarderWorker ipc dns upstream tcp)
    | _ => None
    end
  else None.

(** [Cli], the subcommands [Worker] and [Modprobe] of [Commands] and of
    [TrimrouterSubcommands] taken together. *)
Inductive Commands :=
| InitCommand
| ModprobeCommand (module_name : str)
| WorkerCommand (service : WorkerService)
| NoCommand.

(** The parser of the [clap] crate: values that do not look like options go to
    the positional arguments in order. *)
Class Clap := try_parse_from : list str → option Commands.
Definition plain_value (s : str) : Prop := head s ≠ Some 45.
Class ClapLaws `{Clap} : Prop :=
  clap_worker name values : Forall plain_value values →
    try_parse_from (lit "trimrouter" :: lit "worker" :: name :: values) =
      WorkerCommand <$> worker_of_values name values.

(** [modes::run]: what the process does. *)
Inductive Mode := ExitFailure | RunAsInit | RunWorker (service : WorkerService) | RunModprobe (module_name : str).
Definition run_mode `{Clap} (args : list str) : Mode :=
  match try_parse_from args with
  | None => ExitFailure
  | Some InitCommand | Some NoCommand => RunAsInit
  | Some (WorkerCommand service) => RunWorker service
  | Some (ModprobeCommand module_name) => RunModprobe module_name
  end.

(** ** Starting the process *)

(** The descriptors of a process: those that are open, and whether they are
    closed when another program is run. *)
Abbreviation FdTable := (gmap Z bool).
Record Spawned := mkSpawned { sp_binary : str; sp_args : list str; sp_fds : gset Z }.

Definition ROUTER_BINARY_PATH : str := lit "/bin/trimrouter".
Definition SELF_EXE_PATH : str := lit "/proc/self/exe".

(** [pre_exec]: the flag of the descriptors is cleared in the child. *)
Definition keep_open (raw_fds : list Z) (fds : FdTable) : FdTable :=
  foldl (λ t fd, alter (λ _, false) fd t) fds raw_fds.
(** [spawn_process]: the standard output and error are pipes. *)
Definition spawn_process (binary_exists : bool) (service_name : str) (args : list str)
    (child_fds : list Z) (fds : FdTable) : Spawned :=
  let child := <[1 := false]> (<[2 := false]> (keep_open child_fds fds)) in
  mkSpawned (if binary_exists then ROUTER_BINARY_PATH else SELF_EXE_PATH)
    (lit "trimrouter" :: lit "worker" :: service_name :: args)
    (dom (filter (λ kv, kv.2 = false) child)).

(** ** Descriptors of the parent *)

(** The lowest number that is free. *)
Definition next_fd (fds : FdTable) : Z :=
  default 0 (head (filter (λ n, fds !! n = None) (seqZ 0 (Z.of_nat (size fds) + 1)))).
(** A socket; the libraries open them to be closed when a program is run. *)
Definition open_socket (opened : bool) (fds : FdTable) : option (Z * FdTable) :=
  if opened then Some (next_fd fds, <[next_fd fds := true]> fds) else None.
(** [create_ipc_channel]: the parent's end and the child's. *)
Definition create_ipc_channel (opened : bool) (fds : FdTable) : option (Z * Z * FdTable) :=
  '(s1, fds) ← open_socket opened fds; '(s2, fds) ← open_socket opened fds; Some (s1, s2, fds).
(** [setup_worker_sockets]: the raw socket, the parent's end and the child's. *)
Definition setup_worker_sockets (raw_ok ipc_ok : bool) (fds : FdTable) : option (Z * Z * Z * FdTable) :=
  '(raw_socket, fds) ← open_socket raw_ok fds;
  '(endpoint, child_fd, fds) ← create_ipc_channel ipc_ok fds;
  Some (raw_socket, endpoint, child_fd, fds).

(** The attempts to set a worker up: the worker, the descriptors that the parent
    keeps, and the table afterwards.  What was opened by an attempt that fails
    is closed again. *)
Definition setup_dhcp_client_attempt (raw_ok ipc_ok : bool) (wan_interface : str) (fds : FdTable) :
    option (WorkerService * list Z * FdTable) :=
  '(raw, parent_ipc, child_ipc, fds) ← setup_worker_sockets raw_ok ipc_ok fds;
  Some (DhcpClientWorker child_ipc wan_interface, [parent_ipc; raw], fds).
Definition setup_dhcp_server_attempt (raw_ok ipc_ok : bool) (lan_interface lan_ip : str) (fds : FdTable) :
    option (WorkerService * list Z * FdTable) :=
  '(raw, parent_ipc, child_ipc, fds) ← setup_worker_sockets raw_ok ipc_ok fds;
  Some (DhcpServerWorker child_ipc lan_interface lan_ip, [parent_ipc; raw], fds).
Definition setup_dns_forwarder_attempt (ipc_ok udp_ok tcp_ok upstream_ok : bool) (fds : FdTable) :
    option (WorkerService * list Z * FdTable) :=
  '(parent_ipc, child_ipc, fds) ← create_ipc_channel ipc_ok fds;
  '(dns_socket, fds) ← open_socket udp_ok fds;
  '(dns_tcp_listener, fds) ← open_socket tcp_ok fds;
  '(upstream_socket, fds) ← open_socket upstream_ok fds;
  Some (DnsForwarderWorker child_ipc dns_socket upstream_socket dns_tcp_listener, [parent_ipc], fds).
Definition setup_sntp_worker (ipc_ok udp_ok : bool) (fds : FdTable) : option (WorkerService * list Z * FdTable) :=
  '(parent_ipc, child_ipc, fds) ← create_ipc_channel ipc_ok fds;
  '(ntp_socket, fds) ← open_socket udp_ok fds;
  Some (SntpClientWorker child_ipc ntp_socket, [parent_ipc], fds).

Section workers.
Context `{Linux, Ipv4NetOps NetT} {Out : Type} (arch : Arch).
(** What the workers do once they are confined. *)
Context (body : WorkerService → Work (Out := Out) unit).

Definition run_sntp_client_worker (ipc_fd ntp_socket_fd : Z) : Work unit :=
  let^ _ := call (sys_prepare_fd ntp_socket_fd) in
  run_sandboxed_worker arch SNTP_UID SNTP_GID ipc_fd (body (SntpClientWorker ipc_fd ntp_socket_fd)).

Definition run_dhcp_client_worker (ipc_fd : Z) (wan_interface : str) : Work unit := λ k,
  match sys_interface_mac wan_interface k with
  | Some mac =>
      run_sandboxed_worker arch DHCP_CLIENT_UID DHCP_CLIENT_GID ipc_fd
        (body (DhcpClientWorker ipc_fd wan_interface)) k
  | None => (Err OtherError, k, [])
  end.

Definition run_dhcp_server_sandbox (ipc_fd : Z) (lan_interface lan_ip : str) : Work unit :=
  match net_parse (Net := NetT) lan_ip with
  | Some net =>
      run_sandboxed_worker arch DHCP_SERVER_UID DHCP_SERVER_GID ipc_fd
        (body (DhcpServerWorker ipc_fd lan_interface lan_ip))
  | None => try_err OtherError
  end.

Definition run_dns_forwarder_worker (ipc_fd dns_fd upstream_fd tcp_fd : Z) : Work unit :=
  let^ _ := call (sys_prepare_fd dns_fd) in
  let^ _ := call (sys_prepare_fd upstream_fd) in
  let^ _ := call (sys_prepare_fd tcp_fd) in
  run_sandboxed_worker arch DNS_FORWARDER_UID DNS_FORWARDER_GID ipc_fd
    (body (DnsForwarderWorker ipc_fd dns_fd upstream_fd tcp_fd)).

Definition dispatch_worker (service : WorkerService) : Work unit :=
  match service with
  | SntpClientWorker ipc_fd ntp_socket_fd => run_sntp_client_worker ipc_fd ntp_socket_fd
  | DhcpClientWorker ipc_fd wan_interface => run_dhcp_client_worker ipc_fd wan_interface
  | DhcpServerWorker ipc_fd wan_interface lan_ip => run_dhcp_server_sandbox ipc_fd wan_interface lan_ip
  | DnsForwarderWorker ipc_fd dns_fd upstream_fd tcp_fd =>
      run_dns_forwarder_worker ipc_fd dns_fd upstream_fd tcp_fd
  end.

(** [run_worker], with its exit code. *)
Definition run_worker (service : WorkerService) (k : Proc) : Z * list Out :=
  let '(r, _, out) := dispatch_worker service k in
  (match r with Ok _ => 0 | Err _ => 1 end, out).
End workers.

(** ** Confinement *)

Definition service_uid (s : WorkerService) : Z :=
  match s with
  | SntpClientWorker _ _ => SNTP_UID
  | DhcpClientWorker _ _ => DHCP_CLIENT_UID
  | DhcpServerWorker _ _ _ => DHCP_SERVER_UID
  | DnsForwarderWorker _ _ _ _ => DNS_FORWARDER_UID
  end.
Definition service_gid (s : WorkerService) : Z :=
  match s with
  | SntpClientWorker _ _ => SNTP_GID
  | DhcpClientWorker _ _ => DHCP_CLIENT_GID
  | DhcpServerWorker _ _ _ => DHCP_SERVER_GID
  | DnsForwarderWorker _ _ _ _ => DNS_FORWARDER_GID
  end.

(** A process that was just started: it runs as root in the root directory and
    none of its threads has a filter. *)
Definition just_started (v : ProcView) : Prop :=
  pv_root v = lit "/" ∧ Forall (λ t, th_uid t = 0 ∧ th_filter t = None) (pv_calling v :: pv_others v).

(** A thread without rights of its own. *)
Definition powerless (uid gid : Z) (t : Thread) : Prop :=
  th_uid t = uid ∧ th_gid t = gid ∧ th_caps t Effective = ∅ ∧ th_caps t Permitted = ∅.
(** The confinement of a worker: its root and working directories are the empty
    one, no thread has rights of its own, and the calling thread has no
    capability in any set and may make the listed system calls only.  The other
    threads, those of the runtime, have no filter. *)
Definition confined (arch : Arch) (uid gid : Z) (v : ProcView) : Prop :=
  pv_root v = CHROOT_JAIL_PATH ∧ pv_cwd v = CHROOT_JAIL_PATH ∧
  Forall (powerless uid gid) (pv_calling v :: pv_others v) ∧
  (∀ c, th_caps (pv_calling v) c = ∅) ∧
  (∀ name, may_call (pv_calling v) name = bool_decide (name ∈ ALLOWED_SYSCALLS arch)) ∧
  Forall (λ t, ∀ name, may_call t name = true) (pv_others v).

Section confinement.
Context `{Linux, !LinuxLaws} {Out : Type}.

Lemma call_Ok (f : Proc → Proc * option Z) k u :
  act_result (call (Out := Out) f) k = Ok u → f k = (act_state (call (Out := Out) f) k, None).
Proof.
  unfold act_result, act_state, call. by destruct (f k) as [k' [e|]].
Qed.

(** A call that succeeded, and what follows it. *)
Lemma call_then {B} (f : Proc → Proc * option Z) (g : Work (Out := Out) B) k b :
  act_result (let^ _ := call f in g) k = Ok b →
  ∃ k', f k = (k', None) ∧ act_result g k' = Ok b ∧ act_state (let^ _ := call f in g) k = act_state g k'.
Proof.
  intros (u & Hc & Hr)%try_bind_Ok. rewrite (try_bind_state _ _ _ _ Hc).
  apply call_Ok in Hc. eauto.
Qed.

(** The threads of a worker when its privileges are dropped. *)
Lemma drop_privileges_view arch uid gid k u :
  act_result (drop_privileges (Out := Out) arch uid gid) k = Ok u → pv_root (view k) = lit "/" →
  view (act_state (drop_privileges (Out := Out) arch uid gid) k) =
    map_calling (set_filter (list_to_set (ALLOWED_SYSCALLS arch)) ∘ clear_caps Permitted ∘
                 clear_caps Effective ∘ clear_caps Inheritable)
      (map_threads (set_uid uid ∘ set_gid gid)
         (map_calling (clear_caps Bounding)
            (mkProcView CHROOT_JAIL_PATH CHROOT_JAIL_PATH (pv_calling (view k)) (pv_others (view k))))).
Proof.
  unfold drop_privileges, apply_seccomp. intros Hr Hroot.
  apply call_then in Hr as (k1 & E1%create_dir_all_law & Hr & ->).
  apply call_then in Hr as (k2 & E2 & Hr & ->). injection E2 as <- _.
  apply call_then in Hr as (k3 & E3%set_mode_law & Hr & ->). rewrite E1 in E3.
  apply call_then in Hr as (k4 & E4%chroot_law & Hr & ->); [|by rewrite E3].
  apply call_then in Hr as (k5 & E5%chdir_root_law & Hr & ->).
  apply call_then in Hr as (k6 & E6%caps_clear_law & Hr & ->).
  apply call_then in Hr as (k7 & E7%setgid_law & Hr & ->).
  apply call_then in Hr as (k8 & E8%setuid_law & Hr & ->).
  apply call_then in Hr as (k9 & E9%caps_clear_law & Hr & ->).
  apply call_then in Hr as (k10 & E10%caps_clear_law & Hr & ->).
  apply call_then in Hr as (k11 & E11%caps_clear_law & Hr & ->).
  apply call_Ok, apply_filter_law in Hr as ->.
  rewrite E11, E10, E9, E8, E7, E6, E5, E4, E3. unfold map_calling, map_threads. simpl.
  by rewrite <-list_fmap_compose.
Qed.

Lemma drop_privileges_silent arch uid gid k : act_out (drop_privileges (Out := Out) arch uid gid) k = [].
Proof.
  apply elem_of_nil_inv. intros o Ho.
  assert (∀ f, try_all (λ _ : Out, False) (call f)) as Hcall.
  { intros f s x. unfold act_out, call. destruct (f s). by intros ?%elem_of_nil. }
  assert (try_all (λ _ : Out, False) (drop_privileges arch uid gid)) as Hall
    by (unfold drop_privileges, apply_seccomp; auto 20 with try).
  by apply Hall in Ho.
Qed.

Lemma set_uid_dropped uid t :
  uid ≠ 0 → th_uid t = 0 →
  set_uid uid t = clear_caps Effective (clear_caps Permitted (mkThread uid (th_gid t) (th_caps t) (th_filter t))).
Proof. intros Hu Ht. unfold set_uid. by rewrite decide_True. Qed.
Lemma powerless_dropped uid gid t :
  uid ≠ 0 → th_uid t = 0 → powerless uid gid ((set_uid uid ∘ set_gid gid) t).
Proof. intros Hu Ht. unfold powerless. simpl. rewrite set_uid_dropped by done. done. Qed.

Lemma drop_privileges_confines arch uid gid k u :
  act_result (drop_privileges (Out := Out) arch uid gid) k = Ok u → uid ≠ 0 → just_started (view k) →
  confined arch uid gid (view (act_state (drop_privileges (Out := Out) arch uid gid) k)).
Proof.
  intros Hr Hu [Hroot [[Hc Hf] Ho]%Forall_cons]. rewrite (drop_privileges_view _ _ _ _ _ Hr Hroot).
  destruct (powerless_dropped uid gid (clear_caps Bounding (pv_calling (view k))) Hu Hc) as (Pu & Pg & Pe & Pp).
  split_and!; [done | done | constructor | | |].
  - unfold powerless in *. simpl in *. done.
  - simpl. apply Forall_fmap. eapply Forall_impl; [exact Ho |]. intros t [Ht _]. by apply powerless_dropped.
  - intros c. simpl. rewrite set_uid_dropped by done. simpl. by destruct c.
  - intros name. generalize (ALLOWED_SYSCALLS arch). intros allowed.
    unfold may_call. simpl. rewrite set_uid_dropped by done. simpl.
    rewrite Hf. apply bool_decide_ext. apply elem_of_list_to_set.
  - simpl. apply Forall_fmap. eapply Forall_impl; [exact Ho |]. intros t [_ Hft] name.
    unfold may_call. simpl. unfold set_uid. case_decide; simpl; by rewrite Hft.
Qed.

(** A worker's code runs in a confined process, or not at all. *)
Lemma run_sandboxed_worker_spec arch uid gid ipc_fd k :
  uid ≠ 0 → just_started (view k) →
  (∃ e k', ∀ worker_fn, run_sandboxed_worker (Out := Out) arch uid gid ipc_fd worker_fn k = (Err e, k', [])) ∨
  (∃ k', confined arch uid gid (view k') ∧
     ∀ worker_fn, run_sandboxed_worker (Out := Out) arch uid gid ipc_fd worker_fn k = worker_fn k').
Proof.
  intros Hu Hs. unfold run_sandboxed_worker.
  destruct (sys_prepare_fd ipc_fd k) as [k1 [e|]] eqn:Ep.
  { left. exists (OsError e), k1. intros w. apply try_bind_Err. unfold call. by rewrite Ep. }
  assert (∀ w, run_sandboxed_worker (Out := Out) arch uid gid ipc_fd w k =
    try_bind (try_map_err PermissionDenied (drop_privileges arch uid gid)) (λ _, w) k1) as Hrun.
  { intros w. unfold run_sandboxed_worker, try_bind at 1, mbind, act_bind, call. rewrite Ep. simpl.
    by destruct (try_bind _ _ k1) as [[? ?] ?]. }
  apply prepare_fd_law in Ep. rewrite <-Ep in Hs.
  assert (act_out (drop_privileges (Out := Out) arch uid gid) k1 = []) as Ho by apply drop_privileges_silent.
  pose proof (drop_privileges_confines arch uid gid k1 tt) as Hconf.
  unfold run_sandboxed_worker in Hrun.
  destruct (drop_privileges (Out := Out) arch uid gid k1) as [[r k2] o] eqn:Ed.
  unfold act_out, act_result, act_state in *. rewrite Ed in *. simpl in *. subst o.
  destruct r as [[]|e].
  - right. exists k2. split; [by apply Hconf |]. intros w. rewrite Hrun.
    unfold try_bind, try_map_err, mbind, act_bind. rewrite Ed. simpl. by destruct (w k2) as [[? ?] ?].
  - left. exists (PermissionDenied e), k2. intros w. rewrite Hrun. apply try_bind_Err.
    unfold try_map_err, mbind, act_bind. rewrite Ed. done.
Qed.
End confinement.

(** ** From the parent to the confined worker *)

(** What the arguments of a worker hold: descriptors, and names that do not look
    like options. *)
Definition plain_names (s : WorkerService) : Prop :=
  match s with
  | DhcpClientWorker _ wan => plain_value wan
  | DhcpServerWorker _ wan lan_ip => plain_value wan ∧ plain_value lan_ip
  | _ => True
  end.
Definition plain_service (s : WorkerService) : Prop :=
  Forall (λ fd, 2 < fd < 2 ^ 31) (child_fds s) ∧ plain_names s.

Lemma int_display_plain n : 0 ≤ n → plain_value (int_display n).
Proof.
  intros (c & s & -> & Hc)%int_display_head. unfold plain_value. simpl. intros [= ->]. lia.
Qed.
(** A descriptor is read back as it was written. *)
Lemma parse_cli_fd_display n : 2 < n < 2 ^ 31 → parse_cli_fd (int_display n) = Some n.
Proof.
  intros Hn. unfold parse_cli_fd, parse_i32.
  assert (strip_prefix (lit "-") (int_display n) = None) as ->.
  { destruct (int_display_head n) as (c & s & -> & Hc); [lia |].
    change (lit "-") with [45]. simpl. by rewrite decide_False by lia. }
  apply int_display_parse_uint. lia.
Qed.

Lemma to_args_plain s : plain_service s → Forall plain_value (to_args s).
Proof.
  intros [Hf Hp]. destruct s; simpl in *; rewrite ?Forall_cons in *; rewrite ?Forall_nil in *;
    intuition (auto using int_display_plain with lia).
Qed.
Lemma to_args_values s : plain_service s → worker_of_values (service_name s) (to_args s) = Some s.
Proof.
  intros [Hf _].
  destruct s; simpl in *; rewrite ?Forall_cons in Hf; destruct_and?; unfold worker_of_values;
    rewrite ?parse_cli_fd_display by done; done.
Qed.

Lemma keep_open_lookup l (fds : FdTable) fd :
  keep_open l fds !! fd = if decide (fd ∈ l) then (λ _, false) <$> fds !! fd else fds !! fd.
Proof.
  revert fds. induction l as [|x l IH]; intros fds; simpl.
  - done.
  - rewrite IH. destruct (decide (fd = x)) as [->|Hx].
    + rewrite lookup_alter_eq, (decide_True (P := x ∈ x :: l)) by apply list_elem_of_here.
      destruct (decide (x ∈ l)); by destruct (fds !! x).
    + rewrite lookup_alter_ne by done.
      destruct (decide (fd ∈ l)); destruct (decide (fd ∈ x :: l)) as [Hin|Hin]; try done.
      * by destruct Hin; apply list_elem_of_further.
      * by apply elem_of_cons in Hin as [->|?].
Qed.

(** A child has the descriptors it is given and the standard ones. *)
Lemma spawn_process_fds b name args l (fds : FdTable) fd :
  (∀ fd, fds !! fd = Some false → fd = 0 ∨ fd = 1 ∨ fd = 2) → (∀ fd, fd ∈ l → is_Some (fds !! fd)) →
  fd ∈ sp_fds (spawn_process b name args l fds) ↔
    fd ∈ l ∨ fd = 1 ∨ fd = 2 ∨ fd = 0 ∧ fds !! 0 = Some false.
Proof.
  intros Hc Hl. unfold spawn_process. cbn [sp_fds]. rewrite elem_of_dom. unfold is_Some.
  setoid_rewrite map_lookup_filter_Some.
  destruct (decide (fd = 1)) as [->|H1f]; [rewrite lookup_insert_eq; naive_solver |].
  destruct (decide (fd = 2)) as [->|H2f].
  { rewrite lookup_insert_ne, lookup_insert_eq by done. naive_solver. }
  rewrite !lookup_insert_ne, keep_open_lookup by done.
  destruct (decide (fd ∈ l)) as [Hin|Hin].
  - split; [by left |]. intros _. exists false. destruct (Hl fd Hin) as [x ->]. done.
  - split.
    + intros (x & Hx & Ef). simpl in Ef. subst x. destruct (Hc fd Hx) as [->|?]; [auto | tauto].
    + intros [?|[?|[?|[-> Hx]]]]; [done.. |]. eauto.
Qed.

(** The attempts of the four services. *)
Inductive sets_up (fds : FdTable) : WorkerService → list Z → FdTable → Prop :=
| SetsUpClient raw_ok ipc_ok wan s kept fds' :
    setup_dhcp_client_attempt raw_ok ipc_ok wan fds = Some (s, kept, fds') → sets_up fds s kept fds'
| SetsUpServer raw_ok ipc_ok lan lan_ip s kept fds' :
    setup_dhcp_server_attempt raw_ok ipc_ok lan lan_ip fds = Some (s, kept, fds') → sets_up fds s kept fds'
| SetsUpDns ipc_ok udp_ok tcp_ok upstream_ok s kept fds' :
    setup_dns_forwarder_attempt ipc_ok udp_ok tcp_ok upstream_ok fds = Some (s, kept, fds') →
    sets_up fds s kept fds'
| SetsUpSntp ipc_ok udp_ok s kept fds' :
    setup_sntp_worker ipc_ok udp_ok fds = Some (s, kept, fds') → sets_up fds s kept fds'.

(** The table of process 1: the standard descriptors are there and are inherited,
    and no others are; there is room for [n] more. *)
Definition fds_ok (n : Z) (fds : FdTable) : Prop :=
  (∀ fd, fds !! fd = Some false ↔ 0 ≤ fd ≤ 2) ∧ Z.of_nat (size fds) + n < 2 ^ 31.

Lemma fds_ok_weaken m n fds : m ≤ n → fds_ok n fds → fds_ok m fds.
Proof. intros Hmn [Hstd Hs]. split; [done | lia]. Qed.

Lemma next_fd_spec n fds : 0 ≤ n → fds_ok n fds → fds !! next_fd fds = None ∧ 2 < next_fd fds < 2 ^ 31.
Proof.
  intros Hn0 [Hstd Hsize]. unfold next_fd.
  destruct (filter (λ n, fds !! n = None) (seqZ 0 (Z.of_nat (size fds) + 1))) as [|fd l] eqn:E.
  - exfalso. assert (list_to_set (seqZ 0 (Z.of_nat (size fds) + 1)) ⊆ dom fds) as Hsub.
    { intros x Hx%elem_of_list_to_set. apply elem_of_dom. destruct (fds !! x) eqn:Hl; [eauto |].
      assert (x ∈ filter (λ n, fds !! n = None) (seqZ 0 (Z.of_nat (size fds) + 1))) as Hin
        by by apply list_elem_of_filter.
      rewrite E in Hin. by apply elem_of_nil in Hin. }
    apply subseteq_size in Hsub. rewrite size_list_to_set, size_dom in Hsub by apply NoDup_seqZ.
    rewrite length_seqZ in Hsub. lia.
  - assert (fd ∈ filter (λ n, fds !! n = None) (seqZ 0 (Z.of_nat (size fds) + 1))) as Hin
      by (rewrite E; apply list_elem_of_here).
    apply list_elem_of_filter in Hin as [Hnone Hin]. apply elem_of_seqZ in Hin. simpl. split; [done |].
    assert (¬ 0 ≤ fd ≤ 2) by (intros ?%Hstd; congruence). lia.
Qed.

(** A descriptor that is opened is new, and the table stays as it should be. *)
Lemma open_socket_spec n opened fds fd fds' :
  0 ≤ n → fds_ok (n + 1) fds → open_socket opened fds = Some (fd, fds') →
  fds' = <[fd := true]> fds ∧ fds !! fd = None ∧ 2 < fd < 2 ^ 31 ∧ fds_ok n fds'.
Proof.
  intros Hn Hok. unfold open_socket. destruct opened; [|done]. intros [= <- <-].
  destruct (next_fd_spec (n + 1) fds ltac:(lia) Hok) as [Hnew Hrange]. destruct Hok as [Hstd Hsize].
  do 3 (split; [done |]). split.
  - intros fd. destruct (decide (fd = next_fd fds)) as [->|Hne].
    + rewrite lookup_insert_eq. split; [done | lia].
    + by rewrite lookup_insert_ne.
  - rewrite map_size_insert_None by done. lia.
Qed.

(** The descriptors [l] were opened one after the other. *)
Definition opened (fds : FdTable) (l : list Z) (fds' : FdTable) : Prop :=
  NoDup l ∧ Forall (λ fd, fds !! fd = None ∧ 2 < fd < 2 ^ 31) l ∧
  ∀ fd, fds' !! fd = if decide (fd ∈ l) then Some true else fds !! fd.
Lemma opened_nil fds : opened fds [] fds.
Proof. split_and!; [constructor.. |]. intros fd. by rewrite decide_False by apply not_elem_of_nil. Qed.
Lemma opened_step n ok fds l fds1 fd fds2 :
  0 ≤ n → opened fds l fds1 → fds_ok (n + 1) fds1 → open_socket ok fds1 = Some (fd, fds2) →
  opened fds (fd :: l) fds2 ∧ fds_ok n fds2.
Proof.
  intros Hn (Hnd & Hl & Hlook) Hok Ho.
  destruct (open_socket_spec n ok fds1 fd fds2 Hn Hok Ho) as (-> & Hnew & Hr & Hok2). split; [|done].
  rewrite Hlook in Hnew. destruct (decide (fd ∈ l)) as [|Hfd]; [done |].
  split_and!; [by constructor | by constructor |]. intros x. destruct (decide (x = fd)) as [->|Hx].
  - rewrite lookup_insert_eq, decide_True by apply list_elem_of_here. done.
  - rewrite lookup_insert_ne, Hlook by done.
    destruct (decide (x ∈ l)); destruct (decide (x ∈ fd :: l)); set_solver.
Qed.

Lemma create_ipc_channel_opened n ok fds l fds1 s1 s2 fds2 :
  0 ≤ n → opened fds l fds1 → fds_ok (n + 1 + 1) fds1 → create_ipc_channel ok fds1 = Some (s1, s2, fds2) →
  opened fds (s2 :: s1 :: l) fds2 ∧ fds_ok n fds2.
Proof.
  intros Hn Ho Hok E. unfold create_ipc_channel in E.
  apply bind_Some in E as ([a f1] & Ea & E). apply bind_Some in E as ([b f2] & Eb & [= <- <- <-]).
  destruct (opened_step (n + 1) _ _ _ _ _ _ ltac:(lia) Ho Hok Ea) as [Ho1 Hok1].
  by apply (opened_step n ok _ _ f1).
Qed.
Lemma setup_worker_sockets_opened n raw_ok ipc_ok fds raw s1 s2 fds2 :
  0 ≤ n → fds_ok (n + 1 + 1 + 1) fds → setup_worker_sockets raw_ok ipc_ok fds = Some (raw, s1, s2, fds2) →
  opened fds [s2; s1; raw] fds2 ∧ fds_ok n fds2.
Proof.
  intros Hn Hok E. unfold setup_worker_sockets in E. apply bind_Some in E as ([r f1] & Er & E).
  apply bind_Some in E as ([[a b] f2] & Ei & [= <- <- <- <-]).
  destruct (opened_step (n + 1 + 1) _ _ _ _ _ _ ltac:(lia) (opened_nil fds) Hok Er) as [Ho1 Hok1].
  by apply (create_ipc_channel_opened n ipc_ok _ _ f1).
Qed.

(** What an attempt that succeeded opened: the ends that the parent keeps, and
    the ones for the worker. *)
Lemma sets_up_opened fds s kept fds' :
  sets_up fds s kept fds' → fds_ok 5 fds →
  ∃ l, opened fds l fds' ∧ l ≡ₚ kept ++ child_fds s ∧ fds_ok 0 fds'.
Proof.
  intros Hs Hok.
  destruct Hs as [r i w s kept fds' E|r i w lip s kept fds' E|i u t up s kept fds' E|i u s kept fds' E].
  - apply bind_Some in E as ([[[raw s1] s2] f] & E & [= <- <- <-]).
    apply (setup_worker_sockets_opened 2) in E as [Ho Hf]; [|lia | done]. exists [s2; s1; raw].
    split_and!; [done | simpl; solve_Permutation | by eapply fds_ok_weaken, Hf].
  - apply bind_Some in E as ([[[raw s1] s2] f] & E & [= <- <- <-]).
    apply (setup_worker_sockets_opened 2) in E as [Ho Hf]; [|lia | done]. exists [s2; s1; raw].
    split_and!; [done | simpl; solve_Permutation | by eapply fds_ok_weaken, Hf].
  - apply bind_Some in E as ([[s1 s2] f1] & Ei & E). apply bind_Some in E as ([d f2] & Ed & E).
    apply bind_Some in E as ([tcp f3] & Et & E). apply bind_Some in E as ([ups f4] & Eu & [= <- <- <-]).
    apply (create_ipc_channel_opened 3 _ _ _ _ _ _ _ ltac:(lia) (opened_nil fds) Hok) in Ei as [Ho1 Hf1].
    destruct (opened_step 2 _ _ _ _ _ _ ltac:(lia) Ho1 Hf1 Ed) as [Ho2 Hf2].
    destruct (opened_step 1 _ _ _ _ _ _ ltac:(lia) Ho2 Hf2 Et) as [Ho3 Hf3].
    destruct (opened_step 0 _ _ _ _ _ _ ltac:(lia) Ho3 Hf3 Eu) as [Ho4 Hf4].
    exists [ups; tcp; d; s2; s1]. split_and!; [done | simpl; solve_Permutation | done].
  - apply bind_Some in E as ([[s1 s2] f1] & Ei & E). apply bind_Some in E as ([d f2] & Ed & [= <- <- <-]).
    apply (create_ipc_channel_opened 3 _ _ _ _ _ _ _ ltac:(lia) (opened_nil fds) Hok) in Ei as [Ho1 Hf1].
    destruct (opened_step 2 _ _ _ _ _ _ ltac:(lia) Ho1 Hf1 Ed) as [Ho2 Hf2].
    exists [d; s2; s1]. split_and!; [done | simpl; solve_Permutation | by eapply fds_ok_weaken, Hf2].
Qed.
Lemma sets_up_spec fds s kept fds' :
  sets_up fds s kept fds' → fds_ok 5 fds →
  fds_ok 0 fds' ∧ NoDup (kept ++ child_fds s) ∧ Forall (λ fd, 2 < fd < 2 ^ 31) (kept ++ child_fds s) ∧
  Forall (λ fd, fds !! fd = None ∧ fds' !! fd = Some true) (kept ++ child_fds s) ∧
  (∀ fd, fd ∉ kept ++ child_fds s → fds' !! fd = fds !! fd).
Proof.
  intros Hs Hok. destruct (sets_up_opened _ _ _ _ Hs Hok) as (l & (Hnd & Hl & Hlook) & Hperm & Hok').
  assert (∀ fd, fd ∈ kept ++ child_fds s ↔ fd ∈ l) as Hin by (intros fd; by rewrite Hperm).
  rewrite Forall_forall in Hl. split; [done |]. split; [by rewrite <-Hperm |].
  rewrite !Forall_forall. split_and!; intros fd Hfd; rewrite Hin in Hfd.
  - by apply Hl.
  - rewrite Hlook, decide_True by done. by split; [apply Hl |].
  - by rewrite Hlook, decide_False.
Qed.

(** System calls that give a process new sockets, files, programs or rights. *)
Definition DANGEROUS : list str :=
  [lit "socket"; lit "bind"; lit "connect"; lit "open"; lit "openat"; lit "execve"; lit "execveat";
   lit "fork"; lit "vfork"; lit "mount"; lit "reboot"; lit "ptrace"; lit "setuid"; lit "chroot"].
Lemma allowed_not_dangerous arch : Forall (λ name, name ∉ ALLOWED_SYSCALLS arch) DANGEROUS.
Proof. apply (bool_decide_unpack _). destruct arch; vm_compute; exact I. Qed.
Lemma clone_allowed arch name :
  name ∈ [lit "clone"; lit "clone3"] → name ∈ ALLOWED_SYSCALLS arch ↔ arch = X86_64.
Proof.
  intros Hn. split; [intros H | intros ->].
  - apply list_elem_of_In in Hn. destruct arch; [done | exfalso..];
      destruct Hn as [<-|[<-|[]]]; revert H; apply (bool_decide_unpack _); vm_compute; exact I.
  - apply list_elem_of_In in Hn. destruct Hn as [<-|[<-|[]]]; apply (bool_decide_unpack _); vm_compute; exact I.
Qed.

Section isolation.
Context `{Linux, !LinuxLaws, !Ipv4NetOps NetT} {Out : Type}.

Lemma service_uid_nonzero s : service_uid s ≠ 0.
Proof. by destruct s. Qed.

(** A step before the sandbox that leaves the process as it was. *)
Lemma prepare_then arch uid gid fd (w : Work (Out := Out) unit → Work unit) k :
  (∀ k, just_started (view k) →
     (∃ e k', ∀ b, w b k = (Err e, k', [])) ∨
     (∃ k', confined arch uid gid (view k') ∧ ∀ b, w b k = b k')) →
  just_started (view k) →
  (∃ e k', ∀ b, (let^ _ := call (sys_prepare_fd fd) in w b) k = (Err e, k', [])) ∨
  (∃ k', confined arch uid gid (view k') ∧ ∀ b, (let^ _ := call (sys_prepare_fd fd) in w b) k = b k').
Proof.
  intros Hw Hs. destruct (sys_prepare_fd fd k) as [k1 [e|]] eqn:Ep.
  { left. exists (OsError e), k1. intros b. apply try_bind_Err. unfold call. by rewrite Ep. }
  assert (∀ b, (let^ _ := call (sys_prepare_fd fd) in w b) k = w b k1) as Hrun.
  { intros b. unfold try_bind, mbind, act_bind, call. rewrite Ep. simpl. by destruct (w b k1) as [[? ?] ?]. }
  apply prepare_fd_law in Ep. rewrite <-Ep in Hs.
  destruct (Hw k1 Hs) as [(e & k' & Hb)|(k' & Hc & Hb)].
  - left. exists e, k'. intros b. by rewrite Hrun.
  - right. exists k'. split; [done |]. intros b. by rewrite Hrun.
Qed.

Lemma dispatch_worker_spec arch s k :
  just_started (view k) →
  (∃ e k', ∀ body, dispatch_worker (NetT := NetT) (Out := Out) arch body s k = (Err e, k', [])) ∨
  (∃ k', confined arch (service_uid s) (service_gid s) (view k') ∧
     ∀ body, dispatch_worker (NetT := NetT) (Out := Out) arch body s k = body s k').
Proof.
  intros Hs.
  pose proof (λ ipc k, run_sandboxed_worker_spec (Out := Out) arch (service_uid s) (service_gid s) ipc k
    (service_uid_nonzero s)) as Hrun.
  enough ((∃ e k', ∀ b, dispatch_worker (NetT := NetT) (Out := Out) arch (λ _, b) s k = (Err e, k', [])) ∨
    (∃ k', confined arch (service_uid s) (service_gid s) (view k') ∧
       ∀ b, dispatch_worker (NetT := NetT) (Out := Out) arch (λ _, b) s k = b k')) as Hd.
  { assert (∀ body, dispatch_worker (NetT := NetT) (Out := Out) arch body s k =
      dispatch_worker (NetT := NetT) arch (λ _, body s) s k) as Heq by (intros; by destruct s).
    setoid_rewrite Heq. destruct Hd as [(e & k' & Hb)|(k' & Hc & Hb)]; eauto 10. }
  destruct s as [ipc ntp|ipc wan|ipc wan lan_ip|ipc dns up tcp]; simpl in *.
  - unfold run_sntp_client_worker. apply prepare_then; auto.
  - unfold run_dhcp_client_worker. destruct (sys_interface_mac wan k); [by apply Hrun | eauto].
  - unfold run_dhcp_server_sandbox. destruct (net_parse lan_ip); [by apply Hrun |].
    left. by exists OtherError, k.
  - unfold run_dns_forwarder_worker.
    apply (prepare_then _ _ _ _ (λ b, let^ _ := call (sys_prepare_fd up) in
      let^ _ := call (sys_prepare_fd tcp) in run_sandboxed_worker arch _ _ ipc b)); [|done].
    intros k1 Hk1.
    apply (prepare_then _ _ _ _ (λ b, let^ _ := call (sys_prepare_fd tcp) in
      run_sandboxed_worker arch _ _ ipc b)); [|done].
    intros k2 Hk2. apply prepare_then; auto.
Qed.

(** C7: A worker is isolated.  Let process 1 have no descriptor that survives the
    start of a program but the standard ones, with room for five more, and let a
    parent set up a worker, none of whose names looks like an option.  The arguments
    with which it starts the worker make the program run that very worker, with
    the same descriptors and names; the child holds the sockets that were opened
    for it and the standard descriptors, and none that process 1 had or keeps;
    what process 1 keeps is again closed when a program is run, so that this holds
    for the next worker too.  In a process that was just started the worker's own
    code is either not run at all, the process ending with an error, or run with
    its root and working directories in the empty directory, under the user and
    group of the service, without an effective or permitted capability in any
    thread, and with the listed system calls only in the thread that dropped the
    privileges; the threads that the async runtime had started by then have no
    filter.  That user is not root and is the user of no other service.  None of
    the listed system calls opens a socket or a file, runs a program, mounts,
    restarts the machine or changes the user; but on x86-64 the list has [clone]
    and [clone3], on the other architectures it has neither. *)
Theorem worker_isolated `{!Clap, !ClapLaws} arch binary_exists s kept (fds fds' : FdTable) k :
  fds_ok 5 fds → sets_up fds s kept fds' → plain_names s → just_started (view k) →
  let child := spawn_process binary_exists (service_name s) (to_args s) (child_fds s) fds' in
  run_mode (sp_args child) = RunWorker s ∧
  (∀ fd, fd ∈ sp_fds child ↔ fd ∈ child_fds s ∨ 0 ≤ fd ≤ 2) ∧
  (∀ fd, fd ∈ child_fds s → fds !! fd = None ∧ fd ∉ kept) ∧
  (∀ fd, fds' !! fd = Some false ↔ 0 ≤ fd ≤ 2) ∧
  ((∃ e k', ∀ body, dispatch_worker (NetT := NetT) (Out := Out) arch body s k = (Err e, k', [])) ∨
   (∃ k', confined arch (service_uid s) (service_gid s) (view k') ∧
      ∀ body, dispatch_worker (NetT := NetT) (Out := Out) arch body s k = body s k')) ∧
  service_uid s ≠ 0 ∧
  (∀ s', service_uid s' = service_uid s → service_name s' = service_name s) ∧
  Forall (λ name, name ∉ ALLOWED_SYSCALLS arch) DANGEROUS ∧
  (∀ name, name ∈ [lit "clone"; lit "clone3"] → name ∈ ALLOWED_SYSCALLS arch ↔ arch = X86_64).
Proof.
  intros Hok Hs Hp Hstart child.
  destruct (sets_up_spec _ _ _ _ Hs Hok) as ([Hstd Hsize] & Hnd & Hrange & Hnew & _).
  apply Forall_app in Hrange as [_ Hrange]. rewrite Forall_forall in Hnew.
  assert (plain_service s) as Hps by done. split_and!.
  - unfold run_mode, child, spawn_process. simpl.
    rewrite clap_worker by (by apply to_args_plain). by rewrite to_args_values.
  - intros fd. unfold child. rewrite spawn_process_fds.
    + rewrite (Hstd 0). split; [intros [?|[?|[?|?]]]; [by left | right; lia..] |].
      intros [?|Hfd]; [by left |]. assert (fd = 0 ∨ fd = 1 ∨ fd = 2) as [->|[->| ->]] by lia; auto with lia.
    + intros fd' Hfd'%Hstd. lia.
    + intros fd' Hfd'. destruct (Hnew fd') as [_ ->]; [set_solver | done].
  - intros fd Hfd. split; [by apply Hnew; set_solver |]. apply list.NoDup_app in Hnd as (_ & Hdis & _).
    intros Hk. by apply (Hdis fd).
  - done.
  - by apply dispatch_worker_spec.
  - apply service_uid_nonzero.
  - by destruct s, s'.
  - apply allowed_not_dangerous.
  - apply clone_allowed.
Qed.

End isolation.

(** ** A concrete kernel and parser *)
Module SandboxExample.
  (** Every call succeeds and does what its law says. *)
#[local] Instance example_linux : Linux := {|
    Proc := ProcView;
    sys_create_dir_all _ k := (k, None);
    sys_metadata _ _ := None;
    sys_set_mode _ _ k := (k, None);
    sys_chroot p k := (mkProcView p (pv_cwd k) (pv_calling k) (pv_others k), None);
    sys_chdir _ k := (mkProcView (pv_root k) (pv_root k) (pv_calling k) (pv_others k), None);
    sys_caps_clear c k := (map_calling (clear_caps c) k, None);
    sys_setgid gid k := (map_threads (set_gid gid) k, None);
    sys_setuid uid k := (map_threads (set_uid uid) k, None);
    sys_apply_filter allowed k := (map_calling (set_filter allowed) k, None);
    sys_prepare_fd _ k := (k, None);
    sys_interface_mac _ _ := Some (mac6 2 0 0 0 0 1);
  |}.
#[local] Instance example_linux_laws : LinuxLaws.
Proof. exists (λ v, v); simpl; intros; simplify_eq; done. Defined.

#[local] Instance example_clap : Clap := λ args,
    match args with
    | _ :: command :: name :: values =>
        if bool_decide (command = lit "worker") then WorkerCommand <$> worker_of_values name values else None
    | _ => Some NoCommand
    end.
#[local] Instance example_clap_laws : ClapLaws.
Proof. intros name values _. done. Defined.

  (** A process with a thread of the runtime beside its first one. *)
Definition root_thread : Thread := mkThread 0 0 (λ _, {[0; 1; 6; 7; 18; 21]}) None.
Definition started : ProcView := mkProcView (lit "/") (lit "/") root_thread [root_thread].
  (** The parent's descriptors: the standard ones and those of other services. *)
Definition parent_fds : FdTable :=
    list_to_map [(0, false); (1, false); (2, false); (3, true); (5, true); (9, true)].
Definition dns_worker : WorkerService := DnsForwarderWorker 6 7 10 8.

Lemma worker_isolated_witness :
    run_mode (sp_args (spawn_process true (service_name dns_worker) (to_args dns_worker) (child_fds dns_worker)
      (default ∅ (snd <$> setup_dns_forwarder_attempt true true true true parent_fds)))) = RunWorker dns_worker.
Proof.
    assert (setup_dns_forwarder_attempt true true true true parent_fds =
      Some (dns_worker, [4], list_to_map [(0, false); (1, false); (2, false); (3, true); (4, true); (5, true);
        (6, true); (7, true); (8, true); (9, true); (10, true)])) as Hsetup by (vm_compute; reflexivity).
    rewrite Hsetup.
    refine (proj1 (worker_isolated (Out := unit) (NetT := IpNet) X86_64 true dns_worker [4] parent_fds _ started
      _ (SetsUpDns _ _ _ _ _ _ _ _ Hsetup) _ _)).
    - split; [|vm_compute; reflexivity]. intros fd. split.
      + intros Hfd. apply elem_of_list_to_map_2 in Hfd. set_unfold. naive_solver lia.
      + intros Hfd. assert (fd = 0 ∨ fd = 1 ∨ fd = 2) as [->|[->| ->]] by lia; reflexivity.
    - done.
    - split; [done |]. repeat constructor.
Defined.

(** In the worker that dropped its privileges, a task on another thread of the
    runtime may run a program or open a connection; the first thread may not. *)
Example runtime_thread_may_connect :
    let v := act_state (drop_privileges (Out := unit) X86_64 DNS_FORWARDER_UID DNS_FORWARDER_GID) started in
    map (λ t, (may_call t (lit "connect"), may_call t (lit "execve"))) (pv_calling v :: pv_others v) =
      [(false, false); (true, true)].
Proof. vm_compute. reflexivity. Qed.
End SandboxExample.
