(* ===== verification/Sockets.v ===== *)
(** * Sockets

    The transport of messages between a parent and its worker
    ([src/src/services/ipc.rs]), and the raw packet sockets of the DHCP parents
    ([src/src/services/utils.rs]).  The encoding of messages is an interface to
    the [postcard] crate; the sockets are those of the kernel. *)

From Stdlib Require Import ZArith Lia.
From stdpp Require Import base gmap sets list strings.
From S2P Require Import Prelude NetAddr Text.

#[local] Open Scope Z_scope.

(** ** Messages *)

(** [to_stdvec] and [from_bytes] of a type of messages.  A message is read from
    the start of a buffer, and what follows it is ignored; an enumeration is
    never encoded in no bytes. *)
Class Postcard (Msg : Type) := {
  to_stdvec : Msg → option (list Z);
  from_bytes : list Z → option Msg;
}.
Class PostcardLaws (Msg : Type) `{!Postcard Msg} : Prop := {
  postcard_roundtrip (m : Msg) b rest : to_stdvec m = Some b → from_bytes (b ++ rest) = Some m;
  postcard_nonempty (m : Msg) b : to_stdvec m = Some b → b ≠ [];
}.

(** One direction of a socket of sequenced packets: the packets that were sent
    and not received, and whether the sender has gone. *)
Record Seqpacket := mkSeqpacket { sq_queue : list (list Z); sq_closed : bool }.
(** What a call to receive gives: the bytes of the first packet that fit the
    buffer, the rest of it being lost; nothing at all at the end; or it waits. *)
Definition seqpacket_recv (buf_len : nat) (s : Seqpacket) : option (list Z) * Seqpacket :=
  match sq_queue s with
  | packet :: queue => (Some (take buf_len packet), mkSeqpacket queue (sq_closed s))
  | [] => (if sq_closed s then Some [] else None, s)
  end.
Definition seqpacket_send (packet : list Z) (s : Seqpacket) : Seqpacket :=
  mkSeqpacket (sq_queue s ++ [packet]) (sq_closed s).

Definition MAX_IPC_MSG_LEN : nat := Z.to_nat 65536.
#[global] Arguments MAX_IPC_MSG_LEN : simpl never.
Inductive IpcError := SocketFailed (code : Z) | InvalidData.

Section endpoint.
Context {InMsg OutMsg : Type} `{!Postcard InMsg, !Postcard OutMsg}.

(** [recv]; [None] while there is nothing to receive, and the error of the
    socket when it has one. *)
Definition IpcEndpoint_recv (error : option Z) (s : Seqpacket) :
    option (Result IpcError (option InMsg)) * Seqpacket :=
  match error with
  | Some code => (Some (Err (SocketFailed code)), s)
  | None =>
      let '(bytes, s) := seqpacket_recv MAX_IPC_MSG_LEN s in
      (match bytes with
       | None => None
       | Some [] => Some (Ok None)
       | Some bytes =>
           Some match from_bytes bytes with Some msg => Ok (Some msg) | None => Err InvalidData end
       end, s)
  end.
Definition IpcEndpoint_send (error : option Z) (msg : OutMsg) (s : Seqpacket) :
    Result IpcError unit * Seqpacket :=
  match to_stdvec msg with
  | None => (Err InvalidData, s)
  | Some serialized =>
      if bool_decide (MAX_IPC_MSG_LEN < length serialized)%nat then (Err InvalidData, s) else
      match error with
      | Some code => (Err (SocketFailed code), s)
      | None => (Ok tt, seqpacket_send serialized s)
      end
  end.
End endpoint.

(** ** The channel is a queue of messages *)

(** What the two sides do, in any order: one sends and closes, the other
    receives. *)
Inductive IpcOp (Msg : Type) := OpSend (error : option Z) (msg : Msg) | OpRecv | OpClose.
Arguments OpSend {Msg} error msg.
Arguments OpRecv {Msg}.
Arguments OpClose {Msg}.
Inductive IpcObs (Msg : Type) :=
| Sent (r : Result IpcError unit)
| Received (r : option (Result IpcError (option Msg)))
| Closed.
Arguments Sent {Msg} r.
Arguments Received {Msg} r.
Arguments Closed {Msg}.

Section channel.
Context {Msg : Type} `{!Postcard Msg}.

Definition ipc_step (op : IpcOp Msg) (s : Seqpacket) : IpcObs Msg * Seqpacket :=
  match op with
  | OpSend error msg => let '(r, s) := IpcEndpoint_send error msg s in (Sent r, s)
  | OpRecv => let '(r, s) := IpcEndpoint_recv None s in (Received r, s)
  | OpClose => (Closed, mkSeqpacket (sq_queue s) true)
  end.
Fixpoint ipc_run (ops : list (IpcOp Msg)) (s : Seqpacket) : list (IpcObs Msg) :=
  match ops with
  | [] => []
  | op :: ops => let '(obs, s) := ipc_step op s in obs :: ipc_run ops s
  end.

(** The specification: a queue of messages. *)
Record MsgQueue := mkMsgQueue { mq_queue : list Msg; mq_closed : bool }.
Definition fits (msg : Msg) : bool :=
  match to_stdvec msg with Some b => bool_decide (length b ≤ MAX_IPC_MSG_LEN)%nat | None => false end.
Definition queue_step (op : IpcOp Msg) (q : MsgQueue) : IpcObs Msg * MsgQueue :=
  match op with
  | OpSend error msg =>
      if fits msg then
        match error with
        | None => (Sent (Ok tt), mkMsgQueue (mq_queue q ++ [msg]) (mq_closed q))
        | Some code => (Sent (Err (SocketFailed code)), q)
        end
      else (Sent (Err InvalidData), q)
  | OpRecv =>
      match mq_queue q with
      | msg :: queue => (Received (Some (Ok (Some msg))), mkMsgQueue queue (mq_closed q))
      | [] => (Received (if mq_closed q then Some (Ok None) else None), q)
      end
  | OpClose => (Closed, mkMsgQueue (mq_queue q) true)
  end.
Fixpoint queue_run (ops : list (IpcOp Msg)) (q : MsgQueue) : list (IpcObs Msg) :=
  match ops with
  | [] => []
  | op :: ops => let '(obs, q) := queue_step op q in obs :: queue_run ops q
  end.

Context `{!PostcardLaws Msg}.

(** The packets in the socket are the encodings of the messages in the queue. *)
Definition encodes (packet : list Z) (msg : Msg) : Prop :=
  to_stdvec msg = Some packet ∧ (length packet ≤ MAX_IPC_MSG_LEN)%nat.
Definition simulates (s : Seqpacket) (q : MsgQueue) : Prop :=
  Forall2 encodes (sq_queue s) (mq_queue q) ∧ sq_closed s = mq_closed q.

Lemma encodes_decoded packet msg :
  encodes packet msg → take MAX_IPC_MSG_LEN packet = packet ∧ packet ≠ [] ∧ from_bytes packet = Some msg.
Proof.
  intros [He Hl]. split_and!; [by apply take_ge | by eapply postcard_nonempty |].
  rewrite <-(app_nil_r packet). by eapply postcard_roundtrip.
Qed.

Lemma ipc_step_simulates op s q :
  simulates s q →
  (ipc_step op s).1 = (queue_step op q).1 ∧ simulates (ipc_step op s).2 (queue_step op q).2.
Proof.
  destruct s as [packets closed], q as [msgs closed']. intros [Hq Hc]. simpl in *. subst closed'.
  destruct op as [error msg| |]; simpl.
  - unfold IpcEndpoint_send, fits. destruct (to_stdvec msg) as [b|] eqn:Eb; [|done].
    destruct (decide (length b ≤ MAX_IPC_MSG_LEN)%nat) as [Hb|Hb].
    + rewrite bool_decide_false by lia. rewrite bool_decide_true by done. destruct error; [done |].
      simpl. split; [done |]. split; [|done]. simpl. apply Forall2_app; [done |]. constructor; [by split | constructor].
    + rewrite bool_decide_true by lia. rewrite bool_decide_false by done. done.
  - destruct Hq as [|packet msg packets msgs He Hq]; simpl; [by destruct closed |].
    destruct (encodes_decoded _ _ He) as (-> & Hne & Hdec). destruct packet as [|b packet]; [done |].
    rewrite Hdec. done.
  - done.
Qed.

(** C16: A channel between a parent and its worker is a queue of messages.  For
    every sequence of sends, receives and the closing of one side, in any order,
    the outcomes are those of a queue: a message that can be encoded in 64 KiB
    is received once, whole and unchanged, in the order of sending; one that
    cannot is refused and leaves no trace; a receiver waits while there is
    nothing, and is told of the end only after it has got every message. *)
Theorem ipc_is_queue ops :
  ipc_run ops (mkSeqpacket [] false) = queue_run ops (mkMsgQueue [] false).
Proof.
  enough (∀ s q, simulates s q → ipc_run ops s = queue_run ops q) as Hall by (apply Hall; split; [constructor | done]).
  induction ops as [|op ops IH]; intros s q Hsim; [done |]. simpl.
  destruct (ipc_step_simulates op s q Hsim) as [Ho Hsim'].
  destruct (ipc_step op s) as [obs s'], (queue_step op q) as [obs' q']. simpl in *. subst obs'.
  f_equal. by apply IH.
Qed.

(** A packet of another program: it is read up to 64 KiB and decoded, however
    long it is. *)
Lemma long_packet_accepted msg b rest queue closed :
  to_stdvec msg = Some b → (length b ≤ MAX_IPC_MSG_LEN)%nat →
  IpcEndpoint_recv None (mkSeqpacket ((b ++ rest) :: queue) closed) = (Some (Ok (Some msg)), mkSeqpacket queue closed).
Proof.
  intros Hb Hl. pose proof (postcard_nonempty _ _ Hb) as Hne.
  unfold IpcEndpoint_recv, seqpacket_recv. cbn [sq_queue sq_closed]. rewrite take_app_ge by done.
  generalize (take (MAX_IPC_MSG_LEN - length b) rest). intros rest'.
  pose proof (postcard_roundtrip msg b rest' Hb) as Hr. destruct b as [|x b]; [done |].
  cbn [app] in *. by rewrite Hr.
Qed.
End channel.

(** ** Raw packet sockets *)

(** The outcome of a system call on a socket that does not block. *)
Inductive IoOutcome (A : Type) := IoDone (a : A) | IoWouldBlock | IoInterrupted | IoError (code : Z).
Arguments IoDone {A} a.
Arguments IoWouldBlock {A}.
Arguments IoInterrupted {A}.
Arguments IoError {A} code.
Definition ENOBUFS : Z := 105.

Definition map_transient_raw_error {A} (r : IoOutcome A) : IoOutcome A :=
  match r with
  | IoInterrupted => IoWouldBlock
  | IoError code => if bool_decide (code = ENOBUFS) then IoWouldBlock else r
  | _ => r
  end.
(** [try_read_raw] and [try_write_raw], with the outcome of the call: [None] when
    the socket is not ready. *)
Definition try_io {A} (r : IoOutcome A) : Result Z (option A) :=
  match map_transient_raw_error r with
  | IoDone a => Ok (Some a)
  | IoError code => Err code
  | IoWouldBlock | IoInterrupted => Ok None
  end.
Definition try_read_raw (r : IoOutcome (list Z)) : Result Z (option (list Z)) := try_io r.
Definition try_write_raw (r : IoOutcome Z) : Result Z (option Z) := try_io r.

(** A turn of a loop: waiting for readiness fails, or the call has an outcome.
    A loop that has not ended has no result. *)
Fixpoint RawPacketSocket_recv (turns : list (Result Z (IoOutcome (list Z)))) : option (Result Z (list Z)) :=
  match turns with
  | [] => None
  | Err code :: _ => Some (Err code)
  | Ok r :: turns =>
      match try_read_raw r with
      | Err code => Some (Err code)
      | Ok (Some frame) => Some (Ok frame)
      | Ok None => RawPacketSocket_recv turns
      end
  end.
(** The number of turns [send] takes. *)
Fixpoint RawPacketSocket_send (turns : list (Result Z (IoOutcome Z))) : option nat :=
  match turns with
  | [] => None
  | Err _ :: _ => Some 1%nat
  | Ok r :: turns =>
      match try_write_raw r with
      | Ok None => S <$> RawPacketSocket_send turns
      | _ => Some 1%nat
      end
  end.

(** *** Opening one *)

(** A frame that arrives: its interface, and its destination port if it is a UDP
    datagram over IPv4, which is what the filter looks at. *)
Record Arrival := mkArrival { ar_ifindex : Z; ar_port : option Z; ar_frame : list Z }.
(** A packet socket for IPv4: the interface it is bound to, the port of its
    filter, and what it has received.  A socket that is not bound receives from
    every interface. *)
Record PacketSocket := mkPacketSocket { ps_ifindex : option Z; ps_filter : option Z; ps_queue : list Arrival }.
Definition receives (s : PacketSocket) (a : Arrival) : bool :=
  match ps_ifindex s with Some i => bool_decide (ar_ifindex a = i) | None => true end &&
  match ps_filter s with Some p => bool_decide (ar_port a = Some p) | None => true end.
Definition arrive (l : list Arrival) (s : PacketSocket) : PacketSocket :=
  mkPacketSocket (ps_ifindex s) (ps_filter s) (ps_queue s ++ filter (λ a, receives s a = true) l).

Inductive RawError := CreateFailed | NonblockFailed | BadName | NoInterface | BindFailed | FilterFailed | RegisterFailed.
(** The answers to the calls of [open_raw_socket], and what arrives after the
    first of them and before the filter is there. *)
Record RawEnv := mkRawEnv {
  re_socket : bool;
  re_nonblock : bool;
  re_ifindex : str → Z;
  re_bind : bool;
  re_attach : bool;
  re_register : bool;
  re_before_bind : list Arrival;
  re_before_filter : list Arrival;
}.
Definition open_raw_socket (env : RawEnv) (ifname : str) (target_port : Z) : Result RawError PacketSocket :=
  let? _ := ensure (re_socket env) CreateFailed in
  let s := mkPacketSocket None None [] in
  let? _ := ensure (re_nonblock env) NonblockFailed in
  let? _ := ensure (negb (contains_char 0 ifname)) BadName in
  let if_index := re_ifindex env ifname in
  let? _ := ensure (bool_decide (if_index ≠ 0)) NoInterface in
  let s := arrive (re_before_bind env) s in
  let? _ := ensure (re_bind env) BindFailed in
  let s := arrive (re_before_filter env) (mkPacketSocket (Some if_index) (ps_filter s) (ps_queue s)) in
  let? _ := ensure (re_attach env) FilterFailed in
  let s := mkPacketSocket (ps_ifindex s) (Some target_port) (ps_queue s) in
  let? _ := ensure (re_register env) RegisterFailed in
  Ok s.

(** *** What they deliver *)

(** A turn after which a loop goes on: the call was interrupted, the socket was
    not ready, or the kernel was out of buffers. *)
Definition is_transient {A} (t : Result Z (IoOutcome A)) : bool :=
  match t with
  | Ok IoWouldBlock | Ok IoInterrupted => true
  | Ok (IoError code) => bool_decide (code = ENOBUFS)
  | _ => false
  end.
(** The frame or the error of another turn. *)
Definition turn_result (t : Result Z (IoOutcome (list Z))) : option (Result Z (list Z)) :=
  match t with
  | Err code | Ok (IoError code) => Some (Err code)
  | Ok (IoDone frame) => Some (Ok frame)
  | _ => None
  end.

(** The result of [recv] is that of the first turn that is not transient: no
    transient error ends it, and no frame that was read is dropped. *)
Lemma raw_recv_spec turns :
  RawPacketSocket_recv turns = head (drop_while is_transient turns) ≫= turn_result.
Proof.
  induction turns as [|[[frame| | |code]|code] turns IH]; simpl; try done.
  unfold try_read_raw, try_io. simpl. by case_bool_decide.
Qed.
(** A frame is written once, or an error is the end of it. *)
Lemma raw_send_spec turns n :
  RawPacketSocket_send turns = Some n →
  ∃ pre t post, turns = pre ++ t :: post ∧ n = S (length pre) ∧
    Forall (λ t, is_transient t = true) pre ∧ is_transient t = false.
Proof.
  revert n. induction turns as [|t turns IH]; intros n; [done |]. simpl.
  destruct (is_transient t) eqn:Ht.
  - assert (∀ r, t = Ok r → try_write_raw r = Ok None) as Hr.
    { intros r ->. unfold try_write_raw, try_io. destruct r; try done. simpl in *. by rewrite Ht. }
    destruct t as [r|]; [|done]. rewrite (Hr r eq_refl). intros (m & Hm & ->)%fmap_Some.
    destruct (IH m Hm) as (pre & t' & post & -> & -> & Hpre & Ht').
    exists (Ok r :: pre), t', post. split_and!; [done | done | by constructor | done].
  - intros Hn. exists [], t, turns. split_and!; [done | | constructor | done].
    destruct t as [[x| | |code]|]; simpl in *; try congruence.
    unfold try_write_raw, try_io in Hn. simpl in Hn. rewrite Ht in Hn. by injection Hn as <-.
Qed.

(** Once it is open, a raw socket receives the datagrams for its port on its
    interface only; what it got before comes first. *)
Theorem open_raw_socket_filters env ifname port s :
  open_raw_socket env ifname port = Ok s →
  ps_ifindex s = Some (re_ifindex env ifname) ∧ re_ifindex env ifname ≠ 0 ∧ ps_filter s = Some port ∧
  (∀ l, ps_queue (arrive l s) =
     ps_queue s ++ filter (λ a, ar_ifindex a = re_ifindex env ifname ∧ ar_port a = Some port) l) ∧
  ps_queue s = re_before_bind env ++ filter (λ a, ar_ifindex a = re_ifindex env ifname) (re_before_filter env).
Proof.
  unfold open_raw_socket. intros Ho. inv_ok. subst s. simpl. split_and!; [done | done | done | |].
  - intros l. f_equal. apply list_filter_iff. intros a. unfold receives. simpl.
    by rewrite andb_true_iff, !bool_decide_eq_true.
  - f_equal.
    + induction (re_before_bind env) as [|a l IH]; [done |]. simpl. by rewrite filter_cons_True, IH.
    + apply list_filter_iff. intros a. unfold receives. simpl. by rewrite andb_true_r, bool_decide_eq_true.
Qed.

Module SocketsExample.
(** Lists of booleans, with their length first. *)
#[local] Instance bytes : Postcard (list bool) := {|
  to_stdvec m := Some (Z.of_nat (length m) :: map (λ b : bool, if b then 1 else 0) m);
  from_bytes b :=
    match b with
    | n :: b =>
        if decide (Z.to_nat n ≤ length b)%nat
        then Some (map (λ x, bool_decide (x = 1)) (take (Z.to_nat n) b)) else None
    | [] => None
    end;
|}.
#[local] Instance bytes_laws : PostcardLaws (list bool).
Proof.
  split.
  - intros m b rest [= <-]. simpl. rewrite Nat2Z.id.
    rewrite decide_True by (rewrite length_app, length_map; lia).
    rewrite take_app_length' by by rewrite length_map. rewrite map_map. f_equal.
    induction m as [|[] m IH]; simpl; by f_equal.
  - intros m b [= <-]. done.
Qed.

Lemma ipc_is_queue_witness :
  ipc_run [OpSend None [true; false]; OpSend None []; OpRecv; OpClose; OpRecv; OpRecv] (mkSeqpacket [] false) =
  [Sent (Ok tt); Sent (Ok tt); Received (Some (Ok (Some [true; false]))); Closed;
   Received (Some (Ok (Some []))); Received (Some (Ok None))].
Proof. rewrite (ipc_is_queue (Msg := list bool)). vm_compute. reflexivity. Defined.

(** A frame of another interface that came before the socket was bound is
    received through it. *)
Definition slow_bind : RawEnv :=
  mkRawEnv true true (λ _, 3) true true true [mkArrival 4 (Some 68) [1; 2; 3]] [].
Example other_interface_received :
  ∃ s, open_raw_socket slow_bind (lit "wan") 68 = Ok s ∧ ps_queue s = [mkArrival 4 (Some 68) [1; 2; 3]].
Proof. by eexists. Qed.
End SocketsExample.
