(* ===== verification/System.v ===== *)
(** * System

    [src/src/init/system.rs]: the mounts of process 1, [/etc/resolv.conf], and
    what the panic handler does, over an interface to the machine that the
    other files on booting and powering off share. *)

From Stdlib Require Import ZArith Lia.
From stdpp Require Import base gmap sets list strings.
From S2P Require Import Prelude Text.

#[local] Open Scope Z_scope.

(** ** The machine *)

(** An entry of a partition table ([mbrman::MBRPartitionEntry]); the addresses
    by cylinder are always empty and are left out. *)
Record PartitionEntry := mkPartitionEntry {
  pe_boot : Z;
  pe_sys : Z;
  pe_starting_lba : Z;
  pe_sectors : Z;
}.
#[global] Instance PartitionEntry_eq_dec : EqDecision PartitionEntry.
Proof. solve_decision. Defined.

(** A partition table ([mbrman::MBR]): the four primary entries, which the crate
    counts from 1, and the rest of the sector. *)
Record Mbr := mkMbr {
  mbr_1 : PartitionEntry;
  mbr_2 : PartitionEntry;
  mbr_3 : PartitionEntry;
  mbr_4 : PartitionEntry;
  mbr_rest : list Z;
}.

(** The arguments of [mount]. *)
Record MountCall := mkMountCall {
  mc_source : option str;
  mc_target : str;
  mc_fstype : str;
  mc_flags : Z;
  mc_data : option str;
}.
#[global] Instance MountCall_eq_dec : EqDecision MountCall.
Proof. solve_decision. Defined.
Definition MS_RDONLY : Z := 1.
Definition MS_NOSUID : Z := 2.
Definition MS_NODEV : Z := 4.

Inductive RebootMode := RB_AUTOBOOT | RB_POWER_OFF.
#[global] Instance RebootMode_eq_dec : EqDecision RebootMode.
Proof. solve_decision. Defined.
Definition SIGKILL : Z := 9.
Definition SIGTERM : Z := 15.
Definition SIGSYS : Z := 31.
Definition ECHILD : Z := 10.
Inductive WaitStatus := Exited (pid code : Z) | Signaled (pid signal : Z) | StillAlive | OtherStatus.

(** The kernel, the clock, the file system and the crates that read and write
    disks.  A call that fails gives an error code. *)
Class Machine := {
  Mach : Type;
  mc_now : Mach → Instant;
  mc_sleep : Duration → Mach → Mach;
  mc_getpid : Z;
  mc_create_dir_all : str → Mach → Mach * option Z;
  mc_read : str → Mach → Result Z str;
  mc_write : str → str → Mach → Mach * option Z;
  mc_rename : str → str → Mach → Mach * option Z;
  mc_set_mode : str → Z → Mach → Mach * option Z;
  mc_exists : str → Mach → bool;
  (** the names in a directory; a name that is not UTF-8 is empty, and an entry
      may be an error *)
  mc_read_dir : str → Mach → Result Z (list (Result Z str));
  mc_canonicalize : str → Mach → Result Z str;
  mc_mount : MountCall → Mach → Mach * option Z;
  (** opening a file to read and write it *)
  mc_open : str → Mach → option Z;
  mc_mbr_read : str → Mach → option Mbr;
  (** from the start of the disk *)
  mc_mbr_write : str → Mbr → Mach → Mach * option Z;
  mc_sync_file : str → Mach → Mach * option Z;
  mc_reread_partitions : str → Mach → Mach;
  (** the label of the FAT file system on a device, if it can be read as one *)
  mc_fat_label : str → Mach → option str;
  mc_fat_format : str → Mach → Mach * option Z;
  mc_kill : Z → Z → Mach → Mach * option Z;
  (** [waitpid(-1, WNOHANG)] *)
  mc_waitpid : Mach → Mach * Result Z WaitStatus;
  mc_sync : Mach → Mach;
  mc_reboot : RebootMode → Mach → Mach * option Z;
  (** the number of other processes *)
  mc_processes : Mach → nat;
}.

Definition is_reaped (r : Result Z WaitStatus) : bool :=
  match r with Ok (Exited _ _) | Ok (Signaled _ _) => true | _ => false end.
(** The clock does not run backwards and a sleep is not cut short.  A process
    that was waited for is gone. *)
Class MachineLaws `{Machine} := {
  sleep_law d k : mc_now k + d ≤ mc_now (mc_sleep d k);
  kill_now pid s k : mc_now k ≤ mc_now (mc_kill pid s k).1;
  waitpid_now k : mc_now k ≤ mc_now (mc_waitpid k).1;
  sync_now k : mc_now k ≤ mc_now (mc_sync k);
  waitpid_reaps k :
    is_reaped (mc_waitpid k).2 = true → (mc_processes (mc_waitpid k).1 < mc_processes k)%nat;
}.
(** What the manual of [waitpid] says of a call for any child that does not wait
    ([WNOHANG]) and does not ask for stopped children: it finds one of the
    children that have ended while there are any; it is not interrupted, and
    there is no error but that there are no children.  Only the statements about
    zombies use this; the code has arms for other answers too, and the loops end
    with them as well. *)
Class ZombieLaws `{Machine} := {
  (** the children that have ended and were not waited for *)
  zombies : Mach → nat;
  waitpid_outcome k :
    is_reaped (mc_waitpid k).2 = true ∨ (mc_waitpid k).2 = Ok StillAlive ∨ (mc_waitpid k).2 = Err ECHILD;
  waitpid_alive k :
    (mc_waitpid k).2 = Ok StillAlive ∨ (mc_waitpid k).2 = Err ECHILD → zombies (mc_waitpid k).1 = 0%nat;
}.

(** What the program does to the machine, in order; a mount with its outcome. *)
Inductive SysEvent :=
| EvMount (c : MountCall) (error : option Z)
| EvWriteFile (path content : str)
| EvRename (from to : str)
| EvMbrRead (disk : str) (table : Mbr)
| EvMbrWrite (disk : str) (table : Mbr)
| EvFormat (dev : str)
| EvOpenLog
| EvFlushLogs
| EvShutdownFlag
| EvKill (pid signal : Z)
| EvSync
| EvSleep (d : Duration)
| EvReboot (mode : RebootMode).

Section machine.
Context `{Machine}.

Definition Sys (A : Type) : Type := Act Mach SysEvent A.
(** A call with its event. *)
Definition sys_call {A} (e : SysEvent) (f : Mach → Mach * A) : Sys A := λ k,
  let '(k', a) := f k in (a, k', [e]).
Definition sys_quiet {A} (f : Mach → Mach * A) : Sys A := λ k, let '(k', a) := f k in (a, k', []).
Definition sys_ask {A} (f : Mach → A) : Sys A := λ k, (f k, k, []).
Definition sys_result (e : option Z) : Result Z unit := match e with None => Ok tt | Some code => Err code end.

Definition clock_now : Sys Instant := sys_ask mc_now.
Definition thread_sleep (d : Duration) : Sys unit := sys_call (EvSleep d) (λ k, (mc_sleep d k, tt)).
Definition write_file (path content : str) : Sys (option Z) :=
  sys_call (EvWriteFile path content) (mc_write path content).
(** [crate::logging::flush] *)
Definition flush_logs : Sys unit := act_emit EvFlushLogs.

(** ** [RealSystem] *)

Definition RealSystem_mount (c : MountCall) : Sys (option Z) := λ k,
  if bool_decide (mc_getpid ≠ 1) then (None, k, []) else
  let k := (mc_create_dir_all (mc_target c) k).1 in
  let '(k, r) := mc_mount c k in
  (r, k, [EvMount c r]).
Definition RealSystem_kill (pid signal : Z) : Sys (option Z) :=
  sys_call (EvKill pid signal) (mc_kill pid signal).
Definition RealSystem_waitpid : Sys (Result Z WaitStatus) := sys_quiet mc_waitpid.
Definition RealSystem_reboot (mode : RebootMode) : Sys (option Z) := sys_call (EvReboot mode) (mc_reboot mode).
Definition RealSystem_sync : Sys unit := sys_call EvSync (λ k, (mc_sync k, tt)).
Definition CONFIG_PATH : str := lit "/boot/config/trimrouter.toml".
Definition read_config_file : Mach → Result Z str := mc_read CONFIG_PATH.

(** ** Virtual file systems *)

Definition RUN_TMPFS_DATA : str := lit "size=8M,mode=0755".
Definition TMP_TMPFS_DATA : str := lit "size=16M,mode=1777".
Definition virtual_filesystems : list MountCall := [
  mkMountCall None (lit "/proc") (lit "proc") 0 None;
  mkMountCall None (lit "/sys") (lit "sysfs") 0 None;
  mkMountCall None (lit "/dev") (lit "devtmpfs") 0 None;
  mkMountCall None (lit "/run") (lit "tmpfs") (Z.lor MS_NOSUID MS_NODEV) (Some RUN_TMPFS_DATA);
  mkMountCall None (lit "/tmp") (lit "tmpfs") (Z.lor MS_NOSUID MS_NODEV) (Some TMP_TMPFS_DATA)].

Inductive SysError := MountFailed (target : str) (code : Z) | IoFailed (code : Z).
(** A mount and [?] *)
Definition mount_or_fail (c : MountCall) : Try Mach SysEvent SysError unit :=
  let* r := RealSystem_mount c in
  match r with Some code => try_err (MountFailed (mc_target c) code) | None => try_ok tt end.
Fixpoint mount_all (l : list MountCall) : Try Mach SysEvent SysError unit :=
  match l with
  | [] => try_ok tt
  | c :: l => let^ _ := mount_or_fail c in mount_all l
  end.
Definition MODPROBE_SETTING : str := lit "/proc/sys/kernel/modprobe".
Definition mount_virtual_filesystems : Try Mach SysEvent SysError unit :=
  let^ _ := mount_all virtual_filesystems in
  let* _ := write_file MODPROBE_SETTING (lit "/sbin/modprobe") in
  try_ok tt.

Definition RESOLV_CONF_PATH : str := lit "/etc/resolv.conf".
Definition RESOLV_CONF_TMP : str := lit "/etc/resolv.tmp".
Definition RESOLV_CONF_CONTENT : str := lit "nameserver 127.0.0.1" ++ [LF].
Definition sys_try (e : option Z) : Try Mach SysEvent SysError unit :=
  match e with None => try_ok tt | Some code => try_err (IoFailed code) end.
(** [setup_resolv_conf_at_path], for the path it is called with. *)
Definition setup_resolv_conf_at_path : Try Mach SysEvent SysError unit :=
  let* r := sys_quiet (mc_create_dir_all (lit "/etc")) in
  let^ _ := sys_try r in
  let* r := write_file RESOLV_CONF_TMP RESOLV_CONF_CONTENT in
  let^ _ := sys_try r in
  let* r := sys_call (EvRename RESOLV_CONF_TMP RESOLV_CONF_PATH) (mc_rename RESOLV_CONF_TMP RESOLV_CONF_PATH) in
  sys_try r.
Definition setup_resolv_conf : Try Mach SysEvent SysError unit :=
  if bool_decide (mc_getpid ≠ 1) then try_ok tt else setup_resolv_conf_at_path.

(** ** The panic handler *)

Definition PANIC_REBOOT_DELAY : Duration := from_secs 10.
Definition PANIC_GRACE_PERIOD : Duration := from_secs 2.
Definition PANIC_REAP_POLL_INTERVAL : Duration := from_millis 50.

Inductive ReapOutcome := NoChildrenRemaining | ChildrenStillRunning.
#[global] Instance ReapOutcome_eq_dec : EqDecision ReapOutcome.
Proof. solve_decision. Defined.

(** The loop of [reap_and_check_all_exited]; [None] when it has not ended. *)
Fixpoint reap_loop (fuel : nat) : Sys (option ReapOutcome) :=
  match fuel with
  | O => mret None
  | S fuel =>
      let* r := RealSystem_waitpid in
      match r with
      | Ok (Exited _ _) | Ok (Signaled _ _) => reap_loop fuel
      | Ok StillAlive => mret (Some ChildrenStillRunning)
      | Err code =>
          mret (Some (if bool_decide (code = ECHILD) then NoChildrenRemaining else ChildrenStillRunning))
      | Ok OtherStatus => mret (Some ChildrenStillRunning)
      end
  end.
Definition reap_and_check_all_exited : Sys (option ReapOutcome) := λ k, reap_loop (S (mc_processes k)) k.

(** The loop of [terminate_children_with_grace], with the time it started. *)
Fixpoint grace_loop (fuel : nat) (start_time : Instant) : Sys (option ReapOutcome) :=
  match fuel with
  | O => mret None
  | S fuel =>
      let* t := clock_now in
      if bool_decide (duration_since t start_time < PANIC_GRACE_PERIOD) then
        let* r := reap_and_check_all_exited in
        match r with
        | None => mret None
        | Some NoChildrenRemaining => mret (Some NoChildrenRemaining)
        | Some ChildrenStillRunning => thread_sleep PANIC_REAP_POLL_INTERVAL ;; grace_loop fuel start_time
        end
      else mret (Some ChildrenStillRunning)
  end.
Definition grace_fuel : nat := 41.
(** Whether it ended. *)
Definition terminate_children_with_grace : Sys bool :=
  RealSystem_kill (-1) SIGTERM ;;
  let* start_time := clock_now in
  let* r := grace_loop grace_fuel start_time in
  match r with
  | None => mret false
  | Some NoChildrenRemaining => mret true
  | Some ChildrenStillRunning =>
      RealSystem_kill (-1) SIGKILL ;;
      thread_sleep PANIC_REAP_POLL_INTERVAL ;;
      let* r := reap_and_check_all_exited in
      mret (bool_decide (is_Some r))
  end.

Definition halt_on_panic : Sys bool :=
  if bool_decide (mc_getpid ≠ 1) then mret true else
  let* panic_start := clock_now in
  let* ended := terminate_children_with_grace in
  if negb ended then mret false else
  flush_logs ;;
  RealSystem_sync ;;
  let* t := clock_now in
  let elapsed := duration_since t panic_start in
  act_when (bool_decide (elapsed < PANIC_REBOOT_DELAY)) (thread_sleep (PANIC_REBOOT_DELAY - elapsed)) ;;
  flush_logs ;;
  RealSystem_sync ;;
  RealSystem_reboot RB_AUTOBOOT ;;
  mret true.

(** The hook of [register_panic_handler]; [log_panic_info] ends with a flush. *)
Definition panic_hook : Sys bool := flush_logs ;; halt_on_panic.
End machine.

(** ** Reasoning about calls *)

Section calls.
Context `{Machine}.

Lemma wp_ask {A} (f : Mach → A) Q k : Q (f k) k [] → act_wp (sys_ask f) Q k.
Proof. intros HQ. by apply act_wp_eq. Qed.
Lemma wp_call {A} e (f : Mach → Mach * A) Q k : Q (f k).2 (f k).1 [e] → act_wp (sys_call e f) Q k.
Proof. intros HQ. apply act_wp_eq. unfold sys_call. by destruct (f k). Qed.
Lemma wp_quiet {A} (f : Mach → Mach * A) Q k : Q (f k).2 (f k).1 [] → act_wp (sys_quiet f) Q k.
Proof. intros HQ. apply act_wp_eq. unfold sys_quiet. by destruct (f k). Qed.
End calls.

(** Run the next call of a sequence, and a call at its end. *)
Ltac wp_call1 := first [apply wp_ask | apply wp_call | apply wp_quiet | apply act_wp_emit | apply act_wp_ret].
Ltac wp_next := apply act_wp_bind; wp_call1; cbn [fst snd].
Ltac wp_try := apply act_wp_try; wp_call1; cbn [fst snd].

(** ** The panic handler ends in a reboot *)

Section panic.
Context `{Machine, !MachineLaws}.

(** The kernel has just said that there is no child left. *)
Definition no_children (k : Mach) : Prop := ∃ k0, (mc_waitpid k0).2 = Err ECHILD ∧ k = (mc_waitpid k0).1.
(** What waiting for the children gives: an answer, which is not that all have
    ended unless the kernel says so. *)
Definition reaped (k : Mach) (r : option ReapOutcome) (k' : Mach) (o : list SysEvent) : Prop :=
  is_Some r ∧ (r = Some NoChildrenRemaining → no_children k') ∧ mc_now k ≤ mc_now k' ∧ o = [].

(** Waiting for children ends, however many there are. *)
Lemma reap_loop_ends fuel k :
  (mc_processes k < fuel)%nat → act_wp (reap_loop fuel) (reaped k) k.
Proof.
  revert k. induction fuel as [|fuel IH]; intros k Hf; [lia |]. cbn [reap_loop]. wp_next.
  pose proof (waitpid_now k) as Hnow. pose proof (waitpid_reaps k) as Hr.
  destruct (mc_waitpid k) as [k' [[pid code|pid sig| |]|code]] eqn:E; simpl in *.
  1,2: eapply act_wp_mono; [apply IH; specialize (Hr eq_refl); lia |].
  1,2: intros r k'' o (Hs & Hn & Ht & ->); split_and!; [done | done | lia | done].
  1,2: wp_call1; by split_and!.
  wp_call1. split_and!; [done | | done | done]. case_bool_decide as Hc; [|done]. intros _. exists k.
  by rewrite E, <-Hc.
Qed.
Lemma reap_ends k : act_wp reap_and_check_all_exited (reaped k) k.
Proof.
  apply act_wp_eq. unfold reap_and_check_all_exited. rewrite <-act_wp_eq. apply reap_loop_ends. lia.
Qed.

Definition sleeps (d : Duration) (o : list SysEvent) : Prop := Forall (λ e, e = EvSleep d) o.

(** What the period of grace ends with: the kernel's word that no child is left,
    or the period has passed. *)
Definition grace_over (fuel : nat) (start : Instant) (k : Mach) (r : option ReapOutcome) (k' : Mach)
    (o : list SysEvent) : Prop :=
  mc_now k ≤ mc_now k' ∧ sleeps PANIC_REAP_POLL_INTERVAL o ∧ (length o ≤ fuel)%nat ∧
  match r with
  | Some NoChildrenRemaining => no_children k'
  | Some ChildrenStillRunning => start + PANIC_GRACE_PERIOD ≤ mc_now k'
  | None => False
  end.

(** It ends: every turn takes the time of a sleep. *)
Lemma grace_loop_ends fuel start k :
  start ≤ mc_now k → start + PANIC_GRACE_PERIOD ≤ mc_now k + Z.of_nat fuel * PANIC_REAP_POLL_INTERVAL →
  act_wp (grace_loop (S fuel) start) (grace_over fuel start k) k.
Proof.
  revert k. induction fuel as [|fuel IH]; intros k Hs Hf.
  all: wp_next; unfold duration_since; case_bool_decide as Hd;
    [|wp_call1; split_and!; [lia | constructor | simpl; lia | lia]].
  { lia. }
  apply act_wp_bind. eapply act_wp_mono; [apply reap_ends |].
  intros [[|]|] k1 o1 ([out Hout] & Hn & Ht & ->);
    [wp_call1; split_and!; [lia | constructor | simpl; lia | by apply Hn] | | done].
  wp_next. pose proof (sleep_law PANIC_REAP_POLL_INTERVAL k1) as Hsl.
  assert (0 ≤ PANIC_REAP_POLL_INTERVAL) by done.
  eapply act_wp_mono; [apply IH; lia |]. intros r k2 o2 (Ht2 & Ho & Hl & Hr).
  split_and!; [lia | by constructor | simpl; lia | done].
Qed.

(** What is done to the children between the states [k] and [k']: every one is
    asked to end and is given turns of 50 ms, at most 40 of them.  Either the
    kernel then says that none is left, or two seconds have passed since they
    were asked: then every process is killed, given 50 ms, and waited for. *)
Definition teardown (k k' : Mach) (o : list SysEvent) : Prop :=
  let asked := (mc_kill (-1) SIGTERM k).1 in
  ∃ turns, sleeps PANIC_REAP_POLL_INTERVAL turns ∧ (length turns ≤ 40)%nat ∧
    ((o = EvKill (-1) SIGTERM :: turns ∧ no_children k') ∨
     (o = EvKill (-1) SIGTERM :: turns ++ [EvKill (-1) SIGKILL; EvSleep PANIC_REAP_POLL_INTERVAL] ∧
      ∃ late, mc_now asked + PANIC_GRACE_PERIOD ≤ mc_now late ∧
        let killed := mc_sleep PANIC_REAP_POLL_INTERVAL (mc_kill (-1) SIGKILL late).1 in
        k' = act_state reap_and_check_all_exited killed)).
Lemma terminate_children_ends k :
  act_wp terminate_children_with_grace
    (λ ended k' o, ended = true ∧ mc_now k ≤ mc_now k' ∧ teardown k k' o) k.
Proof.
  unfold terminate_children_with_grace. wp_next. pose proof (kill_now (-1) SIGTERM k) as Hk.
  set (k1 := (mc_kill (-1) SIGTERM k).1) in *. wp_next. apply act_wp_bind.
  eapply act_wp_mono; [apply (grace_loop_ends 40); [lia |] |].
  { unfold PANIC_GRACE_PERIOD, PANIC_REAP_POLL_INTERVAL, from_secs, from_millis, NANOS. lia. }
  intros [[|]|] k2 turns (Ht & Hturns & Hlen & Hr); [| | done].
  { wp_call1. split_and!; [done | lia |]. exists turns. split_and!; [done | done |]. left.
    by rewrite app_nil_r. }
  wp_next. pose proof (kill_now (-1) SIGKILL k2) as Hk2. set (k3 := (mc_kill (-1) SIGKILL k2).1) in *.
  wp_next. pose proof (sleep_law PANIC_REAP_POLL_INTERVAL k3) as Hsl.
  assert (0 ≤ PANIC_REAP_POLL_INTERVAL) by done. set (k4 := mc_sleep _ k3) in *.
  apply act_wp_bind. apply (act_wp_self (reap_ends k4)). intros r k4' o4 (Hs & _ & Ht4 & ->) Hrun. wp_call1.
  split_and!; [by apply bool_decide_eq_true | lia |]. exists turns. split_and!; [done | done |]. right.
  split; [done |]. exists k2. split; [done |]. cbv zeta. unfold act_state. fold k3 k4. by rewrite Hrun.
Qed.

(** What the handler has done when it has ended. *)
Definition hook_done (k : Mach) (ended : bool) (k' : Mach) (o : list SysEvent) : Prop :=
  ended = true ∧
  (mc_getpid ≠ 1 → o = [EvFlushLogs]) ∧
  (mc_getpid = 1 →
   ∃ before k_ended wait k_reboot,
     teardown k k_ended before ∧ (wait = [] ∨ ∃ d, wait = [EvSleep d]) ∧
     o = EvFlushLogs :: before ++ [EvFlushLogs; EvSync] ++ wait ++ [EvFlushLogs; EvSync; EvReboot RB_AUTOBOOT] ∧
     k' = (mc_reboot RB_AUTOBOOT k_reboot).1 ∧ mc_now k + PANIC_REBOOT_DELAY ≤ mc_now k_reboot).
Lemma panic_hook_ends k : act_wp panic_hook (hook_done k) k.
Proof.
  unfold panic_hook. wp_next. unfold halt_on_panic. case_bool_decide as Hp; [by wp_call1; split_and! |]. wp_next.
  apply act_wp_bind. eapply act_wp_mono; [apply terminate_children_ends |]. intros ended k1 before (-> & Ht & Htd).
  cbn [negb]. wp_next. wp_next. pose proof (sync_now k1) as Hs. set (k2 := mc_sync k1) in *. wp_next.
  set (elapsed := duration_since (mc_now k2) (mc_now k)).
  assert (elapsed = mc_now k2 - mc_now k) as He by (unfold elapsed, duration_since; lia).
  apply act_wp_bind. apply act_wp_mono with (Q := λ _ k3 o3, mc_now k + PANIC_REBOOT_DELAY ≤ mc_now k3 ∧
    (o3 = [] ∨ ∃ d, o3 = [EvSleep d])).
  { unfold act_when. case_bool_decide as Hd.
    - wp_call1. pose proof (sleep_law (PANIC_REBOOT_DELAY - elapsed) k2). split; [cbn; lia | eauto].
    - wp_call1. split; [lia | by left]. }
  intros _ k3 wait [Ht3 Hw]. wp_next. wp_next. pose proof (sync_now k3) as Hs3. wp_next. wp_call1.
  split_and!; [done | done |]. intros _. exists before, k1, wait, (mc_sync k3). split_and!; [done.. | | done | lia].
  done.
Qed.

(** C15: A panic in process 1 always ends in a reboot.  Whatever the other
    processes do and whatever the kernel answers, the handler comes to its end.
    It asks every process to end and looks for the children in turns of 50 ms.
    If the kernel says within two seconds that no child is left, it goes on;
    otherwise, and not before two seconds have passed, it kills every process
    and waits for the children once more.  Then it writes the logs and the file
    systems to the disk and, as its last action, restarts the machine, with the
    file systems written once more just before and at least ten seconds after
    the panic.  In any other process it does nothing but write the logs. *)
Theorem panic_reboots k :
  let '(ended, k', o) := panic_hook k in
  ended = true ∧
  (mc_getpid ≠ 1 → o = [EvFlushLogs]) ∧
  (mc_getpid = 1 →
   ∃ before k_ended wait k_reboot,
     teardown k k_ended before ∧ (wait = [] ∨ ∃ d, wait = [EvSleep d]) ∧
     o = EvFlushLogs :: before ++ [EvFlushLogs; EvSync] ++ wait ++ [EvFlushLogs; EvSync; EvReboot RB_AUTOBOOT] ∧
     k' = (mc_reboot RB_AUTOBOOT k_reboot).1 ∧ mc_now k + PANIC_REBOOT_DELAY ≤ mc_now k_reboot).
Proof.
  pose proof (panic_hook_ends k) as Hwp. apply act_wp_eq in Hwp. by destruct (panic_hook k) as [[ended k'] o].
Qed.
End panic.

(** ** A concrete machine *)
Module SystemExample.
(** A child process: whether it ignores [SIGTERM], and whether it has ended. *)
Record Child := mkChild { ch_pid : Z; ch_stubborn : bool; ch_ended : bool }.
(** A machine with one disk. *)
Record Box := mkBox {
  bx_clock : Z;
  bx_children : list Child;
  bx_files : gmap str str;
  bx_block : list str;
  bx_labels : gmap str str;
  bx_table : Mbr;
  (** the partitions the kernel finds when it reads the table again *)
  bx_pending : list str;
}.

Definition end_child (signal : Z) (c : Child) : Child :=
  mkChild (ch_pid c) (ch_stubborn c)
    (ch_ended c || negb (ch_stubborn c) || bool_decide (signal = SIGKILL)).
Fixpoint take_ended (l : list Child) : option (Z * list Child) :=
  match l with
  | [] => None
  | c :: l => if ch_ended c then Some (ch_pid c, l) else '(pid, l') ← take_ended l; Some (pid, c :: l')
  end.
Definition set_children (l : list Child) (b : Box) : Box :=
  mkBox (bx_clock b) l (bx_files b) (bx_block b) (bx_labels b) (bx_table b) (bx_pending b).
Definition set_clock (t : Z) (b : Box) : Box :=
  mkBox t (bx_children b) (bx_files b) (bx_block b) (bx_labels b) (bx_table b) (bx_pending b).
Definition set_files (f : gmap str str) (b : Box) : Box :=
  mkBox (bx_clock b) (bx_children b) f (bx_block b) (bx_labels b) (bx_table b) (bx_pending b).
Definition set_table (t : Mbr) (b : Box) : Box :=
  mkBox (bx_clock b) (bx_children b) (bx_files b) (bx_block b) (bx_labels b) t (bx_pending b).
Definition set_label (dev label : str) (b : Box) : Box :=
  mkBox (bx_clock b) (bx_children b) (bx_files b) (bx_block b) (<[dev := label]> (bx_labels b))
    (bx_table b) (bx_pending b).
Definition reread (b : Box) : Box :=
  mkBox (bx_clock b) (bx_children b)
    (foldr (λ name f, <[lit "/sys/class/block/" ++ name := []]> (<[lit "/dev/" ++ name := []]> f))
       (bx_files b) (bx_pending b))
    (bx_block b ++ bx_pending b) (bx_labels b) (bx_table b) [].
(** A device can be mounted when it holds a file system. *)
Definition can_mount (c : MountCall) (b : Box) : bool :=
  match mc_source c with Some dev => bool_decide (is_Some (bx_labels b !! dev)) | None => true end.

#[local] Instance box : Machine := {|
  Mach := Box;
  mc_now := bx_clock;
  mc_sleep d b := set_clock (bx_clock b + Z.max 0 d) b;
  mc_getpid := 1;
  mc_create_dir_all _ b := (b, None);
  mc_read p b := match bx_files b !! p with Some s => Ok s | None => Err 2 end;
  mc_write p s b := (set_files (<[p := s]> (bx_files b)) b, None);
  mc_rename p q b :=
    match bx_files b !! p with
    | Some s => (set_files (<[q := s]> (delete p (bx_files b))) b, None)
    | None => (b, Some 2)
    end;
  mc_set_mode _ _ b := (b, None);
  mc_exists p b := bool_decide (is_Some (bx_files b !! p));
  mc_read_dir _ b := Ok (Ok <$> bx_block b);
  mc_canonicalize p _ := Ok (lit "/sys/devices/pci/sda/sda1");
  mc_mount c b := (b, if can_mount c b then None else Some 22);
  mc_open p b := if bool_decide (is_Some (bx_files b !! p)) then None else Some 2;
  mc_mbr_read _ b := Some (bx_table b);
  mc_mbr_write _ t b := (set_table t b, None);
  mc_sync_file _ b := (b, None);
  mc_reread_partitions _ b := reread b;
  mc_fat_label dev b := bx_labels b !! dev;
  mc_fat_format dev b := (set_label dev (lit "SYSTEM_LOG ") b, None);
  mc_kill _ signal b := (set_children (end_child signal <$> bx_children b) b, None);
  mc_waitpid b :=
    match take_ended (bx_children b) with
    | Some (pid, l) => (set_children l b, Ok (Exited pid 0))
    | None => (b, match bx_children b with [] => Err ECHILD | _ => Ok StillAlive end)
    end;
  mc_sync b := b;
  mc_reboot _ b := (b, None);
  mc_processes b := length (bx_children b);
|}.

Definition ended_children (b : Box) : nat := length (filter (λ c, ch_ended c = true) (bx_children b)).
Lemma take_ended_Some l pid l' : take_ended l = Some (pid, l') → length l = S (length l').
Proof.
  revert l'. induction l as [|c l IH]; intros l'; simpl; [done |].
  destruct (ch_ended c); [by intros [= _ ->] |].
  destruct (take_ended l) as [[pid' l'']|]; [|done]. simpl. intros [= -> <-]. simpl. f_equal. auto.
Qed.
Lemma take_ended_None l : take_ended l = None → length (filter (λ c, ch_ended c = true) l) = 0%nat.
Proof.
  induction l as [|c l IH]; [done |]. simpl. destruct (ch_ended c) eqn:E; [done |].
  destruct (take_ended l) as [[]|]; [done |]. intros _. rewrite filter_cons_False by (by rewrite E). auto.
Qed.
#[local] Instance box_laws : MachineLaws.
Proof.
  split; simpl.
  - intros d k. lia.
  - intros. lia.
  - intros k. destruct (take_ended _) as [[]|]; simpl; lia.
  - intros. lia.
  - intros k. destruct (take_ended _) as [[pid l']|] eqn:E; simpl.
    + intros _. apply take_ended_Some in E. simpl. lia.
    + by destruct (bx_children k).
Defined.
#[local] Instance box_zombies : ZombieLaws.
Proof.
  exists ended_children; simpl; intros k.
  - destruct (take_ended _) as [[pid l']|]; simpl; [by left |]. destruct (bx_children k); auto.
  - destruct (take_ended _) as [[pid l']|] eqn:E; simpl; [naive_solver |]. intros _. by apply take_ended_None.
Defined.

(** Process 1 with three children, one of which ignores [SIGTERM]. *)
Definition panicking : Mach :=
  mkBox 0 [mkChild 20 false false; mkChild 21 true false; mkChild 22 false false] ∅ [] ∅
    (mkMbr (mkPartitionEntry 0 0 0 0) (mkPartitionEntry 0 0 0 0) (mkPartitionEntry 0 0 0 0)
       (mkPartitionEntry 0 0 0 0) []) [].
Lemma panic_reboots_witness :
  (panic_hook panicking).1.1 = true ∧ length (act_out panic_hook panicking) = 50%nat ∧
  bx_children (act_state panic_hook panicking) = [].
Proof.
  split; [|split; vm_compute; reflexivity].
  pose proof (panic_reboots panicking) as Hp. destruct (panic_hook panicking) as [[ended k'] o].
  exact (proj1 Hp).
Defined.
End SystemExample.
