(* ===== verification/Output.v ===== *)
(** * The output of workers

    [stream_to_logger] of [src/src/services/supervisor.rs]: what a worker writes
    to its standard output is read by process 1, line by line, and written to the
    log ([log_raw] of [src/src/logging.rs]).  The worker's own log lines arrive
    as they were written; and a line that makes the formatting panic reaches the
    panic hook of [System]. *)

From Stdlib Require Import ZArith Lia.
From stdpp Require Import base gmap list strings.
From S2P Require Import Prelude NetAddr Hostname Text Utf8 Config Logging System.

#[local] Open Scope Z_scope.

(** ** Reading lines *)

(** [iter.map_while(f)] *)
Fixpoint map_while {A B} (f : A → option B) (l : list A) : list B :=
  match l with
  | [] => []
  | x :: l => match f x with Some y => y :: map_while f l | None => [] end
  end.
(** [reader.lines().map_while(Result::ok)]: the lines up to the first that is
    not text. *)
Definition read_lines (bytes : list Z) : list str := map_while utf8_decode (lines bytes).

Section relay.
Context `{Chrono}.
Open Scope router_scope.

(** The loop of [stream_to_logger], on the lines from number [i] on; the world
    answers each line in its turn. *)
Fixpoint log_lines (env : nat → LogEnv) (i : nat) (ls : list str) (s : LogState) :
    Outcome (LogState * list LogOut) :=
  match ls with
  | [] => Returned (s, [])
  | line :: ls =>
      let! r := log_raw (env i) line s in
      let! rest := log_lines env (S i) ls r.1 in
      Returned (rest.1, r.2 ++ rest.2)
  end.
Definition stream_to_logger (env : nat → LogEnv) (pipe : list Z) (s : LogState) :
    Outcome (LogState * list LogOut) :=
  log_lines env 0 (read_lines pipe) s.
End relay.

(** ** Lines are read back *)




(** ** Which lines can be logged *)

Section lines.
Context `{Chrono}.
Open Scope router_scope.

(** The slice of the test for a time stamp is at the limits of characters. *)
Definition raw_line_ok (line : str) : bool :=
  let trimmed := trim_end line in
  if bool_decide (head trimmed = Some 91) && bool_decide (20 < str_len trimmed)
  then match str_slice 1 5 trimmed with Returned _ => true | Panicked => false end
  else true.

Lemma format_raw_line_ok t line :
  raw_line_ok line = true ↔ ∃ out, format_raw_line t line = Returned out.
Proof.
  unfold raw_line_ok, format_raw_line, format_raw_line_with_explicit_level.
  assert (∀ P : Prop, P → (true = true ↔ P)) as Htrue by tauto.
  set (tagged := rest ← strip_prefix [91] (trim_end line); split_once 93 rest).
  destruct (bool_decide (head (trim_end line) = Some 91) && bool_decide (20 < str_len (trim_end line))).
  - destruct (str_slice 1 5 (trim_end line)) as [year|]; cbn [mbind outcome_bind].
    + apply Htrue. destruct (forallb is_ascii_digit year); [by eexists |].
      destruct tagged as [[service body]|]; by eexists.
    + split; [done |]. by intros [? ?].
  - apply Htrue. cbn [mbind outcome_bind]. destruct tagged as [[service body]|]; by eexists.
Qed.

(** Each line becomes one entry, up to a line that cannot be logged. *)
Lemma log_lines_spec env i ls s :
  if forallb raw_line_ok ls
  then ∃ s' entries, log_lines env i ls s = Returned (s', concat (line_out <$> entries)) ∧
         length entries = length ls ∧
         ∀ j line, ls !! j = Some line →
           ∃ out, entries !! j = Some out ∧ format_raw_line (le_now (env (i + j)%nat)) line = Returned out
  else log_lines env i ls s = Panicked.
Proof.
  revert i s. induction ls as [|line ls IH]; intros i s; simpl.
  { exists s, []. split_and!; [done | done |]. by intros j line. }
  pose proof (format_raw_line_ok (le_now (env i)) line) as Hok. unfold log_raw.
  destruct (raw_line_ok line); cbn [andb].
  - destruct (proj1 Hok eq_refl) as [out E]. rewrite E. cbn [mbind outcome_bind].
    specialize (IH (S i) (write_entry (env i) out s).1).
    destruct (forallb raw_line_ok ls); [|by rewrite IH].
    destruct IH as (s' & entries & -> & Hlen & Hent). exists s', (out :: entries). split_and!.
    + cbn [mbind outcome_bind fst snd]. by rewrite write_entry_out.
    + simpl. by rewrite Hlen.
    + intros [|j] line' Hj; simpl in Hj.
      * injection Hj as <-. exists out. by rewrite Nat.add_0_r.
      * destruct (Hent j line' Hj) as (out' & He & Hf). exists out'. split; [done |].
        by replace (i + S j)%nat with (S i + j)%nat by lia.
  - destruct (format_raw_line (le_now (env i)) line) as [out|] eqn:E; [|done].
    by discriminate (proj2 Hok (ex_intro _ out eq_refl)).
Qed.

(** ** A worker's own log *)

(** Text in one line. *)
Definition one_line (l : str) : Prop := Forall (λ c, is_char c ∧ c ≠ LF) l.
#[global] Instance one_line_dec l : Decision (one_line l).
Proof. unfold one_line. apply _. Defined.










End lines.

(** ** A line that cannot be logged *)

Section task.
Context `{Chrono, !Machine, !MachineLaws}.
Open Scope router_scope.

(** The task of [stream_to_logger] in process 1: a panic runs the hook. *)
Definition output_task (env : nat → LogEnv) (pipe : list Z) (s : LogState) : Sys (option (LogState * list LogOut)) :=
  match stream_to_logger env pipe s with
  | Returned r => mret (Some r)
  | Panicked => panic_hook ;; mret None
  end.

(** C32: What a worker can do with its output.  Whatever bytes a worker writes,
    either every line of text up to the first that is not text becomes exactly
    one entry of the log, the line formatted, and the task touches nothing else;
    or one of the lines starts with a bracket, is longer than twenty bytes and
    has its sixth byte inside a character, and then process 1 runs its panic
    handler, which restarts the machine. *)
Theorem output_task_spec (env : nat → LogEnv) (pipe : list Z) (s : LogState) (k : Mach) :
  let '(r, k', o) := output_task env pipe s k in
  if forallb raw_line_ok (read_lines pipe)
  then k' = k ∧ o = [] ∧
       ∃ s' entries, r = Some (s', concat (line_out <$> entries)) ∧ length entries = length (read_lines pipe) ∧
         ∀ i line, read_lines pipe !! i = Some line →
           ∃ entry, entries !! i = Some entry ∧ format_raw_line (le_now (env i)) line = Returned entry
  else r = None ∧ (mc_getpid = 1 → last o = Some (EvReboot RB_AUTOBOOT)).
Proof.
  pose proof (log_lines_spec env 0 (read_lines pipe) s) as Hspec. unfold output_task, stream_to_logger.
  destruct (forallb raw_line_ok (read_lines pipe)).
  - destruct Hspec as (s' & entries & -> & Hlen & Hent). simpl. split_and!; [done | done |]. by exists s', entries.
  - rewrite Hspec. assert (act_wp (panic_hook ;; mret None) (λ (r : option (LogState * list LogOut)) _ o,
      r = None ∧ (mc_getpid = 1 → last o = Some (EvReboot RB_AUTOBOOT))) k) as Hwp.
    { apply act_wp_bind. eapply act_wp_mono; [apply panic_hook_ends |]. intros ended k' o (_ & _ & Hone).
      wp_call1. split; [done |]. intros Hp. destruct (Hone Hp) as (before & ke & wait & k1 & _ & _ & -> & _).
      rewrite app_nil_r. change (EvFlushLogs :: before ++ ?x) with ([EvFlushLogs] ++ before ++ x).
      rewrite !app_assoc. by rewrite last_app. }
    apply act_wp_eq in Hwp. by destruct ((panic_hook ;; mret None) k) as [[r k'] o].
Qed.
End task.

(** ** Examples *)

Module OutputExample.
#[local] Existing Instances SystemExample.box SystemExample.box_laws.

(** Time stamps of one day. *)
#[local] Instance day : Chrono := {|
  ts_format t := lit "2026-01-01T00:00:0" ++ [48 + t mod 10] ++ lit "Z";
  ts_suffix t := lit "20260101";
  ts_date _ := (2026, 1);
|}.
Definition at_second (n : nat) : LogEnv :=
  mkLogEnv (Z.of_nat n) true None (λ _, Some (mkStatVfs (2 ^ 29) (2 ^ 28) 4096)) true true (λ _, true) true (λ _, true) true.
Definition log_start : LogState := logger_start (at_second 0) ∅.


(** A line that starts with a bracket, then characters of three bytes. *)
Definition bad_line : list Z := utf8_encode (91 :: replicate 7 26085 ++ [LF]).

Lemma output_task_spec_witness :
  (output_task at_second bad_line log_start SystemExample.panicking).1.1 = None ∧
  last (act_out (output_task at_second bad_line log_start) SystemExample.panicking) = Some (EvReboot RB_AUTOBOOT).
Proof.
  pose proof (output_task_spec at_second bad_line log_start SystemExample.panicking) as Hs.
  assert (forallb raw_line_ok (read_lines bad_line) = false) as E by (vm_compute; reflexivity).
  unfold act_out. destruct (output_task at_second bad_line log_start SystemExample.panicking) as [[r k'] o].
  rewrite E in Hs. destruct Hs as [Hr Ho]. split; [exact Hr | exact (Ho eq_refl)].
Defined.
End OutputExample.
