(* ===== verification/Storage.v ===== *)
(** * Storage

    [src/src/init/storage.rs]: the search for the boot partition, the entry of
    the log partition in the partition table, and the mounts of both. *)

From Stdlib Require Import ZArith Lia.
From stdpp Require Import base gmap sets list strings.
From S2P Require Import Prelude NetAddr Text System.

#[local] Open Scope Z_scope.

(** ** Paths *)

(** The components of a path, and [file_name]. *)
Definition path_components (p : str) : list str :=
  filter (λ c, c ≠ [] ∧ c ≠ lit ".") (split SLASH p).
Definition last_name (components : list str) : option str :=
  name ← last components; if bool_decide (name = lit "..") then None else Some name.
Definition file_name (p : str) : option str := last_name (path_components p).
(** [p.parent()], by its components. *)
Definition path_parent (p : str) : option (list str) :=
  match path_components p with [] => None | components => Some (removelast components) end.

Definition BOOT_MOUNT_POINT : str := lit "/boot".
Definition BOOT_MOUNT_TIMEOUT : Duration := from_secs 15.
Definition BOOT_MOUNT_POLL_INTERVAL : Duration := from_millis 100.
Definition MBR_PART_TYPE_FAT32_LBA : Z := 12.
Definition BOOT_INACTIVE : Z := 0.
Definition DEV_NODE_POLL_RETRIES : nat := 50.
Definition DEV_NODE_POLL_INTERVAL : Duration := from_millis 100.

Inductive StorageError :=
| FileError (code : Z)
| BadSectorCount
| ZeroBootSectors
| DiskTooSmall (disk_sectors start_sector : Z)
| ZeroLogSectors
| LbaLimit
| InvalidPath
| NotFirstPartition
| MbrUnreadable
| MountError (code : Z)
| NoParent
| NoBootPartition
| NoDeviceNode (dev : str)
| Timeout
| NotEnded.

(** ** The layout *)

Definition calculate_p2_layout (p1_starting_lba p1_sectors disk_sectors : Z) :
    Result StorageError (Z * Z) :=
  if bool_decide (p1_sectors = 0) then Err ZeroBootSectors else
  let start_sector := u64_saturating_add p1_starting_lba p1_sectors in
  if bool_decide (disk_sectors ≤ start_sector) then Err (DiskTooSmall disk_sectors start_sector) else
  let p2_sectors := disk_sectors - start_sector in
  if bool_decide (p2_sectors = 0) then Err ZeroLogSectors else
  let? p2_lba := ok_or LbaLimit (if decide (start_sector ≤ u32_max) then Some start_sector else None) in
  Ok (p2_lba, Z.min p2_sectors u32_max).

Definition ONE : char := 49.
Definition TWO : char := 50.
Definition derive_p2_device_name (boot_dev : str) : Result StorageError str :=
  let? p1_name := ok_or InvalidPath (file_name boot_dev) in
  if bool_decide (last p1_name = Some ONE) then
    Ok (lit "/dev/" ++ removelast p1_name ++ [TWO])
  else Err NotFirstPartition.

Section storage.
Context `{Machine}.

Definition Sto (A : Type) : Type := Try Mach SysEvent StorageError A.
Definition sto_result {A} (r : Result StorageError A) : Sto A := mret r.
Definition file_result {A} (r : Result Z A) : Result StorageError A :=
  match r with Ok a => Ok a | Err code => Err (FileError code) end.
Definition file_code (e : option Z) : Result StorageError unit := file_result (sys_result e).

Definition get_partition_sectors (p2_name : str) : Sto Z := λ k,
  (let? size_str := file_result (mc_read (lit "/sys/class/block/" ++ p2_name ++ lit "/size") k) in
   ok_or BadSectorCount (parse_uint 64 (trim size_str)), k, []).

Definition reread_partition_table (disk : str) : Sys unit :=
  sys_quiet (λ k, (mc_reread_partitions disk k, tt)).

Definition mbr_read (disk : str) : Sto Mbr := λ k,
  match mc_mbr_read disk k with
  | Some mbr => (Ok mbr, k, [EvMbrRead disk mbr])
  | None => (Err MbrUnreadable, k, [])
  end.
Definition set_mbr_2 (mbr : Mbr) (e : PartitionEntry) : Mbr :=
  mkMbr (mbr_1 mbr) e (mbr_3 mbr) (mbr_4 mbr) (mbr_rest mbr).

Definition write_mbr_partition_2 (parent_disk : str) : Sto unit :=
  let^ disk_name := sto_result (ok_or InvalidPath (file_name parent_disk)) in
  let^ disk_sectors := get_partition_sectors disk_name in
  let^ _ := sys_ask (λ k, file_code (mc_open parent_disk k)) in
  let^ mbr := mbr_read parent_disk in
  let^ layout := sto_result
    (calculate_p2_layout (pe_starting_lba (mbr_1 mbr)) (pe_sectors (mbr_1 mbr)) disk_sectors) in
  let mbr := set_mbr_2 mbr (mkPartitionEntry BOOT_INACTIVE MBR_PART_TYPE_FAT32_LBA layout.1 layout.2) in
  let* r := sys_call (EvMbrWrite parent_disk mbr) (mc_mbr_write parent_disk mbr) in
  let^ _ := sto_result (file_code r) in
  let* r := sys_quiet (mc_sync_file parent_disk) in
  let^ _ := sto_result (file_code r) in
  let* _ := reread_partition_table parent_disk in
  try_ok tt.

Definition format_partition_as_fat32 (p2_dev : str) : Sto unit :=
  let^ _ := sys_ask (λ k, file_code (mc_open p2_dev k)) in
  let* r := sys_call (EvFormat p2_dev) (mc_fat_format p2_dev) in
  let^ _ := sto_result (file_code r) in
  let* r := sys_quiet (mc_sync_file p2_dev) in
  sto_result (file_code r).

(** ** The boot partition *)

Definition BLOCK_DIR : str := lit "/sys/class/block".
Definition BOOT_LABEL : str := lit "TRIMROUTER".
(** [check_partition_entry], for the name of an entry of [BLOCK_DIR]. *)
Definition check_partition_entry (name : str) (k : Mach) : Result StorageError (option (str * str)) :=
  if bool_decide (name = []) then Ok None else
  if negb (mc_exists (BLOCK_DIR ++ [SLASH] ++ name ++ lit "/partition") k) then Ok None else
  let dev_path := lit "/dev/" ++ name in
  match mc_fat_label dev_path k with
  | None => Ok None
  | Some label =>
      if bool_decide (trim label ≠ BOOT_LABEL) then Ok None else
      let? canon_path := file_result (mc_canonicalize (BLOCK_DIR ++ [SLASH] ++ name) k) in
      let? parent := ok_or NoParent (path_parent canon_path) in
      let? parent_name := ok_or NoParent (last_name parent) in
      Ok (Some (dev_path, lit "/dev/" ++ parent_name))
  end.
Fixpoint check_entries (entries : list (Result Z str)) (k : Mach) : Result StorageError (str * str) :=
  match entries with
  | [] => Err NoBootPartition
  | entry :: entries =>
      let? name := file_result entry in
      let? found := check_partition_entry name k in
      match found with Some res => Ok res | None => check_entries entries k end
  end.
Definition find_boot_partition (k : Mach) : Result StorageError (str * str) :=
  let? entries := file_result (mc_read_dir BLOCK_DIR k) in
  check_entries entries k.

(** The loop of [wait_for_boot_partition]. *)
Fixpoint wait_loop (fuel : nat) (start : Instant) : Sto (str * str) :=
  match fuel with
  | O => try_err NotEnded
  | S fuel =>
      let* t := clock_now in
      if bool_decide (duration_since t start < BOOT_MOUNT_TIMEOUT) then
        let* r := sys_ask find_boot_partition in
        match r with
        | Ok res => try_ok res
        | Err _ => let* _ := thread_sleep BOOT_MOUNT_POLL_INTERVAL in wait_loop fuel start
        end
      else try_err Timeout
  end.
Definition wait_fuel : nat := 151.
Definition wait_for_boot_partition : Sto (str * str) :=
  let* start := clock_now in
  wait_loop wait_fuel start.

(** ** The log partition *)

(** The loop of [ensure_log_partition_in_mbr]. *)
Fixpoint poll_node (retries : nat) (dev : str) : Sys bool :=
  match retries with
  | O => mret false
  | S retries =>
      let* there := sys_ask (mc_exists dev) in
      if there : bool then mret true else thread_sleep DEV_NODE_POLL_INTERVAL ;; poll_node retries dev
  end.
Definition ensure_log_partition_in_mbr (boot_dev parent_disk : str) : Sto unit :=
  let^ p2_dev_path := sto_result (derive_p2_device_name boot_dev) in
  let^ p2_name := sto_result (ok_or InvalidPath (file_name p2_dev_path)) in
  let* there := sys_ask (mc_exists (BLOCK_DIR ++ [SLASH] ++ p2_name)) in
  if there : bool then try_ok tt else
  let^ _ := write_mbr_partition_2 parent_disk in
  let* found := poll_node DEV_NODE_POLL_RETRIES p2_dev_path in
  if found : bool then try_ok tt else try_err (NoDeviceNode p2_dev_path).

(** ** Mounts *)

Definition boot_mount (boot_dev : str) : MountCall :=
  mkMountCall (Some boot_dev) BOOT_MOUNT_POINT (lit "vfat") MS_RDONLY None.
Definition mount_boot_partition (boot_dev : str) : Sto unit :=
  let* _ := sys_quiet (mc_create_dir_all BOOT_MOUNT_POINT) in
  let* r := RealSystem_mount (boot_mount boot_dev) in
  match r with None => try_ok tt | Some code => try_err (MountError code) end.

Definition LOG_MOUNT_POINT : str := lit "/var/log".
Definition log_mount (p2_dev_path : str) : MountCall :=
  mkMountCall (Some p2_dev_path) LOG_MOUNT_POINT (lit "vfat") 0 None.
Definition setup_log_partition (boot_dev : str) : Sto unit :=
  let^ p2_dev_path := sto_result (derive_p2_device_name boot_dev) in
  let* _ := sys_quiet (mc_create_dir_all LOG_MOUNT_POINT) in
  let* r := RealSystem_mount (log_mount p2_dev_path) in
  let^ _ :=
    match r with
    | None => try_ok tt
    | Some _ =>
        let^ _ := format_partition_as_fat32 p2_dev_path in
        let* r := RealSystem_mount (log_mount p2_dev_path) in
        match r with None => try_ok tt | Some code => try_err (MountError code) end
    end in
  let* _ := act_emit EvOpenLog in
  try_ok tt.
End storage.

(** ** The layout is right *)

Lemma calculate_p2_layout_Ok p1_lba p1_sectors disk_sectors lba len :
  is_u32 p1_lba → is_u32 p1_sectors → is_u64 disk_sectors →
  calculate_p2_layout p1_lba p1_sectors disk_sectors = Ok (lba, len) →
  p1_sectors ≠ 0 ∧ lba = p1_lba + p1_sectors ∧ is_u32 lba ∧ is_u32 len ∧ 0 < len ∧
  lba + len ≤ disk_sectors ∧ (lba + len = disk_sectors ∨ len = u32_max).
Proof.
  unfold is_u, calculate_p2_layout, u64_saturating_add, u64_max, u32_max. intros Hl Hs Hd.
  case_bool_decide; [done |]. case_bool_decide; [done |]. case_bool_decide; [done |].
  case_decide; [|done]. simpl. intros [= <- <-]. lia.
Qed.

(** C20: The log partition fills the rest of the disk.  For every start and size
    of the boot partition and every size of the disk, the computed entry begins
    at the first sector after the boot partition, is not empty, does not reach
    beyond the disk, fits the 32-bit fields of the table, and ends with the disk
    unless the length is the largest that can be written.  An error means that
    the boot partition is empty, that nothing is left of the disk, or that the
    first free sector has no 32-bit address. *)
Theorem log_partition_layout p1_lba p1_sectors disk_sectors :
  is_u32 p1_lba → is_u32 p1_sectors → is_u64 disk_sectors →
  match calculate_p2_layout p1_lba p1_sectors disk_sectors with
  | Ok (lba, len) =>
      p1_sectors ≠ 0 ∧ lba = p1_lba + p1_sectors ∧ is_u32 lba ∧ is_u32 len ∧ 0 < len ∧
      lba + len ≤ disk_sectors ∧ (lba + len = disk_sectors ∨ len = u32_max)
  | Err ZeroBootSectors => p1_sectors = 0
  | Err (DiskTooSmall size required) =>
      size = disk_sectors ∧ required = p1_lba + p1_sectors ∧ disk_sectors ≤ required ∧ p1_sectors ≠ 0
  | Err LbaLimit => 2 ^ 32 ≤ p1_lba + p1_sectors < disk_sectors ∧ p1_sectors ≠ 0
  | Err _ => False
  end.
Proof.
  intros Hl Hs Hd. destruct (calculate_p2_layout _ _ _) as [[lba len]|e] eqn:E.
  { by eapply calculate_p2_layout_Ok. }
  revert E. unfold is_u in *. unfold calculate_p2_layout.
  case_bool_decide as Hz; [by intros [= <-] |].
  assert (u64_saturating_add p1_lba p1_sectors = p1_lba + p1_sectors) as ->
    by (unfold u64_saturating_add, u64_max; lia).
  case_bool_decide as Hle; [intros [= <-]; lia |]. rewrite bool_decide_false by lia.
  unfold u32_max in *. case_decide as Hmax; simpl; [done |]. intros [= <-]. lia.
Qed.

(** ** What boot does to the disk *)

(** A table that differs from [t] in its second entry only, which follows the
    first partition and is not empty. *)
Definition only_second (t t' : Mbr) : Prop :=
  ∃ e, t' = set_mbr_2 t e ∧ pe_sys e = MBR_PART_TYPE_FAT32_LBA ∧ pe_boot e = BOOT_INACTIVE ∧
    pe_starting_lba e = pe_starting_lba (mbr_1 t) + pe_sectors (mbr_1 t) ∧
    is_u32 (pe_starting_lba e) ∧ is_u32 (pe_sectors e) ∧ 0 < pe_sectors e.
Definition entry_widths (e : PartitionEntry) : Prop := is_u32 (pe_starting_lba e) ∧ is_u32 (pe_sectors e).

(** When an action is right, after the actions [pre]: the table is changed in
    its second entry, on the disk of the boot partition, from what was just read
    there; a device is formatted only when mounting it for the logs failed; and
    the boot partition is mounted to be read only. *)
Definition disk_action_ok (boot_dev disk : str) (pre : list SysEvent) (e : SysEvent) : Prop :=
  match e with
  | EvMbrWrite d t' => d = disk ∧ ∃ pre' t, pre = pre' ++ [EvMbrRead d t] ∧ (entry_widths (mbr_1 t) → only_second t t')
  | EvFormat dev =>
      derive_p2_device_name boot_dev = Ok dev ∧ dev ≠ boot_dev ∧
      ∃ code, EvMount (log_mount dev) (Some code) ∈ pre
  | EvMount c _ =>
      mc_source c = Some boot_dev → mc_target c = BOOT_MOUNT_POINT ∧ Z.land (mc_flags c) MS_RDONLY = MS_RDONLY
  | _ => True
  end.
Definition disk_safe (boot_dev disk : str) (o : list SysEvent) : Prop :=
  ∀ pre e post, o = pre ++ e :: post → disk_action_ok boot_dev disk pre e.

Lemma disk_action_later boot_dev disk before pre e :
  disk_action_ok boot_dev disk pre e → disk_action_ok boot_dev disk (before ++ pre) e.
Proof.
  destruct e; simpl; try done.
  - intros [-> (pre' & t & -> & Ht)]. split; [done |]. exists (before ++ pre'), t. by rewrite app_assoc.
  - intros (Hd & Hne & code & Hc). split_and!; [done | done |]. exists code. set_solver.
Qed.
Lemma disk_safe_app boot_dev disk o1 o2 :
  disk_safe boot_dev disk o1 → disk_safe boot_dev disk o2 → disk_safe boot_dev disk (o1 ++ o2).
Proof.
  intros H1 H2 pre e post E. apply app_eq_app in E as (l & [[E1 E2]|[-> E2]]).
  - destruct l as [|x l]; simpl in *.
    + subst o2. rewrite app_nil_r in E1. subst o1. rewrite <-(app_nil_r pre). apply disk_action_later. by eapply (H2 []).
    + injection E2 as -> E2. by eapply H1.
  - apply disk_action_later. by eapply H2.
Qed.
Lemma disk_safe_nil boot_dev disk : disk_safe boot_dev disk [].
Proof. intros pre e post E. by destruct pre. Qed.
Lemma disk_safe_quiet boot_dev disk e : disk_action_ok boot_dev disk [] e → disk_safe boot_dev disk [e].
Proof.
  intros He pre e' post E. destruct pre as [|x pre]; [by injection E as <- _ |]. by destruct pre.
Qed.

Create HintDb disk.
#[export] Hint Resolve disk_safe_app disk_safe_nil disk_safe_quiet : disk.
#[export] Hint Extern 1 (disk_action_ok _ _ _ _) => exact I : disk.

(** The last character of a path that does not end in a slash or a dot is that
    of its file name. *)
Lemma split_last_char c s x : x ≠ c → last s = Some x → ∃ w, last (split c s) = Some w ∧ last w = Some x.
Proof.
  intros Hx. induction s as [|y s IH]; [done |]. intros Hl.
  change (split c (y :: s)) with
    (if decide (y = c) then [] :: split c s
     else match split c s with [] => [[y]] | h :: t => (y :: h) :: t end).
  destruct s as [|z s].
  - injection Hl as ->. rewrite decide_False by done. by exists [x].
  - specialize (IH Hl). revert IH. generalize (split c (z :: s)). intros l (w & Hw & Hwx).
    destruct (decide (y = c)); [exists w; split; [by rewrite last_cons, Hw | done] |].
    destruct l as [|w0 [|w1 ws]]; [done | | by exists w].
    injection Hw as ->. exists (y :: w). split; [done |]. by rewrite last_cons, Hwx.
Qed.
Lemma file_name_last p x :
  x ≠ SLASH → x ≠ 46 → last p = Some x → ∃ name, file_name p = Some name ∧ last name = Some x.
Proof.
  intros Hs Hd Hl. destruct (split_last_char SLASH p x Hs Hl) as (w & Hw & Hwx).
  exists w. split; [|done]. apply last_Some in Hw as [l Hw]. unfold file_name, path_components.
  rewrite Hw, filter_app, filter_cons_True, filter_nil.
  2: { split; [by intros -> | intros ->; simpl in Hwx; by injection Hwx as <-]. }
  unfold last_name. rewrite last_snoc. simpl. rewrite bool_decide_false; [done |].
  intros ->. simpl in Hwx. by injection Hwx as <-.
Qed.
(** The device of the log partition is not that of the boot partition. *)
Lemma derive_p2_other boot_dev dev : derive_p2_device_name boot_dev = Ok dev → dev ≠ boot_dev.
Proof.
  unfold derive_p2_device_name. intros Hd Heq. inv_ok. case_bool_decide as Hl; [|done]. injection Hd as <-.
  assert (last boot_dev = Some TWO) as Hb by (rewrite <-Heq; exact (last_snoc TWO (lit "/dev/" ++ removelast _))).
  destruct (file_name_last boot_dev TWO ltac:(done) ltac:(done) Hb) as (name & Hn & Ht). naive_solver.
Qed.

Section disk.
Context `{Machine}.

Lemma get_partition_sectors_range name k n :
  act_result (get_partition_sectors name) k = Ok n → is_u64 n.
Proof. intros Hr. unfold act_result in Hr. simpl in Hr. inv_ok. by eapply parse_uint_range. Qed.

(** The table that is written. *)
Lemma write_mbr_disk boot_dev disk k :
  act_wp (write_mbr_partition_2 disk) (λ _ _ o, disk_safe boot_dev disk o) k.
Proof.
  unfold write_mbr_partition_2. wp_try. destruct (file_name disk) as [name|]; simpl; [|by auto with disk].
  apply act_wp_try. apply act_wp_eq. simpl. pose proof (get_partition_sectors_range name k) as Hrange.
  unfold act_result, get_partition_sectors in Hrange. simpl in Hrange.
  destruct (let? size_str := _ in _) as [sectors|e]; [|by auto with disk]. specialize (Hrange _ eq_refl).
  wp_try. destruct (file_code _); [|by auto with disk]. apply act_wp_try. apply act_wp_eq. unfold mbr_read.
  destruct (mc_mbr_read disk k) as [t|]; [|by auto with disk].
  assert (disk_safe boot_dev disk [EvMbrRead disk t]) as Hread by auto with disk.
  wp_try. destruct (calculate_p2_layout _ _ _) as [[lba len]|] eqn:El; [|by auto with disk].
  set (t' := set_mbr_2 t _). assert (disk_safe boot_dev disk [EvMbrRead disk t; EvMbrWrite disk t']) as Hwrite.
  { intros pre e post E. destruct pre as [|e1 [|e2 pre]]; [by injection E as <- _ | | by destruct pre].
    injection E as <- <- _. split; [done |]. exists [], t. split; [done |]. intros [Hl Hs].
    pose proof (calculate_p2_layout_Ok _ _ _ _ _ Hl Hs Hrange El) as Hlay.
    eexists. split; [reflexivity |]. simpl. tauto. }
  wp_next. wp_try. destruct (file_code _); [|by auto with disk]. wp_next.
  wp_try. destruct (file_code _); [|by auto with disk]. wp_next. wp_call1. by auto with disk.
Qed.

Lemma poll_node_disk boot_dev disk n dev k :
  act_wp (poll_node n dev) (λ _ _ o, disk_safe boot_dev disk o) k.
Proof.
  revert k. induction n as [|n IH]; intros k; cbn [poll_node]; [wp_call1; by auto with disk |].
  wp_next. destruct (mc_exists dev k); [wp_call1; by auto with disk |]. wp_next.
  eapply act_wp_mono; [apply IH |]. intros r k' o Ho. apply (disk_safe_app _ _ [_]); auto with disk.
Qed.
Lemma ensure_log_partition_disk boot_dev disk k :
  act_wp (ensure_log_partition_in_mbr boot_dev disk) (λ _ _ o, disk_safe boot_dev disk o) k.
Proof.
  unfold ensure_log_partition_in_mbr. wp_try. destruct (derive_p2_device_name boot_dev) as [dev|]; [|by auto with disk].
  wp_try. destruct (ok_or _ _); [|by auto with disk]. wp_next.
  destruct (mc_exists _ _); [wp_call1; by auto with disk |].
  apply act_wp_try. eapply act_wp_mono; [apply (write_mbr_disk boot_dev) |]. intros [[]|] k1 o1 Ho1; [|done].
  apply act_wp_bind. eapply act_wp_mono; [apply (poll_node_disk boot_dev disk) |]. intros [] k2 o2 Ho2; wp_call1;
    simpl; auto with disk.
Qed.

(** A mount, with its action. *)
Lemma wp_mount c Q k :
  (mc_getpid ≠ 1 → Q None k []) →
  (mc_getpid = 1 → let '(k', r) := mc_mount c (mc_create_dir_all (mc_target c) k).1 in Q r k' [EvMount c r]) →
  act_wp (RealSystem_mount c) Q k.
Proof.
  intros H1 H2. apply act_wp_eq. unfold RealSystem_mount. case_bool_decide as Hp; [auto |].
  specialize (H2 ltac:(lia)). by destruct (mc_mount _ _).
Qed.

Lemma mount_boot_disk boot_dev disk k :
  act_wp (mount_boot_partition boot_dev)
    (λ r _ o, disk_safe boot_dev disk o ∧
       (mc_getpid = 1 → r = Ok tt → EvMount (boot_mount boot_dev) None ∈ o)) k.
Proof.
  unfold mount_boot_partition. wp_next. apply act_wp_bind.
  assert (∀ r, disk_safe boot_dev disk [EvMount (boot_mount boot_dev) r]) as Hm
    by (intros r; by apply disk_safe_quiet).
  apply wp_mount.
  - intros ?. wp_call1. split; [by auto with disk | done].
  - intros _. destruct (mc_mount _ _) as [k' [code|]]; wp_call1; simpl; (split; [done |]); [done |].
    intros _ _. set_solver.
Qed.

Lemma setup_log_disk boot_dev disk k :
  act_wp (setup_log_partition boot_dev) (λ _ _ o, disk_safe boot_dev disk o) k.
Proof.
  unfold setup_log_partition. wp_try. destruct (derive_p2_device_name boot_dev) as [dev|] eqn:Hd; [|by auto with disk].
  assert (dev ≠ boot_dev) as Hne by by eapply derive_p2_other.
  wp_next. apply act_wp_bind.
  assert (∀ r, disk_safe boot_dev disk [EvMount (log_mount dev) r]) as Hm
    by (intros r; apply disk_safe_quiet; simpl; congruence).
  assert (disk_safe boot_dev disk [EvOpenLog]) as Hopen by auto with disk.
  apply wp_mount.
  { intros _. wp_try. wp_next. wp_call1. by auto with disk. }
  intros Hp. destruct (mc_mount _ _) as [k1 [code|]].
  2: { wp_try. wp_next. wp_call1. by apply (disk_safe_app _ _ [_] [_]). }
  apply act_wp_try. apply act_wp_try. unfold format_partition_as_fat32.
  wp_try. destruct (file_code _); [|simpl; by auto with disk]. wp_next.
  assert (disk_safe boot_dev disk [EvMount (log_mount dev) (Some code); EvFormat dev]) as Hf.
  { intros pre e post E. destruct pre as [|e1 [|e2 pre]]; [injection E as <- _; simpl; congruence | | by destruct pre].
    injection E as <- <- _. split_and!; [done | done |]. exists code. set_solver. }
  wp_try. destruct (file_code _); [|done]. wp_next. wp_call1.
  destruct (file_code _); [|done]. apply act_wp_bind. apply wp_mount.
  - intros _. wp_call1. wp_next. wp_call1. simpl.
    by apply (disk_safe_app _ _ [_; _] [_]).
  - intros _. destruct (mc_mount _ _) as [k5 [code'|]]; wp_call1.
    + by apply (disk_safe_app _ _ [_; _] [_]).
    + wp_next. wp_call1. simpl. apply (disk_safe_app _ _ [_; _] [_; _]); [done |].
      by apply (disk_safe_app _ _ [_] [_]).
Qed.
End disk.

(** ** The search for the boot partition *)

Section search.
Context `{Machine}.

(** The partition that is taken carries the label; the disk is the directory
    that holds the partition among the kernel's devices. *)
Lemma check_partition_entry_Some name k dev disk :
  check_partition_entry name k = Ok (Some (dev, disk)) →
  dev = lit "/dev/" ++ name ∧
  mc_exists (BLOCK_DIR ++ [SLASH] ++ name ++ lit "/partition") k = true ∧
  (∃ label, mc_fat_label dev k = Some label ∧ trim label = BOOT_LABEL) ∧
  (∃ canon parent parent_name,
     mc_canonicalize (BLOCK_DIR ++ [SLASH] ++ name) k = Ok canon ∧ path_parent canon = Some parent ∧
     last_name parent = Some parent_name ∧ disk = lit "/dev/" ++ parent_name).
Proof.
  unfold check_partition_entry. case_bool_decide; [done |].
  destruct (mc_exists _ k) eqn:He; simpl; [|done].
  destruct (mc_fat_label _ k) as [label|] eqn:Hl; [|done]. case_bool_decide as Ht; [done |].
  intros Hr. apply bind_Ok in Hr as (canon & Hc & Hr). apply bind_Ok in Hr as (parent & Hp & Hr).
  apply bind_Ok in Hr as (pname & Hn & Hr). apply ok_or_Ok in Hp, Hn. injection Hr as <- <-.
  split_and!; [done | done | |].
  - exists label. split; [done |]. by destruct (decide (trim label = BOOT_LABEL)).
  - exists canon, parent, pname. split_and!; [|done..].
    destruct (mc_canonicalize _ k); simpl in Hc; congruence.
Qed.
Lemma find_boot_partition_Ok k dev disk :
  find_boot_partition k = Ok (dev, disk) →
  ∃ entries name, mc_read_dir BLOCK_DIR k = Ok entries ∧ Ok name ∈ entries ∧
    check_partition_entry name k = Ok (Some (dev, disk)).
Proof.
  unfold find_boot_partition. destruct (mc_read_dir BLOCK_DIR k) as [entries|]; [|done]. simpl.
  intros Hc. exists entries. revert Hc. clear. induction entries as [|[name|code] entries IH]; simpl; [done | | done].
  destruct (check_partition_entry name k) as [[[dev' disk']|]|] eqn:Hn; simpl; [| |done].
  - intros [= -> ->]. exists name. split_and!; [done | set_solver | done].
  - intros (name' & _ & Hin & Hn')%IH. exists name'. split_and!; [done | set_solver | done].
Qed.
End search.

Section wait.
Context `{Machine, !MachineLaws}.

Lemma wait_loop_ends fuel start k :
  start ≤ mc_now k → start + BOOT_MOUNT_TIMEOUT ≤ mc_now k + Z.of_nat fuel * BOOT_MOUNT_POLL_INTERVAL →
  act_wp (wait_loop (S fuel) start)
    (λ r k' o, sleeps BOOT_MOUNT_POLL_INTERVAL o ∧
       match r with
       | Ok res => find_boot_partition k' = Ok res
       | Err e => e = Timeout ∧ start + BOOT_MOUNT_TIMEOUT ≤ mc_now k'
       end) k.
Proof.
  revert k. induction fuel as [|fuel IH]; intros k Hs Hf.
  all: wp_next; case_bool_decide as Hd; unfold duration_since in Hd; [|wp_call1; split_and!; [constructor | done | lia]].
  { lia. }
  wp_next. destruct (find_boot_partition k) as [res|] eqn:Hfound; [wp_call1; split; [constructor | done] |].
  wp_next. pose proof (sleep_law BOOT_MOUNT_POLL_INTERVAL k) as Hsl.
  assert (0 ≤ BOOT_MOUNT_POLL_INTERVAL) by done.
  eapply act_wp_mono; [apply IH; lia |]. intros r k2 o2 [Ho Hr]. split; [by constructor | done].
Qed.
(** The search always ends: with the partition, or when the time is over. *)
Lemma wait_for_boot_partition_ends k :
  act_wp wait_for_boot_partition
    (λ r k' o, sleeps BOOT_MOUNT_POLL_INTERVAL o ∧
       match r with
       | Ok res => find_boot_partition k' = Ok res
       | Err e => e = Timeout ∧ mc_now k + BOOT_MOUNT_TIMEOUT ≤ mc_now k'
       end) k.
Proof.
  unfold wait_for_boot_partition. wp_next.
  eapply act_wp_mono; [apply (wait_loop_ends 150); [lia |] |].
  { unfold BOOT_MOUNT_TIMEOUT, BOOT_MOUNT_POLL_INTERVAL, from_secs, from_millis, NANOS. lia. }
  by intros r k' o Hr.
Qed.
End wait.

Module StorageExample.
Import SystemExample.
#[local] Existing Instance box.

(** 120 MiB from the first MiB on a disk of 16 GiB. *)
Lemma log_partition_layout_witness :
  calculate_p2_layout 2048 245760 33554432 = Ok (247808, 33306624) ∧
  247808 + 33306624 ≤ 33554432.
Proof.
  split; [reflexivity |].
  pose proof (log_partition_layout 2048 245760 33554432 ltac:(done) ltac:(done) ltac:(done)) as H.
  simpl in H. exact (proj1 (proj2 (proj2 (proj2 (proj2 (proj2 H)))))).
Defined.

Definition empty_entry : PartitionEntry := mkPartitionEntry 0 0 0 0.
Definition boot_entry : PartitionEntry := mkPartitionEntry 128 12 2048 245760.
(** A disk on which a third partition was made behind the boot partition. *)
Definition data_entry : PartitionEntry := mkPartitionEntry 0 131 1048576 2097152.
Definition disk_with (third : PartitionEntry) : Mach :=
  mkBox 0 []
    (list_to_map [(lit "/sys/class/block/sda1/partition", lit "1"); (lit "/sys/class/block/sda/size", lit "33554432");
                  (lit "/dev/sda", []); (lit "/dev/sda1", [])])
    [lit "sda"; lit "sda1"] {[lit "/dev/sda1" := lit "TRIMROUTER "]}
    (mkMbr boot_entry empty_entry third empty_entry []) [lit "sda2"].

(** The first boot: the entry is written, the new partition is formatted after
    the first mount failed, and mounted. *)
Example first_boot :
  let k := disk_with empty_entry in
  let k1 := act_state (ensure_log_partition_in_mbr (lit "/dev/sda1") (lit "/dev/sda")) k in
  find_boot_partition k = Ok (lit "/dev/sda1", lit "/dev/sda") ∧
  mbr_2 (bx_table k1) = mkPartitionEntry 0 12 247808 33306624 ∧
  act_out (setup_log_partition (lit "/dev/sda1")) k1 =
    [EvMount (log_mount (lit "/dev/sda2")) (Some 22); EvFormat (lit "/dev/sda2");
     EvMount (log_mount (lit "/dev/sda2")) None; EvOpenLog].
Proof. vm_compute. split_and!; reflexivity. Qed.

(** The entries behind the second are not looked at: the new partition takes the
    place of a third one, which is then overwritten. *)
Example third_partition_overlapped :
  let k := disk_with data_entry in
  let t := bx_table (act_state (ensure_log_partition_in_mbr (lit "/dev/sda1") (lit "/dev/sda")) k) in
  mbr_3 t = data_entry ∧ pe_starting_lba (mbr_2 t) < pe_starting_lba (mbr_3 t) ∧
  pe_starting_lba (mbr_3 t) + pe_sectors (mbr_3 t) < pe_starting_lba (mbr_2 t) + pe_sectors (mbr_2 t).
Proof. vm_compute. split_and!; reflexivity. Qed.
End StorageExample.
