(* ===== verification/Power.v ===== *)
(** * Reaping and power

    [src/src/init/reaper.rs], which waits for the processes that ended, and
    [src/src/init/power.rs], which turns the machine off on a signal or a
    key. *)

From Stdlib Require Import ZArith Lia.
From stdpp Require Import base gmap sets list strings.
From S2P Require Import Prelude NetAddr Text System.

#[local] Open Scope Z_scope.

(** ** The reaper *)

Section reaper.
Context `{Machine}.

Definition try_reap_zombie : Sys bool :=
  let* r := RealSystem_waitpid in
  match r with
  | Ok (Exited _ _) => mret true
  | Ok (Signaled _ _) => mret true
  | Ok StillAlive => mret false
  | Err _ => mret false
  | Ok OtherStatus => mret false
  end.
(** The loop of [reap_zombies]; whether it ended. *)
Fixpoint reap_zombies_loop (fuel : nat) : Sys bool :=
  match fuel with
  | O => mret false
  | S fuel => let* again := try_reap_zombie in if again : bool then reap_zombies_loop fuel else mret true
  end.
Definition reap_zombies : Sys bool := λ k, reap_zombies_loop (S (mc_processes k)) k.

(** A turn of a loop that waits: what it reads from the shutdown flag, and what
    the machine does while it waits. *)
Definition Turn : Type := bool * (Mach → Mach).

(** The two loops; they end when a wait did not or when the flag is set. *)
Fixpoint sigchld_loop (turns : list Turn) : Sys bool :=
  match turns with
  | [] => mret true
  | (shutdown, evolve) :: turns =>
      if shutdown : bool then mret true else
      act_modify evolve ;;
      let* ended := reap_zombies in
      if ended : bool then sigchld_loop turns else mret false
  end.
Fixpoint fallback_polling_reaper (turns : list Turn) : Sys bool :=
  match turns with
  | [] => mret true
  | (shutdown, evolve) :: turns =>
      if shutdown : bool then mret true else
      let* ended := reap_zombies in
      act_modify evolve ;;
      if ended : bool then fallback_polling_reaper turns else mret false
  end.
Definition start_orphan_reaper (signal_ok : bool) (turns : list Turn) : Sys bool :=
  if signal_ok then sigchld_loop turns else fallback_polling_reaper turns.
End reaper.

(** ** Power *)

Record InputEvent := mkInputEvent { ie_type : Z; ie_code : Z; ie_value : Z }.
Definition EV_KEY : Z := 1.
Definition KEY_POWER : Z := 116.
Definition KEY_SLEEP : Z := 142.
Definition KEY_POWER2 : Z := 356.
Definition is_power_event (e : InputEvent) : bool :=
  bool_decide (ie_type e = EV_KEY) &&
  (bool_decide (ie_code e = KEY_POWER) || bool_decide (ie_code e = KEY_POWER2) ||
   bool_decide (ie_code e = KEY_SLEEP)) &&
  bool_decide (ie_value e = 1).

Definition MAX_INPUT_EVENT_DEVICES : nat := 32.
Definition SIGNAL_SHUTDOWN_GRACE_PERIOD : Duration := from_millis 500.

Section power.
Context `{Machine}.

Definition execute_clean_poweroff : Sys unit :=
  flush_logs ;;
  RealSystem_sync ;;
  flush_logs ;;
  let* r := RealSystem_reboot RB_POWER_OFF in
  match r with
  | Some _ => RealSystem_reboot RB_AUTOBOOT ;; mret tt
  | None => mret tt
  end.

(** The events a device delivers, or an error. *)
Fixpoint monitor_events (stream : list (option InputEvent)) : Sys unit :=
  match stream with
  | Some event :: stream =>
      if is_power_event event then act_emit EvShutdownFlag ;; execute_clean_poweroff else monitor_events stream
  | None :: _ | [] => mret tt
  end.
Definition monitor_single_power_device (stream : option (list (option InputEvent))) : Sys unit :=
  match stream with Some stream => monitor_events stream | None => mret tt end.

(** Whether the handlers of the three signals could be bound, and whether one of
    the signals came.  The result tells whether the task ended. *)
Definition start_signal_monitor (sigint_ok sigterm_ok sigpwr_ok received : bool) : Sys bool :=
  if negb sigint_ok then mret true else
  if negb sigterm_ok then mret true else
  if negb sigpwr_ok then mret true else
  if negb received then mret false else
  act_emit EvShutdownFlag ;;
  thread_sleep SIGNAL_SHUTDOWN_GRACE_PERIOD ;;
  execute_clean_poweroff ;;
  mret true.
End power.

(** The scan for devices: those that were opened before, those that can be
    opened now, and those for which a monitor is started. *)
Definition event_path (i : nat) : str := lit "/dev/input/event" ++ int_display (Z.of_nat i).
Fixpoint scan_devices (paths : list str) (openable : str → bool) (opened : gset str) :
    gset str * list str :=
  match paths with
  | [] => (opened, [])
  | path :: paths =>
      if bool_decide (path ∉ opened) && openable path then
        let '(opened, started) := scan_devices paths openable ({[path]} ∪ opened) in
        (opened, path :: started)
      else scan_devices paths openable opened
  end.
Fixpoint power_button_loop (scans : list (bool * (str → bool))) (opened : gset str) : list str :=
  match scans with
  | [] => []
  | (shutdown, openable) :: scans =>
      if shutdown : bool then [] else
      let '(opened, started) := scan_devices (event_path <$> seq 0 MAX_INPUT_EVENT_DEVICES) openable opened in
      started ++ power_button_loop scans opened
  end.
Definition start_power_button_monitor (scans : list (bool * (str → bool))) : list str :=
  power_button_loop scans ∅.

(** ** No process is left unwaited for *)

Section reaping.
Context `{Machine, !MachineLaws}.

(** Every reaping comes to its end, whatever the kernel answers. *)
Lemma reap_zombies_loop_terminates fuel k :
  (mc_processes k < fuel)%nat → act_result (reap_zombies_loop fuel) k = true.
Proof.
  intros Hf. enough (act_wp (reap_zombies_loop fuel) (λ ended _ _, ended = true) k) as Hwp.
  { apply act_wp_eq in Hwp. unfold act_result. by destruct (reap_zombies_loop fuel k) as [[ended ?] ?]. }
  revert k Hf. induction fuel as [|fuel IH]; intros k Hf; [lia |]. cbn [reap_zombies_loop].
  apply act_wp_bind. unfold try_reap_zombie. wp_next. pose proof (waitpid_reaps k) as Hr.
  destruct (mc_waitpid k) as [k' [[pid code|pid sig| |]|code]]; simpl in *; wp_call1.
  1, 2: eapply act_wp_mono; [apply IH; specialize (Hr eq_refl); lia | done].
  all: by wp_call1.
Qed.
Lemma reap_zombies_terminates k : act_result reap_zombies k = true.
Proof. exact (reap_zombies_loop_terminates _ k (Nat.lt_succ_diag_r _)). Qed.

Context `{!ZombieLaws}.

Lemma reap_zombies_loop_ends fuel k :
  (mc_processes k < fuel)%nat →
  act_wp (reap_zombies_loop fuel) (λ ended k' o, ended = true ∧ zombies k' = 0%nat ∧ o = []) k.
Proof.
  revert k. induction fuel as [|fuel IH]; intros k Hf; [lia |]. cbn [reap_zombies_loop].
  apply act_wp_bind. unfold try_reap_zombie. wp_next.
  pose proof (waitpid_reaps k) as Hr. pose proof (waitpid_outcome k) as Ho. pose proof (waitpid_alive k) as Ha.
  destruct (mc_waitpid k) as [k' [[pid code|pid sig| |]|code]]; simpl in *; wp_call1.
  1, 2: eapply act_wp_mono; [apply IH; specialize (Hr eq_refl); lia |]; by intros r k'' o (-> & Hz & ->).
  - wp_call1. split_and!; [done | by apply Ha; left | done].
  - destruct Ho as [?|[?|?]]; congruence.
  - destruct Ho as [?|[?|?]]; [congruence.. |]. wp_call1. split_and!; [done | by apply Ha; right | done].
Qed.
Lemma reap_zombies_ends k :
  act_wp reap_zombies (λ ended k' o, ended = true ∧ zombies k' = 0%nat ∧ o = []) k.
Proof.
  apply act_wp_eq. unfold reap_zombies. rewrite <-act_wp_eq. apply reap_zombies_loop_ends. lia.
Qed.

Lemma sigchld_loop_reaps turns evolve k :
  Forall (λ t, t.1 = false) turns →
  act_wp (sigchld_loop (turns ++ [(false, evolve)])) (λ ended k' _, ended = true ∧ zombies k' = 0%nat) k.
Proof.
  intros Ht. revert k. induction Ht as [|[shutdown e] turns Hs _ IH]; intros k; simpl in *.
  - apply act_wp_bind. apply act_wp_eq. apply act_wp_bind. eapply act_wp_mono; [apply reap_zombies_ends |].
    intros r k' o (-> & Hz & _). wp_call1. done.
  - subst shutdown. apply act_wp_bind. apply act_wp_eq. apply act_wp_bind.
    eapply act_wp_mono; [apply reap_zombies_ends |]. intros r k' o (-> & Hz & _).
    eapply act_wp_mono; [apply IH |]. naive_solver.
Qed.
Lemma fallback_reaps turns evolve k :
  Forall (λ t, t.1 = false) turns →
  act_wp (fallback_polling_reaper (turns ++ [(false, evolve)]))
    (λ ended k' _, ended = true ∧ ∃ k1, zombies k1 = 0%nat ∧ k' = evolve k1) k.
Proof.
  intros Ht. revert k. induction Ht as [|[shutdown e] turns Hs _ IH]; intros k; simpl in *.
  - apply act_wp_bind. eapply act_wp_mono; [apply reap_zombies_ends |]. intros r k' o (-> & Hz & _).
    apply act_wp_bind. apply act_wp_eq. wp_call1. eauto.
  - subst shutdown. apply act_wp_bind. eapply act_wp_mono; [apply reap_zombies_ends |]. intros r k' o (-> & Hz & _).
    apply act_wp_bind. apply act_wp_eq. eapply act_wp_mono; [apply IH |]. naive_solver.
Qed.

(** C21: Process 1 leaves no ended process unwaited for.  However many turns the
    reaper has taken, and whatever processes ended meanwhile, it has come to the
    end of each of them; and no child that has ended is left after it reaped
    in its last turn, which is after it was woken, or before it sleeps again
    when it has to poll because the signal could not be bound. *)
Theorem reaper_leaves_no_zombies signal_ok turns evolve k :
  Forall (λ t, t.1 = false) turns →
  let run := start_orphan_reaper signal_ok (turns ++ [(false, evolve)]) in
  act_result run k = true ∧
  ∃ k', zombies k' = 0%nat ∧ act_state run k = (if signal_ok then k' else evolve k').
Proof.
  intros Ht run.
  assert (act_wp run (λ ended k1 _, ended = true ∧
    ∃ k', zombies k' = 0%nat ∧ k1 = (if signal_ok then k' else evolve k')) k) as Hwp.
  { unfold run, start_orphan_reaper. destruct signal_ok.
    - eapply act_wp_mono; [by apply sigchld_loop_reaps |]. naive_solver.
    - eapply act_wp_mono; [by apply fallback_reaps |]. naive_solver. }
  apply act_wp_eq in Hwp. unfold act_result, act_state. by destruct (run k) as [[ended k1] o].
Qed.
End reaping.

(** ** Power is turned off cleanly *)

(** Whether a key that turns the machine off is pressed before an error. *)
Fixpoint key_pressed (stream : list (option InputEvent)) : bool :=
  match stream with
  | Some event :: stream => is_power_event event || key_pressed stream
  | _ => false
  end.

Section poweroff.
Context `{Machine}.

(** What is done to turn the machine off, in a given state. *)
Definition poweroff_actions (k : Mach) : list SysEvent :=
  [EvFlushLogs; EvSync; EvFlushLogs; EvReboot RB_POWER_OFF] ++
  match (mc_reboot RB_POWER_OFF (mc_sync k)).2 with Some _ => [EvReboot RB_AUTOBOOT] | None => [] end.
Lemma execute_clean_poweroff_out k : act_wp execute_clean_poweroff (λ _ _ o, o = poweroff_actions k) k.
Proof.
  unfold execute_clean_poweroff, poweroff_actions. do 4 wp_next. destruct (mc_reboot _ _).2.
  - wp_next. by wp_call1.
  - by wp_call1.
Qed.

(** The machine is turned off when it is asked to, and only then.  A device
    that reports a press of the power, second power or sleep key, before it
    fails, makes its monitor set the shutdown flag, write the logs and the file
    systems to the disk and then turn the power off, or restart when that
    fails; other events and devices that fail cause nothing.  A signal does the
    same, half a second after the flag was set. *)
Theorem power_off_is_clean stream k :
  act_out (monitor_single_power_device stream) k =
    (if from_option key_pressed false stream then EvShutdownFlag :: poweroff_actions k else []) ∧
  (∀ received, act_out (start_signal_monitor true true true received) k =
     (if received
      then [EvShutdownFlag; EvSleep SIGNAL_SHUTDOWN_GRACE_PERIOD] ++
           poweroff_actions (mc_sleep SIGNAL_SHUTDOWN_GRACE_PERIOD k)
      else [])).
Proof.
  split.
  - destruct stream as [stream|]; [|done]. simpl. induction stream as [|[e|] stream IH]; [done | | done]. cbn [key_pressed monitor_events].
    destruct (is_power_event e); cbn [orb]; [|exact IH]. apply act_wp_out. wp_next.
    eapply act_wp_mono; [apply execute_clean_poweroff_out |]. by intros u k' o ->.
  - intros [|]; [|done]. apply act_wp_out. unfold start_signal_monitor. cbn [negb]. wp_next. wp_next.
    apply act_wp_bind. eapply act_wp_mono; [apply execute_clean_poweroff_out |].
    intros u k' o ->. wp_call1. by rewrite app_nil_r.
Qed.
End poweroff.

(** ** Devices *)

Lemma scan_devices_spec paths openable opened :
  NoDup paths →
  let '(opened', started) := scan_devices paths openable opened in
  opened' = list_to_set started ∪ opened ∧ NoDup started ∧
  (∀ p, p ∈ started ↔ p ∈ paths ∧ p ∉ opened ∧ openable p = true).
Proof.
  intros Hnd. revert opened. induction Hnd as [|p paths Hp Hnd IH]; intros opened; simpl.
  { split_and!; [set_solver | constructor | set_solver]. }
  assert (∀ r : gset str * list str,
    (r.1 = list_to_set r.2 ∪ opened ∧ NoDup r.2 ∧ (∀ q, q ∈ r.2 ↔ q ∈ paths ∧ q ∉ opened ∧ openable q = true)) →
    ¬ (p ∉ opened ∧ openable p = true) →
    let '(opened', started) := r in
    opened' = list_to_set started ∪ opened ∧ NoDup started ∧
    (∀ q, q ∈ started ↔ q ∈ p :: paths ∧ q ∉ opened ∧ openable q = true)) as Hskip.
  { intros [o' st] (Ho & Hst & Hin) Hno. simpl in *. split_and!; [done | done |]. intros q.
    rewrite Hin, elem_of_cons. split; [tauto |]. intros ([->|Hq] & Hqo & Hop); tauto. }
  destruct (bool_decide_reflect (p ∉ opened)) as [Ho|Ho]; destruct (openable p) eqn:Hop; simpl.
  - specialize (IH ({[p]} ∪ opened)). destruct (scan_devices paths openable ({[p]} ∪ opened)) as [o' st].
    destruct IH as (-> & Hst & Hin). split_and!; [set_solver | |].
    + constructor; [|done]. rewrite Hin. set_solver.
    + intros q. rewrite !elem_of_cons, Hin, elem_of_union, elem_of_singleton. split.
      * intros [->|(Hq & Hno & Hoq)]; [auto |]. split_and!; [by right | tauto | done].
      * intros ([->|Hq] & Hno & Hoq); [by left |]. right. split_and!; [done | |done]. intros [->|?]; done.
  - apply Hskip; [|by intros [_ ?]]. specialize (IH opened). by destruct (scan_devices paths openable opened).
  - apply Hskip; [|by intros [? _]]. specialize (IH opened). by destruct (scan_devices paths openable opened).
  - apply Hskip; [|by intros [? _]]. specialize (IH opened). by destruct (scan_devices paths openable opened).
Qed.

Lemma event_path_inj i j : event_path i = event_path j → i = j.
Proof.
  unfold event_path. intros Heq. apply app_inv_head in Heq.
  pose proof (proj2 (int_display_digits (Z.of_nat i) ltac:(lia))) as Hi.
  pose proof (proj2 (int_display_digits (Z.of_nat j) ltac:(lia))) as Hj. rewrite Heq, Hj in Hi. injection Hi. lia.
Qed.
Lemma event_paths_NoDup : NoDup (event_path <$> seq 0 MAX_INPUT_EVENT_DEVICES).
Proof. apply NoDup_fmap_2; [exact event_path_inj | apply NoDup_seq]. Qed.

(** A monitor is started at most once for every device name, so a device that is
    unplugged and plugged in again under its name is not monitored. *)
Theorem device_monitored_once scans : NoDup (start_power_button_monitor scans).
Proof.
  unfold start_power_button_monitor. generalize (∅ : gset str) as opened.
  enough (∀ opened, NoDup (power_button_loop scans opened) ∧
    ∀ p, p ∈ power_button_loop scans opened → p ∉ opened) as Hall by (intros; apply Hall).
  induction scans as [|[shutdown openable] scans IH]; intros opened; cbn [power_button_loop].
  { split; [constructor | set_solver]. }
  destruct shutdown; [split; [constructor | set_solver] |].
  pose proof (scan_devices_spec _ openable opened event_paths_NoDup) as Hs.
  destruct (scan_devices _ openable opened) as [opened' started]. destruct Hs as (-> & Hnd & Hin).
  destruct (IH (list_to_set started ∪ opened)) as [Hnd' Hout]. split.
  - apply list.NoDup_app. split_and!; [done | | done]. intros p Hp Hp'. apply (Hout p Hp'). set_solver.
  - intros p [Hp|Hp]%elem_of_app; [by apply Hin in Hp as (_ & ? & _) |]. apply Hout in Hp. set_solver.
Qed.

Module PowerExample.
Import SystemExample.
#[local] Existing Instance box.
#[local] Existing Instances box_laws box_zombies.

(** Two children of three end while the reaper waits. *)
Definition children_end : Mach → Mach := λ b, set_children (end_child SIGTERM <$> bx_children b) b.
Lemma reaper_leaves_no_zombies_witness :
  act_result (start_orphan_reaper true ([(false, id)] ++ [(false, children_end)])) panicking = true ∧
  length (bx_children (act_state (start_orphan_reaper true ([(false, id)] ++ [(false, children_end)])) panicking))
    = 1%nat.
Proof.
  split; [|vm_compute; reflexivity].
  apply (reaper_leaves_no_zombies true [(false, id)] children_end panicking). by repeat constructor.
Defined.

(** A keyboard that is plugged in again has the name of the first one; its power
    key is not seen. *)
Definition plugged (i : nat) (path : str) : bool := bool_decide (path = event_path i).
Example replugged_device_ignored :
  start_power_button_monitor [(false, plugged 3); (false, λ _, false); (false, plugged 3)] = [event_path 3].
Proof. vm_compute. reflexivity. Qed.

(** The task that turns the machine off on a signal ends at once, and does
    nothing, when one of the signals cannot be bound. *)
Example unbound_signal_ends_task :
  start_signal_monitor true true false false panicking = (true, panicking, []).
Proof. reflexivity. Qed.
End PowerExample.
