(* ===== verification/Boot.v ===== *)
(** * Boot

    [src/src/init/mod.rs], the order in which process 1 brings the router up,
    with [configure_network_init] of [src/src/network.rs]: the file systems, the
    modules, the configuration, the firewall and the services, each by its own
    model.  A step that must not fail panics, which ends in a reboot. *)

From Stdlib Require Import ZArith Lia.
From stdpp Require Import base gmap sets list strings.
From S2P Require Import Prelude NetAddr Text Hostname Config Firewall Kmod Supervisor Interface.
From S2P Require Import System Storage Power.

#[local] Open Scope Z_scope.

(** ** State and actions *)

(** The machine, the module loader, the table of the firewall in the kernel, and
    the links. *)
Record BootState `{Machine, Rustables, Netlink} := mkBootState {
  bs_mach : Mach;
  bs_kmod : Kmod;
  bs_table : option Table;
  bs_nl : Nl;
}.

Inductive BootEvent :=
| BSys (e : SysEvent)
| BKmod (r : KernelRequest)
| BNet (r : NetRequest)
| BConsole
| BEarlyLogging
| BPanicHandler
| BUeventListener
| BInitLogging (max_log_size_mb : Z) (level : LevelFilter)
| BReaper
| BPowerMonitor
| BWatchdog (enabled : bool)
| BSignalMonitor
| BKmsgReader
| BFirewall (installed : bool)
| BStartDns (servers : list Ipv4Addr) (hosts : list LocalHostEvent)
| BMonitorInterfaces (interfaces : list ManagedInterface) (config : RouterConfig)
| BStopDns.

Inductive NetInitError := ForwardingFailed (code : Z) | ConnectionFailed (e : NetError).
Inductive BootPanic :=
| VirtualFilesystems (e : SysError)
| ResolvConf (e : SysError)
| FindBoot (e : StorageError)
| MountBoot (e : StorageError)
| BadConfig (e : ConfigError)
| NetworkInit (e : NetInitError)
| FirewallSetup (e : FwError).

Definition WAN_INTERFACE : str := lit "wan".
Definition LAN_INTERFACE : str := lit "lan".

Section boot.
Context `{Machine, Rustables, Netlink, !Ipv4NetOps IpNetT}.
Context (mac_from_str : str → option MacAddr) (level_from_str : str → option LevelFilter).
Context (toml_from_str : str → option ConfigToml).
(** What the module loader and the firewall find. *)
Context (kmod_env : Mach → KmodEnv) (nf_env : NfEnv).

Definition BootAct (A : Type) : Type := Act BootState BootEvent A.
Definition Boot (A : Type) : Type := Try BootState BootEvent BootPanic A.

Definition lift_sys {A} (m : Sys A) : BootAct A := λ s,
  let '(a, k, o) := m (bs_mach s) in (a, mkBootState _ _ _ k (bs_kmod s) (bs_table s) (bs_nl s), BSys <$> o).
Definition lift_kmod {A} (m : KmodEnv → KmodAct A) : BootAct A := λ s,
  let '(a, km, o) := m (kmod_env (bs_mach s)) (bs_kmod s) in
  (a, mkBootState _ _ _ (bs_mach s) km (bs_table s) (bs_nl s), BKmod <$> o).
Definition lift_net {A} (m : Act Nl NetRequest A) : BootAct A := λ s,
  let '(a, nl, o) := m (bs_nl s) in
  (a, mkBootState _ _ _ (bs_mach s) (bs_kmod s) (bs_table s) nl, BNet <$> o).
(** [if let Err(e) = ... { panic!(...) }] *)
Definition or_panic {E A} (f : E → BootPanic) (m : BootAct (Result E A)) : Boot A := try_map_err f m.

(** ** Early boot *)

Definition setup_console_io : BootAct unit := λ s,
  (tt, s, if bool_decide (mc_getpid = 1) && bool_decide (mc_open (lit "/dev/console") (bs_mach s) = None)
          then [BConsole] else []).

Definition CHROOT_JAIL_DIR : str := lit "/run/empty".
Definition setup_chroot_jail : Sys unit :=
  let* r := sys_quiet (mc_create_dir_all CHROOT_JAIL_DIR) in
  match r with
  | Some _ => mret tt
  | None =>
      let* there := sys_ask (mc_exists CHROOT_JAIL_DIR) in
      if there : bool then sys_quiet (mc_set_mode CHROOT_JAIL_DIR 365) ;; mret tt else mret tt
  end.

(** [activate_boot_modules], with the image on the boot partition; the mount is
    the loader's action [MountModules]. *)
Definition MODULES_IMAGE : str := lit "/boot/modules.erofs".
Definition modules_mount : MountCall :=
  mkMountCall (Some MODULES_IMAGE) (lit "/lib/modules") (lit "erofs") MS_RDONLY None.
Definition activate_modules : BootAct unit :=
  let* image := lift_sys (sys_ask (mc_exists MODULES_IMAGE)) in
  let* release := lift_kmod (λ env, mret (ke_release env)) in
  if bool_decide (release = []) || negb image then mret tt else
  let* r := lift_sys (sys_ask (λ k, (mc_mount modules_mount k).2)) in
  lift_kmod (λ env, activate_boot_modules env true (bool_decide (r = None))) ;;
  lift_sys (sys_quiet (λ k, ((mc_mount modules_mount k).1, tt))).

Definition mount_storage_and_modules : Boot unit :=
  if bool_decide (mc_getpid ≠ 1) then let* _ := lift_sys setup_chroot_jail in try_ok tt else
  let^ _ := or_panic VirtualFilesystems (lift_sys mount_virtual_filesystems) in
  let^ _ := or_panic ResolvConf (lift_sys setup_resolv_conf) in
  let* _ := act_emit (BKmod TriggerUevents) in
  let* _ := lift_kmod load_required_modules in
  let^ found := or_panic FindBoot (lift_sys wait_for_boot_partition) in
  let* _ := lift_sys (ensure_log_partition_in_mbr found.1 found.2) in
  let^ _ := or_panic MountBoot (lift_sys (mount_boot_partition found.1)) in
  let* _ := activate_modules in
  let* _ := lift_sys (setup_log_partition found.1) in
  let* _ := lift_sys setup_chroot_jail in
  try_ok tt.

Definition load_and_apply_config : Boot RouterConfig :=
  let* file := lift_sys (sys_ask read_config_file) in
  let^ config := or_panic BadConfig (mret (RouterConfig_parse (Net := IpNetT)
    mac_from_str level_from_str toml_from_str (ok file))) in
  let* _ := act_emit (BInitLogging (max_log_size_mb (logging config)) (level (logging config))) in
  try_ok config.

Definition early_boot : Boot RouterConfig :=
  let* _ := setup_console_io in
  let* _ := act_emit BEarlyLogging in
  let* _ := act_emit BPanicHandler in
  let* _ := act_emit BUeventListener in
  let^ _ := mount_storage_and_modules in
  load_and_apply_config.

Definition start_system_services (watchdog_enabled : bool) : BootAct unit :=
  act_emit BReaper ;;
  act_emit BPowerMonitor ;;
  act_emit (BWatchdog watchdog_enabled) ;;
  act_emit BSignalMonitor ;;
  act_emit BKmsgReader.

(** ** Network and services *)

Definition PROC_IP_FORWARD_PATH : str := lit "/proc/sys/net/ipv4/ip_forward".
Definition PROC_RP_FILTER_ALL_PATH : str := lit "/proc/sys/net/ipv4/conf/all/rp_filter".
Definition PROC_RP_FILTER_DEFAULT_PATH : str := lit "/proc/sys/net/ipv4/conf/default/rp_filter".
Definition STRICT_RP_FILTER_VALUE : str := lit "1".
Definition enable_strict_reverse_path_filtering : Sys unit :=
  write_file PROC_RP_FILTER_ALL_PATH STRICT_RP_FILTER_VALUE ;;
  write_file PROC_RP_FILTER_DEFAULT_PATH STRICT_RP_FILTER_VALUE ;;
  mret tt.
Definition configure_network_init : BootAct (Result NetInitError unit) :=
  let* r := lift_sys (write_file PROC_IP_FORWARD_PATH (lit "1")) in
  match r with
  | Some code => try_err (ForwardingFailed code)
  | None =>
      let* _ := lift_sys enable_strict_reverse_path_filtering in
      let* r := lift_net net_connect in
      match r with
      | Err e => try_err (ConnectionFailed e)
      | Ok _ =>
          let* _ := lift_net (configure_interface (IpNetT := IpNetT) (lit "lo") None) in
          try_ok tt
      end
  end.

Definition install_firewall (port_forwards : list PortForwardRule) : BootAct (Result FwError unit) := λ s,
  let '(r, table) := configure_firewall nf_env WAN_INTERFACE LAN_INTERFACE port_forwards (bs_table s) in
  (r, mkBootState _ _ _ (bs_mach s) (bs_kmod s) table (bs_nl s),
   [BFirewall (match r with Ok _ => true | Err _ => false end)]).
Definition setup_loopback_and_firewall (config : RouterConfig) : Boot unit :=
  if bool_decide (mc_getpid = 1) then
    let^ _ := or_panic NetworkInit configure_network_init in
    or_panic FirewallSetup (install_firewall (port_forwards config))
  else try_ok tt.

(** The names that the forwarder is told, in a channel that nothing reads yet. *)
Definition LOCAL_HOSTS_CAPACITY : nat := 64.
Definition try_send (queue : list LocalHostEvent) (e : LocalHostEvent) : list LocalHostEvent :=
  if decide (length queue < LOCAL_HOSTS_CAPACITY)%nat then queue ++ [e] else queue.
Definition initial_hosts (config : RouterConfig) : list LocalHostEvent :=
  (match net_parse (Net := IpNetT) (lan_ip config) with
   | Some lan_net => [HostRegister ROUTER_HOSTNAME (net_addr lan_net)]
   | None => []
   end) ++
  omap (λ l, name ← sl_hostname l; Some (HostRegister name (sl_ip l))) (static_leases config).
Definition queued_hosts (config : RouterConfig) : list LocalHostEvent :=
  foldl try_send [] (initial_hosts config).

Definition new_service (kind : RouterServiceKind) : RouterService := mkRouterService kind controller_new.
Definition build_managed_interfaces (config : RouterConfig) : list ManagedInterface :=
  [ManagedInterface_new WAN_INTERFACE (wan_mac config)
     [new_service DhcpClientService; new_service SntpClientService];
   ManagedInterface_new LAN_INTERFACE (lan_mac config) [new_service LanManagerService]].

Definition configure_networking_and_services (config : RouterConfig) : Boot unit :=
  let^ _ := setup_loopback_and_firewall config in
  let* _ := act_emit (BStartDns (dns_servers config) (queued_hosts config)) in
  let* _ := act_emit (BMonitorInterfaces (build_managed_interfaces config) config) in
  try_ok tt.

(** ** Process 1 *)

(** What the task that waits for signals meets: whether the three handlers could
    be bound, and whether a signal came. *)
Record Signals := mkSignals { sg_int_ok : bool; sg_term_ok : bool; sg_pwr_ok : bool; sg_received : bool }.

(** [run_as_init]; when the signal task ends, the forwarder is stopped and the
    function returns, which the result tells. *)
Definition run_as_init (signals : Signals) : Boot bool :=
  let^ config := early_boot in
  let* _ := start_system_services (watchdog config) in
  let^ _ := configure_networking_and_services config in
  let* ended := lift_sys (start_signal_monitor (sg_int_ok signals) (sg_term_ok signals)
    (sg_pwr_ok signals) (sg_received signals)) in
  let* _ := act_when ended (act_emit BStopDns) in
  try_ok ended.

(** The process: a panic runs the hook. *)
Definition init_process (signals : Signals) : BootAct (Result BootPanic bool) :=
  let* r := run_as_init signals in
  match r with
  | Ok ended => mret (Ok ended)
  | Err p => let* _ := lift_sys panic_hook in mret (Err p)
  end.
End boot.

(** ** Reasoning about boot *)

(** The actions on the machine among those of boot. *)
Definition sys_events (o : list BootEvent) : list SysEvent :=
  omap (λ e, match e with BSys e => Some e | _ => None end) o.
Definition is_service (e : BootEvent) : Prop :=
  match e with BStartDns _ _ | BMonitorInterfaces _ _ => True | _ => False end.
Definition no_service (o : list BootEvent) : Prop := Forall (λ e, ¬ is_service e) o.

(** An action that touches no disk. *)
Definition plain_action (e : SysEvent) : Prop :=
  match e with
  | EvMount c _ => mc_source c = None
  | EvMbrWrite _ _ | EvFormat _ => False
  | _ => True
  end.
Lemma disk_safe_plain boot_dev disk o : Forall plain_action o → disk_safe boot_dev disk o.
Proof.
  intros Ho pre e post ->. apply Forall_app in Ho as [_ [He _]%Forall_cons]. destruct e; simpl in *; congruence || done.
Qed.
Lemma sys_events_lift o : sys_events (BSys <$> o) = o.
Proof. unfold sys_events. induction o; simpl; by f_equal. Qed.
Lemma sys_events_app o1 o2 : sys_events (o1 ++ o2) = sys_events o1 ++ sys_events o2.
Proof. apply omap_app. Qed.
Lemma sys_events_kmod o : sys_events (BKmod <$> o) = [].
Proof. by induction o. Qed.
Lemma sys_events_net o : sys_events (BNet <$> o) = [].
Proof. by induction o. Qed.
Lemma no_service_lift {A} (f : A → BootEvent) l : (∀ a, ¬ is_service (f a)) → no_service (f <$> l).
Proof. intros Hf. apply Forall_fmap, Forall_true, Hf. Qed.
Lemma no_service_app o1 o2 : no_service o1 → no_service o2 → no_service (o1 ++ o2).
Proof. intros. by apply Forall_app. Qed.
Lemma no_service_one e : ¬ is_service e → no_service [e].
Proof. intros. by apply Forall_singleton. Qed.
Lemma no_service_nil : no_service [].
Proof. constructor. Qed.

(** Actions none of which starts a service. *)
Ltac no_service_tac :=
  repeat first [done | apply no_service_nil | apply no_service_app
               | apply no_service_one; by intros [] | apply no_service_lift; intros ?; by intros []].

Create Rewrite HintDb boot.
#[export] Hint Rewrite sys_events_app sys_events_lift sys_events_kmod sys_events_net app_nil_r : boot.

Section lifting.
Context `{Machine, Rustables, Netlink} (kmod_env : Mach → KmodEnv).

Lemma wp_lift_sys {A} (m : Sys A) Q s :
  act_wp m (λ a k o, Q a (mkBootState _ _ _ k (bs_kmod s) (bs_table s) (bs_nl s)) (BSys <$> o)) (bs_mach s) →
  act_wp (lift_sys m) Q s.
Proof.
  intros Hm. apply act_wp_eq in Hm. apply act_wp_eq. unfold lift_sys. by destruct (m (bs_mach s)) as [[a k] o].
Qed.
Lemma wp_lift_kmod {A} (m : KmodEnv → KmodAct A) Q s :
  (∀ a km o, Q a (mkBootState _ _ _ (bs_mach s) km (bs_table s) (bs_nl s)) (BKmod <$> o)) →
  act_wp (lift_kmod kmod_env m) Q s.
Proof. intros HQ. apply act_wp_eq. unfold lift_kmod. by destruct (m _ _) as [[a km] o]. Qed.
Lemma wp_lift_net {A} (m : Act Nl NetRequest A) Q s :
  (∀ a nl o, Q a (mkBootState _ _ _ (bs_mach s) (bs_kmod s) (bs_table s) nl) (BNet <$> o)) →
  act_wp (lift_net m) Q s.
Proof. intros HQ. apply act_wp_eq. unfold lift_net. by destruct (m _) as [[a km] o]. Qed.
Lemma wp_or_panic {E A} (f : E → BootPanic) (m : BootAct (Result E A)) Q s :
  act_wp m (λ r s' o, Q (match r with Ok a => Ok a | Err e => Err (f e) end) s' o) s → act_wp (or_panic f m) Q s.
Proof.
  intros Hm. apply act_wp_bind. eapply act_wp_mono; [exact Hm |].
  intros [a|e] s' o HQ; apply act_wp_ret; by rewrite app_nil_r.
Qed.
End lifting.

Section storage_boot.
Context `{Machine, !MachineLaws}.

Lemma wp_mount_plain c k : mc_source c = None → act_wp (RealSystem_mount c) (λ _ _ o, Forall plain_action o) k.
Proof.
  intros Hc. apply wp_mount; [constructor |]. intros _. destruct (mc_mount _ _). by apply Forall_singleton.
Qed.
Lemma mount_all_plain l k :
  Forall (λ c, mc_source c = None) l → act_wp (mount_all l) (λ _ _ o, Forall plain_action o) k.
Proof.
  intros Hl. revert k. induction Hl as [|c l Hc _ IH]; intros k; cbn [mount_all]; [by wp_call1 |].
  apply act_wp_try. unfold mount_or_fail. apply act_wp_bind. eapply act_wp_mono; [by apply wp_mount_plain |].
  intros [code|] k1 o1 Ho1; wp_call1; rewrite app_nil_r; [done |].
  eapply act_wp_mono; [apply IH |]. intros r k2 o2 Ho2. by apply Forall_app.
Qed.
Lemma mount_virtual_plain k : act_wp mount_virtual_filesystems (λ _ _ o, Forall plain_action o) k.
Proof.
  unfold mount_virtual_filesystems. apply act_wp_try. eapply act_wp_mono; [apply mount_all_plain |].
  { by repeat constructor. }
  intros [[]|] k1 o1 Ho1; [|done]. wp_next. wp_call1. apply Forall_app. split; [done |]. by repeat constructor.
Qed.
Lemma setup_resolv_plain k : act_wp setup_resolv_conf (λ _ _ o, Forall plain_action o) k.
Proof.
  unfold setup_resolv_conf. case_bool_decide; [by wp_call1 |]. unfold setup_resolv_conf_at_path. wp_next.
  apply act_wp_try. unfold sys_try. destruct (mc_create_dir_all _ _).2; wp_call1; [constructor |]. wp_next.
  apply act_wp_try. destruct (mc_write _ _ _).2; wp_call1; [by repeat constructor |]. wp_next.
  destruct (mc_rename _ _ _).2; wp_call1; by repeat constructor.
Qed.
Lemma setup_chroot_jail_quiet k : act_wp setup_chroot_jail (λ _ _ o, o = []) k.
Proof.
  unfold setup_chroot_jail. wp_next. destruct (mc_create_dir_all _ _).2; [by wp_call1 |]. wp_next.
  destruct (mc_exists _ _); [wp_next |]; by wp_call1.
Qed.
End storage_boot.

Section boot_spec.
Context `{Machine, !MachineLaws, Rustables, Netlink, !Ipv4NetOps IpNetT}.
Context (mac_from_str : str → option MacAddr) (level_from_str : str → option LevelFilter).
Context (toml_from_str : str → option ConfigToml).
Context (kmod_env : Mach → KmodEnv) (nf_env : NfEnv).

(** What boot did to the disk: nothing, or only what it may do to the disk of a
    partition that carries the label. *)
Definition storage_trace (mounted : bool) (o : list SysEvent) : Prop :=
  (mounted = false ∧ Forall plain_action o) ∨
  ∃ k dev disk, find_boot_partition k = Ok (dev, disk) ∧ disk_safe dev disk o ∧
    (mounted = true → EvMount (boot_mount dev) None ∈ o).
Definition is_ok {E A} (r : Result E A) : bool := match r with Ok _ => true | Err _ => false end.

Lemma storage_trace_plain b o o' : storage_trace b o → Forall plain_action o' → storage_trace b (o ++ o').
Proof.
  intros [[-> Ho]|(k & dev & disk & Hf & Ho & Hm)] Ho'; [left; by rewrite Forall_app |].
  right. exists k, dev, disk. split_and!; [done | by apply disk_safe_app, disk_safe_plain | set_solver].
Qed.

Lemma activate_modules_silent s :
  act_wp (activate_modules kmod_env) (λ _ s' o, no_service o ∧ sys_events o = [] ∧ bs_table s' = bs_table s) s.
Proof.
  unfold activate_modules. apply act_wp_bind, wp_lift_sys. wp_call1. apply act_wp_bind, wp_lift_kmod.
  intros release km o1. destruct (_ || _).
  { wp_call1. autorewrite with boot. simpl. autorewrite with boot. split_and!; [no_service_tac | done | done]. }
  apply act_wp_bind, wp_lift_sys. wp_call1. apply act_wp_bind, wp_lift_kmod. intros u km2 o2.
  apply wp_lift_sys. wp_call1. simpl. autorewrite with boot. split_and!; [no_service_tac | done | done].
Qed.

Lemma mount_storage_spec s :
  mc_getpid = 1 →
  act_wp (mount_storage_and_modules kmod_env)
    (λ r s' o, no_service o ∧ storage_trace (is_ok r) (sys_events o) ∧ bs_table s' = bs_table s) s.
Proof.
  intros Hp. unfold mount_storage_and_modules. rewrite bool_decide_false by (intros ?; done).
  apply act_wp_try, wp_or_panic, wp_lift_sys. eapply act_wp_mono; [apply mount_virtual_plain |].
  intros [[]|e] k1 o1 Ho1; [|autorewrite with boot; split_and!; [no_service_tac | by left | done]].
  apply act_wp_try, wp_or_panic, wp_lift_sys. eapply act_wp_mono; [apply setup_resolv_plain |].
  intros [[]|e] k2 o2 Ho2.
  2: { autorewrite with boot. split_and!; [no_service_tac | left; by rewrite Forall_app | done]. }
  wp_next. apply act_wp_bind, wp_lift_kmod. intros u km o3.
  apply act_wp_try, wp_or_panic, wp_lift_sys. eapply act_wp_mono; [apply wait_for_boot_partition_ends |].
  intros [[dev disk]|e] k3 o4 [Hs4 Hfound].
  all: assert (Forall plain_action o4) as Ho4 by (eapply Forall_impl; [exact Hs4 |]; by intros ? ->).
  2: { autorewrite with boot. split_and!; [no_service_tac | left | done]. simpl.
       autorewrite with boot. by rewrite !Forall_app. }
  cbn [fst snd]. apply act_wp_bind, wp_lift_sys. eapply act_wp_mono; [apply ensure_log_partition_disk |].
  intros r5 k5 o5 Ho5. apply act_wp_try, wp_or_panic, wp_lift_sys. eapply act_wp_mono; [apply (mount_boot_disk dev disk) |].
  intros r6 k6 o6 [Ho6 Hm6].
  assert (disk_safe dev disk ((o1 ++ o2) ++ o4 ++ o5 ++ o6)) as Hsafe
    by (repeat apply disk_safe_app; auto using disk_safe_plain).
  destruct r6 as [[]|e].
  2: { autorewrite with boot. split_and!; [no_service_tac | right | done]. exists k3, dev, disk.
       split_and!; [done | | done]. simpl. autorewrite with boot. by rewrite <-app_assoc in Hsafe. }
  apply act_wp_bind. eapply act_wp_mono; [apply activate_modules_silent |]. intros u7 s7 o7 (Hn7 & Hs7 & Ht7).
  apply act_wp_bind, wp_lift_sys. eapply act_wp_mono; [apply (setup_log_disk dev disk) |]. intros r8 k8 o8 Ho8.
  apply act_wp_bind, wp_lift_sys. eapply act_wp_mono; [apply setup_chroot_jail_quiet |]. intros u9 k9 o9 ->.
  wp_call1. autorewrite with boot. split_and!; [no_service_tac | right | done].
  exists k3, dev, disk. simpl. autorewrite with boot. rewrite Hs7, app_nil_l. split_and!; [done | | set_solver].
  repeat apply disk_safe_app; auto using disk_safe_plain.
Qed.

Lemma storage_trace_weaken b o : storage_trace b o → storage_trace false o.
Proof.
  intros [[_ Ho]|(k & dev & disk & Hf & Ho & _)]; [by left |]. right. by exists k, dev, disk.
Qed.

Abbreviation parse_config := (RouterConfig_parse (Net := IpNetT) mac_from_str level_from_str toml_from_str).

(** The configuration is that of the file as it is right after the file systems
    were mounted, the boot partition at its place among them, in a run that
    starts in [s] and whose actions begin with [o]. *)
Definition config_read (s : BootState) (c : RouterConfig) (o : list BootEvent) : Prop :=
  ∃ before mounted s' after dev,
    mount_storage_and_modules kmod_env s = (Ok tt, s', mounted) ∧
    BSys (EvMount (boot_mount dev) None) ∈ mounted ∧
    parse_config (ok (read_config_file (bs_mach s'))) = Ok c ∧
    o = before ++ mounted ++ after.
Lemma config_read_app s c o o' : config_read s c o → config_read s c (o ++ o').
Proof.
  intros (before & mounted & s' & after & dev & Hm & Hin & Hc & ->).
  exists before, mounted, s', (after ++ o'), dev. by rewrite <-!app_assoc.
Qed.

Lemma mounted_boot o : storage_trace true (sys_events o) → ∃ dev, BSys (EvMount (boot_mount dev) None) ∈ o.
Proof.
  intros [[? _]|(k & dev & disk & _ & _ & Hm)]; [done |]. exists dev. specialize (Hm eq_refl).
  apply list_elem_of_omap in Hm as ([e| | | | | | | | | | | | | | | |] & Hin & He); try done. by injection He as ->.
Qed.

Lemma early_boot_spec s :
  mc_getpid = 1 →
  act_wp (early_boot (IpNetT := IpNetT) mac_from_str level_from_str toml_from_str kmod_env)
    (λ r s' o, no_service o ∧ storage_trace (is_ok r) (sys_events o) ∧ BPanicHandler ∈ o ∧
       ∀ c, r = Ok c → config_read s c o) s.
Proof.
  intros Hp. unfold early_boot. apply act_wp_bind. apply act_wp_eq. unfold setup_console_io.
  set (o0 := if _ : bool then [BConsole] else []).
  assert (no_service o0 ∧ sys_events o0 = []) as [Hn0 Hs0].
  { unfold o0. destruct (_ && _); (split; [no_service_tac | done]). }
  wp_next. wp_next. wp_next. apply act_wp_try. apply (act_wp_self (mount_storage_spec s Hp)).
  intros [[]|e] s1 o1 (Hn1 & Hs1 & _) Hmount.
  2: { autorewrite with boot. rewrite Hs0. split_and!; [no_service_tac | done | set_solver | done]. }
  unfold load_and_apply_config. apply act_wp_bind, wp_lift_sys. wp_call1. apply act_wp_try, wp_or_panic. wp_call1.
  destruct (parse_config (ok (read_config_file (bs_mach s1)))) as [config|e] eqn:Ec.
  2: { autorewrite with boot. rewrite Hs0. split_and!; [no_service_tac | | set_solver | done].
       simpl. autorewrite with boot. by eapply storage_trace_weaken. }
  wp_next. wp_call1. autorewrite with boot. rewrite Hs0. split_and!; [no_service_tac | | set_solver |].
  - simpl. autorewrite with boot. done.
  - intros c [= <-]. destruct (mounted_boot o1 Hs1) as [dev Hdev].
    exists (o0 ++ [BEarlyLogging] ++ [BPanicHandler] ++ [BUeventListener]), o1, s1,
      [BInitLogging (max_log_size_mb (logging config)) (level (logging config))], dev.
    split_and!; [done | done | done |]. by rewrite <-!app_assoc.
Qed.

Lemma network_init_spec s :
  act_wp (configure_network_init (IpNetT := IpNetT))
    (λ _ s' o, no_service o ∧ Forall plain_action (sys_events o)) s.
Proof.
  unfold configure_network_init. apply act_wp_bind, wp_lift_sys. wp_call1.
  destruct (mc_write _ _ _).2; [wp_call1; split; [no_service_tac | by repeat constructor] |].
  apply act_wp_bind, wp_lift_sys. unfold enable_strict_reverse_path_filtering. wp_next. wp_next. wp_call1.
  apply act_wp_bind, wp_lift_net. intros [[]|e] nl o1.
  - apply act_wp_bind, wp_lift_net. intros r nl' o2. wp_call1. autorewrite with boot.
    split; [no_service_tac | by repeat constructor].
  - wp_call1. autorewrite with boot. split; [no_service_tac | by repeat constructor].
Qed.

Lemma setup_firewall_spec config s :
  mc_getpid = 1 →
  act_wp (setup_loopback_and_firewall (IpNetT := IpNetT) nf_env config)
    (λ r s' o, no_service o ∧ Forall plain_action (sys_events o) ∧
       (r = Ok tt → (∃ pre, o = pre ++ [BFirewall true]) ∧
          ∃ t, build_table WAN_INTERFACE LAN_INTERFACE (port_forwards config) = Ok t ∧ bs_table s' = Some t)) s.
Proof.
  intros Hp. unfold setup_loopback_and_firewall. rewrite bool_decide_true by done.
  apply act_wp_try, wp_or_panic. eapply act_wp_mono; [apply network_init_spec |].
  intros [[]|e] s1 o1 [Hn1 Hp1]; [|by split_and!]. apply wp_or_panic. apply act_wp_eq. unfold install_firewall.
  destruct (configure_firewall _ _ _ _ _) as [[[]|e] table] eqn:Ef.
  - autorewrite with boot. split_and!; [no_service_tac | done |]. intros _. split; [eauto |].
    by apply configure_firewall_table in Ef.
  - autorewrite with boot. split_and!; [no_service_tac | done | done].
Qed.

Lemma signal_monitor_plain a b c received k :
  act_wp (start_signal_monitor a b c received) (λ _ _ o, Forall plain_action o) k.
Proof.
  unfold start_signal_monitor. destruct a, b, c, received; simpl; try (by wp_call1). wp_next. wp_next.
  apply act_wp_bind. eapply act_wp_mono; [apply execute_clean_poweroff_out |]. intros u k' o ->. wp_call1.
  unfold poweroff_actions. destruct (mc_reboot _ _).2; by repeat constructor.
Qed.

(** The services that run after boot, with the steps before them. *)
Definition booted (s s' : BootState) (o : list BootEvent) : Prop :=
  ∃ config t pre post,
    config_read s config pre ∧
    build_table WAN_INTERFACE LAN_INTERFACE (port_forwards config) = Ok t ∧ bs_table s' = Some t ∧
    o = pre ++ [BFirewall true; BStartDns (dns_servers config) (queued_hosts (IpNetT := IpNetT) config);
                BMonitorInterfaces (build_managed_interfaces config) config] ++ post ∧
    no_service pre ∧ no_service post ∧ BPanicHandler ∈ pre.
Abbreviation run_init := (run_as_init (IpNetT := IpNetT) mac_from_str level_from_str toml_from_str kmod_env nf_env).

Lemma run_as_init_spec signals s :
  mc_getpid = 1 →
  act_wp (run_init signals)
    (λ r s' o, storage_trace false (sys_events o) ∧
       match r with Ok _ => booted s s' o | Err _ => no_service o end) s.
Proof.
  intros Hp. unfold run_as_init. apply act_wp_try. eapply act_wp_mono; [by apply early_boot_spec |].
  intros [config|e] s1 o1 (Hn1 & Hs1 & Hh1 & Hc1); [|by split; [eapply storage_trace_weaken |]].
  pose proof (Hc1 config eq_refl) as Hk. apply act_wp_bind. unfold start_system_services.
  do 4 wp_next. wp_call1. unfold configure_networking_and_services. apply act_wp_try, act_wp_try.
  eapply act_wp_mono; [by apply setup_firewall_spec |]. intros [[]|e] s2 o2 (Hn2 & Hp2 & Hf2).
  2: { autorewrite with boot. split; [|no_service_tac]. simpl. by eapply storage_trace_plain, Hp2; eapply storage_trace_weaken. }
  destruct (Hf2 eq_refl) as [[pre2 ->] (t & Ht & Htab)]. wp_next. wp_next. wp_call1.
  apply act_wp_bind, wp_lift_sys. eapply act_wp_mono; [apply signal_monitor_plain |]. intros ended k3 o3 Ho3.
  apply act_wp_bind. apply act_wp_mono with (Q := λ _ s4 o4, bs_table s4 = bs_table s2 ∧ no_service o4 ∧ sys_events o4 = []).
  { destruct ended; simpl; wp_call1; (split_and!; [done | no_service_tac | done]). }
  intros u s4 o4 (Ht4 & Hn4 & Hs4). wp_call1. split.
  - autorewrite with boot. rewrite Hs4, app_nil_r. simpl. autorewrite with boot.
    apply storage_trace_plain; [by eapply storage_trace_weaken |]. autorewrite with boot in Hp2. simpl in *.
    by apply Forall_app.
  - eexists config, t, (o1 ++ [BReaper; BPowerMonitor; BWatchdog (watchdog config); BSignalMonitor; BKmsgReader] ++ pre2),
      ((BSys <$> o3) ++ o4). split_and!; [by apply config_read_app | done | by rewrite Ht4 | | | no_service_tac | set_solver].
    + rewrite !app_nil_r. simpl. by rewrite <-!app_assoc.
    + apply Forall_app in Hn2 as [Hn2 _]. apply no_service_app; [done |].
      by apply (no_service_app [_; _; _; _; _]); [repeat constructor; by intros [] |].
Qed.

Lemma hook_plain o :
  (∃ k ended k', hook_done k ended k' o) → mc_getpid = 1 →
  Forall plain_action o ∧ last o = Some (EvReboot RB_AUTOBOOT).
Proof.
  intros (k & ended & k' & _ & _ & Ho) Hp.
  destruct (Ho Hp) as (before & ke & wait & kr & (pre & Hpre & _ & Hb) & Hw & -> & _). split.
  - assert (Forall plain_action pre) as Hpp by (eapply Forall_impl; [exact Hpre |]; by intros ? ->).
    constructor; [done |]. apply Forall_app. split; [destruct Hb as [[-> _] | [-> _]] |].
    + by constructor.
    + constructor; [done |]. apply Forall_app. split; [done | by repeat constructor].
    + apply Forall_app. split; [by repeat constructor |]. apply Forall_app.
      split; [destruct Hw as [->|[d ->]]; by repeat constructor | by repeat constructor].
  - rewrite app_comm_cons, !app_assoc. change [EvFlushLogs; EvSync; EvReboot RB_AUTOBOOT] with
      ([EvFlushLogs; EvSync] ++ [EvReboot RB_AUTOBOOT]). rewrite app_assoc. apply last_snoc.
Qed.

Lemma init_process_spec signals s :
  mc_getpid = 1 →
  act_wp (init_process (IpNetT := IpNetT) mac_from_str level_from_str toml_from_str kmod_env nf_env signals)
    (λ r s' o, storage_trace false (sys_events o) ∧
       match r with
       | Ok _ => booted s s' o
       | Err _ => no_service o ∧ last o = Some (BSys (EvReboot RB_AUTOBOOT))
       end) s.
Proof.
  intros Hp. unfold init_process. apply act_wp_bind. eapply act_wp_mono; [by apply run_as_init_spec |].
  intros [ended|e] s1 o1 [Hs1 Hr]; [wp_call1; by rewrite app_nil_r |].
  apply act_wp_bind, wp_lift_sys. eapply act_wp_mono; [apply panic_hook_ends |]. intros ended k2 o2 Ho2. wp_call1.
  destruct (hook_plain o2 ltac:(eauto) Hp) as [Hp2 Hl]. autorewrite with boot. split; [by apply storage_trace_plain |].
  split; [no_service_tac |]. rewrite last_app, fmap_last, Hl. done.
Qed.

Context `{!Ipv4NetLaws IpNetT}.

(** C6: The router comes up complete or not at all.  For every state of the
    machine and whatever the kernel answers, either process 1 has mounted its
    file systems, the boot partition at its place to be read among them, and then
    read its configuration, from the machine as it was right after that; the
    configuration is coherent, and the kernel has the firewall's table for it; it
    had installed that firewall before it started any network service, and it
    started the forwarder, with the configured servers and names, and the
    monitor of the two interfaces, with their configured addresses, once each;
    or a step failed, no network service was started at all, and the last thing
    that was done is to restart the machine. *)
Theorem boot_complete_or_reboot signals s :
  mc_getpid = 1 →
  let '(r, s', o) :=
    init_process (IpNetT := IpNetT) mac_from_str level_from_str toml_from_str kmod_env nf_env signals s in
  match r with
  | Ok _ =>
      ∃ config (lan backup : IpNetT) t pre post,
        config_read s config pre ∧ valid_config lan backup config ∧
        build_table WAN_INTERFACE LAN_INTERFACE (port_forwards config) = Ok t ∧ bs_table s' = Some t ∧
        o = pre ++ [BFirewall true; BStartDns (dns_servers config) (queued_hosts (IpNetT := IpNetT) config);
                    BMonitorInterfaces (build_managed_interfaces config) config] ++ post ∧
        no_service pre ∧ no_service post
  | Err _ => no_service o ∧ last o = Some (BSys (EvReboot RB_AUTOBOOT))
  end.
Proof.
  intros Hp. pose proof (init_process_spec signals s Hp) as Hwp. apply act_wp_eq in Hwp.
  destruct (init_process _ _ _ _ _ _ s) as [[[ended|e] s'] o]; [|apply Hwp].
  destruct Hwp as [_ (config & t & pre & post & Hc & Ht & Hs & Ho & Hn1 & Hn2 & _)].
  assert (∃ file, parse_config file = Ok config) as [file Hfile]
    by (destruct Hc as (? & ? & ? & ? & ? & _ & _ & Hp' & _); eauto).
  destruct (RouterConfig_parse_Ok _ _ _ _ _ Hfile) as (lan & backup & Hv).
  by exists config, lan, backup, t, pre, post.
Qed.

(** C14: Boot keeps the boot partition and the rest of the disk as they are.  In
    every run of process 1, whatever fails, either nothing is written to a disk
    and no device is mounted, or there is a partition with the label and: a
    partition table is written to its disk only, right after it was read, with
    the second entry changed and no other, the new entry beginning where the
    first partition ends; only the second partition of that disk is formatted,
    after an attempt to mount it for the logs failed; and the boot partition is
    mounted at its place, to be read only. *)
Theorem boot_keeps_disk signals s :
  mc_getpid = 1 →
  let o := sys_events (act_out (init_process (IpNetT := IpNetT)
    mac_from_str level_from_str toml_from_str kmod_env nf_env signals) s) in
  Forall plain_action o ∨
  ∃ k dev disk, find_boot_partition k = Ok (dev, disk) ∧ disk_safe dev disk o.
Proof.
  intros Hp o. unfold o. pose proof (init_process_spec signals s Hp) as Hwp. apply act_wp_eq in Hwp.
  unfold act_out. destruct (init_process _ _ _ _ _ _ s) as [[r s'] o'].
  destruct Hwp as [[[_ Ho]|(k & dev & disk & Hf & Ho & _)] _]; [by left |]. right. by exists k, dev, disk.
Qed.
End boot_spec.

(** ** The names told to the forwarder *)

(** Nothing reads the channel before the forwarder is started: what does not fit
    is lost. *)
Lemma queued_hosts_eq `{!Ipv4NetOps IpNetT} config :
  queued_hosts (IpNetT := IpNetT) config = take LOCAL_HOSTS_CAPACITY (initial_hosts (IpNetT := IpNetT) config).
Proof.
  unfold queued_hosts. generalize (initial_hosts (IpNetT := IpNetT) config). intros l.
  enough (∀ q, (length q ≤ LOCAL_HOSTS_CAPACITY)%nat →
    foldl try_send q l = take LOCAL_HOSTS_CAPACITY (q ++ l)) as Hq by (apply Hq; simpl; lia).
  induction l as [|e l IH]; intros q Hlen; simpl.
  - by rewrite app_nil_r, take_ge.
  - unfold try_send at 2. case_decide as Hd.
    + rewrite IH; [by rewrite <-app_assoc |]. rewrite length_app. simpl. lia.
    + rewrite IH by done. rewrite !take_app_length' by lia. done.
Qed.

Module BootExample.
Import SystemExample StorageExample InterfaceExample FirewallExample Config.Example.
#[local] Existing Instance box.
#[local] Existing Instance box_laws.
#[local] Existing Instance bits.

(** A router at its first boot: a disk with the boot partition, and a
    configuration. *)
Definition first_boot_machine : Mach :=
  set_files (<[CONFIG_PATH := lit "[network]"]> (bx_files (disk_with empty_entry))) (disk_with empty_entry).
Definition powered_on : BootState := mkBootState _ _ _ first_boot_machine kmod_new None (∅ : Links).
Definition no_modules (k : Mach) : KmodEnv := mkKmodEnv [] false None None [] (λ _ _, false) (λ _ _, None).
Definition quiet : Signals := mkSignals true true true false.
Definition boots (nf_env : NfEnv) (signals : Signals) : BootAct (Result BootPanic bool) :=
  init_process (IpNetT := IpNet) mac_of_tag no_level toml_of no_modules nf_env signals.

Lemma boot_complete_or_reboot_witness :
  act_result (boots working quiet) powered_on = Ok false ∧
  ∃ t, bs_table (act_state (boots working quiet) powered_on) = Some t.
Proof.
  assert (act_result (boots working quiet) powered_on = Ok false) as Hr by (vm_compute; reflexivity).
  split; [exact Hr |].
  pose proof (boot_complete_or_reboot (IpNetT := IpNet) mac_of_tag no_level toml_of no_modules working quiet
    powered_on eq_refl) as Hb. unfold act_result, act_state, boots in *.
  destruct (init_process _ _ _ _ _ _ _) as [[r s'] o]. simpl in Hr. subst r.
  destruct Hb as (config & lan & backup & t & pre & post & _ & _ & _ & Ht & _). exists t. exact Ht.
Defined.
Lemma boot_keeps_disk_witness :
  let o := sys_events (act_out (boots working quiet) powered_on) in
  Forall plain_action o ∨ ∃ k dev disk, find_boot_partition k = Ok (dev, disk) ∧ disk_safe dev disk o.
Proof.
  exact (boot_keeps_disk (IpNetT := IpNet) mac_of_tag no_level toml_of no_modules working quiet powered_on eq_refl).
Defined.

(** A firewall that cannot be installed: no service is started, and the machine
    is restarted. *)
Example no_firewall_no_service :
  let o := act_out (boots (mkNfEnv None (Some 12)) quiet) powered_on in
  existsb (λ e, match e with BStartDns _ _ | BMonitorInterfaces _ _ => true | _ => false end) o = false ∧
  last o = Some (BSys (EvReboot RB_AUTOBOOT)).
Proof. vm_compute. split; reflexivity. Qed.

(** The power is turned off before the forwarder is stopped. *)
Example services_stopped_after_poweroff :
  ∃ pre, act_out (boots working (mkSignals true true true true)) powered_on =
    pre ++ [BSys (EvReboot RB_POWER_OFF); BStopDns].
Proof.
  exists (take (length (act_out (boots working (mkSignals true true true true)) powered_on) - 2)
    (act_out (boots working (mkSignals true true true true)) powered_on)). vm_compute. reflexivity.
Qed.

(** When a signal cannot be bound, process 1 stops the forwarder and ends. *)
Example unbound_signal_ends_init :
  act_result (boots working (mkSignals true true false false)) powered_on = Ok true ∧
  last (act_out (boots working (mkSignals true true false false)) powered_on) = Some BStopDns.
Proof. vm_compute. split; reflexivity. Qed.

(** A hundred reserved names: the last 37 are not told to the forwarder. *)
Definition many_leases : list StaticLease :=
  (λ i, mkStaticLease (mac6 2 0 0 0 1 (Z.of_nat i)) (ipv4 192 168 7 (100 + Z.of_nat i))
          (Some (lit "host" ++ int_display (Z.of_nat i)))) <$> seq 0 100.
Definition many_names : RouterConfig :=
  mkRouterConfig (lan_ip parsed) (backup_lan_ip parsed) (Config.wan_mac parsed) (Config.lan_mac parsed) (logging parsed)
    (watchdog parsed) (dns_servers parsed) many_leases (port_forwards parsed).
Example late_names_lost :
  length (initial_hosts (IpNetT := IpNet) many_names) = 101%nat ∧
  length (queued_hosts (IpNetT := IpNet) many_names) = 64%nat.
Proof. vm_compute. split; reflexivity. Qed.
End BootExample.
