(* ===== verification/Names.v ===== *)
(** * Names of the LAN, from lease to answer

    The way of a host name through the router: the configuration queues the
    names of reservations at boot ([src/src/init/mod.rs]); the DHCP worker
    registers and deregisters names with its parent
    ([src/src/services/dhcp_server/]), which passes them on to the parent of
    the DNS forwarder ([src/src/services/dns_forwarder/manager.rs]), which
    tells its worker.  The parts are those of [DhcpServer], [DnsManager],
    [DnsForwarder] and [Boot]; here they are connected. *)

From Stdlib Require Import ZArith Lia.
From stdpp Require Import base gmap list strings.
From S2P Require Import Prelude NetAddr Hostname Packet Config LeaseTable Dhcp DhcpServer.
From S2P Require Import RateLimiter Dns DnsForwarder DnsManager Boot.

#[local] Open Scope Z_scope.


(** ** What passes between the parts *)

(** What a message of the DHCP worker says about a name. *)
Definition host_of_msg (m : DhcpServerWorkerToParentMsg) : option LocalHostEvent :=
  match m with
  | RegisterLocalHost name ip => Some (HostRegister name ip)
  | DeregisterLocalHost name => Some (HostDeregister name)
  | _ => None
  end.

(** The names after an event. *)
Definition host_apply (names : gmap str Ipv4Addr) (e : LocalHostEvent) : gmap str Ipv4Addr :=
  match e with
  | HostRegister name ip => <[name := ip]> names
  | HostDeregister name => delete name names
  end.



Section dhcp_parent.
Context {Net : Type} `{!Ipv4NetOps Net} {PN : Pnet} (encode : Message → option (list Z)).


End dhcp_parent.

(** ** Answers *)

Section answers.
Context {Name : Type} {HK : Hickory Name} {HO : HashOrder} {LM : Limiter}.


End answers.

(** ** The whole way *)

Section names.
Context {Net : Type} `{!Ipv4NetOps Net, !Ipv4NetLaws Net} {HO : HashOrder} {PN : Pnet}.
Context {Name : Type} {HK : Hickory Name} {LM : Limiter}.
Context (decode : list Z → option Message) (encode : Message → option (list Z)).


(** The names: those of the configuration, and what the DHCP server made of
    them. *)
Definition lan_names (c : RouterConfig) (dhcp_out : list DhcpServerWorkerToParentMsg) : gmap str Ipv4Addr :=
  foldl host_apply ∅ (queued_hosts (IpNetT := Net) c ++ omap host_of_msg dhcp_out).








End names.

(** ** A client of many names *)

Module NamesExample.
#[local] Existing Instances forward_order exact_binary64 DnsExample.toy.
Import LeaseTable.LeaseExample.

Definition asks_for (t : MessageType) (n : Z) (os : list DhcpOption) : Message :=
  ServerExample.request_msg t (mac n) os.
(** Client 5 asks for an address as a printer or calls itself the router; client
    6 only looks for an address under the router's name, or that of the
    reservation, and then releases it. *)
Definition decode (payload : list Z) : option Message :=
  match payload with
  | [5; 1] => Some (asks_for Request 5 [OptRequestedIpAddress (ipv4 192 168 7 50); OptHostname (lit "Printer.home")])
  | [5; 2] => Some (asks_for Request 5 [OptRequestedIpAddress (ipv4 192 168 7 50); OptHostname (lit "Router")])
  | [6; 1] => Some (asks_for Discover 6 [OptHostname (lit "router")])
  | [6; 2] => Some (asks_for Discover 6 [OptHostname (lit "nas")])
  | [6; 3] => Some (asks_for ReleaseMsg 6 [])
  | _ => None
  end.
Definition packet (n k : Z) : ServerEvent :=
  ParentMessage (RawPacket
    match build_raw_packet (mac n) mac_broadcast UNSPECIFIED BROADCAST CLIENT_PORT SERVER_PORT [n; k]
    with Ok f => f | Err _ => [] end).

Definition serve (events : list (Instant * ServerEvent)) : option (Server * list DhcpServerWorkerToParentMsg) :=
  run_dhcp_server_worker (Net := IpNet) decode (lan_ip Config.Example.parsed) 0
    (Some (StaticLeasesSet (static_leases Config.Example.parsed))) events.
Definition sent_by (events : list (Instant * ServerEvent)) : list DhcpServerWorkerToParentMsg :=
  from_option snd [] (serve events).
Definition names_after (events : list (Instant * ServerEvent)) : gmap str Ipv4Addr :=
  lan_names (Net := IpNet) Config.Example.parsed (sent_by events).

Definition request (k : Z) : list (Instant * ServerEvent) := [(0, packet 5 k); (0, RunTask 0); (0, RunTask 0)].
Definition discover_and_release (k : Z) : list (Instant * ServerEvent) :=
  [(0, packet 6 k)] ++ replicate 4 (0, RunTask 0) ++ [(0, packet 6 3); (0, RunTask 1)].


(** Finding: a client that calls itself [router] gets the router's name, and the
    address of [router.lan] is then the client's. *)
Example router_name_taken :
  names_after (request 2) !! lit "router" = Some (ipv4 192 168 7 50).
Proof. vm_compute. reflexivity. Qed.

(** Finding: a client that only looks for an address under a name and releases
    what it was offered takes the name away from the router or from a host that
    has it by a reservation. *)
Example names_removed :
  names_after [] !! lit "router" = Some (ipv4 192 168 7 1) ∧
  names_after (discover_and_release 1) !! lit "router" = None ∧
  names_after [] !! lit "nas" = Some (ipv4 192 168 7 20) ∧
  names_after (discover_and_release 2) !! lit "nas" = None.
Proof. vm_compute. split_and!; reflexivity. Qed.
End NamesExample.
