(* ===== verification/Upstream.v ===== *)
(** * From the WAN lease to the resolvers

    The way of the provider's resolvers through the router: the DHCP client's
    worker receives them in an acknowledgement, its parent publishes the lease
    ([src/src/services/dhcp_client/]), the parent of the DNS forwarder reads it
    ([src/src/services/dns_forwarder/manager.rs]) and tells its worker, which
    sends queries there.  The parts are those of [DhcpClient], [DnsManager] and
    [DnsForwarder]; here they are connected. *)

From Stdlib Require Import ZArith Lia.
From stdpp Require Import base gmap list strings.
From S2P Require Import Prelude NetAddr Hostname Packet LeaseTable Dhcp DhcpClient.
From S2P Require Import RateLimiter Dns DnsForwarder DnsManager.

#[local] Open Scope Z_scope.

Section upstream.
Context {Net : Type} `{!Ipv4NetOps Net} {PN : Pnet}.
Context {Name : Type} {HK : Hickory Name} {HO : HashOrder} {LM : Limiter}.
Context (encode : Message → option (list Z)) (decode : list Z → option Message).

(** A query of a client goes to the first of the resolvers, and is kept with all
    of them. *)
Lemma incoming_upstream now env query origin s s' out server bytes :
  handle_incoming_query now env query origin s = Returned (s', out) →
  ToUpstream server bytes ∈ out →
  let servers := get_upstream_resolvers (fw_upstream_servers s) in
  servers !! 0%nat = Some server ∧
  ∃ xid q, fw_pending s' !! xid = Some q ∧ fw_pending s !! xid = None ∧ pq_upstream_servers q = servers ∧ pq_current_server_idx q = 0%nat.
Proof.
  unfold handle_incoming_query. case_bool_decide; [by intros [= <- <-] ?%not_elem_of_nil |].
  destruct (try_resolve_local_query _ _ _) as [resp|].
  { intros [= <- <-] Hin%list_elem_of_singleton. by destruct origin. }
  destruct (get_cache_key query) as [key|]; [|by intros [= <- <-] ?%not_elem_of_nil].
  destruct (lookup_cache _ _ _) as [[response|] cache].
  { intros (q0 & _ & (r & _ & (q1 & _ & (r1 & _ & [= <- <-])%bind_Returned)%bind_Returned)%bind_Returned)%bind_Returned.
    intros Hin%list_elem_of_singleton. by destruct origin. }
  unfold handle_cache_miss. destruct (sa_ip (peer_addr origin)) as [client_ip|]; [|by intros [= <- <-] ?%not_elem_of_nil].
  destruct (limiter_check _ _ _) as [[] l]; [|by intros [= <- <-] ?%not_elem_of_nil].
  cbn [negb]. intros ([pending|] & _ & E)%bind_Returned; [by injection E as <- <-; intros ?%not_elem_of_nil |].
  apply bind_Returned in E as ([pending out'] & E & [= <- <-]). revert E. unfold forward_new_client_query.
  case_bool_decide; [by intros [= <- <-] ?%not_elem_of_nil |].
  destruct (allocate_unique_xid _ _) as [xid|] eqn:Hx; [|by intros [= <- <-] ?%not_elem_of_nil].
  intros (c & _ & (target & Ht & (f & _ & E)%bind_Returned)%bind_Returned)%bind_Returned.
  destruct (fe_send_ok env); injection E as <- <-; [|by intros ?%not_elem_of_nil].
  intros [= <- <-]%list_elem_of_singleton. cbn. split; [by apply index_Returned |].
  unfold allocate_unique_xid in Hx. case_bool_decide; [done |]. apply draw_xid_Some in Hx as (_ & _ & Hx).
  exists xid. eexists. split; [apply lookup_insert_eq |]. done.
Qed.

(** The resolvers of the lease that the DHCP client holds. *)
Definition leased_resolvers (s : ClientState) : list Ipv4Addr :=
  from_option (λ p, ack_dns_servers p.1) [] (held s).
(** The resolvers to use: those of the configuration, or those of the lease. *)
Definition chosen_resolvers (custom_dns : list Ipv4Addr) (s : ClientState) : list Ipv4Addr :=
  match custom_dns with [] => leased_resolvers s | _ => custom_dns end.

(** The parts connected: the client's worker in the state [cs], its parent, which
    has handled the worker's messages; the DNS parent, which has read the lease
    that is published; and the forwarder in the state [s], which has handled the
    DNS parent's messages among any others. *)
Definition wan_connected (custom_dns : list Ipv4Addr) (cs : ClientState) (s : Forwarder) : Prop :=
  ∃ mac wan_mac envs xid msgs hb client_events lease cache dns_events fw_events fw_out,
  client_run decode mac envs (SDiscover xid INITIAL_RETRY_DELAY_SECS) = (cs, msgs) ∧
  omap worker_msg client_events = msgs ∧
  (let monitor := run_parent_dhcp_monitor (Net := Net) encode hb (Some wan_mac) client_events in
   act_result monitor WanLease_default = true ∧
   foldl lease_step lease dns_events = act_state monitor WanLease_default) ∧
  (let r := run_parent_dns_monitor custom_dns lease true dns_events (mkDnsMonitor [] cache true) in
   Forall dm_send_ok dns_events ∧ dm_running r.1.2 = true ∧
   omap parent_msg (snd <$> fw_events) = omap sent_msg r.2) ∧
  run_forwarder_loop fw_events Forwarder_new = Returned (s, fw_out).

(** C10: Queries go to the provider's resolvers.  Connect the DHCP client, its
    parent, the DNS parent and the DNS forwarder, in any run of each of them.
    When the parts have caught up with each other, the forwarder's resolvers are
    the configured ones, or if there are none exactly those of the
    acknowledgement that the DHCP client holds; and every new query of a client
    is sent to the first acceptable one of them, or to the fall-back resolver if
    none is acceptable, and is kept with all the acceptable ones to try. *)
Theorem upstream_follows_lease custom_dns cs s :
  wan_connected custom_dns cs s →
  fw_upstream_servers s = chosen_resolvers custom_dns cs ∧
  ∀ now env query origin s' out server bytes,
    handle_incoming_query now env query origin s = Returned (s', out) →
    ToUpstream server bytes ∈ out →
    let servers := get_upstream_resolvers (chosen_resolvers custom_dns cs) in
    servers !! 0%nat = Some server ∧ is_valid_upstream_resolver server = true ∧
    ∃ xid q, fw_pending s' !! xid = Some q ∧ fw_pending s !! xid = None ∧
      pq_upstream_servers q = servers ∧ pq_current_server_idx q = 0%nat.
Proof.
  intros (mac & wan_mac & envs & xid & msgs & hb & client_events & lease & cache & dns_events & fw_events & fw_out &
    Hrun & Hmsgs & [Hres Hlease] & (Hok & Hdm & Hfwm) & Hfw).
  assert (fw_upstream_servers s = chosen_resolvers custom_dns cs) as Hs.
  { pose proof (dns_worker_view _ _ _ _ _ _ _ Hok Hdm Hfwm Hfw) as Hv. injection Hv as -> _.
    rewrite Hlease, (client_lease_published encode decode mac wan_mac envs xid hb client_events cs msgs) by done.
    unfold initial_servers, chosen_resolvers, leased_resolvers, lease_in. destruct custom_dns; [|done].
    by destruct (held cs) as [[a t]|]. }
  split; [done |]. intros now env query origin s' out server bytes Hq Hin.
  destruct (incoming_upstream _ _ _ _ _ _ _ _ _ Hq Hin) as [Hserver Hpending]. rewrite Hs in *.
  split_and!; [done | | done].
  destruct (get_upstream_resolvers_ok (chosen_resolvers custom_dns cs)) as [Hall _].
  by apply (Forall_lookup_1 _ _ _ _ Hall Hserver).
Qed.
End upstream.

(** ** Example *)

Module UpstreamExample.
#[local] Existing Instances forward_order exact_binary64 DnsExample.toy.
Import LeaseTable.LeaseExample.

(** The lease of [ClientExample] is published after the DNS parent has started. *)
Definition lease : WanLease := lease_in ClientExample.final.
Definition messages : list DnsParentToWorkerMsg := [SetUpstreamResolvers [gateway]].
Definition fw_events : list (Instant * FwEnv * FwEvent) :=
  (λ msg, (0, DnsExample.env 1, FwParent msg)) <$> messages.

Lemma upstream_follows_lease_witness :
  ∃ s, run_forwarder_loop (Name := str) fw_events Forwarder_new = Returned (s, []) ∧
    fw_upstream_servers s = [gateway].
Proof.
  eexists. split; [reflexivity |].
  refine (proj1 (upstream_follows_lease (Net := IpNet) ClientExample.encode ClientExample.decode []
    ClientExample.final _ _)).
  exists ClientExample.wan_mac, ClientExample.wan_mac, ClientExample.envs, 77, ClientExample.out, true,
    ClientExample.events, WanLease_default, ∅, [DmEvLease lease true], fw_events, [].
  split; [exact ClientExample.client_run_eq |]. split; [vm_compute; reflexivity |].
  split; [split; vm_compute; reflexivity |]. split; [|reflexivity].
  split; [repeat constructor | split; vm_compute; reflexivity].
Defined.
End UpstreamExample.
